(* ===== verification/_CoqProject ===== *)
-Q . S2P
Prelude.v
Utf8.v
Paths.v
Posix.v
PosixCorrect.v
Json.v
SseValidator.v
SseFrame.v
SseCorrect.v
Errors.v
AuthHome.v
AuthHomeCorrect.v
ZaiRequest.v
ZaiRequestCorrect.v
ZaiStream.v
ZaiContract.v
ZaiMoves.v
ZaiStreamCorrect.v
Msp.v
MspCorrect.v
Responses.v
ResponsesCorrect.v
Catalog.v
CatalogCorrect.v
Transport.v
TransportCorrect.v
Net.v
Auth.v
AuthCorrect.v
Zai.v
Backend.v
Recovery.v
RecoveryCorrect.v
Gateway.v
GatewayCorrect.v
GatewayMain.v
CodexLogin.v
CodexLoginCorrect.v
Lifetime.v
LifetimeCorrect.v
LauncherReady.v
ReadyCorrect.v
Publish.v
PublishCorrect.v
PublishSteps.v
ProtocolCorrect.v
TurnCorrect.v
CodexTurnCorrect.v
LauncherArgs.v
LauncherArgsCorrect.v
Launcher.v
LauncherCorrect.v
Profile.v
ProfileCorrect.v
Discovery.v
Session.v
SessionCorrect.v
ExecutablesCorrect.v
Host.v
HostCorrect.v
Redaction.v
