(* ===== verification/Prelude.v ===== *)
(** * Muse Codex: a verification library (root)

    Muse Codex lets the stock Muse coding agent run over other model providers. Two Rust
    programs do it. The launcher ([crates/muse-codex]) reads the command line, starts a
    private gateway, waits until it is ready, prepares an isolated profile, runs stock Muse
    against the gateway and relays its session protocol. The gateway
    ([crates/muse-codex-gateway]) is a loopback HTTP server that authenticates its one
    client, hands each Responses request to the transport and validates every event it
    sends back. The transport ([crates/codex-transport]) speaks to the Codex backend, with
    stored or given credentials, or to Z.ai, whose chat completions it translates into a
    Responses stream. This library models these three crates and proves what makes them
    correct. It reads from the bottom up, a file per component [X.v] and its theorems in
    [XCorrect.v]; a definition has the name of the Rust item where Rocq allows.

    ** Foundations
    - [Prelude.v]: [result] with [?] as bind, option and list helpers, bytes and ASCII
      strings as the Rust methods read them, u64 arithmetic, the hint database [muse].
    - [Utf8.v]: code points, [from_utf8], [trim], lossy decoding. [Json.v]:
      [serde_json::Value] with maps in key order; the class [SerdeJson] is the parser and
      the printer, [SerdeJsonLaws] their documented behaviour.
    - [Paths.v], [Posix.v]: [std::path], and a file system of names over inodes with links,
      modes and owners. [io] is a monad of system calls: each call may fail or be cut short
      as the script of the run says, and every state of the disk is kept. [PosixCorrect.v]:
      [goes] (a run and the states it went through), [makes_dirs]/[tidy] (a run that adds
      private directories only), [still]/[ends] (a run that changes nothing, then the rest)
      with the tactics [run_step], [tidy] and [still]; [keeps]/[grows]: when path resolution is stable.
    - [Errors.v]: [crates/codex-transport/src/error.rs]. [Net.v]: URLs, requests, responses.

    ** Transport
    - [Responses.v] (the request half of [transport.rs]): normalising a Responses request,
      messages, tools, reasoning, Responses Lite. [ResponsesCorrect.v]: an accepted request
      is stateless; Lite is a rewriting of the standard form; calls keep their namespaces.
    - [Catalog.v]: decoding, merging and checking the model catalog. [CatalogCorrect.v]: an
      accepted catalog has one visible default and sound entries.
    - [Transport.v]: headers, the retry and recovery loop, one request to Codex.
      [TransportCorrect.v]: the loop ends within its budget and takes the refresh lock only
      to recover; trusted headers cannot be overridden; error summaries are safe.
    - [ZaiRequest.v] ([zai/request.rs]): the translation of a request.
      [ZaiRequestCorrect.v]: it replays the conversation in order and with its content,
      sends nothing else, and tool names round-trip.
    - [ZaiStream.v] ([zai/stream.rs]): from chat chunks to Responses events. [ZaiContract.v]
      is the abstract specification, an acceptor of event sequences; [ZaiMoves.v] proves
      that every operation follows it; [ZaiStreamCorrect.v] that every whole run does, ends
      with one terminal event, loses no text and passes the gateway's validator.
    - [Zai.v] ([zai/mod.rs], [zai/catalog.rs]) and [Backend.v] ([backend.rs]): one request to
      either provider; the network is a function from requests to responses.
    - [Redaction.v]: what the types that hold secrets show in a [Debug] text.
    - [Auth.v] ([auth.rs], [zai/auth.rs], readers of [main.rs] and [lib.rs]): API keys and the
      stored Z.ai record. [AuthCorrect.v]: the readers agree, the hand-over of a key, the
      store as one register for each home. [AuthHome.v] ([auth.rs], [transport.rs]): the credential home and
      the refresh lock. [AuthHomeCorrect.v]: both private, whatever calls fail.

    ** Gateway
    - [SseValidator.v] ([sse.rs]): the event scanner and validator, with [SseFrame.v] on the
      frames producers write. [SseCorrect.v]: the output is a prefix of well-formed frames
      closed by one terminal event, does not depend on fragmentation, and hides upstream text.
    - [Gateway.v] ([server.rs]): routes, the bearer check, proxying, sanitised failures.
      [GatewayCorrect.v]: who is served, every answer ends, what a failure may show.
      [TurnCorrect.v], [CodexTurnCorrect.v]: a turn over Z.ai and over Codex, from the
      request of stock Muse to the events it gets.
    - [GatewayMain.v] ([main.rs], start of [run]): what is checked before serving, the
      readiness document and the startup error codes.
    - [CodexLogin.v] ([auth.rs], [auth] of [main.rs]): signing in to Codex, storing a key,
      status and logout. [CodexLoginCorrect.v]: the command keeps to its own keyring record;
      what [status] says of it holds where no credential in memory or in the environment
      comes before the keyring, as [codex_login] lets it.
    - [Lifetime.v] ([server.rs], [main.rs]): the main task and the watchdog's thread as steps
      that interleave with requests, signals and the process table. [LifetimeCorrect.v]: an
      orphaned gateway ends, one with a living parent goes on.

    ** Between them
    - [LauncherReady.v] ([lib.rs]): the launcher's checks of readiness and its polling.
      [ReadyCorrect.v]: what a gateway publishes is accepted, its failures are explained.
    - [Publish.v] ([server.rs], [main.rs], [lib.rs]): the two private files, written by one
      process and polled by the other. [PublishCorrect.v], [ProtocolCorrect.v]: publication
      is atomic in every history of the disk and the launcher ends with the gateway's answer.
      [PublishSteps.v]: for every script of failing calls, publication takes the steps that
      [Lifetime.v] gives it, so that the two models of the private directory are one.
    - [Recovery.v] ([transport.rs]): calls that share a credential and its refresh lock, the
      loop of [Transport.v] cut into steps. [RecoveryCorrect.v]: refreshes are serialised.

    ** Launcher
    - [LauncherArgs.v], [Launcher.v] ([lib.rs]): the command line, and the command and
      environment of each child; in the [Correct] files: routing happens once, no inherited
      secret reaches a child.
    - [Profile.v]: directories, settings and catalog of stock Muse. [ProfileCorrect.v]:
      the profile is private, its settings are pinned, and replaced as a whole or not at all.
    - [Discovery.v]: finding the executables, the version and self-test checks, the help.
    - [Session.v]: [run] as a whole, in a monad over the disk and a [Machine] that answers for
      the children. [SessionCorrect.v]: [step] is the protocol, a state machine; every run
      follows it, leaves no child and, once a wait passes its deadline, returns.
      [ExecutablesCorrect.v]: only programs found by discovery are started, and stock Muse
      only after it has reported the pinned version.
    - [Msp.v] ([msp.rs]): the frames of the session protocol and their adaptation.
      [MspCorrect.v]: provider labels are guarded and mapped (against a table of the
      paths where the protocol carries one), requests and responses correlate, frames are
      whole lines.
    - [Host.v] ([msp.rs], [lib.rs]): the relay's two threads, the thread that forwards signals
      and the wait for stock Muse, as steps that interleave. [HostCorrect.v]: the relay keeps
      order, no honest answer is refused, a session ends within a bound once stock Muse
      and its output have, and what the launcher can be left waiting for is named.

    ** Interfaces
    Code outside the repository is a parameter, a class with the operations the source calls
    and, where a theorem needs it, the documented law: [SerdeJson], [SerdePretty],
    [ItemCodec], [CatalogCodec], [SearchCodec], [CredentialCodec], [DocumentCodec],
    [SelfTestCodec] (derived serde code), [Upstream], [UrlParser], [Base64], [HomeDigest],
    [KeyringStore], [CodexLogin] (the [codex_login] crate), [AuthParser] (clap), [KnownDirs]
    (dirs), [TempFiles] (tempfile), [DebugStr], [Process] (the uid, umask, pid and error texts
    of a process), [Machine].

    ** Bounds and fuel
    Integers keep their width where the source computes with them (u64 sums wrap, limits are
    the source's constants). Recursion that is not structural takes fuel: the validator's
    and the synthesizer's drain loops take the length of their buffer (the defining
    equations are proved, so the fuel is never short); the retry loop takes
    [attempt_fuel], proved enough; [poll_all] takes more than the frames there are; writing
    a file takes its length, as each write takes at least a byte; path resolution follows at
    most [MAX_LINKS] links, as the system does; [ensure_owned_catalog_directory] takes the
    number of races it may lose, a parameter of the run.

    [Lifetime], [Recovery] and [Host] have no fuel: a run is a list of steps, and their
    theorems bound the steps a thread needs.

    ** Not modelled
    [axum], [tokio] and [signal_hook] are taken at their documentation, as steps of
    [Lifetime] and [Host]; [flock] as mutual exclusion. The Windows branches, the zeroing of
    secrets in memory, and a signal that kills the launcher before its handler is installed
    are left out, as are vendored code, scripts and tests. What the children of the launcher
    do is the [Machine]'s in [Session] and arbitrary in [Host]: the first takes the end of
    stock Muse as one answer, of which the second says what it can be. In [PublishSteps.v] the
    watchdog, which may remove a document while another is written, stands still. The gateway
    and the launcher are joined by the files of [ProtocolCorrect.v], not by a common scheduler. Time is a
    deadline flag of each turn of a wait. *)

From Stdlib Require Export Ascii String NArith Lia.
From stdpp Require Export base tactics list strings gmap pretty.
From stdpp Require Import options.

(** ** Results

    Rust's [Result<T, E>] with [?] as the monadic bind of stdpp. *)
Inductive result (E A : Type) : Type :=
  | Ok (a : A)
  | Err (e : E).
Arguments Ok {E A} a.
Arguments Err {E A} e.

#[export] Instance result_ret {E} : MRet (result E) := fun A => Ok.
#[export] Instance result_bind {E} : MBind (result E) := fun A B f m =>
  match m with Ok a => f a | Err e => Err e end.
#[export] Instance result_fmap {E} : FMap (result E) := fun A B f m =>
  match m with Ok a => Ok (f a) | Err e => Err e end.

Definition is_ok {E A} (r : result E A) : bool :=
  match r with Ok _ => true | Err _ => false end.

(** [Option::ok_or] *)
Definition ok_or {E A} (o : option A) (e : E) : result E A :=
  match o with Some a => Ok a | None => Err e end.

(** [Result::ok] *)
Definition ok {E A} (r : result E A) : option A :=
  match r with Ok a => Some a | Err _ => None end.

(** [Result::map_err] *)
Definition map_err {E F A} (f : E -> F) (r : result E A) : result F A :=
  match r with Ok a => Ok a | Err e => Err (f e) end.

(** [if bad { return Err(e) }] *)
Definition reject {E} (bad : bool) (e : E) : result E unit :=
  if bad then Err e else Ok tt.

(** [iter().map(f).collect::<Result<Vec<_>>>()] *)
Fixpoint collect {E A B} (f : A -> result E B) (l : list A) : result E (list B) :=
  match l with
  | [] => Ok []
  | a :: l' => b ← f a; bs ← collect f l'; Ok (b :: bs)
  end.

(** A [for] loop whose body returns early with [?]. *)
Fixpoint fold_res {E A S} (f : S -> A -> result E S) (s : S) (l : list A) : result E S :=
  match l with
  | [] => Ok s
  | a :: l' => s' ← f s a; fold_res f s' l'
  end.

(** [Option::filter] *)
Definition opt_filter {A} (p : A -> bool) (o : option A) : option A :=
  match o with Some a => if p a then Some a else None | None => None end.

(** [Option::is_some_and] *)
Definition is_some_and {A} (p : A -> bool) (o : option A) : bool :=
  match o with Some a => p a | None => false end.

(** [Option::or_else] *)
Definition or_else {A} (o p : option A) : option A :=
  match o with Some a => Some a | None => p end.

(** [slice.iter().position(p)] *)
Fixpoint position {A} (p : A -> bool) (l : list A) : option nat :=
  match l with
  | [] => None
  | a :: l' => if p a then Some 0 else S <$> position p l'
  end.

(** [slice.iter().find(p)] *)
Fixpoint find {A} (p : A -> bool) (l : list A) : option A :=
  match l with
  | [] => None
  | a :: l' => if p a then Some a else find p l'
  end.

(** [matches!(x, "a" | "b")] and [vec.contains(x)] on strings. *)
Definition one_of (s : string) (l : list string) : bool := existsb (String.eqb s) l.

(** ** Machine integers *)

Definition u64_modulus : N := 2 ^ 64.
Definition u64_max : N := u64_modulus - 1.
(** Release builds wrap on overflow. *)
Definition u64_add (a b : N) : N := (a + b) mod u64_modulus.
Definition u64_saturating_add (a b : N) : N := N.min (a + b) u64_max.

(** ** Bytes and strings

    A Rust [str] is the [string] of its UTF-8 bytes; [Vec<u8>], [&[u8]] and the
    stream buffers are [bytes]. *)
Abbreviation bytes := (list ascii).

Definition to_bytes (s : string) : bytes := list_ascii_of_string s.
Definition of_bytes (b : bytes) : string := string_of_list_ascii b.

Definition blen (b : bytes) : N := N.of_nat (length b).
Definition slen (s : string) : N := N.of_nat (String.length s).

Definition CR : ascii := "013"%char.
Definition LF : ascii := "010"%char.
Definition QUOTE : ascii := "034"%char.
Definition NUL : ascii := "000"%char.
Definition lf : string := String LF EmptyString.
(** The byte order mark U+FEFF. *)
Definition bom : string := String "239" (String "187" (String "191" EmptyString)).

Definition is_empty (s : string) : bool := match s with EmptyString => true | _ => false end.

(** [str::strip_prefix], [str::starts_with], [str::ends_with] *)
Fixpoint strip_prefix (p s : string) : option string :=
  match p, s with
  | EmptyString, _ => Some s
  | String a p', String b s' => if Ascii.eqb a b then strip_prefix p' s' else None
  | String _ _, EmptyString => None
  end.
Definition starts_with (p s : string) : bool := bool_decide (is_Some (strip_prefix p s)).
Fixpoint ends_with (p s : string) : bool :=
  String.eqb p s || match s with EmptyString => false | String _ s' => ends_with p s' end.

(** [str::split_once(c)] *)
Fixpoint split_once (c : ascii) (s : string) : option (string * string) :=
  match s with
  | EmptyString => None
  | String a s' =>
      if Ascii.eqb a c then Some (EmptyString, s')
      else match split_once c s' with
           | Some (l, r) => Some (String a l, r)
           | None => None
           end
  end.

(** [str::split(p)]: the pieces between separator bytes, never an empty list. *)
Fixpoint split_str (p : ascii -> bool) (s : string) : list string :=
  match s with
  | EmptyString => [EmptyString]
  | String a s' =>
      if p a then EmptyString :: split_str p s'
      else match split_str p s' with
           | l :: ls => String a l :: ls
           | [] => [String a EmptyString]
           end
  end.

(** [str::split_terminator(p)]: [split] without a last empty piece. *)
Definition drop_last_empty (l : list string) : list string :=
  match last l with
  | Some EmptyString => removelast l
  | _ => l
  end.
Definition split_terminator (p : ascii -> bool) (s : string) : list string :=
  drop_last_empty (split_str p s).

Fixpoint last_char (s : string) : option ascii :=
  match s with
  | EmptyString => None
  | String a EmptyString => Some a
  | String _ s' => last_char s'
  end.
Fixpoint drop_last_char (s : string) : string :=
  match s with
  | EmptyString => EmptyString
  | String _ EmptyString => EmptyString
  | String a s' => String a (drop_last_char s')
  end.
(** [str::lines()]: pieces ended by LF or CRLF; a last piece without LF is kept as it is. *)
Definition strip_cr (s : string) : string :=
  match last_char s with
  | Some c => if Ascii.eqb c CR then drop_last_char s else s
  | None => s
  end.
Definition is_lf (c : ascii) : bool := Ascii.eqb c LF.
Definition is_line_end (c : ascii) : bool := Ascii.eqb c CR || Ascii.eqb c LF.
Fixpoint ended_lines (pieces : list string) : list string :=
  match pieces with
  | [] => []
  | [last] => if is_empty last then [] else [last]
  | piece :: rest => strip_cr piece :: ended_lines rest
  end.
Definition lines (s : string) : list string := ended_lines (split_str is_lf s).

Fixpoint str_forallb (p : ascii -> bool) (s : string) : bool :=
  match s with EmptyString => true | String a s' => p a && str_forallb p s' end.
Fixpoint str_filter (p : ascii -> bool) (s : string) : string :=
  match s with
  | EmptyString => EmptyString
  | String a s' => if p a then String a (str_filter p s') else str_filter p s'
  end.
Fixpoint str_take (n : nat) (s : string) : string :=
  match n, s with
  | S n', String a s' => String a (str_take n' s')
  | _, _ => EmptyString
  end.
Fixpoint str_map (f : ascii -> ascii) (s : string) : string :=
  match s with EmptyString => EmptyString | String a s' => String (f a) (str_map f s') end.
(** [str::replace] of one byte by a string. *)
Fixpoint replace_char (c : ascii) (by_ : string) (s : string) : string :=
  match s with
  | EmptyString => EmptyString
  | String a s' => if Ascii.eqb a c then by_ +:+ replace_char c by_ s'
                   else String a (replace_char c by_ s')
  end.
(** [str::contains(&str)] *)
Fixpoint contains (p s : string) : bool :=
  starts_with p s || match s with EmptyString => false | String _ s' => contains p s' end.
(** [str::trim_end_matches(p)] *)
Fixpoint trim_end_matches (p : ascii -> bool) (s : string) : string :=
  match s with
  | EmptyString => EmptyString
  | String a s' =>
      match trim_end_matches p s' with
      | EmptyString => if p a then EmptyString else String a EmptyString
      | t => String a t
      end
  end.
(** [slice.join(sep)] *)
Definition join (sep : string) (l : list string) : string := String.concat sep l.

Definition in_range (lo hi : N) (c : ascii) : bool :=
  let n := N_of_ascii c in (lo <=? n)%N && (n <=? hi)%N.
Definition is_ascii_digit (c : ascii) : bool := in_range 48 57 c.
Definition is_ascii_alphabetic (c : ascii) : bool := in_range 65 90 c || in_range 97 122 c.
Definition is_ascii_alphanumeric (c : ascii) : bool := is_ascii_digit c || is_ascii_alphabetic c.
(** [u8::is_ascii_whitespace]: space, tab, LF, form feed, CR. *)
Definition is_ascii_whitespace (c : ascii) : bool :=
  match N_of_ascii c with
  | 32 | 9 | 10 | 12 | 13 => true
  | _ => false
  end%N.
Definition to_ascii_lower (c : ascii) : ascii :=
  if in_range 65 90 c then ascii_of_N (N_of_ascii c + 32) else c.
Definition to_ascii_lowercase (s : string) : string := str_map to_ascii_lower s.
Definition eq_ignore_ascii_case (a b : string) : bool :=
  String.eqb (to_ascii_lowercase a) (to_ascii_lowercase b).
(** The byte is one of the characters of [s]. *)
Definition char_in (s : string) (c : ascii) : bool :=
  negb (str_forallb (fun a => negb (Ascii.eqb a c)) s).

(** [str::parse::<uN>()]: an optional plus sign, then decimal digits within the bound. *)
Fixpoint parse_digits (acc : N) (s : string) : option N :=
  match s with
  | EmptyString => Some acc
  | String a s' =>
      if is_ascii_digit a then parse_digits (acc * 10 + (N_of_ascii a - 48)) s' else None
  end.
Definition parse_uint (bound : N) (s : string) : option N :=
  let digits := match s with
                | String a s' => if Ascii.eqb a "+"%char then s' else s
                | EmptyString => s
                end in
  if is_empty digits then None
  else match parse_digits 0 digits with
       | Some n => if (n <? bound)%N then Some n else None
       | None => None
       end.

(** Single quotes stand for double quotes; used to write JSON text in examples. *)
Definition dq (s : string) : string :=
  str_map (fun c => if Ascii.eqb c "'"%char then QUOTE else c) s.

(** ** Automation *)

(** Opens the matches of an equation about a step function, dropping the cases in which
    there is no step. *)
Ltac open_matches H :=
  cbn in H;
  repeat match type of H with
  | context [match ?x with _ => _ end] => destruct x eqn:?; cbn in H; try discriminate H
  end.
(** Opens conjunctions, existentials and boolean conjunctions in hypotheses. *)
Ltac split_hyps :=
  repeat match goal with
  | H : _ /\ _ |- _ => destruct H
  | H : ex _ |- _ => destruct H
  | H : andb _ _ = true |- _ => apply andb_prop in H as [? ?]
  | H : orb _ _ = false |- _ => apply orb_false_elim in H as [? ?]
  | H : negb _ = true |- _ => apply negb_true_iff in H
  | H : negb _ = false |- _ => apply negb_false_iff in H
  end.


(** Follows the monadic steps of a computation that returned [Ok]. *)
Ltac run_ok :=
  repeat match goal with
  | H : mbind _ ?m = Ok _ |- _ =>
      destruct m eqn:?; cbn [mbind result_bind] in H; [|discriminate H]
  | H : Ok _ = Ok _ |- _ => injection H as H
  | H : mret _ = Ok _ |- _ => injection H as H
  | H : Err _ = Ok _ |- _ => discriminate H
  | H : reject ?b _ = Ok _ |- _ =>
      destruct b eqn:?; cbn [reject] in H; [discriminate H|clear H]
  | H : ok_or ?o _ = Ok _ |- _ =>
      destruct o eqn:?; cbn [ok_or] in H; [injection H as H|discriminate H]
  end.

Create HintDb muse.
Create Rewrite HintDb muse.

(** ** Lemmas *)

Lemma append_cons a s t : String a s +:+ t = String a (s +:+ t).
Proof. done. Qed.
Lemma append_nil_l t : EmptyString +:+ t = t.
Proof. done. Qed.
#[export] Hint Rewrite append_cons append_nil_l : muse.

Lemma to_bytes_app a b : to_bytes (a +:+ b) = to_bytes a ++ to_bytes b.
Proof. unfold to_bytes. induction a as [|c a IH]; [done|]. rewrite append_cons. simpl. by f_equal. Qed.
Lemma of_to_bytes s : of_bytes (to_bytes s) = s.
Proof. apply string_of_list_ascii_of_string. Qed.
Lemma to_of_bytes b : to_bytes (of_bytes b) = b.
Proof. apply list_ascii_of_string_of_list_ascii. Qed.
Lemma of_bytes_app a b : of_bytes (a ++ b) = of_bytes a +:+ of_bytes b.
Proof. unfold of_bytes. induction a as [|c a IH]; [done|]. simpl. by rewrite IH. Qed.
#[export] Hint Rewrite to_bytes_app of_to_bytes to_of_bytes of_bytes_app : muse.

Lemma append_nil_r s : s +:+ EmptyString = s.
Proof. induction s as [|c s IH]; [done|]. rewrite append_cons. by f_equal. Qed.
Lemma append_assoc a b c : (a +:+ b) +:+ c = a +:+ (b +:+ c).
Proof. induction a as [|x a IH]; [done|]. rewrite !append_cons. by f_equal. Qed.
Lemma slen_app a b : slen (a +:+ b) = (slen a + slen b)%N.
Proof. unfold slen. induction a as [|x a IH]; [done|]. rewrite append_cons. cbn [String.length]. lia. Qed.
Lemma length_to_bytes s : length (to_bytes s) = String.length s.
Proof. unfold to_bytes. induction s; simpl; congruence. Qed.

Lemma one_of_spec s l : one_of s l = true <-> In s l.
Proof.
  unfold one_of. rewrite existsb_exists. split.
  - by intros (x & Hx & ->%String.eqb_eq).
  - intros H. exists s. by rewrite String.eqb_refl.
Qed.

Lemma one_of_incl s l l' : (forall x, In x l -> In x l') -> one_of s l' = false -> one_of s l = false.
Proof.
  intros Hincl H. destruct (one_of s l) eqn:E; [|done]. apply one_of_spec, Hincl, one_of_spec in E. congruence.
Qed.

Lemma strip_prefix_app p s r : strip_prefix p s = Some r <-> s = p +:+ r.
Proof.
  revert s. induction p as [|a p IH]; intros s; simpl.
  - rewrite append_nil_l. split; congruence.
  - destruct s as [|b s]; [done|]. rewrite append_cons.
    destruct (Ascii.eqb_spec a b) as [->|Hne]; [rewrite IH|]; split; congruence.
Qed.

Lemma collect_ok {E A B} (f : A -> result E B) l l' :
  collect f l = Ok l' <-> Forall2 (fun a b => f a = Ok b) l l'.
Proof.
  revert l'. induction l as [|a l IH]; intros l'; simpl.
  - split; [by intros [= <-]|by inversion 1].
  - split.
    + intros H. run_ok. subst. constructor; [done|]. by apply IH.
    + inversion 1 as [|? b ? bs Hab Hbs]; subst. rewrite Hab. simpl.
      apply IH in Hbs. by rewrite Hbs.
Qed.

Lemma collect_length {E A B} (f : A -> result E B) l l' :
  collect f l = Ok l' -> length l' = length l.
Proof. intros H%collect_ok. by apply Forall2_length in H. Qed.

Lemma find_some {A} (p : A -> bool) l a : find p l = Some a -> In a l /\ p a = true.
Proof.
  induction l as [|b l IH]; simpl; [done|]. destruct (p b) eqn:E.
  - intros [= ->]. auto.
  - intros H%IH. intuition.
Qed.
Lemma find_none {A} (p : A -> bool) l : find p l = None <-> forallb (fun a => negb (p a)) l = true.
Proof. induction l as [|b l IH]; simpl; [done|]. destruct (p b); simpl; [done|apply IH]. Qed.

Lemma position_none {A} (p : A -> bool) l : forallb (fun a => negb (p a)) l = true -> position p l = None.
Proof. induction l as [|a l IH]; [done|]. cbn. destruct (p a); [done|]. intros H. by rewrite IH. Qed.
Lemma position_app {A} (p : A -> bool) pre a post :
  forallb (fun a => negb (p a)) pre = true -> p a = true -> position p (pre ++ a :: post) = Some (length pre).
Proof.
  induction pre as [|b pre IH]; cbn; [by intros _ ->|]. destruct (p b); [done|]. intros Hpre Ha.
  by rewrite IH.
Qed.
Lemma forallb_split {A} (p : A -> bool) l :
  forallb p l = true \/ exists pre a post, l = pre ++ a :: post /\ forallb p pre = true /\ p a = false.
Proof.
  induction l as [|a l IH]; [by left|]. destruct (p a) eqn:Ea.
  - destruct IH as [IH|(pre & b & post & -> & Hpre & Hb)]; [left; cbn; by rewrite Ea|right].
    exists (a :: pre), b, post. cbn. by rewrite Ea.
  - right. by exists [], a, l.
Qed.

Lemma bind_ok {E A B} (m : result E A) (f : A -> result E B) b :
  (x ← m; f x) = Ok b <-> exists a, m = Ok a /\ f a = Ok b.
Proof.
  destruct m as [a|e]; cbn [mbind result_bind]; split; [by eexists|by intros (? & [= <-] & ?)|done|].
  by intros (? & ? & ?).
Qed.
Lemma bind_err {E A B} (m : result E A) (f : A -> result E B) e : (x ← m; f x) = Err e -> m = Err e \/ exists a, m = Ok a /\ f a = Err e.
Proof. destruct m; [right; eauto|intros [= ->]; by left]. Qed.
Lemma reject_ok {E} b (e : E) u : reject b e = Ok u <-> b = false.
Proof. destruct b, u; cbn; split; congruence. Qed.
Lemma ok_or_ok {E A} (o : option A) (e : E) a : ok_or o e = Ok a <-> o = Some a.
Proof. destruct o; cbn; split; congruence. Qed.

(** Invariant of a loop that may return early: [P seen s] relates the elements
    already seen to the state. *)
Lemma fold_res_ind {E A S} (f : S -> A -> result E S) (P : list A -> S -> Prop) s l s' :
  P [] s ->
  (forall seen a t t', P seen t -> f t a = Ok t' -> P (seen ++ [a]) t') ->
  fold_res f s l = Ok s' -> P l s'.
Proof.
  intros H0 Hstep. change (P l s') with (P ([] ++ l) s'). revert s H0. generalize (@nil A) as seen.
  induction l as [|a l IH]; intros seen s H0 H; cbn [fold_res] in H.
  - injection H as <-. by rewrite app_nil_r.
  - run_ok. rewrite cons_middle, app_assoc. eapply IH; [|done]. by eapply Hstep.
Qed.

(** [parse] reads back what [Display] prints of a number. *)
Lemma pretty_digit_value x : (x < 10)%N -> is_ascii_digit (pretty_N_char x) = true /\ (N_of_ascii (pretty_N_char x) - 48 = x)%N.
Proof.
  intros H. assert (In x [0;1;2;3;4;5;6;7;8;9]%N) as Hin.
  { cbn. lia. }
  cbn in Hin. decompose sum Hin; subst; try done; by split.
Qed.
Lemma parse_pretty_go x s : parse_digits 0 (pretty_N_go x s) = parse_digits x s.
Proof.
  revert s. induction (N.lt_wf_0 x) as [x _ IH]. intros s.
  destruct (decide (x = 0)%N) as [->|Hx]; [by rewrite pretty_N_go_0|].
  rewrite pretty_N_go_step by lia. rewrite IH by (apply N.div_lt; lia).
  cbn [parse_digits]. destruct (pretty_digit_value (x `mod` 10)) as [-> ->]; [by apply N.mod_lt|].
  by rewrite N.mul_comm, <- N.div_mod.
Qed.
Lemma pretty_digits (x : N) : str_forallb is_ascii_digit (pretty x) = true.
Proof.
  unfold pretty, pretty_N. case_decide; [done|].
  assert (Hgo : forall s, str_forallb is_ascii_digit s = true -> str_forallb is_ascii_digit (pretty_N_go x s) = true); [|by apply Hgo].
  clear. induction (N.lt_wf_0 x) as [x _ IH]. intros s Hs.
  destruct (decide (x = 0)%N) as [->|Hx]; [by rewrite pretty_N_go_0|].
  rewrite pretty_N_go_step by lia. apply IH; [apply N.div_lt; lia|]. cbn [str_forallb].
  by destruct (pretty_digit_value (x `mod` 10)) as [-> _]; [apply N.mod_lt|].
Qed.
Lemma parse_pretty (x : N) : parse_digits 0 (pretty x) = Some x.
Proof. unfold pretty, pretty_N. case_decide; [by subst|]. apply parse_pretty_go. Qed.
Lemma parse_uint_pretty bound (x : N) : (x < bound)%N -> parse_uint bound (pretty x) = Some x.
Proof.
  intros Hx. pose proof (pretty_digits x) as Hd. pose proof (parse_pretty x) as Hp. unfold parse_uint.
  destruct (pretty x) as [|a s] eqn:E.
  - injection Hp as <-. done.
  - cbn [str_forallb] in Hd. apply andb_prop in Hd as [Ha _].
    destruct (Ascii.eqb_spec a "+"%char) as [->|_]; [done|]. cbn [is_empty].
    rewrite Hp. by apply N.ltb_lt in Hx as ->.
Qed.
