(* ===== verification/Utf8.v ===== *)
(** * UTF-8: characters of a string

    Rust strings are UTF-8; [char::is_control], [char::is_whitespace] and
    [str::trim] work on code points. This file decodes the bytes of a string into
    characters (RFC 3629, the table of well-formed sequences that
    [std::str::from_utf8] checks) and gives the standard library's character
    predicates. Every byte sequence decodes: a byte that starts no well-formed
    sequence is kept as an invalid character, so decoding is lossless. *)

From S2P Require Import Prelude.
From stdpp Require Import options.

(** A character: its code point ([None] for a byte outside any well-formed
    sequence) and the bytes it occupies. *)
Record uchar := UChar { code_point : option N; raw_bytes : bytes }.

Definition continuation (c : ascii) : bool := in_range 128 191 c.
Definition low6 (c : ascii) : N := N_of_ascii c mod 64.

(** Second-byte ranges of the three- and four-byte forms. *)
Definition second_of_3 (a b : ascii) : bool :=
  match N_of_ascii a with
  | 224 => in_range 160 191 b
  | 237 => in_range 128 159 b
  | _ => continuation b
  end%N.
Definition second_of_4 (a b : ascii) : bool :=
  match N_of_ascii a with
  | 240 => in_range 144 191 b
  | 244 => in_range 128 143 b
  | _ => continuation b
  end%N.

Definition lead_1 (a : ascii) : bool := (N_of_ascii a <? 128)%N.
Definition lead_2 (a : ascii) : bool := in_range 194 223 a.
Definition lead_3 (a : ascii) : bool := in_range 224 239 a.
Definition lead_4 (a : ascii) : bool := in_range 240 244 a.

Fixpoint uchars (s : bytes) : list uchar :=
  match s with
  | [] => []
  | a :: s1 =>
      if lead_1 a then UChar (Some (N_of_ascii a)) [a] :: uchars s1 else
      let invalid := UChar None [a] :: uchars s1 in
      match s1 with
      | [] => invalid
      | b :: s2 =>
          if lead_2 a && continuation b then
            UChar (Some ((N_of_ascii a mod 32) * 64 + low6 b)%N) [a; b] :: uchars s2 else
          match s2 with
          | [] => invalid
          | c :: s3 =>
              if lead_3 a && second_of_3 a b && continuation c then
                UChar (Some ((N_of_ascii a mod 16) * 4096 + low6 b * 64 + low6 c)%N) [a; b; c]
                  :: uchars s3 else
              match s3 with
              | [] => invalid
              | d :: s4 =>
                  if lead_4 a && second_of_4 a b && continuation c && continuation d then
                    UChar (Some ((N_of_ascii a mod 8) * 262144 + low6 b * 4096
                                   + low6 c * 64 + low6 d)%N) [a; b; c; d] :: uchars s4
                  else invalid
              end
          end
      end
  end.

Definition valid_char (u : uchar) : bool := bool_decide (is_Some (code_point u)).
Definition utf8_valid (s : bytes) : bool := forallb valid_char (uchars s).

(** [std::str::from_utf8] *)
Definition from_utf8 (s : bytes) : option string :=
  if utf8_valid s then Some (of_bytes s) else None.

(** [str::chars] *)
Definition chars (s : string) : list uchar := uchars (to_bytes s).

(** [char::is_control] (category Cc) and [char::is_whitespace] (White_Space). *)
Definition cp_is_control (n : N) : bool := (n <? 32)%N || ((127 <=? n)%N && (n <=? 159)%N).
Definition cp_is_whitespace (n : N) : bool :=
  ((9 <=? n)%N && (n <=? 13)%N) || (n =? 32)%N || (n =? 133)%N || (n =? 160)%N
  || (n =? 5760)%N || ((8192 <=? n)%N && (n <=? 8202)%N) || (n =? 8232)%N || (n =? 8233)%N
  || (n =? 8239)%N || (n =? 8287)%N || (n =? 12288)%N.
Definition is_control (u : uchar) : bool := is_some_and cp_is_control (code_point u).
Definition is_whitespace (u : uchar) : bool := is_some_and cp_is_whitespace (code_point u).

Definition any_char (p : uchar -> bool) (s : string) : bool := existsb p (chars s).

Fixpoint drop_while {A} (p : A -> bool) (l : list A) : list A :=
  match l with
  | [] => []
  | a :: l' => if p a then drop_while p l' else l
  end.
(** [str::trim] *)
Definition trim (s : string) : string :=
  of_bytes (flat_map raw_bytes
    (reverse (drop_while is_whitespace (reverse (drop_while is_whitespace (chars s)))))).

(** ** Lemmas *)

(** [OsStr::to_string_lossy]: each maximal ill-formed part becomes U+FFFD. *)
Definition replacement : bytes := ["239"; "191"; "189"]%char.
Fixpoint lossy (s : bytes) : bytes :=
  match s with
  | [] => []
  | a :: s1 =>
      if lead_1 a then a :: lossy s1 else
      match s1 with
      | [] => replacement
      | b :: s2 =>
          if lead_2 a && continuation b then a :: b :: lossy s2
          else if lead_3 a && second_of_3 a b then
            match s2 with
            | [] => replacement
            | c :: s3 => if continuation c then a :: b :: c :: lossy s3 else replacement ++ lossy s2
            end
          else if lead_4 a && second_of_4 a b then
            match s2 with
            | [] => replacement
            | c :: s3 =>
                if continuation c then
                  match s3 with
                  | [] => replacement
                  | d :: s4 => if continuation d then a :: b :: c :: d :: lossy s4 else replacement ++ lossy s3
                  end
                else replacement ++ lossy s2
            end
          else replacement ++ lossy s1
      end
  end.
Definition to_string_lossy (text : string) : string := of_bytes (lossy (to_bytes text)).


(** One decoding step consumes a non-empty prefix; a valid character decodes the
    same way whatever follows it. *)
Lemma uchars_step a s1 :
  exists u s, raw_bytes u <> [] /\ a :: s1 = raw_bytes u ++ s /\ uchars (a :: s1) = u :: uchars s
    /\ (valid_char u = true -> forall t, uchars (raw_bytes u ++ t) = u :: uchars t).
Proof.
  set (inv := fun s1 => UChar None [a] :: uchars s1).
  assert (Hinv : uchars (a :: s1) = inv s1 ->
    exists u s, raw_bytes u <> [] /\ a :: s1 = raw_bytes u ++ s /\ uchars (a :: s1) = u :: uchars s
      /\ (valid_char u = true -> forall t, uchars (raw_bytes u ++ t) = u :: uchars t)).
  { intros H. exists (UChar None [a]), s1. by repeat split. }
  destruct (lead_1 a) eqn:E1.
  { exists (UChar (Some (N_of_ascii a)) [a]), s1. simpl. rewrite E1. by repeat split. }
  destruct s1 as [|b s2]; [apply Hinv; simpl; by rewrite E1|].
  destruct (lead_2 a && continuation b) eqn:E2.
  { eexists (UChar (Some _) [a; b]), s2. simpl. rewrite E1, E2. by repeat split. }
  destruct s2 as [|c s3]; [apply Hinv; simpl; by rewrite E1, E2|].
  destruct (lead_3 a && second_of_3 a b && continuation c) eqn:E3.
  { eexists (UChar (Some _) [a; b; c]), s3. simpl. rewrite E1, E2, E3. by repeat split. }
  destruct s3 as [|d s4]; [apply Hinv; simpl; by rewrite E1, E2, E3|].
  destruct (lead_4 a && second_of_4 a b && continuation c && continuation d) eqn:E4.
  { eexists (UChar (Some _) [a; b; c; d]), s4. simpl. rewrite E1, E2, E3, E4. by repeat split. }
  apply Hinv. cbn [uchars]. by rewrite E1, E2, E3, E4.
Qed.

(** Induction over the characters of a byte sequence rather than its bytes. *)
Lemma uchars_ind (P : bytes -> Prop) :
  P [] ->
  (forall u s, raw_bytes u <> [] -> uchars (raw_bytes u ++ s) = u :: uchars s ->
     (valid_char u = true -> forall t, uchars (raw_bytes u ++ t) = u :: uchars t) ->
     P s -> P (raw_bytes u ++ s)) ->
  forall s, P s.
Proof.
  intros Hnil Hcons s.
  induction s as [s IH] using (induction_ltof1 _ length); unfold ltof in IH.
  destruct s as [|a s1]; [done|].
  destruct (uchars_step a s1) as (u & s & Hne & Heq & Hu & Hv).
  rewrite Heq in Hu |- *. apply Hcons; [done..|]. apply IH.
  rewrite Heq, length_app. destruct (raw_bytes u); [done|simpl; lia].
Qed.

(** Decoding loses no byte. *)
Lemma uchars_lossless s : flat_map raw_bytes (uchars s) = s.
Proof.
  induction s as [|u s _ Hu _ IH] using uchars_ind; [done|].
  rewrite Hu. simpl. by rewrite IH.
Qed.

Lemma uchars_app s t : utf8_valid s = true -> uchars (s ++ t) = uchars s ++ uchars t.
Proof.
  unfold utf8_valid. revert t.
  induction s as [|u s _ Hu Hv IH] using uchars_ind; intros t; [done|].
  rewrite Hu. simpl. intros [Hval Hs]%andb_prop.
  rewrite <- app_assoc, Hv by done. by rewrite IH.
Qed.

Lemma utf8_valid_app s t : utf8_valid s = true -> utf8_valid t = true -> utf8_valid (s ++ t) = true.
Proof.
  intros Hs Ht. unfold utf8_valid. rewrite uchars_app by done.
  rewrite forallb_app. by apply andb_true_intro.
Qed.

Lemma uchars_ascii s :
  forallb lead_1 s = true -> uchars s = (fun a => UChar (Some (N_of_ascii a)) [a]) <$> s.
Proof.
  induction s as [|a s IH]; [done|]. simpl. intros [Ha Hs]%andb_prop.
  rewrite Ha. by rewrite IH.
Qed.

Lemma utf8_valid_ascii s : forallb lead_1 s = true -> utf8_valid s = true.
Proof.
  intros H. unfold utf8_valid. rewrite uchars_ascii by done.
  clear H. induction s as [|a s IH]; [done|apply IH].
Qed.

Lemma from_utf8_of_bytes s : utf8_valid s = true -> from_utf8 s = Some (of_bytes s).
Proof. intros H. unfold from_utf8. by rewrite H. Qed.

(** ** ASCII bytes *)

Lemma in_range_spec lo hi c : in_range lo hi c = true <-> (lo <= N_of_ascii c <= hi)%N.
Proof. unfold in_range. rewrite andb_true_iff, !N.leb_le. done. Qed.
Lemma in_range_high lo hi c : (128 <= lo)%N -> in_range lo hi c = true -> lead_1 c = false.
Proof. intros Hlo H%in_range_spec. apply N.ltb_ge. lia. Qed.
Lemma second_of_3_high a b : second_of_3 a b = true -> lead_1 b = false.
Proof. unfold second_of_3. repeat case_match; apply in_range_high; lia. Qed.
Lemma second_of_4_high a b : second_of_4 a b = true -> lead_1 b = false.
Proof. unfold second_of_4. repeat case_match; apply in_range_high; lia. Qed.
Lemma continuation_high c : continuation c = true -> lead_1 c = false.
Proof. apply in_range_high. lia. Qed.

(** The first character is an ASCII byte or made of bytes from 128. *)
Lemma uchars_step_ascii a s1 :
  exists u s, uchars (a :: s1) = u :: uchars s /\ a :: s1 = raw_bytes u ++ s /\ raw_bytes u <> []
    /\ (u = UChar (Some (N_of_ascii a)) [a] \/ forallb (fun b => negb (lead_1 b)) (raw_bytes u) = true).
Proof.
  destruct (lead_1 a) eqn:E1.
  { exists (UChar (Some (N_of_ascii a)) [a]), s1. simpl. rewrite E1. repeat split; try done. by left. }
  assert (Hinv : uchars (a :: s1) = UChar None [a] :: uchars s1 ->
    exists u s, uchars (a :: s1) = u :: uchars s /\ a :: s1 = raw_bytes u ++ s /\ raw_bytes u <> []
    /\ (u = UChar (Some (N_of_ascii a)) [a] \/ forallb (fun b => negb (lead_1 b)) (raw_bytes u) = true)).
  { intros H. exists (UChar None [a]), s1. repeat split; try done. right. cbn. by rewrite E1. }
  destruct s1 as [|b s2]; [apply Hinv; simpl; by rewrite E1|].
  destruct (lead_2 a && continuation b) eqn:E2.
  { eexists (UChar (Some _) [a; b]), s2. simpl. rewrite E1, E2. repeat split; try done. right.
    apply andb_prop in E2 as [_ Hb%continuation_high]. by rewrite Hb. }
  destruct s2 as [|c s3]; [apply Hinv; simpl; by rewrite E1, E2|].
  destruct (lead_3 a && second_of_3 a b && continuation c) eqn:E3.
  { eexists (UChar (Some _) [a; b; c]), s3. simpl. rewrite E1, E2, E3. repeat split; try done. right.
    apply andb_prop in E3 as [[_ Hb%second_of_3_high]%andb_prop Hc%continuation_high]. by rewrite Hb, Hc. }
  destruct s3 as [|d s4]; [apply Hinv; simpl; by rewrite E1, E2, E3|].
  destruct (lead_4 a && second_of_4 a b && continuation c && continuation d) eqn:E4.
  { eexists (UChar (Some _) [a; b; c; d]), s4. simpl. rewrite E1, E2, E3, E4. repeat split; try done. right.
    apply andb_prop in E4 as [[[_ Hb%second_of_4_high]%andb_prop Hc%continuation_high]%andb_prop Hd%continuation_high].
    by rewrite Hb, Hc, Hd. }
  apply Hinv. cbn [uchars]. by rewrite E1, E2, E3, E4.
Qed.

(** A byte below 128 is always a character of its own. *)
Lemma uchars_ascii_byte a s :
  lead_1 a = true -> In a s -> In (UChar (Some (N_of_ascii a)) [a]) (uchars s).
Proof.
  intros Ha. induction s as [s IH] using (induction_ltof1 _ length); unfold ltof in IH.
  destruct s as [|x s1]; [done|]. destruct (uchars_step_ascii x s1) as (u & s & Hu & Hs & Hne & Hraw).
  rewrite Hu. rewrite Hs at 1. intros [Hin|Hin]%in_app_or.
  - destruct Hraw as [->|Hraw]; [left; by destruct Hin as [->|[]]|].
    rewrite forallb_forall in Hraw. apply Hraw in Hin. by rewrite Ha in Hin.
  - right. apply IH; [|done]. rewrite Hs, length_app. destruct (raw_bytes u); [done|cbn; lia].
Qed.
Lemma any_char_ascii (p : uchar -> bool) a s :
  lead_1 a = true -> p (UChar (Some (N_of_ascii a)) [a]) = true ->
  any_char p s = false -> str_forallb (fun c => negb (Ascii.eqb c a)) s = true.
Proof.
  intros Ha Hp Hs. destruct (str_forallb _ s) eqn:E; [done|]. exfalso.
  assert (Hin : In a (to_bytes s)).
  { clear -E. unfold to_bytes. induction s as [|c s IH]; [done|]. cbn in *.
    destruct (Ascii.eqb_spec c a); [by left|right; auto]. }
  apply (uchars_ascii_byte a) in Hin; [|done]. unfold any_char, chars in Hs.
  assert (existsb p (uchars (to_bytes s)) = true) as Ht; [apply existsb_exists; eauto|congruence].
Qed.

Lemma utf8_valid_app_ascii a c : lead_1 c = true -> utf8_valid (a ++ [c]) = true -> utf8_valid a = true.
Proof.
  intros Hc. induction a as [a IH] using (induction_ltof1 _ length); unfold ltof in IH.
  destruct a as [|x a1]; [done|]. cbn [app]. intros Hv.
  destruct (uchars_step x (a1 ++ [c])) as (u & s & Hne & Hs & Hu & Hval).
  destruct (uchars_step_ascii x (a1 ++ [c])) as (u' & s' & Hu' & Hs' & _ & Hraw).
  assert (u' = u) as -> by congruence. unfold utf8_valid in Hv. rewrite Hu in Hv. cbn in Hv. apply andb_prop in Hv as [Hvu Hvs].
  assert (Hpre : exists a', x :: a1 = raw_bytes u ++ a' /\ s = a' ++ [c]).
  { clear -Hs Hraw Hc Hne. destruct Hraw as [->|Hraw].
    { injection Hs as <-. by exists a1. }
    destruct s as [|y s _] using rev_ind.
    - exfalso. rewrite app_nil_r in Hs. rewrite forallb_forall in Hraw.
      assert (Hin : In c (raw_bytes u)) by (rewrite <- Hs; right; apply in_or_app; by right; left).
      apply Hraw in Hin. by rewrite Hc in Hin.
    - rewrite app_assoc, app_comm_cons in Hs. apply app_inj_tail in Hs as [-> ->]. by exists s. }
  destruct Hpre as (a' & Ha & ->). unfold utf8_valid. rewrite Ha, Hval by done. cbn. rewrite Hvu. cbn.
  apply IH; [|done]. rewrite Ha, length_app. destruct (raw_bytes u); [done|cbn; lia].
Qed.
