(* ===== verification/Paths.v ===== *)
(** * Paths of Unix

    [std::path] as the source uses it: a path is its text, read as a list of components.
    Repeated and trailing separators and interior [.] components do not count, as in
    [Path::components]; two paths are equal when their components are. *)

From S2P Require Import Prelude.
From stdpp Require Import options.

Abbreviation path := string (only parsing).

Inductive Component : Type := RootDir | CurDir | ParentDir | Normal (name : string).
#[export] Instance Component_eq_dec : EqDecision Component.
Proof. solve_decision. Defined.

Definition is_separator (c : ascii) : bool := Ascii.eqb c "/".
Definition has_root (p : path) : bool := starts_with "/" p.
(** The text between separators; that before the first one is empty under a root. *)
Definition pieces (p : path) : list string := split_str is_separator p.

Definition body_component (piece : string) : option Component :=
  if is_empty piece || String.eqb piece "." then None
  else Some (if String.eqb piece ".." then ParentDir else Normal piece).
(** [Path::components] *)
Definition components (p : path) : list Component :=
  match pieces p with
  | [] => []
  | first :: rest =>
      (if has_root p then [RootDir]
       else if String.eqb first "." then [CurDir] else option_list (body_component first))
      ++ omap body_component rest
  end.

Definition path_eq (p q : path) : bool := bool_decide (components p = components q).
(** [Path::starts_with] *)
Definition path_starts_with (p base : path) : bool := bool_decide (components base `prefix_of` components p).
(** [Path::is_absolute] *)
Definition is_absolute (p : path) : bool := has_root p.
(** [Path::file_name] *)
Definition file_name (p : path) : option string :=
  match last (components p) with Some (Normal name) => Some name | _ => None end.

(** The pieces in reverse, without the trailing ones that are no component. The first
    piece of a path without a root is a component even when it is [.]. *)
Definition ignorable (piece : string) : bool := is_empty piece || String.eqb piece ".".
Fixpoint trim_back (root : bool) (reversed : list string) : list string :=
  match reversed with
  | [] => []
  | [first] => if negb root && is_empty first then [] else [first]
  | piece :: before => if ignorable piece then trim_back root before else reversed
  end.
Definition render (reversed : list string) : path :=
  match reversed with
  | [EmptyString] => "/"
  | _ => join "/" (rev reversed)
  end.
(** [Path::parent] *)
Definition parent (p : path) : option path :=
  match trim_back (has_root p) (rev (pieces p)) with
  | [] => None
  | [_] => if has_root p then None else Some ""
  | _ :: before => Some (render (trim_back (has_root p) before))
  end.

(** [Path::join] *)
Definition path_join (p q : path) : path :=
  if is_absolute q then q
  else if is_empty p || ends_with "/" p then p +:+ q
  else p +:+ "/" +:+ q.

(** The text of an absolute path of names. *)
Definition absolute (names : list string) : path := "/" +:+ join "/" names.

Example components_ex1 : components "/a//./b/" = [RootDir; Normal "a"; Normal "b"].
Proof. reflexivity. Qed.
Example components_ex2 : components "./../b" = [CurDir; ParentDir; Normal "b"].
Proof. reflexivity. Qed.
Example parent_ex1 : parent <$> ["/a//./b/."; "/a"; "a"; "."; "./a"; "//a"] = Some <$> ["/a"; "/"; ""; ""; "."; "/"].
Proof. reflexivity. Qed.
Example parent_ex2 : parent <$> ["/"; ""; "//"] = [None; None; None].
Proof. reflexivity. Qed.
Example file_name_ex : file_name <$> ["/a/b/."; "/a/.."; "/"; "b"] = [Some "b"; None; None; Some "b"].
Proof. reflexivity. Qed.
