(* ===== verification/Posix.v ===== *)
(** * A file system

    The part of [std::fs] and of the system calls under it that the source uses: a
    directory tree of names over inodes, with hard links, symbolic links, permission bits
    and owners, and a monad of system calls. Any call may fail or be cut short, as the
    script of the run says, and every state the disk goes through is recorded, so that a
    property can speak of what another process sees in between, or after a crash. *)

From S2P Require Import Prelude Paths.
From stdpp Require Import options.

Inductive Errno : Type :=
  | NotFound
  | AlreadyExists
  | NotADirectory
  | IsADirectory
  | TooManyLinks
  | OtherErrno (text : string).
#[export] Instance Errno_eq_dec : EqDecision Errno.
Proof. solve_decision. Defined.

Inductive FileType : Type :=
  | Regular (content : bytes)
  | Directory
  | Symlink (target : path)
  | Special.
Record Inode := { file_type : FileType; mode : N; uid : N }.
(** Absolute names (from the root) to inode numbers. *)
Record Fs := { names : gmap (list string) N; inodes : gmap N Inode }.

(** What a process has of its own; [strerror] is how an [io::Error] displays. *)
Class Process := {
  geteuid : N;
  umask : N;
  working_directory : list string;
  pid : N;
  strerror : Errno -> string
}.

Definition is_dir (i : Inode) : bool := match file_type i with Directory => true | _ => false end.
Definition is_file (i : Inode) : bool := match file_type i with Regular _ => true | _ => false end.
Definition is_symlink (i : Inode) : bool := match file_type i with Symlink _ => true | _ => false end.
(** [mode & 0o777] *)
Definition permissions (i : Inode) : N := N.land (mode i) 511.
Definition file_content (i : Inode) : bytes := match file_type i with Regular content => content | _ => [] end.

Definition entry (fs : Fs) (place : list string) : option Inode := i ← names fs !! place; inodes fs !! i.
Definition nlink (fs : Fs) (i : N) : nat := length (filter (fun kv => kv.2 = i) (map_to_list (names fs))).

(** ** Path resolution *)

(** The place a path names: its last component need not exist; the ones before must be
    directories. [links] bounds the symbolic links followed. *)
Fixpoint walk (links : nat) (fs : Fs) (follow : bool) : list string -> list Component -> result Errno (list string) :=
  fix go (place : list string) (todo : list Component) {struct todo} :=
    match todo with
    | [] => Ok place
    | RootDir :: todo => go [] todo
    | CurDir :: todo => go place todo
    | ParentDir :: todo => go (removelast place) todo
    | Normal name :: todo =>
        let next := place ++ [name] in
        let last := bool_decide (todo = []) in
        match entry fs next with
        | None => if last then Ok next else Err NotFound
        | Some inode =>
            match file_type inode with
            | Symlink target =>
                if last && negb follow then Ok next else
                match links with
                | O => Err TooManyLinks
                | S links => walk links fs follow place (components target ++ todo)
                end
            | Directory => go next todo
            | _ => if last then Ok next else Err NotADirectory
            end
        end
    end.
Definition MAX_LINKS : nat := 40.

(** A path whose text ends in a separator or in [.] names a directory, through links. *)
Definition names_directory (p : path) : bool := is_some_and ignorable (last (pieces p)).
Definition locate `{Process} (follow : bool) (fs : Fs) (p : path) : result Errno (list string) :=
  if is_empty p then Err NotFound else
  place ← walk MAX_LINKS fs (follow || names_directory p) working_directory (components p);
  reject (names_directory p && is_some_and (fun i => negb (is_dir i)) (entry fs place)) NotADirectory;;
  Ok place.

Section Calls.
  Context {PR : Process}.

(** An existing entry: its inode number and inode. *)
Definition lookup_at (fs : Fs) (place : list string) : result Errno (N * Inode) :=
  i ← ok_or (names fs !! place) NotFound;
  inode ← ok_or (inodes fs !! i) NotFound;
  Ok (i, inode).
Definition stat (follow : bool) (p : path) (fs : Fs) : result Errno (N * Inode) :=
  place ← locate follow fs p; lookup_at fs place.
Definition canonicalize (p : path) (fs : Fs) : result Errno path :=
  place ← locate true fs p; _ ← lookup_at fs place; Ok (absolute place).
(** [Path::exists] *)
Definition path_exists (p : path) (fs : Fs) : bool := is_ok (stat true p fs).

Definition fresh_inode (fs : Fs) : N := fresh (dom (inodes fs)).
Definition add_entry (place : list string) (t : FileType) (m : N) (fs : Fs) : N * Fs :=
  let i := fresh_inode fs in
  (i, {| names := <[place := i]> (names fs);
         inodes := <[i := {| file_type := t; mode := N.ldiff m umask; uid := geteuid |}]> (inodes fs) |}).
Definition create (p : path) (t : FileType) (m : N) (fs : Fs) : result Errno (N * Fs) :=
  place ← locate false fs p;
  reject (bool_decide (is_Some (names fs !! place))) AlreadyExists;;
  Ok (add_entry place t m fs).
Definition mkdir (p : path) (m : N) (fs : Fs) : result Errno (unit * Fs) :=
  '(_, fs) ← create p Directory m fs; Ok (tt, fs).
(** [create_new(true)]: O_CREAT and O_EXCL *)
Definition open_new (p : path) (m : N) (fs : Fs) : result Errno (N * Fs) := create p (Regular []) m fs.
(** Opening an existing file, with or without O_NOFOLLOW. *)
Definition open_existing (follow : bool) (p : path) (fs : Fs) : result Errno N :=
  '(i, inode) ← stat follow p fs;
  reject (is_symlink inode) TooManyLinks;;
  Ok i.
Definition update_inode (i : N) (f : Inode -> Inode) (fs : Fs) : Fs :=
  {| names := names fs; inodes := alter f i (inodes fs) |}.
Definition append_content (chunk : bytes) (inode : Inode) : Inode :=
  {| file_type := Regular (file_content inode ++ chunk); mode := mode inode; uid := uid inode |}.
Definition set_mode (m : N) (inode : Inode) : Inode :=
  {| file_type := file_type inode; mode := m; uid := uid inode |}.
Definition chmod (p : path) (m : N) (fs : Fs) : result Errno (unit * Fs) :=
  '(i, _) ← stat true p fs; Ok (tt, update_inode i (set_mode m) fs).
Definition rename (old new : path) (fs : Fs) : result Errno (unit * Fs) :=
  from ← locate false fs old;
  '(i, inode) ← lookup_at fs from;
  to ← locate false fs new;
  reject (is_some_and (fun target => negb (bool_decide (is_dir inode = is_dir target))) (entry fs to)) IsADirectory;;
  if bool_decide (names fs !! to = Some i) then Ok (tt, fs)
  else Ok (tt, {| names := <[to := i]> (delete from (names fs)); inodes := inodes fs |}).
Definition unlink (p : path) (fs : Fs) : result Errno (unit * Fs) :=
  place ← locate false fs p;
  '(_, inode) ← lookup_at fs place;
  reject (is_dir inode) IsADirectory;;
  Ok (tt, {| names := delete place (names fs); inodes := inodes fs |}).
End Calls.

(** ** System calls in sequence *)

(** What the script holds for the next call. *)
Inductive answer : Type :=
  | Proceed
  | Short (n : nat)
  | Fault (e : Errno).
(** [history]: every state of the disk, the latest first. *)
Record Sys := { disk : Fs; answers : list answer; history : list Fs }.
Definition boot (fs : Fs) (script : list answer) : Sys := {| disk := fs; answers := script; history := [fs] |}.

Inductive io (E A : Type) : Type := IO (run : Sys -> result E A * Sys).
Arguments IO {E A} run.
Definition run_io {E A} (c : io E A) : Sys -> result E A * Sys := let 'IO run := c in run.

#[export] Instance io_ret {E} : MRet (io E) := fun A a => IO (fun s => (Ok a, s)).
#[export] Instance io_bind {E} : MBind (io E) := fun A B f m =>
  IO (fun s => match run_io m s with
               | (Ok a, s) => run_io (f a) s
               | (Err e, s) => (Err e, s)
               end).
(** A result that needs no call. *)
Definition lift {E A} (r : result E A) : io E A := IO (fun s => (r, s)).
(** [.map_err(f)] and the observation of an outcome. *)
Definition io_map_err {E F A} (f : E -> F) (c : io E A) : io F A :=
  IO (fun s => let '(r, s) := run_io c s in (map_err f r, s)).
Definition attempt {E F A} (c : io E A) : io F (result E A) :=
  IO (fun s => let '(r, s) := run_io c s in (Ok r, s)).

Definition next_answer (s : Sys) : answer * Sys :=
  match answers s with
  | [] => (Proceed, s)
  | a :: rest => (a, {| disk := disk s; answers := rest; history := history s |})
  end.
Definition become (fs : Fs) (s : Sys) : Sys := {| disk := fs; answers := answers s; history := fs :: history s |}.

(** A call that may change the disk. *)
Definition call {A} (f : Fs -> result Errno (A * Fs)) : io Errno A :=
  IO (fun s => match next_answer s with
               | (Fault e, s) => (Err e, s)
               | (_, s) => match f (disk s) with
                           | Ok (a, fs) => (Ok a, become fs s)
                           | Err e => (Err e, s)
                           end
               end).
(** A call that only reads. *)
Definition query {A} (f : Fs -> result Errno A) : io Errno A :=
  IO (fun s => match next_answer s with
               | (Fault e, s) => (Err e, s)
               | (_, s) => (f (disk s), s)
               end).
(** [Path::exists] and [Path::is_dir], which turn an error into [false]: they read the
    disk, and are taken not to fail on their own. *)
Definition holds {E} (f : Fs -> result Errno bool) : io E bool :=
  IO (fun s => (Ok (default false (ok (f (disk s)))), s)).

(** [write_all]: writes until nothing is left; each one takes at least a byte. *)
Fixpoint write_loop (fuel : nat) (i : N) (data : bytes) : io Errno unit :=
  match fuel, data with
  | S fuel, _ :: _ =>
      IO (fun s => match next_answer s with
                   | (Fault e, s) => (Err e, s)
                   | (a, s) =>
                       let n := match a with Short n => Nat.max 1 (Nat.min n (length data)) | _ => length data end in
                       run_io (write_loop fuel i (drop n data))
                              (become (update_inode i (append_content (take n data)) (disk s)) s)
                   end)
  | _, _ => mret tt
  end.
Definition write_all (i : N) (data : bytes) : io Errno unit := write_loop (length data) i data.
(** [sync_all] changes nothing that another process can see. *)
Definition sync_all (i : N) : io Errno unit := query (fun _ => Ok tt).

Section Library.
  Context {PR : Process}.

(** [fs::create_dir_all]: the deepest missing directories first. [ancestors] are the
    path and its parents, as long as they are not empty. *)
Fixpoint create_dirs (ancestors : list path) : io Errno unit :=
  match ancestors with
  | [] => mret tt
  | p :: above =>
      made ← attempt (call (mkdir p 511));
      match made with
      | Ok tt => mret tt
      | Err NotFound =>
          _ ← create_dirs above;
          again ← attempt (call (mkdir p 511));
          match again with
          | Ok tt => mret tt
          | Err e => d ← holds (fun fs => '(_, i) ← stat true p fs; Ok (is_dir i)); if d : bool then mret tt else lift (Err e)
          end
      | Err e => d ← holds (fun fs => '(_, i) ← stat true p fs; Ok (is_dir i)); if d : bool then mret tt else lift (Err e)
      end
  end.
Fixpoint ancestors (fuel : nat) (p : path) : list path :=
  match fuel with
  | O => []
  | S fuel => if is_empty p then [] else p :: match parent p with Some q => ancestors fuel q | None => [] end
  end.
Definition create_dir_all (p : path) : io Errno unit := create_dirs (ancestors (S (String.length p)) p).

End Library.
