(* ===== verification/PosixCorrect.v ===== *)
(** * Facts about the file system and its runs

    Resolution does not change while entries are added, and what a run of system calls
    can do to the disk: shared by the properties of the publication protocol, of the
    credential home and of the profile. *)

From S2P Require Import Prelude Paths Posix.
From stdpp Require Import options.

(** ** Resolution is stable while files and directories are added *)

Definition grows (fs fs' : Fs) : Prop :=
  (forall q inode, entry fs q = Some inode -> entry fs' q = Some inode)
  /\ (forall q inode, entry fs q = None -> entry fs' q = Some inode -> is_symlink inode = false).

Lemma grows_refl fs : grows fs fs.
Proof. split; [done|]. intros q inode He. by rewrite He. Qed.
Lemma grows_trans fs1 fs2 fs3 : grows fs1 fs2 -> grows fs2 fs3 -> grows fs1 fs3.
Proof.
  intros [Ha Hb] [Hc Hd]. split; [auto|]. intros q inode Hn Hs.
  destruct (entry fs2 q) as [inode2|] eqn:He; [|by apply (Hd q)].
  rewrite (Hc _ _ He) in Hs. injection Hs as <-. by apply (Hb q).
Qed.

(** Resolution depends on the directories and links only. *)
Definition passes (inode : Inode) : bool := is_dir inode || is_symlink inode.
Definition keeps (fs fs' : Fs) : Prop :=
  (forall q inode, entry fs q = Some inode -> passes inode = true -> entry fs' q = Some inode)
  /\ (forall q inode, (forall old, entry fs q = Some old -> passes old = false) -> entry fs' q = Some inode -> is_symlink inode = false).
Lemma grows_keeps fs fs' : grows fs fs' -> keeps fs fs'.
Proof.
  intros [Hold Hnew]. split; [auto|]. intros q inode Hq He.
  destruct (entry fs q) as [old|] eqn:Ho; [|by apply (Hnew q)].
  rewrite (Hold _ _ Ho) in He. injection He as <-. by destruct (proj1 (orb_false_iff _ _) (Hq _ eq_refl)).
Qed.

Lemma walk_keeps (fs fs' : Fs) (Hk : keeps fs fs') (links : nat) (follow : bool) :
  forall place todo r, walk links fs follow place todo = Ok r -> walk links fs' follow place todo = Ok r.
Proof.
  destruct Hk as [Hold Hnew]. induction links as [|links IHl]; intros place todo; revert place.
  all: induction todo as [|[| | |name] todo IH]; intros place r Hr; cbn in Hr |- *; auto.
  all: destruct (entry fs (place ++ [name])) as [inode|] eqn:He.
  all: try (destruct (file_type inode) eqn:Ht;
            [|rewrite (Hold _ _ He), Ht by (by unfold passes, is_dir, is_symlink; rewrite Ht); by auto
             |rewrite (Hold _ _ He), Ht by (by unfold passes, is_dir, is_symlink; rewrite Ht);
              destruct (bool_decide _ && negb follow); by auto
             |]).
  all: destruct (bool_decide (todo = [])) eqn:Hlast; [|done].
  all: injection Hr as <-; destruct (entry fs' (place ++ [name])) as [inode'|] eqn:He'; [|done].
  all: assert (Hs : is_symlink inode' = false)
         by (apply (Hnew _ _) in He'; [done|]; rewrite He; try done; intros old [= <-]; by unfold passes, is_dir, is_symlink; rewrite Ht).
  all: unfold is_symlink in Hs; destruct (file_type inode'); try done.
  all: by apply bool_decide_eq_true in Hlast as ->.
Qed.
Lemma walk_grows (fs fs' : Fs) (Hg : grows fs fs') links follow place todo r :
  walk links fs follow place todo = Ok r -> walk links fs' follow place todo = Ok r.
Proof. by apply walk_keeps, grows_keeps. Qed.
(** The place of something that is not a link is the same whether links are followed. *)
Lemma walk_follow (fs : Fs) (links : nat) :
  forall place todo r, walk links fs false place todo = Ok r ->
  (forall inode, entry fs r = Some inode -> is_symlink inode = false) -> walk links fs true place todo = Ok r.
Proof.
  induction links as [|links IHl]; intros place todo; revert place.
  all: induction todo as [|[| | |name] todo IH]; intros place r Hr Hno; cbn in Hr |- *; auto.
  all: destruct (entry fs (place ++ [name])) as [inode|] eqn:He; [|done].
  all: destruct (file_type inode) eqn:Ht; auto.
  all: destruct (bool_decide (todo = [])) eqn:Hlast; cbn in Hr |- *; auto.
  all: injection Hr as <-; specialize (Hno _ He); unfold is_symlink in Hno; by rewrite Ht in Hno.
Qed.

Lemma locate_keeps {PR : Process} (fs fs' : Fs) (Hk : keeps fs fs') follow p place :
  names_directory p = false -> locate follow fs p = Ok place -> locate follow fs' p = Ok place.
Proof.
  unfold locate. intros Hd. rewrite Hd. destruct (is_empty p); [done|].
  intros (place' & Hw & (_ & _ & [= ->])%bind_ok)%bind_ok.
  by rewrite (walk_keeps _ _ Hk _ _ _ _ _ Hw).
Qed.
Lemma locate_grows {PR : Process} (fs fs' : Fs) (Hg : grows fs fs') follow p place :
  names_directory p = false -> locate follow fs p = Ok place -> locate follow fs' p = Ok place.
Proof. by apply locate_keeps, grows_keeps. Qed.
Lemma locate_follow {PR : Process} (fs : Fs) p place :
  names_directory p = false -> locate false fs p = Ok place ->
  (forall inode, entry fs place = Some inode -> is_symlink inode = false) -> locate true fs p = Ok place.
Proof.
  unfold locate. intros Hd. rewrite Hd. destruct (is_empty p); [done|]. rewrite !orb_false_r.
  intros (place' & Hw & (_ & _ & [= ->])%bind_ok)%bind_ok Hno. by rewrite (walk_follow _ _ _ _ _ Hw Hno).
Qed.

(** An absolute path does not depend on who resolves it. *)
Lemma components_absolute p : is_absolute p = true -> exists rest, components p = RootDir :: rest.
Proof.
  unfold is_absolute, components. intros ->. destruct (pieces p) eqn:Hp; [|eauto].
  unfold pieces in Hp. destruct p as [|c p]; [done|]. cbn in Hp.
  destruct (is_separator c); [done|]. by destruct (split_str is_separator p).
Qed.
Lemma locate_absolute (P Q : Process) follow fs p :
  is_absolute p = true -> @locate P follow fs p = @locate Q follow fs p.
Proof.
  intros (rest & Hc)%components_absolute. unfold locate. rewrite Hc. destruct (is_empty p); [done|].
  reflexivity.
Qed.

Lemma ldiff_disjoint a b : N.land a b = 0%N -> N.ldiff a b = a.
Proof.
  intros H. apply N.bits_inj. intros n. rewrite N.ldiff_spec.
  assert (Hb : N.testbit (N.land a b) n = false) by (rewrite H; apply N.bits_0).
  rewrite N.land_spec in Hb. destruct (N.testbit a n), (N.testbit b n); done.
Qed.

Definition well_formed (fs : Fs) : Prop := forall q i, names fs !! q = Some i -> is_Some (inodes fs !! i).

Lemma well_formed_decided fs : bool_decide (map_Forall (fun _ i => is_Some (inodes fs !! i)) (names fs)) = true -> well_formed fs.
Proof. intros Hd. exact (proj1 (bool_decide_eq_true _) Hd). Qed.
Lemma fresh_absent fs : inodes fs !! fresh_inode fs = None.
Proof. apply not_elem_of_dom. unfold fresh_inode. apply is_fresh. Qed.

Lemma fresh_unnamed fs (Hwf : well_formed fs) q : names fs !! q <> Some (fresh_inode fs).
Proof. intros Hq. destruct (Hwf _ _ Hq) as [inode Hi]. by rewrite fresh_absent in Hi. Qed.

Lemma entry_absent fs place : names fs !! place = None -> entry fs place = None.
Proof. unfold entry. by intros ->. Qed.

(** [fs] with a new inode at [place], or with the inode only. *)
Definition fresh_at (fs : Fs) (place : list string) (inode : Inode) : Fs :=
  {| names := <[place := fresh_inode fs]> (names fs); inodes := <[fresh_inode fs := inode]> (inodes fs) |}.
Definition fresh_only (fs : Fs) (inode : Inode) : Fs :=
  {| names := names fs; inodes := <[fresh_inode fs := inode]> (inodes fs) |}.
Lemma entry_fresh fs (Hwf : well_formed fs) place inode q :
  entry (fresh_at fs place inode) q = if decide (q = place) then Some inode else entry fs q.
Proof.
  unfold entry, fresh_at. cbn. destruct (decide (q = place)) as [->|Hne].
  - rewrite lookup_insert_eq. cbn. by rewrite lookup_insert_eq.
  - rewrite lookup_insert_ne by done. destruct (names fs !! q) as [i|] eqn:Hq; [|done]. cbn.
    rewrite lookup_insert_ne; [done|]. intros <-. by apply (fresh_unnamed fs Hwf q).
Qed.
Lemma entry_fresh_only fs (Hwf : well_formed fs) inode q : entry (fresh_only fs inode) q = entry fs q.
Proof.
  unfold entry, fresh_only. cbn. destruct (names fs !! q) as [i|] eqn:Hq; [|done]. cbn.
  rewrite lookup_insert_ne; [done|]. intros <-. by apply (fresh_unnamed fs Hwf q).
Qed.
Lemma lookup_fresh fs place inode : lookup_at (fresh_at fs place inode) place = Ok (fresh_inode fs, inode).
Proof. unfold lookup_at, fresh_at. cbn [names inodes]. rewrite lookup_insert_eq. cbn. by rewrite lookup_insert_eq. Qed.
(** A regular file put where there was one, or nothing, changes no resolution. *)
Lemma fresh_keeps fs (Hwf : well_formed fs) place inode : is_dir inode = false -> is_symlink inode = false ->
  (forall old, entry fs place = Some old -> is_file old = true) -> keeps fs (fresh_at fs place inode).
Proof.
  intros Hd Hl Hold. split; intros q old; rewrite entry_fresh by done; destruct (decide (q = place)) as [->|]; try done.
  - intros Ho Hp. specialize (Hold _ Ho). unfold passes, is_dir, is_symlink in Hp. unfold is_file in Hold. by destruct (file_type old).
  - by intros _ [= <-].
  - intros Hp Ho. by destruct (proj1 (orb_false_iff _ _) (Hp _ Ho)).
Qed.

Section Stat.
  Context {PR : Process}.

Lemma lookup_at_entry fs place i inode : lookup_at fs place = Ok (i, inode) -> entry fs place = Some inode.
Proof.
  unfold lookup_at, entry. destruct (names fs !! place) as [j|]; [|done]. cbn.
  destruct (inodes fs !! j) as [n|] eqn:Hj; [|done]. cbn. intros [= <- <-]. done.
Qed.
(** What exists is found at the same place later. *)
Lemma locate_existing_grows fs fs' follow p place i inode :
  grows fs fs' -> locate follow fs p = Ok place -> lookup_at fs place = Ok (i, inode) ->
  locate follow fs' p = Ok place /\ exists j, lookup_at fs' place = Ok (j, inode).
Proof.
  intros Hg Hl He%lookup_at_entry. pose proof (proj1 Hg _ _ He) as He'. split.
  - revert Hl. unfold locate. destruct (is_empty p); [done|]. intros (place' & Hw & ([] & Hr & [= ->])%bind_ok)%bind_ok.
    rewrite (walk_grows _ _ Hg _ _ _ _ _ Hw). cbn. rewrite He'. rewrite He in Hr. by rewrite Hr.
  - revert He'. unfold lookup_at, entry. destruct (names fs' !! place) as [j|]; [|done]. cbn. intros ->. by exists j.
Qed.
Lemma stat_grows fs fs' follow p i inode :
  grows fs fs' -> stat follow p fs = Ok (i, inode) -> exists j, stat follow p fs' = Ok (j, inode).
Proof.
  intros Hg (place & Hl & He)%bind_ok. destruct (locate_existing_grows _ _ _ _ _ _ _ Hg Hl He) as [Hl' [j Hj]].
  exists j. unfold stat. rewrite Hl'. exact Hj.
Qed.
Lemma canonicalize_grows fs fs' p c : grows fs fs' -> canonicalize p fs = Ok c -> canonicalize p fs' = Ok c.
Proof.
  intros Hg (place & Hl & ([i inode] & He & [= <-])%bind_ok)%bind_ok.
  destruct (locate_existing_grows _ _ _ _ _ _ _ Hg Hl He) as [Hl' [j Hj]].
  unfold canonicalize. rewrite Hl'. cbn. by rewrite Hj.
Qed.

End Stat.

(** ** Runs *)

(** The run went through the states [through], the latest first, and left the disk at the
    last of them. *)
Record goes {E A} (c : io E A) (s : Sys) (r : result E A) (s' : Sys) (through : list Fs) : Prop := {
  goes_run : run_io c s = (r, s');
  goes_history : history s' = through ++ history s;
  goes_disk : disk s' = default (disk s) (head through)
}.

Lemma run_bind {E A B} (c : io E A) (f : A -> io E B) s :
  run_io (c ≫= f) s = match run_io c s with (Ok a, s) => run_io (f a) s | (Err e, s) => (Err e, s) end.
Proof. done. Qed.
Lemma run_map_err {E F A} (g : E -> F) (c : io E A) s : run_io (io_map_err g c) s = (map_err g (run_io c s).1, (run_io c s).2).
Proof. destruct c as [run]. cbn. by destruct (run s). Qed.
Lemma run_attempt {E F A} (c : io E A) s : run_io (attempt (F:=F) c) s = (Ok (run_io c s).1, (run_io c s).2).
Proof. destruct c as [run]. cbn. by destruct (run s). Qed.
Definition current (s : Sys) : Prop := head (history s) = Some (disk s).
Lemma goes_current {E A} (c : io E A) s r s' through : goes c s r s' through -> current s -> current s'.
Proof. unfold current. intros [_ -> ->] Hs. by destruct through. Qed.

Lemma goes_ret {E A} (a : A) s : goes (mret (M:=io E) a) s (Ok a) s [].
Proof. by split. Qed.
Lemma goes_lift {E A} (r : result E A) s : goes (lift r) s r s [].
Proof. by split. Qed.
Lemma head_after (l l' : list Fs) d : default (default d (head l)) (head l') = default d (head (l' ++ l)).
Proof. by destruct l'. Qed.
Lemma goes_bind {E A B} (c : io E A) (f : A -> io E B) s a s1 t1 r s2 t2 :
  goes c s (Ok a) s1 t1 -> goes (f a) s1 r s2 t2 -> goes (c ≫= f) s r s2 (t2 ++ t1).
Proof.
  intros [H1 H2 H3] [H4 H5 H6]. split.
  - by rewrite run_bind, H1.
  - by rewrite H5, H2, app_assoc.
  - by rewrite H6, H3, head_after.
Qed.
Lemma goes_bind_err {E A B} (c : io E A) (f : A -> io E B) s e s1 t1 :
  goes c s (Err e) s1 t1 -> goes (c ≫= f) s (Err e) s1 t1.
Proof. intros [H1 H2 H3]. split; [by rewrite run_bind, H1|done|done]. Qed.
Lemma goes_map_err {E F A} (g : E -> F) (c : io E A) s r s1 t :
  goes c s r s1 t -> goes (io_map_err g c) s (map_err g r) s1 t.
Proof. intros [H1 H2 H3]. split; [by rewrite run_map_err, H1|done|done]. Qed.
Lemma goes_attempt {E F A} (c : io E A) s r s1 t : goes c s r s1 t -> goes (attempt (F:=F) c) s (Ok r) s1 t.
Proof. intros [H1 H2 H3]. split; [by rewrite run_attempt, H1|done|done]. Qed.
Lemma goes_holds {E} f s : goes (holds (E:=E) f) s (Ok (default false (ok (f (disk s))))) s [].
Proof. by split. Qed.

(** The next answer of the script changes neither the disk nor the history. *)
Lemma next_answer_same s a s' : next_answer s = (a, s') -> disk s' = disk s /\ history s' = history s.
Proof. unfold next_answer. destruct (answers s); by intros [= <- <-]. Qed.

Lemma call_goes {A} (f : Fs -> result Errno (A * Fs)) s :
  (exists e s', goes (call f) s (Err e) s' [])
  \/ (exists a fs s', f (disk s) = Ok (a, fs) /\ goes (call f) s (Ok a) s' [fs]).
Proof.
  destruct (next_answer s) as [w s1] eqn:Hn. destruct (next_answer_same _ _ _ Hn) as [Hd Hh].
  assert (Hrun : (exists e, run_io (call f) s = (Err e, s1))
                 \/ (exists a fs, f (disk s) = Ok (a, fs) /\ run_io (call f) s = (Ok a, become fs s1))).
  { cbn. rewrite Hn, Hd. destruct w; [| |eauto]. all: destruct (f (disk s)) as [[a fs]|e]; eauto 6. }
  destruct Hrun as [[e He]|(a & fs & Hf & Hr)]; [left|right].
  - exists e, s1. by split.
  - exists a, fs, (become fs s1). split; [done|]. split; [done|cbn; by rewrite Hh|done].
Qed.
Lemma query_goes {A} (f : Fs -> result Errno A) s : exists r s', goes (query f) s r s' [] /\ (forall a, r = Ok a -> f (disk s) = Ok a).
Proof.
  destruct (next_answer s) as [w s1] eqn:Hn. destruct (next_answer_same _ _ _ Hn) as [Hd Hh].
  assert (Hrun : exists r, run_io (query f) s = (r, s1) /\ (forall a, r = Ok a -> f (disk s) = Ok a)).
  { cbn. rewrite Hn, Hd. destruct w; eauto. eexists. split; [done|]. done. }
  destruct Hrun as (r & Hr & Ha). exists r, s1. split; [by split|done].
Qed.


(** ** What a successful run did *)

Lemma run_bind_ok {E A B} (c : io E A) (f : A -> io E B) s b s2 :
  run_io (c ≫= f) s = (Ok b, s2) -> exists a s1, run_io c s = (Ok a, s1) /\ run_io (f a) s1 = (Ok b, s2).
Proof. rewrite run_bind. destruct (run_io c s) as [[a|e] s1]; [eauto|done]. Qed.
Lemma run_lift_ok {E A} (r : result E A) s a s' : run_io (lift r) s = (Ok a, s') -> r = Ok a /\ s' = s.
Proof. cbn. intros [= -> ->]. done. Qed.
Lemma run_ret_ok {E A} (a b : A) s s' : run_io (mret (M:=io E) a) s = (Ok b, s') -> b = a /\ s' = s.
Proof. cbn. intros [= -> ->]. done. Qed.
Lemma run_map_err_ok {E F A} (g : E -> F) (c : io E A) s a s' : run_io (io_map_err g c) s = (Ok a, s') -> run_io c s = (Ok a, s').
Proof. rewrite run_map_err. destruct (run_io c s) as [[x|e] s1]; cbn; [by intros [= -> ->]|done]. Qed.
Lemma run_query_ok {A} (f : Fs -> result Errno A) s a s' : run_io (query f) s = (Ok a, s') -> f (disk s) = Ok a /\ disk s' = disk s.
Proof.
  destruct (query_goes f s) as (r & s1 & [Hr _ Hd] & Ha). rewrite Hr. intros [= -> ->]. auto.
Qed.
(** Without a script, a query is its function. *)
Lemma run_query_quiet {A} (f : Fs -> result Errno A) s : answers s = [] -> run_io (query f) s = (f (disk s), s).
Proof. cbn. unfold next_answer. by intros ->. Qed.
Lemma run_attempt_ok {E F A} (c : io E A) s r s' : run_io (attempt (F:=F) c) s = (Ok r, s') -> run_io c s = (r, s').
Proof. rewrite run_attempt. destruct (run_io c s) as [x s1]. by intros [= -> ->]. Qed.
Lemma run_holds_ok {E} f s b s' : run_io (holds (E:=E) f) s = (Ok b, s') -> b = default false (ok (f (disk s))) /\ s' = s.
Proof. cbn. intros [= -> ->]. done. Qed.

(** One step of a successful run, recognised by its head. *)
Ltac run_step H :=
  lazymatch type of H with
  | run_io (_ ≫= _) _ = (Ok _, _) =>
      let a := fresh "a" in let s := fresh "s" in let H1 := fresh "Hstep" in
      apply run_bind_ok in H as (a & s & H1 & H); cbv beta zeta in H; run_step H1
  | run_io (lift _) _ = (Ok _, _) => apply run_lift_ok in H as [H ?]; subst
  | run_io (mret _) _ = (Ok _, _) => apply run_ret_ok in H as [? ?]; subst
  | run_io (io_map_err _ _) _ = (Ok _, _) => apply run_map_err_ok in H; run_step H
  | run_io (query _) _ = (Ok _, _) => let Hd := fresh "Hdisk" in apply run_query_ok in H as [H Hd]
  | run_io (attempt _) _ = (Ok _, _) => apply run_attempt_ok in H
  | run_io (holds _) _ = (Ok _, _) => apply run_holds_ok in H as [H ?]; subst
  | _ => idtac
  end.

(** ** Runs that only make private directories *)

Section Directories.
  Context {PR : Process}.

Definition private_dir : Inode := {| file_type := Directory; mode := N.ldiff 448 umask; uid := geteuid |}.
Record makes_dirs (fs fs' : Fs) : Prop := {
  dirs_kept q inode : entry fs q = Some inode -> entry fs' q = Some inode;
  dirs_made q inode : entry fs q = None -> entry fs' q = Some inode -> inode = private_dir;
  dirs_well_formed : well_formed fs -> well_formed fs'
}.

Lemma makes_dirs_refl fs : makes_dirs fs fs.
Proof. split; [done| |done]. intros q inode He. by rewrite He. Qed.
Lemma makes_dirs_trans fs1 fs2 fs3 : makes_dirs fs1 fs2 -> makes_dirs fs2 fs3 -> makes_dirs fs1 fs3.
Proof.
  intros [Ha Hb Hc] [Hd He Hf]. split; [auto| |auto]. intros q inode Hn Hs.
  destruct (entry fs2 q) as [inode2|] eqn:H2; [|by apply (He q)].
  rewrite (Hd _ _ H2) in Hs. injection Hs as <-. by apply (Hb q).
Qed.
#[export] Instance makes_dirs_preorder : PreOrder makes_dirs.
Proof. split; [exact makes_dirs_refl|exact makes_dirs_trans]. Qed.
Lemma makes_dirs_grows fs fs' : makes_dirs fs fs' -> grows fs fs'.
Proof. intros [Ha Hb _]. split; [done|]. intros q inode Hn Hs. by rewrite (Hb _ _ Hn Hs). Qed.

Lemma mkdir_makes p fs fs' : well_formed fs -> mkdir p 448 fs = Ok (tt, fs') -> makes_dirs fs fs'.
Proof.
  intros Hwf. unfold mkdir, create. intros ([i fs1] & (place & Hl & (u & Hfree%reject_ok & [= <- <-])%bind_ok)%bind_ok & [= <-])%bind_ok.
  apply bool_decide_eq_false in Hfree. rewrite <- eq_None_not_Some in Hfree.
  assert (He : forall q, entry (add_entry place Directory 448 fs).2 q = if decide (q = place) then Some private_dir else entry fs q).
  { intros q. unfold entry, add_entry. cbn. destruct (decide (q = place)) as [->|Hne].
    - rewrite lookup_insert_eq. cbn. by rewrite lookup_insert_eq.
    - rewrite lookup_insert_ne by done. destruct (names fs !! q) as [j|] eqn:Hq; [|done]. cbn.
      rewrite lookup_insert_ne; [done|]. intros <-. by apply (fresh_unnamed fs Hwf q). }
  split.
  - intros q inode Hq. rewrite He. destruct (decide (q = place)) as [->|]; [|done]. by rewrite entry_absent in Hq.
  - intros q inode Hq. rewrite He. destruct (decide (q = place)) as [->|]; [by intros [= <-]|]. by rewrite Hq.
  - intros _ q j. cbn. destruct (decide (q = place)) as [->|Hne].
    + rewrite lookup_insert_eq. intros [= <-]. rewrite lookup_insert_eq. eauto.
    + rewrite lookup_insert_ne by done. intros (inode & Hi)%Hwf. rewrite lookup_insert_is_Some.
      destruct (decide (fresh_inode fs = j)); eauto.
Qed.

(** Whatever the outcome. *)
Definition tidy {E A} (c : io E A) : Prop :=
  forall s, well_formed (disk s) -> makes_dirs (disk s) (disk (run_io c s).2).

Lemma tidy_bind {E A B} (c : io E A) (f : A -> io E B) : tidy c -> (forall a, tidy (f a)) -> tidy (c ≫= f).
Proof.
  intros Hc Hf s Hwf. rewrite run_bind. pose proof (Hc s Hwf) as H1. destruct (run_io c s) as [[a|e] s1]; [|done].
  etrans; [exact H1|]. apply Hf. by apply (dirs_well_formed _ _ H1).
Qed.
Lemma tidy_lift {E A} (r : result E A) : tidy (lift r).
Proof. intros s _. apply makes_dirs_refl. Qed.
Lemma tidy_ret {E A} (a : A) : tidy (mret (M:=io E) a).
Proof. intros s _. apply makes_dirs_refl. Qed.
Lemma tidy_map_err {E F A} (g : E -> F) (c : io E A) : tidy c -> tidy (io_map_err g c).
Proof. intros Hc s Hwf. rewrite run_map_err. by apply Hc. Qed.
Lemma tidy_attempt {E F A} (c : io E A) : tidy c -> tidy (attempt (F:=F) c).
Proof. intros Hc s Hwf. rewrite run_attempt. by apply Hc. Qed.
Lemma tidy_holds {E} f : tidy (holds (E:=E) f).
Proof. intros s _. apply makes_dirs_refl. Qed.
Lemma tidy_query {A} (f : Fs -> result Errno A) : tidy (query f).
Proof. intros s _. destruct (query_goes f s) as (r & s1 & [-> _ Hd] & _). cbn in *. rewrite Hd. apply makes_dirs_refl. Qed.
Lemma tidy_mkdir p : tidy (call (mkdir p 448)).
Proof.
  intros s Hwf. destruct (call_goes (mkdir p 448) s) as [(e & s1 & [-> _ Hd])|([] & fs & s1 & Hf & [-> _ Hd])]; cbn in *; rewrite Hd.
  - apply makes_dirs_refl.
  - by eapply mkdir_makes.
Qed.

Lemma existing_mkdir p m fs found : stat false p fs = Ok found -> mkdir p m fs = Err AlreadyExists.
Proof.
  intros (place & Hl & Hf)%bind_ok. unfold mkdir, create. rewrite Hl. cbn [mbind result_bind].
  unfold lookup_at in Hf. destruct (names fs !! place) as [i|]; [|done].
  rewrite bool_decide_eq_true_2 by eauto. done.
Qed.

(** A private directory of this user, as [lstat] shows it. *)
Definition private_at (p : path) (fs : Fs) : Prop :=
  exists i inode, stat false p fs = Ok (i, inode) /\ is_dir inode = true /\ permissions inode = 448%N /\ uid inode = geteuid.
Lemma private_at_later p fs fs' : grows fs fs' -> private_at p fs -> private_at p fs'.
Proof. intros Hg (i & inode & Hs & Hr). destruct (stat_grows _ _ _ _ _ _ Hg Hs) as [j Hj]. by exists j, inode. Qed.

End Directories.

Create HintDb tidy.
#[export] Hint Resolve tidy_lift tidy_ret tidy_map_err tidy_attempt tidy_holds tidy_query tidy_mkdir : tidy.
(** Walks a program and leaves what is not known to be tidy. *)
Ltac tidy :=
  repeat first
    [ apply tidy_bind; [|intros ?]
    | solve [eauto with tidy]
    | match goal with |- tidy (match ?x with _ => _ end) => destruct x end
    | progress cbv beta zeta ].

(** ** Runs that leave the disk alone *)

Definition still {E A} (fs : Fs) (c : io E A) : Prop := forall s, disk s = fs -> exists r s', goes c s r s' [].

Lemma still_bind {E A B} fs (c : io E A) (f : A -> io E B) : still fs c -> (forall a, still fs (f a)) -> still fs (c ≫= f).
Proof.
  intros Hc Hf s Hs. destruct (Hc s Hs) as ([a|e] & s1 & Hg); [|exists (Err e), s1; by apply goes_bind_err].
  destruct (Hf a s1) as (r & s2 & Hg2); [by rewrite (goes_disk _ _ _ _ _ Hg)|].
  exists r, s2. exact (goes_bind _ _ _ _ _ _ _ _ _ Hg Hg2).
Qed.
Lemma still_lift {E A} fs (r : result E A) : still fs (lift r).
Proof. intros s _. exists r, s. apply goes_lift. Qed.
Lemma still_ret {E A} fs (a : A) : still fs (mret (M:=io E) a).
Proof. intros s _. exists (Ok a), s. apply goes_ret. Qed.
Lemma still_map_err {E F A} fs (g : E -> F) (c : io E A) : still fs c -> still fs (io_map_err g c).
Proof. intros Hc s Hs. destruct (Hc s Hs) as (r & s' & Hg). exists (map_err g r), s'. by apply goes_map_err. Qed.
Lemma still_attempt {E F A} fs (c : io E A) : still fs c -> still fs (attempt (F:=F) c).
Proof. intros Hc s Hs. destruct (Hc s Hs) as (r & s' & Hg). exists (Ok r), s'. by apply goes_attempt. Qed.
Lemma still_holds {E} fs f : still fs (holds (E:=E) f).
Proof. intros s _. eexists _, s. apply goes_holds. Qed.
Lemma still_query {A} fs (f : Fs -> result Errno A) : still fs (query f).
Proof. intros s _. destruct (query_goes f s) as (r & s' & Hg & _). eauto. Qed.
(** A call that has to fail. *)
Lemma still_call {A} fs (f : Fs -> result Errno (A * Fs)) e : f fs = Err e -> still fs (call f).
Proof.
  intros Hf s Hs. destruct (call_goes f s) as [(e' & s' & Hg)|(a & fs' & s' & Hok & _)]; [eauto|].
  rewrite Hs, Hf in Hok. done.
Qed.
(** The outcome of the run and the states it goes through. *)
Definition ends {E A} (c : io E A) (s : Sys) (Q : result E A -> list Fs -> Prop) : Prop :=
  exists r s' through, goes c s r s' through /\ Q r through.
(** A first part that leaves the disk alone fails there, or the rest decides. *)
Lemma ends_still {E A B} (c : io E A) (f : A -> io E B) s Q : still (disk s) c -> (forall e, Q (Err e) []) ->
  (forall a s1, run_io c s = (Ok a, s1) -> disk s1 = disk s -> ends (f a) s1 Q) -> ends (c ≫= f) s Q.
Proof.
  intros Hc He Hf. destruct (Hc s eq_refl) as ([a|e] & s1 & Hg).
  - destruct (Hf a s1) as (r & s2 & t & Hg2 & HQ); [by apply goes_run in Hg|exact (goes_disk _ _ _ _ _ Hg)|].
    exists r, s2, t. split; [|done]. rewrite <- (app_nil_r t). by eapply goes_bind.
  - exists (Err e), s1, []. split; [by apply goes_bind_err|done].
Qed.
(** A last part that only answers. *)
Lemma ends_answer {E A B} (c : io E A) (b : B) s Q :
  ends c s (fun r t => Q (match r with Ok _ => Ok b | Err e => Err e end) t) -> ends (c ≫= fun _ => mret b) s Q.
Proof.
  intros ([a|e] & s1 & t & Hg & HQ).
  - exists (Ok b), s1, t. split; [|done]. exact (goes_bind c (fun _ => mret b) _ _ _ _ _ _ [] Hg (goes_ret _ _)).
  - exists (Err e), s1, t. split; [by apply goes_bind_err|done].
Qed.

Create HintDb still.
#[export] Hint Resolve still_lift still_ret still_map_err still_attempt still_holds still_query still_call : still.
(** Walks a program and leaves what is not known to be still. *)
Ltac still :=
  repeat first
    [ apply still_bind; [|intros ?]
    | solve [eauto with still]
    | match goal with |- still _ (match ?x with _ => _ end) => destruct x end
    | progress cbv beta zeta ].
