(* ===== verification/Json.v ===== *)
(** * JSON values

    [serde_json::Value] as the source uses it. The workspace builds [serde_json]
    without [preserve_order], so [serde_json::Map] is a [BTreeMap<String, Value>]:
    an object is the list of its members in key order, and [obj_insert] keeps it so.
    Numbers are the three shapes of [serde_json::Number]; a float is kept as the text
    it prints as, since the source never computes with one.

    Parsing and printing belong to [serde_json] and are an interface: [SerdeJson]
    holds the two functions and [SerdeJsonLaws] the documented behaviour the source
    relies on. *)

From S2P Require Import Prelude Utf8.
From stdpp Require Import options.

Inductive number : Type :=
  | PosInt (n : N)
  | NegInt (z : Z)
  | Float (repr : string).

#[local] Unset Elimination Schemes.
Inductive value : Type :=
  | JNull
  | JBool (b : bool)
  | JNumber (n : number)
  | JString (s : string)
  | JArray (l : list value)
  | JObject (m : list (string * value)).
#[local] Set Elimination Schemes.

Abbreviation obj := (list (string * value)).

Fixpoint value_ind (P : value -> Prop) (Hnull : P JNull) (Hbool : forall b, P (JBool b))
    (Hnum : forall n, P (JNumber n)) (Hstr : forall s, P (JString s))
    (Harr : forall l, Forall P l -> P (JArray l))
    (Hobj : forall m, Forall (fun kv => P (snd kv)) m -> P (JObject m)) (v : value) : P v :=
  let rec := value_ind P Hnull Hbool Hnum Hstr Harr Hobj in
  match v with
  | JNull => Hnull
  | JBool b => Hbool b
  | JNumber n => Hnum n
  | JString s => Hstr s
  | JArray l => Harr l ((fix each l := match l return Forall P l with
                                       | [] => Forall_nil_2 P
                                       | w :: l' => Forall_cons_2 P w l' (rec w) (each l')
                                       end) l)
  | JObject m => Hobj m ((fix each m := match m return Forall (fun kv => P (snd kv)) m with
                                        | [] => Forall_nil_2 _
                                        | kv :: m' => Forall_cons_2 _ kv m' (rec (snd kv)) (each m')
                                        end) m)
  end.

(** ** [serde_json::Map] *)

Fixpoint obj_get (k : string) (m : obj) : option value :=
  match m with
  | [] => None
  | (k', v) :: m' => if String.eqb k k' then Some v else obj_get k m'
  end.

Fixpoint obj_insert (k : string) (v : value) (m : obj) : obj :=
  match m with
  | [] => [(k, v)]
  | (k', v') :: m' =>
      match String.compare k k' with
      | Lt => (k, v) :: m
      | Eq => (k, v) :: m'
      | Gt => (k', v') :: obj_insert k v m'
      end
  end.

Definition obj_retain (p : string -> bool) (m : obj) : obj :=
  List.filter (fun kv => p (fst kv)) m.
Definition obj_remove (k : string) (m : obj) : obj :=
  obj_retain (fun k' => negb (String.eqb k k')) m.
Definition obj_contains_key (k : string) (m : obj) : bool := bool_decide (is_Some (obj_get k m)).

(** [map.get_mut(k)] followed by an in-place change. *)
Fixpoint obj_alter (f : value -> value) (k : string) (m : obj) : obj :=
  match m with
  | [] => []
  | (k', v) :: m' => if String.eqb k k' then (k', f v) :: m' else (k', v) :: obj_alter f k m'
  end.

(** [json!({k: v, ...})]: the members inserted one after the other. *)
Definition json_obj (members : list (string * value)) : value :=
  JObject (foldl (fun m kv => obj_insert (fst kv) (snd kv) m) [] members).

(** ** [serde_json::Value] *)

Definition vget (k : string) (v : value) : option value :=
  match v with JObject m => obj_get k m | _ => None end.
Definition as_str (v : value) : option string :=
  match v with JString s => Some s | _ => None end.
(** [serde_json] holds a non-negative integer as a [u64]. *)
Definition as_u64 (v : value) : option N :=
  match v with JNumber (PosInt n) => if (n <? u64_modulus)%N then Some n else None | _ => None end.
Definition as_array (v : value) : option (list value) :=
  match v with JArray l => Some l | _ => None end.
Definition as_object (v : value) : option obj :=
  match v with JObject m => Some m | _ => None end.
Definition is_null (v : value) : bool := match v with JNull => true | _ => false end.
Definition is_string (v : value) : bool := match v with JString _ => true | _ => false end.
Definition is_object (v : value) : bool := match v with JObject _ => true | _ => false end.

(** [value.get(k).and_then(Value::as_str)] and the like. *)
Definition get_str (k : string) (m : obj) : option string := obj_get k m ≫= as_str.
Definition vget_str (k : string) (v : value) : option string := vget k v ≫= as_str.

(** [Value::from] *)
Definition jnum (n : N) : value := JNumber (PosInt n).
Definition jopt_str (o : option string) : value :=
  match o with Some s => JString s | None => JNull end.
Definition jopt_num (o : option N) : value :=
  match o with Some n => jnum n | None => JNull end.

(** ** Decidable equality and a countable encoding *)

#[export] Instance number_eq_dec : EqDecision number.
Proof. solve_decision. Defined.

(** The tree encoding of a value. *)
Fixpoint value_tree (v : value) : gen_tree (bool + number + string) :=
  match v with
  | JNull => GenNode 0 []
  | JBool b => GenLeaf (inl (inl b))
  | JNumber n => GenLeaf (inl (inr n))
  | JString s => GenLeaf (inr s)
  | JArray l => GenNode 1 (value_tree <$> l)
  | JObject m => GenNode 2 ((fun kv => GenNode 3 [GenLeaf (inr (fst kv)); value_tree (snd kv)]) <$> m)
  end.
Fixpoint tree_value (t : gen_tree (bool + number + string)) : option value :=
  match t with
  | GenNode 0 [] => Some JNull
  | GenLeaf (inl (inl b)) => Some (JBool b)
  | GenLeaf (inl (inr n)) => Some (JNumber n)
  | GenLeaf (inr s) => Some (JString s)
  | GenNode 1 l => JArray <$> mapM tree_value l
  | GenNode 2 l => JObject <$> mapM (fun t => match t with
                                              | GenNode 3 [GenLeaf (inr k); t'] => pair k <$> tree_value t'
                                              | _ => None
                                              end) l
  | _ => None
  end.

Lemma tree_value_tree v : tree_value (value_tree v) = Some v.
Proof.
  induction v as [| | | |l IH|m IH] using value_ind; [done..| |]; simpl.
  - by rewrite (mapM_fmap_Forall_Some tree_value value_tree l IH).
  - rewrite mapM_fmap_Forall_Some; [done|].
    eapply Forall_impl; [exact IH|]. intros [k v] Hv. simpl in *. by rewrite Hv.
Qed.

#[export] Instance value_eq_dec : EqDecision value.
Proof.
  intros v w. destruct (decide (value_tree v = value_tree w)) as [H|H].
  - left. apply (f_equal tree_value) in H. rewrite !tree_value_tree in H. congruence.
  - right. congruence.
Defined.

#[export] Program Instance number_countable : Countable number :=
  inj_countable' (fun n => match n with PosInt n => inl (inl n) | NegInt z => inl (inr z) | Float r => inr r end)
                 (fun s => match s with inl (inl n) => PosInt n | inl (inr z) => NegInt z | inr r => Float r end) _.
Next Obligation. by intros []. Qed.
#[export] Instance value_countable : Countable value := inj_countable value_tree tree_value tree_value_tree.

(** ** Well-formed values

    What Rust's types guarantee: integers fit their width, object keys are sorted
    and distinct. [exact_value] also excludes floats, whose text [serde_json] may
    round. *)
Definition exact_number (n : number) : bool :=
  match n with
  | PosInt n => (n <? u64_modulus)%N
  | NegInt z => (Z.leb (- 2 ^ 63) z && Z.ltb z 0)%Z
  | Float _ => false
  end.
Definition str_lt (a b : string) : bool :=
  match String.compare a b with Lt => true | _ => false end.
Fixpoint keys_sorted (m : obj) : bool :=
  match m with
  | [] => true
  | (k, _) :: m' =>
      match m' with [] => true | (k', _) :: _ => str_lt k k' end && keys_sorted m'
  end.
Fixpoint exact_value (v : value) : bool :=
  match v with
  | JNumber n => exact_number n
  | JArray l => forallb exact_value l
  | JObject m => keys_sorted m && forallb (fun kv => exact_value (snd kv)) m
  | _ => true
  end.
Definition exact_obj (m : obj) : bool := exact_value (JObject m).

(** ** The [serde_json] interface *)

Class SerdeJson := {
  (** [serde_json::from_str::<Value>], the error as it displays *)
  from_str : string -> result string value;
  (** [Value]'s compact text: [to_string], [to_vec], [Display] *)
  to_string : value -> string
}.

(** Documented behaviour: printed values parse back; the compact text is one line of
    UTF-8 (control characters are escaped); [[DONE]] is not JSON; the reader builds
    maps in key order. *)
Class SerdeJsonLaws `{!SerdeJson} := {
  from_str_to_string v : exact_value v = true -> from_str (to_string v) = Ok v;
  to_string_utf8 v : utf8_valid (to_bytes (to_string v)) = true;
  to_string_one_line v : str_forallb (fun c => negb (is_line_end c)) (to_string v) = true;
  from_str_done : is_ok (from_str "[DONE]") = false
}.
Arguments SerdeJsonLaws _ : clear implicits.

(** [serde_json::from_slice]: the bytes must be UTF-8 text. *)
Definition from_slice `{!SerdeJson} (b : bytes) : option value :=
  s ← from_utf8 b; ok (from_str s).

Lemma from_slice_to_string {SJ : SerdeJson} {SJL : SerdeJsonLaws SJ} v :
  exact_value v = true -> from_slice (to_bytes (to_string v)) = Some v.
Proof.
  intros Hv. unfold from_slice. rewrite from_utf8_of_bytes by apply to_string_utf8. cbn [mbind option_bind].
  by rewrite of_to_bytes, from_str_to_string.
Qed.

(** ** Lemmas on maps *)

Lemma compare_refl k : String.compare k k = Eq.
Proof. pose proof (String.compare_antisym k k) as H. by destruct (String.compare k k). Qed.
Lemma eqb_compare k k' : String.eqb k k' = match String.compare k k' with Eq => true | _ => false end.
Proof.
  destruct (String.eqb_spec k k') as [->|Hne]; [by rewrite compare_refl|].
  destruct (String.compare k k') eqn:E; [|done..]. by apply String.compare_eq_iff in E.
Qed.

Lemma obj_get_insert_eq k v m : obj_get k (obj_insert k v m) = Some v.
Proof.
  induction m as [|[k' v'] m IH]; simpl; [by rewrite String.eqb_refl|].
  destruct (String.compare k k') eqn:E; simpl; [by rewrite String.eqb_refl..|].
  by rewrite eqb_compare, E.
Qed.

Lemma obj_get_insert_ne k k' v m : k <> k' -> obj_get k (obj_insert k' v m) = obj_get k m.
Proof.
  intros Hne. induction m as [|[k'' v'] m IH]; simpl.
  - by destruct (String.eqb_spec k k').
  - destruct (String.compare k' k'') eqn:E; simpl.
    + apply String.compare_eq_iff in E as ->. by destruct (String.eqb_spec k k'').
    + by destruct (String.eqb_spec k k').
    + by rewrite IH.
Qed.

Lemma obj_get_insert k k' v m :
  obj_get k (obj_insert k' v m) = if String.eqb k k' then Some v else obj_get k m.
Proof.
  destruct (String.eqb_spec k k') as [->|Hne].
  - apply obj_get_insert_eq.
  - by apply obj_get_insert_ne.
Qed.

Lemma obj_get_retain p k m :
  obj_get k (obj_retain p m) = if p k then obj_get k m else None.
Proof.
  unfold obj_retain. induction m as [|[k' v] m IH]; simpl; [by destruct (p k)|].
  destruct (String.eqb_spec k k') as [->|Hne].
  - destruct (p k'); simpl; [by rewrite String.eqb_refl|apply IH].
  - destruct (p k'); simpl; [|apply IH]. by destruct (String.eqb_spec k k').
Qed.

Lemma obj_get_remove k k' m :
  obj_get k (obj_remove k' m) = if String.eqb k' k then None else obj_get k m.
Proof. unfold obj_remove. rewrite obj_get_retain. by destruct (String.eqb k' k). Qed.

Lemma obj_get_alter f k k' m :
  obj_get k (obj_alter f k' m) = if String.eqb k k' then f <$> obj_get k m else obj_get k m.
Proof.
  induction m as [|[k'' v] m IH]; simpl; [by case_match|].
  destruct (String.eqb_spec k' k'') as [->|Hne]; simpl.
  - by destruct (String.eqb_spec k k'').
  - destruct (String.eqb_spec k k'') as [->|]; [|apply IH].
    by destruct (String.eqb_spec k'' k').
Qed.
#[export] Hint Rewrite obj_get_insert obj_get_remove obj_get_retain obj_get_alter : muse.

(** Sorted, distinct keys are kept by insertion. *)
Lemma compare_lt_gt a b : String.compare a b = Lt <-> String.compare b a = Gt.
Proof. rewrite (String.compare_antisym a b). destruct (String.compare b a); simpl; split; congruence. Qed.

Lemma keys_sorted_cons k v m :
  keys_sorted ((k, v) :: m) =
  match m with [] => true | (k', _) :: _ => str_lt k k' end && keys_sorted m.
Proof. done. Qed.

Lemma keys_sorted_insert k v m : keys_sorted m = true -> keys_sorted (obj_insert k v m) = true.
Proof.
  induction m as [|[k' v'] m IH]; [done|]. rewrite keys_sorted_cons.
  intros [Hhd Hm]%andb_prop. specialize (IH Hm). cbn [obj_insert].
  destruct (String.compare k k') eqn:E; rewrite ?keys_sorted_cons.
  - apply String.compare_eq_iff in E as ->. by rewrite Hhd, Hm.
  - unfold str_lt at 1. by rewrite E, Hhd, Hm.
  - rewrite IH, andb_true_r. apply compare_lt_gt in E.
    destruct m as [|[k'' v''] m]; cbn [obj_insert]; [unfold str_lt; by rewrite E|].
    destruct (String.compare k k''); try done; unfold str_lt; by rewrite E.
Qed.

(** Reading a literal object. *)
Fixpoint last_get (k : string) (l : list (string * value)) (acc : option value) : option value :=
  match l with
  | [] => acc
  | (k', v) :: l' => last_get k l' (if String.eqb k k' then Some v else acc)
  end.
Lemma obj_get_foldl k l m :
  obj_get k (foldl (fun m kv => obj_insert (fst kv) (snd kv) m) m l) = last_get k l (obj_get k m).
Proof. revert m. induction l as [|[k' v] l IH]; intros m; [done|]. simpl. by rewrite IH, obj_get_insert. Qed.
Lemma vget_json_obj k l : vget k (json_obj l) = last_get k l None.
Proof. unfold json_obj, vget. apply (obj_get_foldl k l []). Qed.
Lemma vget_str_json_obj k l : vget_str k (json_obj l) = last_get k l None ≫= as_str.
Proof. unfold vget_str. by rewrite vget_json_obj. Qed.
Lemma as_object_json_obj l :
  as_object (json_obj l) = Some (foldl (fun m kv => obj_insert (fst kv) (snd kv) m) [] l).
Proof. done. Qed.
#[export] Hint Rewrite vget_json_obj vget_str_json_obj as_object_json_obj obj_get_foldl : muse.

Lemma exact_obj_nil : exact_obj [] = true.
Proof. done. Qed.

Lemma exact_obj_insert k v m :
  exact_value v = true -> exact_obj m = true -> exact_obj (obj_insert k v m) = true.
Proof.
  unfold exact_obj. simpl. intros Hv [Hs Hm]%andb_prop.
  apply andb_true_intro. split; [by apply keys_sorted_insert|]. clear Hs.
  induction m as [|[k' v'] m IH]; simpl in *; [by rewrite Hv|].
  apply andb_prop in Hm as [Hv' Hm].
  destruct (String.compare k k'); simpl; [by rewrite Hv, Hm|by rewrite Hv, Hv', Hm|by rewrite Hv', IH].
Qed.

Lemma exact_json_obj members :
  forallb (fun kv => exact_value (snd kv)) members = true -> exact_value (json_obj members) = true.
Proof.
  unfold json_obj. assert (Hnil : exact_obj [] = true) by done. revert Hnil.
  generalize (@nil (string * value)) as m0.
  induction members as [|[k v] l IH]; intros m0 Hm0; simpl; [done|].
  intros [Hv Hl]%andb_prop. apply IH; [by apply exact_obj_insert|done].
Qed.

Lemma exact_obj_get k m v : exact_obj m = true -> obj_get k m = Some v -> exact_value v = true.
Proof.
  unfold exact_obj. simpl. intros [_ Hm]%andb_prop.
  induction m as [|[k' v'] m IH]; simpl in *; [done|]. apply andb_prop in Hm as [Hv' Hm].
  destruct (String.eqb k k'); [by intros [= <-]|auto].
Qed.
#[export] Hint Resolve exact_obj_nil exact_obj_insert exact_json_obj : muse.
Lemma exact_vget k v w : exact_value v = true -> vget k v = Some w -> exact_value w = true.
Proof. destruct v; try done. apply exact_obj_get. Qed.
Lemma as_u64_jnum n : (n < u64_modulus)%N -> as_u64 (jnum n) = Some n.
Proof. intros H%N.ltb_lt. unfold as_u64, jnum. by rewrite H. Qed.
Lemma as_u64_bound v n : as_u64 v = Some n -> (n < u64_modulus)%N.
Proof.
  destruct v as [| |[m| |]| | |]; try done. cbn [as_u64]. destruct (N.ltb_spec m u64_modulus); [|done].
  by intros [= <-].
Qed.

Lemma exact_jnum n : (n < u64_modulus)%N -> exact_value (jnum n) = true.
Proof. apply N.ltb_lt. Qed.
Lemma exact_jopt_str o : exact_value (jopt_str o) = true.
Proof. by destruct o. Qed.
Lemma u64_add_bound a b : (u64_add a b < u64_modulus)%N.
Proof. apply N.mod_lt. done. Qed.
Lemma exact_array l : Forall (fun v => exact_value v = true) l -> exact_value (JArray l) = true.
Proof. intros H. cbn [exact_value]. apply forallb_forall, List.Forall_forall, H. Qed.
#[export] Hint Resolve exact_jnum exact_jopt_str u64_add_bound exact_array : muse.

(** Shows that a value built by [json_obj] and [obj_insert] is exact. *)
Ltac exact_tac :=
  repeat first
    [ reflexivity
    | apply exact_json_obj; cbn [forallb snd fst]
    | apply andb_true_intro; split
    | apply exact_obj_insert
    | solve [eauto with muse] ].

(** ** A concrete reader and printer

    They show that the laws can hold: a value is printed as the binary digits of its
    encoding. *)
Fixpoint digits_of (p : positive) : string :=
  match p with
  | xH => EmptyString
  | xO p' => String "0" (digits_of p')
  | xI p' => String "1" (digits_of p')
  end.
Fixpoint of_digits (s : string) : option positive :=
  match s with
  | EmptyString => Some xH
  | String c s' =>
      p ← of_digits s';
      if Ascii.eqb c "0" then Some (xO p) else if Ascii.eqb c "1" then Some (xI p) else None
  end.

Lemma of_digits_digits p : of_digits (digits_of p) = Some p.
Proof. induction p as [p IH|p IH|]; simpl; [by rewrite IH..|done]. Qed.
#[export] Instance binary_serde : SerdeJson := {|
  from_str s := ok_or (of_digits s ≫= decode) "expected value at line 1 column 1";
  to_string v := digits_of (encode v)
|}.

#[export] Instance binary_serde_laws : SerdeJsonLaws binary_serde.
Proof.
  split; simpl.
  - intros v _. rewrite of_digits_digits. simpl. by rewrite decode_encode.
  - intros v. apply utf8_valid_ascii. by induction (encode v).
  - intros v. by induction (encode v).
  - done.
Qed.
