(* ===== verification/SseValidator.v ===== *)
(** * The gateway's SSE validator

    Models [crates/muse-codex-gateway/src/sse.rs]: frame scanning, inspection of one
    frame, the sanitised failure frames, and the [State] machine that turns an
    upstream byte stream into the stream Muse receives. The upstream body is a script
    of events: a chunk, an I/O error, or an elapsed idle timeout; the end of the
    script is the end of the body. *)

From S2P Require Import Prelude Utf8 Json.
From stdpp Require Import options.

Definition MAX_EVENT_BYTES : N := 8 * 1024 * 1024.

(** ** Event kinds *)

Definition is_terminal_event (kind : string) : bool :=
  one_of kind ["response.completed"; "response.failed"; "response.incomplete"; "response.cancelled"].

Definition is_metadata_event (kind : string) : bool :=
  one_of kind ["response.metadata"; "codex.response.metadata"; "codex.rate_limits"].

Definition known_events : list string :=
  [ "error"; "response.created"; "response.queued"; "response.in_progress";
    "response.completed"; "response.failed"; "response.incomplete"; "response.cancelled";
    "response.output_item.added"; "response.output_item.done";
    "response.content_part.added"; "response.content_part.done";
    "response.output_text.delta"; "response.output_text.done";
    "response.output_text.annotation.added";
    "response.refusal.delta"; "response.refusal.done";
    "response.function_call_arguments.delta"; "response.function_call_arguments.done";
    "response.custom_tool_call_input.delta"; "response.custom_tool_call_input.done";
    "response.reasoning_summary_part.added"; "response.reasoning_summary_part.done";
    "response.reasoning_summary_text.delta"; "response.reasoning_summary_text.done";
    "response.reasoning_text.delta"; "response.reasoning_text.done";
    "response.audio.delta"; "response.audio.done";
    "response.audio.transcript.delta"; "response.audio.transcript.done";
    "response.output_audio.delta"; "response.output_audio.done";
    "response.output_audio_transcript.delta"; "response.output_audio_transcript.done";
    "response.file_search_call.in_progress"; "response.file_search_call.searching";
    "response.file_search_call.completed";
    "response.web_search_call.in_progress"; "response.web_search_call.searching";
    "response.web_search_call.completed";
    "response.code_interpreter_call.in_progress"; "response.code_interpreter_call.interpreting";
    "response.code_interpreter_call.completed";
    "response.code_interpreter_call_code.delta"; "response.code_interpreter_call_code.done";
    "response.mcp_call.in_progress"; "response.mcp_call.completed"; "response.mcp_call.failed";
    "response.mcp_call_arguments.delta"; "response.mcp_call_arguments.done";
    "response.mcp_list_tools.in_progress"; "response.mcp_list_tools.completed";
    "response.mcp_list_tools.failed";
    "response.image_generation_call.in_progress"; "response.image_generation_call.generating";
    "response.image_generation_call.completed"; "response.image_generation_call.partial_image" ].
Definition is_known_event (kind : string) : bool := one_of kind known_events.

Definition delta_events : list string :=
  [ "response.output_text.delta"; "response.refusal.delta";
    "response.function_call_arguments.delta"; "response.custom_tool_call_input.delta";
    "response.reasoning_summary_text.delta"; "response.reasoning_text.delta";
    "response.audio.delta"; "response.audio.transcript.delta"; "response.output_audio.delta";
    "response.output_audio_transcript.delta"; "response.code_interpreter_call_code.delta";
    "response.mcp_call_arguments.delta" ].

(** ** Identifiers and parameters *)

Definition safe_protocol_identifier (value : string) : bool :=
  negb (is_empty value) && (slen value <=? 512)%N
  && negb (any_char (fun c => is_control c || is_whitespace c) value).

Definition safe_error_parameter (value : string) : bool :=
  negb (is_empty value) && (slen value <=? 128)%N
  && str_forallb (fun b => is_ascii_alphanumeric b || char_in "_-.[]" b) value.

(** [.and_then(Value::as_str).filter(safe_protocol_identifier)] *)
Definition safe_id (o : option value) : option string :=
  opt_filter safe_protocol_identifier (o ≫= as_str).

(** ** Frame scanning *)

(** The [while index < buffer.len()] loop over the unread rest of the buffer. *)
Fixpoint frame_scan (line_start index : nat) (rest : bytes) : option nat :=
  match rest with
  | [] => None
  | a :: r =>
      if Ascii.eqb a LF then
        if index =? line_start then Some (S index) else frame_scan (S index) (S index) r
      else if Ascii.eqb a CR then
        match r with
        | [] => None
        | b :: r' =>
            if Ascii.eqb b LF then
              if index =? line_start then Some (S (S index))
              else frame_scan (S (S index)) (S (S index)) r'
            else if index =? line_start then Some (S index)
                 else frame_scan (S index) (S index) r
        end
      else frame_scan line_start (S index) r
  end.

(** The byte length through the first blank SSE line. *)
Definition complete_frame_len (buffer : bytes) : option nat := frame_scan 0 0 buffer.

(** ** Shape checks *)

Definition validate_event_shape (kind : string) (v : value) : result string unit :=
  (if one_of kind ["response.created"; "response.completed"; "response.failed"; "response.incomplete"]
   then
     response ← ok_or (vget "response" v ≫= as_object)
                      "upstream response lifecycle event had no response object";
     _ ← ok_or (safe_id (obj_get "id" response))
               "upstream response lifecycle event had no valid response id";
     Ok tt
   else Ok tt);;
  (if String.eqb kind "response.cancelled" then
     _ ← ok_or (safe_id (or_else (vget "response" v ≫= vget "id") (vget "response_id" v)))
               "upstream response cancellation event had no valid response id";
     Ok tt
   else Ok tt);;
  reject (one_of kind delta_events && negb (is_some_and is_string (vget "delta" v)))
         "upstream response delta event had no string delta";;
  reject (one_of kind ["response.output_item.added"; "response.output_item.done"]
            && negb (is_some_and is_object (vget "item" v)))
         "upstream response item event had no item object";;
  reject (String.eqb kind "error" && negb (is_some_and (fun m => negb (is_empty m)) (vget_str "message" v)))
         "upstream error event had no message".

(** ** The effective model reported in headers *)

Fixpoint json_string_or_first (v : value) : option string :=
  match v with
  | JString s => Some s
  | JArray (w :: _) => json_string_or_first w
  | _ => None
  end.

Fixpoint find_header_model (headers : obj) : option string :=
  match headers with
  | [] => None
  | (name, v) :: rest =>
      match (if eq_ignore_ascii_case name "openai-model" || eq_ignore_ascii_case name "x-openai-model"
             then json_string_or_first v else None) with
      | Some model => Some model
      | None => find_header_model rest
      end
  end.
Definition header_model (v : value) : option string := as_object v ≫= find_header_model.

Definition event_reported_model (v : value) : option string :=
  or_else ((vget "response" v ≫= vget "headers") ≫= header_model) (vget "headers" v ≫= header_model).

(** ** Sanitised failures *)

Record SanitizedStreamFailure := {
  failure_code : string;
  failure_message : string;
  failure_parameter : option string
}.

Definition stream_failure_code (code : option string) : string :=
  match code with
  | Some c =>
      if String.eqb c "context_length_exceeded" then "context_length_exceeded"
      else if one_of c ["rate_limit_exceeded"; "usage_limit_reached"] then "rate_limit_exceeded"
      else if String.eqb c "invalid_api_key" then "invalid_api_key"
      else if String.eqb c "model_not_found" then "model_not_found"
      else if String.eqb c "insufficient_quota" then "insufficient_quota"
      else "invalid_request"
  | None => "invalid_request"
  end.

Definition stream_failure_message (code : string) : string :=
  if String.eqb code "context_length_exceeded" then
    "The Codex stream reported that the model context window was exceeded; the request was not replayed and the session is resumable."
  else if String.eqb code "rate_limit_exceeded" then
    "The Codex stream reported a rate limit; the request was not replayed and the session is resumable."
  else if String.eqb code "invalid_api_key" then
    "The Codex stream rejected authentication; the request was not replayed and login is required."
  else if String.eqb code "model_not_found" then
    "The Codex stream reported that the requested model was unavailable; the request was not replayed and the session is resumable."
  else if String.eqb code "insufficient_quota" then
    "The Codex stream reported insufficient quota; the request was not replayed and the session is resumable."
  else
    "The Codex stream reported a terminal provider error; the request was not replayed and the session is resumable.".

Definition sanitize_stream_failure (v : value) : SanitizedStreamFailure :=
  let error := default v (or_else (vget "response" v ≫= vget "error") (vget "error" v)) in
  let code := stream_failure_code (vget_str "code" error) in
  {| failure_code := code;
     failure_message := stream_failure_message code;
     failure_parameter := opt_filter safe_error_parameter (vget_str "param" error) |}.

Definition cancelled_failure : SanitizedStreamFailure :=
  {| failure_code := "invalid_request";
     failure_message := "The Codex stream was cancelled; the request was not replayed and the session is resumable.";
     failure_parameter := None |}.

(** ** Inspected events *)

Record InspectedEvent := {
  kind : string;
  sequence_number : option N;
  event_value : value
}.

Inductive FrameDisposition :=
  | Keep (event : InspectedEvent)
  | Discard (event : InspectedEvent).

(** One raw line of a frame: the [for raw_line in ...] body. *)
Definition read_line (acc : option string * list string) (raw_line : string)
  : option string * list string :=
  let '(event_name, data_lines) := acc in
  if is_empty raw_line || starts_with ":" raw_line then acc else
  let '(field, v) := default (raw_line, EmptyString) (split_once ":" raw_line) in
  let v := default v (strip_prefix " " v) in
  if String.eqb field "event" then (Some v, data_lines)
  else if String.eqb field "data" then (event_name, data_lines ++ [v])
  else acc.

Inductive upstream_event :=
  | Chunk (chunk : bytes)
  | Interrupted
  | IdleTimeout.

Record State := {
  buffer : bytes;
  pending : list bytes;
  finished : bool;
  response_id : option string;
  model : option string;
  last_sequence : N
}.

Definition State_new : State :=
  {| buffer := []; pending := []; finished := false; response_id := None; model := None;
     last_sequence := 0 |}.

Definition set_buffer (b : bytes) (st : State) : State :=
  {| buffer := b; pending := pending st; finished := finished st;
     response_id := response_id st; model := model st; last_sequence := last_sequence st |}.
Definition set_pending (p : list bytes) (st : State) : State :=
  {| buffer := buffer st; pending := p; finished := finished st;
     response_id := response_id st; model := model st; last_sequence := last_sequence st |}.
Definition push_back (frame : bytes) (st : State) : State := set_pending (pending st ++ [frame]) st.
(** [self.finished = true; self.buffer.clear();] *)
Definition finish (st : State) : State :=
  {| buffer := []; pending := pending st; finished := true;
     response_id := response_id st; model := model st; last_sequence := last_sequence st |}.

(** [State::observe] *)
Definition observe (event : InspectedEvent) (st : State) : State :=
  let v := event_value event in
  let seq := match sequence_number event with
             | Some s => N.max (last_sequence st) s
             | None => last_sequence st
             end in
  let id0 := safe_id (vget "response" v ≫= vget "id") in
  let id1 := safe_id (vget "response_id" v) in
  let model0 := safe_id (vget "response" v ≫= vget "model") in
  let model1 := opt_filter safe_protocol_identifier (event_reported_model v) in
  {| buffer := buffer st; pending := pending st; finished := finished st;
     response_id := or_else id1 (or_else id0 (response_id st));
     model := or_else model1 (or_else model0 (model st));
     last_sequence := seq |}.

Section Validator.
  Context {SJ : SerdeJson}.
  (** The seconds of the system clock, read by [failure_frame]. *)
  Context (created_at : N).
  Context (max_event_bytes : N) (upstream_media_type : option string).

Definition inspect_frame (frame : bytes) : result string FrameDisposition :=
  text ← ok_or (from_utf8 frame) "upstream SSE event was not valid UTF-8";
  let text := default text (strip_prefix bom text) in
  let '(event_name, data_lines) :=
    foldl read_line (None, []) (split_terminator is_line_end text) in
  match data_lines with
  | [] =>
      match event_name with
      | None => Ok (Discard {| kind := "sse.comment"; sequence_number := None; event_value := JNull |})
      | Some _ => Err "upstream SSE event contained no data"
      end
  | _ =>
      let data := join lf data_lines in
      reject (String.eqb data "[DONE]") "upstream sent [DONE] before response.completed";;
      v ← map_err (fun _ => "upstream SSE event contained malformed JSON") (from_str data);
      kind ← ok_or (vget_str "type" v) "upstream SSE event had no string type";
      reject (is_some_and (fun n => negb (String.eqb n "message") && negb (String.eqb n kind)) event_name)
             "upstream SSE event name did not match its JSON type";;
      let metadata := is_metadata_event kind in
      reject (negb metadata && negb (is_known_event kind))
             "upstream emitted an unknown non-metadata event";;
      seq ← match vget "sequence_number" v with
            | Some s => Some <$> ok_or (as_u64 s) "upstream SSE event had an invalid sequence_number"
            | None => Ok None
            end;
      validate_event_shape kind v;;
      let event := {| kind := kind; sequence_number := seq; event_value := v |} in
      Ok (if metadata then Discard event else Keep event)
  end.

(** The [response.failed] document of [failure_frame]. *)
Definition failure_document (response_id model : option string) (sequence_number : N)
    (code message : string) (parameter : option string) : value :=
  let response_id := default "resp_muse_codex_protocol_error"
                             (opt_filter safe_protocol_identifier response_id) in
  let model := default "muse-codex" (opt_filter safe_protocol_identifier model) in
  json_obj
    [ ("type", JString "response.failed");
      ("sequence_number", jnum sequence_number);
      ("response", json_obj
        [ ("id", JString response_id); ("object", JString "response");
          ("created_at", jnum created_at); ("status", JString "failed");
          ("completed_at", JNull); ("output", JArray []); ("usage", JNull);
          ("error", json_obj [ ("code", JString code); ("message", JString message);
                               ("param", jopt_str parameter) ]);
          ("previous_response_id", JNull); ("model", JString model);
          ("metadata", json_obj []); ("incomplete_details", JNull) ]) ].

Definition failure_frame (response_id model : option string) (sequence_number : N)
    (code message : string) (parameter : option string) : bytes :=
  to_bytes ("event: response.failed" +:+ lf +:+ "data: "
    +:+ to_string (failure_document response_id model sequence_number code message parameter)
    +:+ lf +:+ lf).

Definition protocol_failure_frame (response_id model : option string) (sequence_number : N)
    (reason : string) : bytes :=
  failure_frame response_id model sequence_number "invalid_request"
    ("muse_codex_protocol_error: " +:+ reason +:+ "; session is resumable") None.

Definition gateway_failure_frame (model : option string) (code message : string)
    (parameter : option string) : bytes :=
  failure_frame None model 0 code message parameter.

(** [State::fail] *)
Definition fail_with (reason : string) (st : State) : State :=
  if finished st then st else
  let reason := match upstream_media_type with
                | None => reason
                | Some media_type => reason +:+ " (upstream media type " +:+ media_type +:+ ")"
                end in
  finish (push_back (protocol_failure_frame (response_id st) (model st)
                       (u64_saturating_add (last_sequence st) 1) reason) st).

(** A kept event: observed, then forwarded or replaced by a sanitised failure. *)
Definition keep_event (frame : bytes) (event : InspectedEvent) (st : State) : State :=
  let st := observe event st in
  if one_of (kind event) ["error"; "response.failed"; "response.cancelled"] then
    let failure := if String.eqb (kind event) "response.cancelled" then cancelled_failure
                   else sanitize_stream_failure (event_value event) in
    finish (push_back (failure_frame (response_id st) (model st) (last_sequence st)
                         (failure_code failure) (failure_message failure)
                         (failure_parameter failure)) st)
  else
    let st := push_back frame st in
    if is_terminal_event (kind event) then finish st else st.

Definition handle_frame (frame : bytes) (st : State) : State :=
  match inspect_frame frame with
  | Ok (Keep event) => keep_event frame event st
  | Ok (Discard event) => observe event st
  | Err reason => fail_with reason st
  end.

(** One iteration of [drain_complete_frames]; [None] leaves the loop. *)
Definition drain_step (st : State) : option State :=
  if finished st then None else
  match complete_frame_len (buffer st) with
  | None => None
  | Some frame_len =>
      if (max_event_bytes <? N.of_nat frame_len)%N then
        Some (fail_with "upstream SSE event exceeded the safety limit" st)
      else Some (handle_frame (take frame_len (buffer st)) (set_buffer (drop frame_len (buffer st)) st))
  end.

Fixpoint drain_loop (fuel : nat) (st : State) : State :=
  match fuel with
  | 0 => st
  | S fuel => match drain_step st with
              | None => st
              | Some st' => drain_loop fuel st'
              end
  end.

(** [State::drain_complete_frames]: every iteration consumes a byte or finishes. *)
Definition drain_complete_frames (st : State) : State :=
  drain_loop (S (S (length (buffer st)))) st.

(** The [match tokio::time::timeout(...)] of the stream loop. *)
Definition on_event (ev : upstream_event) (st : State) : State :=
  match ev with
  | Chunk chunk =>
      let st := drain_complete_frames (set_buffer (buffer st ++ chunk) st) in
      if negb (finished st) && (max_event_bytes <? blen (buffer st))%N
      then fail_with "upstream SSE event exceeded the safety limit" st else st
  | Interrupted => fail_with "upstream response stream was interrupted" st
  | IdleTimeout => fail_with "upstream response stream exceeded the idle timeout" st
  end.
Definition on_end (st : State) : State :=
  if forallb is_ascii_whitespace (buffer st)
  then fail_with "upstream stream ended before a terminal response event" (set_buffer [] st)
  else fail_with "upstream stream ended with an incomplete SSE event" st.

(** One poll of the validated stream: the closure given to [unfold]. *)
Fixpoint next_frame (st : State) (script : list upstream_event)
  : option (bytes * State * list upstream_event) :=
  match pending st with
  | frame :: rest => Some (frame, set_pending rest st, script)
  | [] =>
      if finished st then None else
      let st := drain_complete_frames st in
      match pending st with
      | frame :: rest => Some (frame, set_pending rest st, script)
      | [] =>
          if finished st then None else
          match script with
          | ev :: script' => next_frame (on_event ev st) script'
          | [] =>
              let st := on_end st in
              match pending st with
              | frame :: rest => Some (frame, set_pending rest st, [])
              | [] => None
              end
          end
      end
  end.

(** The consumer: polls until the stream ends. *)
Fixpoint poll_all (fuel : nat) (st : State) (script : list upstream_event) : option (list bytes) :=
  match fuel with
  | 0 => None
  | S fuel =>
      match next_frame st script with
      | None => Some []
      | Some (frame, st', script') => cons frame <$> poll_all fuel st' script'
      end
  end.

(** The whole run with nothing popped: frames only ever join the end of the queue. *)
Fixpoint run (st : State) (script : list upstream_event) : State :=
  let st := drain_complete_frames st in
  if finished st then st else
  match script with
  | [] => on_end st
  | ev :: script' => run (on_event ev st) script'
  end.

Definition validated_stream (script : list upstream_event) : list bytes :=
  pending (run State_new script).

(** ** Specification

    A frame that leaves the stream open: metadata, or a kept non-terminal event. *)
Definition open_frame (frame : bytes) : bool :=
  match inspect_frame frame with
  | Ok (Discard _) => true
  | Ok (Keep ev) => negb (String.eqb (kind ev) "error" || is_terminal_event (kind ev))
  | Err _ => false
  end.
Definition forwarded (frame : bytes) : bool :=
  match inspect_frame frame with Ok (Keep _) => true | _ => false end.
(** The last frame of every stream: a successful terminal event exactly as it
    arrived, or a failure built here. *)
Definition closing_frame (frame : bytes) : Prop :=
  (exists ev, inspect_frame frame = Ok (Keep ev)
     /\ one_of (kind ev) ["response.completed"; "response.incomplete"] = true)
  \/ exists id model seq code message param, frame = failure_frame id model seq code message param.

End Validator.

(** ** Frame scanning lemmas *)

Lemma frame_scan_cons ls i a r :
  frame_scan ls i (a :: r) =
  if Ascii.eqb a LF then
    if i =? ls then Some (S i) else frame_scan (S i) (S i) r
  else if Ascii.eqb a CR then
    match r with
    | [] => None
    | b :: r' =>
        if Ascii.eqb b LF then
          if i =? ls then Some (S (S i)) else frame_scan (S (S i)) (S (S i)) r'
        else if i =? ls then Some (S i) else frame_scan (S i) (S i) r
    end
  else frame_scan ls (S i) r.
Proof. done. Qed.

Lemma frame_scan_bounds ls i rest n :
  frame_scan ls i rest = Some n -> i < n <= i + length rest.
Proof.
  revert ls i n. induction rest as [rest IH] using (induction_ltof1 _ length); unfold ltof in IH.
  intros ls i n. destruct rest as [|a r]; [done|].
  rewrite frame_scan_cons. cbn [length].
  assert (Hr : forall ls i n, frame_scan ls i r = Some n -> i < n <= i + length r)
    by (apply IH; simpl; lia).
  destruct (Ascii.eqb a LF); [|destruct (Ascii.eqb a CR)].
  - destruct (i =? ls); [intros [= <-]; lia|intros H%Hr; lia].
  - destruct r as [|b r']; [done|]. cbn [length]. destruct (Ascii.eqb b LF).
    + destruct (i =? ls); [intros [= <-]; lia|]. intros H%IH; [lia|simpl; lia].
    + destruct (i =? ls); [intros [= <-]; lia|intros H%Hr; simpl in H; lia].
  - intros H%Hr. lia.
Qed.

Lemma frame_scan_app ls i rest t n :
  frame_scan ls i rest = Some n -> frame_scan ls i (rest ++ t) = Some n.
Proof.
  revert ls i n. induction rest as [rest IH] using (induction_ltof1 _ length); unfold ltof in IH.
  intros ls i n. destruct rest as [|a r]; [done|].
  rewrite <- app_comm_cons, !frame_scan_cons.
  assert (Hr : forall ls i n, frame_scan ls i r = Some n -> frame_scan ls i (r ++ t) = Some n)
    by (apply IH; simpl; lia).
  destruct (Ascii.eqb a LF); [|destruct (Ascii.eqb a CR)].
  - destruct (i =? ls); [done|apply Hr].
  - destruct r as [|b r']; [done|]. rewrite <- app_comm_cons. destruct (Ascii.eqb b LF).
    + destruct (i =? ls); [done|]. apply IH. simpl; lia.
    + destruct (i =? ls); [done|apply Hr].
  - apply Hr.
Qed.

Lemma frame_scan_app_none ls i rest t n :
  frame_scan ls i rest = None -> frame_scan ls i (rest ++ t) = Some n -> i + length rest <= n.
Proof.
  revert ls i n. induction rest as [rest IH] using (induction_ltof1 _ length); unfold ltof in IH.
  intros ls i n Hnone Hsome.
  destruct rest as [|a r]; [apply frame_scan_bounds in Hsome; simpl in *; lia|].
  assert (Hlen : length (a :: r) = S (length r)) by done. rewrite Hlen.
  rewrite <- app_comm_cons, frame_scan_cons in Hsome. rewrite frame_scan_cons in Hnone.
  assert (Hnext : forall ls i n, frame_scan ls i r = None -> frame_scan ls i (r ++ t) = Some n ->
            i + length r <= n) by (apply IH; simpl; lia).
  destruct (Ascii.eqb a LF); [|destruct (Ascii.eqb a CR)].
  - destruct (i =? ls); [done|]. specialize (Hnext _ _ _ Hnone Hsome). lia.
  - destruct r as [|b r'].
    { cbn [app length] in *. destruct t as [|b t]; [done|].
      destruct (Ascii.eqb b LF), (i =? ls); simplify_eq; try lia;
        apply frame_scan_bounds in Hsome; lia. }
    rewrite <- app_comm_cons in Hsome. destruct (Ascii.eqb b LF).
    + destruct (i =? ls); [done|]. apply (IH r') in Hsome; [simpl; lia|simpl; lia|done].
    + destruct (i =? ls); [done|]. specialize (Hnext _ _ _ Hnone Hsome). lia.
  - specialize (Hnext _ _ _ Hnone Hsome). lia.
Qed.

Lemma complete_frame_len_bounds b n : complete_frame_len b = Some n -> 0 < n <= length b.
Proof. intros H%frame_scan_bounds. simpl in H. lia. Qed.

(** ** The drain loop *)

Section Drain.
  Context {SJ : SerdeJson} (created_at max_event_bytes : N) (media : option string).
  Abbreviation fail_with := (fail_with created_at media).
  Abbreviation handle_frame := (handle_frame created_at media).
  Abbreviation drain_step := (drain_step created_at max_event_bytes media).
  Abbreviation drain_loop := (drain_loop created_at max_event_bytes media).
  Abbreviation drain := (drain_complete_frames created_at max_event_bytes media).

(** What a step can still consume. *)
Definition drain_measure (st : State) : nat :=
  if finished st then 0 else S (length (buffer st)).

Lemma fail_with_finished reason st : finished (fail_with reason st) = true.
Proof. unfold SseValidator.fail_with. by destruct (finished st) eqn:E. Qed.

Lemma handle_frame_buffer frame st :
  buffer (handle_frame frame st) = buffer st \/ finished (handle_frame frame st) = true.
Proof.
  unfold SseValidator.handle_frame, keep_event.
  repeat case_match; simpl; auto. right. apply fail_with_finished.
Qed.

Lemma drain_step_measure st st' : drain_step st = Some st' -> drain_measure st' < drain_measure st.
Proof.
  unfold SseValidator.drain_step, drain_measure. destruct (finished st) eqn:Ef; [done|].
  destruct (complete_frame_len _) as [n|] eqn:En; [|done].
  apply complete_frame_len_bounds in En. case_match; intros [= <-].
  - rewrite fail_with_finished. lia.
  - set (st1 := set_buffer _ st). pose proof (handle_frame_buffer (take n (buffer st)) st1) as [Hb|Hf].
    + case_match; [lia|]. rewrite Hb. simpl. rewrite length_drop. lia.
    + rewrite Hf. lia.
Qed.

Lemma drain_loop_fuel n m st :
  drain_measure st <= n -> drain_measure st <= m -> drain_loop n st = drain_loop m st.
Proof.
  revert m st. induction n as [|n IH]; intros [|m] st Hn Hm; simpl; [done| | |].
  - destruct (drain_step st) eqn:E; [|done]. apply drain_step_measure in E. lia.
  - destruct (drain_step st) eqn:E; [|done]. apply drain_step_measure in E. lia.
  - destruct (drain_step st) as [st'|] eqn:E; [|done].
    apply drain_step_measure in E. apply IH; lia.
Qed.

(** The loop's defining equation: the fuel is always enough. *)
Lemma drain_unfold st :
  drain st = match drain_step st with None => st | Some st' => drain st' end.
Proof.
  unfold drain_complete_frames at 1. remember (S (length (buffer st))) as n eqn:Hn.
  cbn [SseValidator.drain_loop]. destruct (drain_step st) as [st'|] eqn:E; [|done].
  apply drain_step_measure in E. apply drain_loop_fuel; unfold drain_measure in *;
    repeat case_match; lia.
Qed.

Lemma drain_ind (P : State -> State -> Prop) :
  (forall st, drain_step st = None -> P st st) ->
  (forall st st', drain_step st = Some st' -> P st' (drain st') -> P st (drain st')) ->
  forall st, P st (drain st).
Proof.
  intros Hstop Hstep st.
  induction st as [st IH] using (induction_ltof1 _ drain_measure); unfold ltof in IH.
  rewrite drain_unfold. destruct (drain_step st) as [st'|] eqn:E; [|by apply Hstop].
  apply Hstep; [done|]. apply IH. by apply drain_step_measure.
Qed.

(** The loop stops only where it cannot take another step. *)
Lemma drain_done st : drain_step (drain st) = None.
Proof. by apply (drain_ind (fun _ st' => drain_step st' = None)). Qed.
Lemma drain_fixed st : drain_step st = None -> drain st = st.
Proof. intros H. by rewrite drain_unfold, H. Qed.
Lemma drain_idemp st : drain (drain st) = drain st.
Proof. apply drain_fixed, drain_done. Qed.
Lemma drain_finished st : finished st = true -> drain st = st.
Proof. intros H. apply drain_fixed. unfold SseValidator.drain_step. by rewrite H. Qed.

(** ** Fragmentation *)

Lemma set_buffer_id st : set_buffer (buffer st) st = st.
Proof. by destruct st. Qed.

Lemma fail_with_buffer reason b st :
  finished st = false -> fail_with reason (set_buffer b st) = fail_with reason st.
Proof. intros H. unfold SseValidator.fail_with. simpl. rewrite H. done. Qed.

Lemma handle_frame_more frame b t st :
  finished st = false ->
  let st' := handle_frame frame (set_buffer b st) in
  handle_frame frame (set_buffer (b ++ t) st) =
    if finished st' then st' else set_buffer (buffer st' ++ t) st'.
Proof.
  intros Hf. unfold SseValidator.handle_frame, keep_event.
  destruct (inspect_frame frame) as [[ev|ev]|reason]; simpl.
  - case_match; [done|]. case_match; [done|]. simpl. by rewrite Hf.
  - by rewrite Hf.
  - rewrite !fail_with_buffer by done. by rewrite fail_with_finished.
Qed.

Lemma drain_more t st :
  finished st = false ->
  drain (set_buffer (buffer st ++ t) st) =
    if finished (drain st) then drain st else drain (set_buffer (buffer (drain st) ++ t) (drain st)).
Proof.
  apply (drain_ind (fun st d => finished st = false ->
    drain (set_buffer (buffer st ++ t) st) = if finished d then d else drain (set_buffer (buffer d ++ t) d)));
    clear st; intros st.
  - intros _ ->. done.
  - intros st' Hstep IH Hf. rewrite drain_unfold.
    unfold SseValidator.drain_step in Hstep |- *. rewrite Hf in Hstep. cbn [finished set_buffer buffer]. rewrite Hf.
    destruct (complete_frame_len (buffer st)) as [n|] eqn:En; [|done].
    pose proof (complete_frame_len_bounds _ _ En) as Hn.
    rewrite (frame_scan_app _ _ _ t _ En : complete_frame_len _ = _).
    destruct (max_event_bytes <? N.of_nat n)%N; injection Hstep as <-.
    + rewrite fail_with_buffer by done. rewrite !drain_finished by apply fail_with_finished.
      by rewrite fail_with_finished.
    + rewrite take_app_le, drop_app_le by lia.
      change (set_buffer (drop n (buffer st) ++ t) (set_buffer (buffer st ++ t) st))
        with (set_buffer (drop n (buffer st) ++ t) st).
      rewrite handle_frame_more by done. cbv zeta.
      destruct (finished (handle_frame _ _)) eqn:Ef; [|by apply IH].
      rewrite !drain_finished by done. by rewrite Ef.
Qed.

End Drain.
