(* ===== verification/SseFrame.v ===== *)
(** * Frames that the validator accepts

    Producers write a frame as [event: KIND], [data: JSON] and a blank line. This file
    shows how [SseValidator.inspect_frame] reads such a frame back; it is what the
    gateway's own failure frames and the Z.ai synthesizer rely on. *)

From S2P Require Import Prelude Utf8 Json SseValidator.
From stdpp Require Import options.

(** [format!("event: {kind}\ndata: {payload}\n\n")] *)
Definition sse_text (kind payload : string) : string :=
  "event: " +:+ kind +:+ lf +:+ "data: " +:+ payload +:+ lf +:+ lf.

(** The name of an event as it may stand on the [event:] line. *)
Definition plain_name (s : string) : bool :=
  str_forallb (fun c => lead_1 c && negb (is_line_end c)) s.

(** ** Lines *)

Lemma str_forallb_app p a b : str_forallb p (a +:+ b) = str_forallb p a && str_forallb p b.
Proof. induction a as [|c a IH]; [done|]. rewrite append_cons. simpl. by rewrite IH, andb_assoc. Qed.

Lemma str_forallb_impl (p q : ascii -> bool) s :
  (forall c, p c = true -> q c = true) -> str_forallb p s = true -> str_forallb q s = true.
Proof. intros H. induction s as [|c s IH]; [done|]. simpl. intros [Hc Hs]%andb_prop. by rewrite H, IH. Qed.

Lemma str_forallb_bytes p s : forallb p (to_bytes s) = str_forallb p s.
Proof. unfold to_bytes. induction s as [|c s IH]; [done|]. simpl. by rewrite IH. Qed.

Lemma split_str_app p a c b :
  str_forallb (fun x => negb (p x)) a = true -> p c = true ->
  split_str p (a +:+ String c b) = a :: split_str p b.
Proof.
  intros Ha Hc. induction a as [|x a IH]; [by rewrite append_nil_l; simpl; rewrite Hc|].
  simpl in Ha. apply andb_prop in Ha as [Hx Ha]. rewrite append_cons. simpl.
  apply negb_true_iff in Hx. rewrite Hx. by rewrite IH.
Qed.

Lemma split_once_app c a b :
  str_forallb (fun x => negb (Ascii.eqb x c)) a = true ->
  split_once c (a +:+ String c b) = Some (a, b).
Proof.
  intros Ha. induction a as [|x a IH]; [by rewrite append_nil_l; simpl; rewrite Ascii.eqb_refl|].
  simpl in Ha. apply andb_prop in Ha as [Hx Ha]. rewrite append_cons. simpl.
  apply negb_true_iff in Hx. rewrite Hx. by rewrite IH.
Qed.

Lemma sse_text_lines k payload :
  plain_name k = true -> str_forallb (fun c => negb (is_line_end c)) payload = true ->
  split_terminator is_line_end (sse_text k payload) =
    ["event: " +:+ k; "data: " +:+ payload; EmptyString].
Proof.
  intros Hk Hp. unfold split_terminator, sse_text.
  assert (Hk' : str_forallb (fun c => negb (is_line_end c)) ("event: " +:+ k) = true).
  { rewrite str_forallb_app. simpl. eapply str_forallb_impl; [|exact Hk].
    by intros c [_ ?]%andb_prop. }
  change (lf +:+ "data: " +:+ payload +:+ lf +:+ lf)
    with (String LF ("data: " +:+ payload +:+ String LF lf)).
  rewrite <- (append_assoc "event: " k), split_str_app by done.
  rewrite <- (append_assoc "data: " payload), split_str_app; [done| |done].
  by rewrite str_forallb_app.
Qed.

Lemma sse_text_utf8 k payload :
  plain_name k = true -> utf8_valid (to_bytes payload) = true ->
  utf8_valid (to_bytes (sse_text k payload)) = true.
Proof.
  intros Hk Hp. unfold sse_text. rewrite !to_bytes_app.
  repeat apply utf8_valid_app; try done. apply utf8_valid_ascii.
  rewrite str_forallb_bytes. eapply str_forallb_impl; [|exact Hk]. by intros c [? _]%andb_prop.
Qed.

Lemma read_sse_lines k payload :
  foldl read_line (None, []) ["event: " +:+ k; "data: " +:+ payload; EmptyString]
  = (Some k, [payload]).
Proof.
  cbn [foldl]. unfold read_line at 3.
  change (split_once ":" ("event: " +:+ k)) with (split_once ":" ("event" +:+ String ":" (String " " k))).
  rewrite split_once_app by done. cbn -[read_line].
  unfold read_line at 2.
  change (split_once ":" ("data: " +:+ payload)) with (split_once ":" ("data" +:+ String ":" (String " " payload))).
  rewrite split_once_app by done. done.
Qed.

Section Accept.
  Context {SJ : SerdeJson} {SJL : SerdeJsonLaws SJ}.

Lemma sse_text_no_bom k payload : strip_prefix bom (sse_text k payload) = None.
Proof. done. Qed.

(** A written frame is read back as the event it was written from, if its shape is
    right, and refused with the shape's error otherwise. *)
Lemma inspect_sse_frame_result k v seq :
  plain_name k = true -> exact_value v = true ->
  vget_str "type" v = Some k -> is_known_event k = true -> is_metadata_event k = false ->
  vget "sequence_number" v = Some (jnum seq) ->
  inspect_frame (to_bytes (sse_text k (to_string v)))
  = (validate_event_shape k v;;
     Ok (Keep {| kind := k; sequence_number := Some seq; event_value := v |})).
Proof using SJL.
  intros Hk Hexact Htype Hknown Hmeta Hseq. unfold inspect_frame.
  rewrite from_utf8_of_bytes by (apply sse_text_utf8; [done|apply to_string_utf8]).
  rewrite of_to_bytes. cbn [ok_or mbind result_bind].
  rewrite sse_text_no_bom. cbn [default from_option].
  rewrite sse_text_lines by (try done; apply to_string_one_line).
  rewrite read_sse_lines. cbn [join String.concat].
  assert (String.eqb (to_string v) "[DONE]" = false) as ->.
  { apply String.eqb_neq. intros Heq. pose proof from_str_done as Hdone.
    rewrite <- Heq, from_str_to_string in Hdone by done. done. }
  cbn [reject mbind result_bind]. rewrite from_str_to_string by done.
  cbn [map_err mbind result_bind]. rewrite Htype. cbn [ok_or mbind result_bind is_some_and].
  rewrite String.eqb_refl, andb_false_r. cbn [reject mbind result_bind].
  rewrite Hmeta, Hknown. cbn [negb andb reject mbind result_bind]. rewrite Hseq.
  rewrite as_u64_jnum.
  - done.
  - apply (exact_vget _ _ _ Hexact) in Hseq. by apply N.ltb_lt in Hseq.
Qed.

Lemma inspect_sse_frame k v seq :
  plain_name k = true -> exact_value v = true ->
  vget_str "type" v = Some k -> is_known_event k = true -> is_metadata_event k = false ->
  vget "sequence_number" v = Some (jnum seq) -> validate_event_shape k v = Ok tt ->
  inspect_frame (to_bytes (sse_text k (to_string v)))
  = Ok (Keep {| kind := k; sequence_number := Some seq; event_value := v |}).
Proof using SJL. intros Hk He Ht Hn Hm Hs Hshape. rewrite (inspect_sse_frame_result k v seq) by done. by rewrite Hshape. Qed.
Lemma inspect_sse_frame_shape k v seq d :
  plain_name k = true -> exact_value v = true ->
  vget_str "type" v = Some k -> is_known_event k = true -> is_metadata_event k = false ->
  vget "sequence_number" v = Some (jnum seq) ->
  inspect_frame (to_bytes (sse_text k (to_string v))) = Ok d -> validate_event_shape k v = Ok tt.
Proof using SJL.
  intros Hk He Ht Hn Hm Hs H. rewrite (inspect_sse_frame_result k v seq) in H by done.
  by apply bind_ok in H as ([] & H & _).
Qed.

(** The gateway's own failure frames are well-formed Responses events. *)
Lemma inspect_failure_frame created_at id model seq code message param :
  (created_at < u64_modulus)%N -> (seq < u64_modulus)%N ->
  inspect_frame (failure_frame created_at id model seq code message param)
  = Ok (Keep {| kind := "response.failed"; sequence_number := Some seq;
                event_value := failure_document created_at id model seq code message param |}).
Proof using SJL.
  intros Hc Hs. apply (inspect_sse_frame "response.failed"); try done.
  - unfold failure_document. exact_tac.
  - unfold validate_event_shape, failure_document. cbv zeta.
    set (rid := default "resp_muse_codex_protocol_error" _).
    assert (safe_protocol_identifier rid = true) as Hsafe.
    { unfold rid, opt_filter. destruct id as [i|]; [|done]. by destruct (safe_protocol_identifier i) eqn:E. }
    clearbody rid. rewrite !vget_json_obj. cbn -[safe_protocol_identifier json_obj as_object].
    rewrite as_object_json_obj. cbn [ok_or mbind result_bind]. unfold safe_id.
    rewrite obj_get_foldl. cbn -[safe_protocol_identifier]. by rewrite Hsafe.
Qed.

End Accept.
