(* ===== verification/SseCorrect.v ===== *)
(** * What the SSE validator guarantees

    Theorems about [SseValidator]: the output does not depend on how the upstream
    bytes were cut into chunks; every stream is a sequence of unmodified upstream
    frames closed by exactly one terminal frame; polling returns every queued frame
    and ends; and the frame a failure is turned into, which carries a listed code, a
    checked parameter and a fixed message. *)

From S2P Require Import Prelude Utf8 Json SseValidator SseFrame.
From stdpp Require Import options.

Section Stream.
  Context {SJ : SerdeJson} (created_at max_event_bytes : N) (media : option string).
  Abbreviation fail_with := (fail_with created_at media).
  Abbreviation handle_frame := (handle_frame created_at media).
  Abbreviation drain_step := (drain_step created_at max_event_bytes media).
  Abbreviation drain := (drain_complete_frames created_at max_event_bytes media).
  Abbreviation on_event := (on_event created_at max_event_bytes media).
  Abbreviation on_end := (on_end created_at media).
  Abbreviation run := (run created_at max_event_bytes media).
  Abbreviation next_frame := (next_frame created_at max_event_bytes media).
  Abbreviation poll_all := (poll_all created_at max_event_bytes media).

Lemma run_unfold st script :
  run st script =
  if finished (drain st) then drain st else
  match script with [] => on_end (drain st) | ev :: script' => run (on_event ev (drain st)) script' end.
Proof. by destruct script. Qed.

Lemma run_finished st script : finished st = true -> run st script = st.
Proof. intros H. rewrite run_unfold, !drain_finished by done. by rewrite H. Qed.

(** ** Fragmentation *)

(** Two chunks in a row act as one, unless the first closed the stream. *)
Lemma on_event_chunk_app c1 c2 st :
  finished st = false ->
  on_event (Chunk (c1 ++ c2)) st =
  let st1 := on_event (Chunk c1) st in
  if finished st1 then st1 else on_event (Chunk c2) st1.
Proof.
  intros Hf. cbn [SseValidator.on_event]. rewrite app_assoc.
  pose proof (drain_more created_at max_event_bytes media c2 (set_buffer (buffer st ++ c1) st) Hf) as Hmore.
  cbn [buffer set_buffer] in Hmore.
  change (set_buffer ((buffer st ++ c1) ++ c2) (set_buffer (buffer st ++ c1) st))
    with (set_buffer ((buffer st ++ c1) ++ c2) st) in Hmore.
  rewrite Hmore. remember (drain (set_buffer (buffer st ++ c1) st)) as st1 eqn:Hst1.
  destruct (finished st1) eqn:Ef1; cbn [negb andb]; [by rewrite Ef1|].
  destruct (max_event_bytes <? blen (buffer st1))%N eqn:Eover; [|by rewrite Ef1].
  rewrite fail_with_finished. apply N.ltb_lt in Eover.
  assert (Hstop : drain_step st1 = None) by (subst st1; apply drain_done).
  unfold SseValidator.drain_step in Hstop. rewrite Ef1 in Hstop.
  destruct (complete_frame_len (buffer st1)) eqn:En1; [by case_match|].
  rewrite drain_unfold. unfold SseValidator.drain_step. cbn [finished set_buffer buffer]. rewrite Ef1.
  destruct (complete_frame_len (buffer st1 ++ c2)) as [n|] eqn:En2.
  - pose proof (frame_scan_app_none _ _ _ _ _ En1 En2) as Hlen. cbn [Nat.add] in Hlen.
    assert ((max_event_bytes <? N.of_nat n)%N = true) as ->.
    { apply N.ltb_lt. unfold blen in Eover. lia. }
    rewrite drain_finished, fail_with_finished by apply fail_with_finished. simpl.
    by rewrite fail_with_buffer.
  - cbn [finished set_buffer buffer]. rewrite Ef1. cbn [negb andb].
    assert ((max_event_bytes <? blen (buffer st1 ++ c2))%N = true) as ->.
    { apply N.ltb_lt. unfold blen in *. rewrite length_app. lia. }
    by rewrite fail_with_buffer.
Qed.

(** A state between two polls: open, nothing left to drain, the buffer within bounds. *)
Definition settled (st : State) : Prop :=
  finished st = false /\ drain_step st = None /\ (blen (buffer st) <= max_event_bytes)%N.

Lemma settled_new : settled State_new.
Proof. repeat split. unfold blen. simpl. lia. Qed.

Lemma settled_chunk c st :
  settled st -> finished (on_event (Chunk c) st) = true \/ settled (on_event (Chunk c) st).
Proof.
  intros (Hf & _ & _). cbn [SseValidator.on_event].
  set (st1 := drain (set_buffer (buffer st ++ c) st)).
  destruct (finished st1) eqn:Ef; [by left|]. cbn [negb andb].
  destruct (max_event_bytes <? blen (buffer st1))%N eqn:Eover.
  - left. apply fail_with_finished.
  - right. repeat split; [done|apply drain_done|by apply N.ltb_ge].
Qed.

Lemma on_event_empty_chunk st : settled st -> on_event (Chunk []) st = st.
Proof.
  intros (Hf & Hd & Hb). cbn [SseValidator.on_event]. rewrite app_nil_r, set_buffer_id.
  rewrite drain_fixed by done. rewrite Hf. cbn [negb andb].
  by apply N.ltb_ge in Hb as ->.
Qed.

Lemma run_chunks cs st script :
  settled st -> run st (map Chunk cs ++ script) = run st (Chunk (concat cs) :: script).
Proof.
  revert st. induction cs as [|c cs IH]; intros st Hst; cbn [map app concat];
    rewrite (run_unfold st (_ :: _)); destruct (Hst) as (Hf & Hd & _); rewrite drain_fixed by done; rewrite Hf.
  - by rewrite on_event_empty_chunk.
  - rewrite (run_unfold st (Chunk (c ++ _) :: _)), drain_fixed by done. rewrite Hf.
    rewrite on_event_chunk_app by done. cbv zeta.
    destruct (settled_chunk c st Hst) as [Hfin|Hst'].
    + by rewrite Hfin, !run_finished.
    + destruct (Hst') as (Hf' & Hd' & _). rewrite Hf', IH by done.
      rewrite (run_unfold (on_event (Chunk c) st)), drain_fixed by done. by rewrite Hf'.
Qed.

(** ** Shape of the output *)

Definition received (script : list upstream_event) : bytes :=
  flat_map (fun ev => match ev with Chunk c => c | _ => [] end) script.

(** [input] is [frames], then whatever made the stream close with [last]. *)
Definition closed_by (frames : list bytes) (last input : bytes) : Prop :=
  (exists rest ev, input = concat frames ++ last ++ rest /\ inspect_frame last = Ok (Keep ev)
     /\ one_of (kind ev) ["response.completed"; "response.incomplete"] = true)
  \/ (exists rest, input = concat frames ++ rest)
     /\ (exists id model seq code message param,
           last = failure_frame created_at id model seq code message param).

Definition shape (input : bytes) (st : State) : Prop :=
  exists frames, Forall (fun f => open_frame f = true) frames /\
  if finished st
  then exists last, pending st = List.filter forwarded frames ++ [last] /\ closed_by frames last input
  else pending st = List.filter forwarded frames /\ input = concat frames ++ buffer st.

Lemma closed_by_more frames last input more :
  closed_by frames last input -> closed_by frames last (input ++ more).
Proof.
  intros [(rest & ev & -> & H)|[[rest ->] H]].
  - left. exists (rest ++ more), ev. by rewrite <- !app_assoc.
  - right. split; [|done]. exists (rest ++ more). by rewrite <- !app_assoc.
Qed.

Lemma fail_with_shape input reason st : shape input st -> shape input (fail_with reason st).
Proof.
  intros (frames & Hopen & H). unfold SseValidator.fail_with.
  destruct (finished st) eqn:Ef; [exists frames; by rewrite Ef|].
  destruct H as [Hp ->]. exists frames. split; [done|]. cbn [finished finish push_back pending set_pending].
  eexists. split; [by rewrite Hp|]. right. split; [by eexists|]. by do 6 eexists.
Qed.

Lemma terminal_success k :
  is_terminal_event k = true -> one_of k ["error"; "response.failed"; "response.cancelled"] = false ->
  one_of k ["response.completed"; "response.incomplete"] = true.
Proof. unfold is_terminal_event, one_of. simpl. repeat case (String.eqb k _); done. Qed.

Lemma handle_frame_shape input frame b st :
  finished st = false -> buffer st = frame ++ b -> shape input st ->
  shape input (handle_frame frame (set_buffer b st)).
Proof.
  intros Hf Hb Hshape. destruct (Hshape) as (frames & Hopen & H). rewrite Hf in H.
  destruct H as [Hp Hin]. rewrite Hb in Hin.
  assert (Hmore : open_frame frame = true ->
    Forall (fun f => open_frame f = true) (frames ++ [frame])
    /\ input = concat (frames ++ [frame]) ++ b).
  { intros Ho. split; [by apply Forall_app_2; [|constructor]|].
    rewrite concat_app. simpl. by rewrite app_nil_r, <- app_assoc. }
  unfold SseValidator.handle_frame.
  destruct (inspect_frame frame) as [[ev|ev]|reason] eqn:Ei.
  - unfold keep_event. case_match eqn:Efail.
    + exists frames. split; [done|]. cbn [finished finish]. eexists. split; [cbn; by rewrite Hp|].
      right. split; [by eexists|]. by do 6 eexists.
    + case_match eqn:Eterm.
      * exists frames. split; [done|]. cbn [finished finish]. eexists. split; [cbn; by rewrite Hp|].
        left. exists b, ev. repeat split; [done..|]. by apply terminal_success.
      * assert (Ho : open_frame frame = true).
        { unfold open_frame. rewrite Ei, Eterm. revert Efail. unfold one_of. simpl.
          by case (String.eqb (kind ev) "error"). }
        exists (frames ++ [frame]). split; [by apply Hmore|]. cbn. rewrite Hf. split; [|by apply Hmore].
        assert (forwarded frame = true) as Hfw by (unfold forwarded; by rewrite Ei).
        rewrite List.filter_app, Hp. simpl. by rewrite Hfw.
  - assert (Ho : open_frame frame = true) by (unfold open_frame; by rewrite Ei).
    exists (frames ++ [frame]). split; [by apply Hmore|]. cbn. rewrite Hf. split; [|by apply Hmore].
    assert (forwarded frame = false) as Hfw by (unfold forwarded; by rewrite Ei).
    rewrite List.filter_app, Hp. simpl. rewrite Hfw. by rewrite app_nil_r.
  - rewrite fail_with_buffer by done. by apply fail_with_shape.
Qed.

Lemma drain_shape input st : shape input st -> shape input (drain st).
Proof.
  apply (drain_ind created_at max_event_bytes media (fun st d => shape input st -> shape input d)); [done|].
  clear st. intros st st' Hstep IH Hs. apply IH.
  unfold SseValidator.drain_step in Hstep. destruct (finished st) eqn:Ef; [done|].
  destruct (complete_frame_len _) as [n|] eqn:En; [|done]. case_match; injection Hstep as <-.
  - by apply fail_with_shape.
  - apply handle_frame_shape; [done| |done]. by rewrite take_drop.
Qed.

Lemma shape_receive input c st :
  finished st = false -> shape input st -> shape (input ++ c) (set_buffer (buffer st ++ c) st).
Proof.
  intros Hf (frames & Ho & H). rewrite Hf in H. destruct H as [Hp ->].
  exists frames. split; [done|]. cbn. rewrite Hf. by rewrite app_assoc.
Qed.

Lemma on_event_shape input ev st :
  finished st = false -> shape input st -> shape (input ++ received [ev]) (on_event ev st).
Proof.
  intros Hf Hs. destruct ev as [c| |]; cbn; rewrite app_nil_r; [|by apply fail_with_shape..].
  pose proof (drain_shape _ _ (shape_receive _ c _ Hf Hs)) as Hd.
  case_match; [by apply fail_with_shape|done].
Qed.

Lemma on_end_shape input st : finished st = false -> shape input st -> shape input (on_end st).
Proof.
  intros Hf Hs. unfold SseValidator.on_end. case_match; [rewrite fail_with_buffer by done|];
    by apply fail_with_shape.
Qed.
Lemma on_end_finished st : finished st = false -> finished (on_end st) = true.
Proof. intros Hf. unfold SseValidator.on_end. case_match; by apply fail_with_finished. Qed.

Lemma shape_more input more st : finished st = true -> shape input st -> shape (input ++ more) st.
Proof.
  intros Hf (frames & Ho & H). exists frames. split; [done|]. rewrite Hf in *.
  destruct H as (last & Hp & Hc). exists last. split; [done|]. by apply closed_by_more.
Qed.

Lemma run_shape input st script :
  shape input st -> finished (run st script) = true /\ shape (input ++ received script) (run st script).
Proof.
  revert input st. induction script as [|ev script IH]; intros input st Hs; rewrite run_unfold;
    pose proof (drain_shape _ _ Hs) as Hd; destruct (finished (drain st)) eqn:Ef.
  - split; [done|]. by apply shape_more.
  - split; [by apply on_end_finished|]. cbn. rewrite app_nil_r. by apply on_end_shape.
  - split; [done|]. by apply shape_more.
  - pose proof (on_event_shape _ ev _ Ef Hd) as He. apply IH in He as [Hfin He]. split; [done|].
    cbn in He |- *. by rewrite app_nil_r, <- app_assoc in He.
Qed.

Lemma shape_new : shape [] State_new.
Proof. exists []. by split. Qed.

(** ** Polling *)

Definition queue_first (p : list bytes) (st : State) : State := set_pending (p ++ pending st) st.

Lemma fail_with_queue p reason st : fail_with reason (queue_first p st) = queue_first p (fail_with reason st).
Proof.
  unfold SseValidator.fail_with, queue_first. cbn. destruct (finished st) eqn:E; [done|].
  unfold finish, push_back, set_pending. cbn. by rewrite app_assoc.
Qed.

Lemma handle_frame_queue p frame b st :
  handle_frame frame (set_buffer b (queue_first p st)) = queue_first p (handle_frame frame (set_buffer b st)).
Proof.
  unfold SseValidator.handle_frame. destruct (inspect_frame frame) as [[ev|ev]|reason]; [|done|].
  - unfold keep_event. case_match; [|case_match];
      unfold queue_first, finish, push_back, set_pending; cbn; by rewrite app_assoc.
  - apply (fail_with_queue p reason (set_buffer b st)).
Qed.

Lemma drain_step_queue p st : drain_step (queue_first p st) = queue_first p <$> drain_step st.
Proof.
  unfold SseValidator.drain_step. cbn [finished queue_first set_pending buffer].
  destruct (finished st); [done|]. destruct (complete_frame_len (buffer st)); [|done].
  case_match; cbn; f_equal; [apply fail_with_queue|apply handle_frame_queue].
Qed.

Lemma drain_queue p st : drain (queue_first p st) = queue_first p (drain st).
Proof.
  apply (drain_ind created_at max_event_bytes media (fun st d => drain (queue_first p st) = queue_first p d));
    clear st; intros st.
  - intros H. rewrite drain_fixed; [done|]. by rewrite drain_step_queue, H.
  - intros st' H IH. by rewrite drain_unfold, drain_step_queue, H.
Qed.

Lemma on_event_queue p ev st : on_event ev (queue_first p st) = queue_first p (on_event ev st).
Proof.
  destruct ev as [c| |]; cbn [SseValidator.on_event]; [|by apply fail_with_queue..].
  change (set_buffer _ (queue_first p st)) with (queue_first p (set_buffer (buffer st ++ c) st)).
  rewrite drain_queue. cbn [finished queue_first set_pending buffer].
  case_match; [apply fail_with_queue|done].
Qed.

Lemma on_end_queue p st : on_end (queue_first p st) = queue_first p (on_end st).
Proof.
  unfold SseValidator.on_end. cbn [buffer queue_first set_pending]. case_match;
    [apply (fail_with_queue p _ (set_buffer [] st))|apply fail_with_queue].
Qed.

Lemma run_queue p st script : run (queue_first p st) script = queue_first p (run st script).
Proof.
  revert st. induction script as [|ev script IH]; intros st;
    rewrite (run_unfold (queue_first p st)), (run_unfold st), drain_queue;
    cbn [finished queue_first set_pending]; (destruct (finished (drain st)); [done|]).
  - apply on_end_queue.
  - by rewrite on_event_queue, IH.
Qed.

Lemma run_pop f rest st script :
  pending st = f :: rest -> pending (run st script) = f :: pending (run (set_pending rest st) script).
Proof.
  intros Hp. assert (Heq : st = queue_first [f] (set_pending rest st)).
  { destruct st; unfold queue_first, set_pending; cbn in *. by rewrite Hp. }
  rewrite Heq at 1. by rewrite run_queue.
Qed.

Lemma run_drain st script : run (drain st) script = run st script.
Proof. by rewrite !run_unfold, drain_idemp. Qed.

(** A poll hands out the next frame of the run. *)
Lemma next_frame_run st script :
  match next_frame st script with
  | Some (f, st', script') => pending (run st script) = f :: pending (run st' script')
  | None => pending (run st script) = []
  end.
Proof.
  revert st. induction script as [|ev script IH]; intros st; cbn [SseValidator.next_frame];
    (destruct (pending st) as [|f rest] eqn:Ep; [|by apply run_pop]);
    (destruct (finished st) eqn:Ef; [by rewrite run_finished|]);
    rewrite <- run_drain; destruct (pending (drain st)) as [|f rest] eqn:Epd; try by apply run_pop.
  - destruct (finished (drain st)) eqn:Efd; [by rewrite run_finished|].
    rewrite run_unfold, drain_idemp, Efd.
    destruct (pending (on_end (drain st))) as [|f rest] eqn:Epe; [done|].
    rewrite run_finished; [done|]. cbn. by apply on_end_finished.
  - destruct (finished (drain st)) eqn:Efd; [by rewrite run_finished|].
    rewrite (run_unfold (drain st)), drain_idemp, Efd. apply IH.
Qed.

Lemma poll_all_run fuel st script :
  length (pending (run st script)) < fuel -> poll_all fuel st script = Some (pending (run st script)).
Proof.
  revert st script. induction fuel as [|fuel IH]; intros st script Hlen; [lia|].
  cbn [SseValidator.poll_all]. pose proof (next_frame_run st script) as H.
  destruct (next_frame st script) as [[[f st'] script']|]; [|by rewrite H].
  rewrite H in *. simpl in Hlen. rewrite IH by lia. done.
Qed.

End Stream.

Lemma validated_stream_closed {SJ : SerdeJson} created_at max media (script : list upstream_event) :
  exists frames last,
    validated_stream created_at max media script = List.filter forwarded frames ++ [last]
    /\ Forall (fun f => open_frame f = true) frames
    /\ closed_by created_at frames last (received script).
Proof.
  destruct (run_shape created_at max media [] State_new script (shape_new created_at)) as [Hf Hs].
  destruct Hs as (frames & Ho & H). rewrite Hf in H. destruct H as (last & Hp & Hc). eauto.
Qed.

(** ** What a failure lets through *)

Definition failure_codes : list string :=
  [ "context_length_exceeded"; "rate_limit_exceeded"; "invalid_api_key"; "model_not_found";
    "insufficient_quota"; "invalid_request" ].

Lemma stream_failure_code_allowed code : one_of (stream_failure_code code) failure_codes = true.
Proof. destruct code as [c|]; [|done]. unfold stream_failure_code. by repeat case_match. Qed.

(** The error object a failure event carries. *)
Definition error_object (v : value) : value :=
  default v (or_else (vget "response" v ≫= vget "error") (vget "error" v)).

(** The code a failure announces: the upstream's own when it is on the list, by its name
    there, else a code that does not come from the upstream's document. *)
Definition announced (otherwise : string) (code : option string) : string :=
  match code with
  | Some c =>
      if one_of c failure_codes then c
      else if String.eqb c "usage_limit_reached" then "rate_limit_exceeded" else otherwise
  | None => otherwise
  end.
Lemma announced_allowed otherwise code :
  one_of otherwise failure_codes = true -> one_of (announced otherwise code) failure_codes = true.
Proof. intros H. destruct code as [c|]; [|done]. cbn [announced]. destruct (one_of c _) eqn:E; [done|]. by case_match. Qed.
(** A parameter of at most 128 characters that can hold no sentence. *)
Definition plain_parameter (p : string) : bool :=
  (1 <=? slen p)%N && (slen p <=? 128)%N
  && str_forallb (fun b => is_ascii_alphanumeric b || char_in "_-.[]" b) p.
Lemma nonempty_length s : (1 <=? slen s)%N = negb (is_empty s).
Proof. destruct s; [done|]. apply N.leb_le. unfold slen. cbn. lia. Qed.
Lemma opt_filter_ext {A} (f g : A -> bool) o : (forall a, f a = g a) -> opt_filter f o = opt_filter g o.
Proof. intros H. destruct o as [a|]; [|done]. cbn. by rewrite H. Qed.

Lemma stream_failure_code_announced code : stream_failure_code code = announced "invalid_request" code.
Proof.
  destruct code as [c|]; [|done]. unfold stream_failure_code, announced, one_of, failure_codes. cbn [existsb].
  destruct (String.eqb_spec c "context_length_exceeded") as [->|]; [done|].
  destruct (String.eqb_spec c "rate_limit_exceeded") as [->|]; [done|].
  destruct (String.eqb_spec c "usage_limit_reached") as [->|]; [done|].
  destruct (String.eqb_spec c "invalid_api_key") as [->|]; [done|].
  destruct (String.eqb_spec c "model_not_found") as [->|]; [done|].
  destruct (String.eqb_spec c "insufficient_quota") as [->|]; [done|].
  by destruct (String.eqb_spec c "invalid_request") as [->|].
Qed.
Lemma sanitize_announced v :
  let code := announced "invalid_request" (vget_str "code" (error_object v)) in
  sanitize_stream_failure v
  = {| failure_code := code; failure_message := stream_failure_message code;
       failure_parameter := opt_filter plain_parameter (vget_str "param" (error_object v)) |}.
Proof.
  unfold sanitize_stream_failure. fold (error_object v). rewrite stream_failure_code_announced. cbv zeta. f_equal.
  apply opt_filter_ext. intros p. unfold safe_error_parameter, plain_parameter. by rewrite nonempty_length.
Qed.

Lemma keep_failure {SJ : SerdeJson} created_at media frame ev st :
  inspect_frame frame = Ok (Keep ev) -> one_of (kind ev) ["error"; "response.failed"] = true ->
  let code := announced "invalid_request" (vget_str "code" (error_object (event_value ev))) in
  let seen := observe ev st in
  handle_frame created_at media frame st
  = finish (push_back (failure_frame created_at (response_id seen) (model seen) (last_sequence seen) code (stream_failure_message code)
                         (opt_filter plain_parameter (vget_str "param" (error_object (event_value ev))))) seen).
Proof.
  intros Hin Hkind. unfold handle_frame, keep_event. rewrite Hin, sanitize_announced.
  assert (one_of (kind ev) ["error"; "response.failed"; "response.cancelled"] = true
          /\ String.eqb (kind ev) "response.cancelled" = false) as [-> ->]; [|done].
  apply one_of_spec in Hkind as [<-|[<-|[]]]; done.
Qed.

(** ** Properties *)

(** C1: Whatever the upstream sends, and however it ends, the validated stream is the
    kept frames of a prefix of the upstream bytes, byte for byte and in order, with
    only metadata frames left out, followed by exactly one closing frame: the upstream's
    own [response.completed] or [response.incomplete] at its place, or one
    [response.failed] built by the gateway. *)
Theorem validated_stream_shape {SJ : SerdeJson} created_at max media (script : list upstream_event) :
  exists frames last,
    validated_stream created_at max media script = List.filter forwarded frames ++ [last]
    /\ Forall (fun f => open_frame f = true) frames
    /\ closed_by created_at frames last (received script).
Proof. apply validated_stream_closed. Qed.

(** C16: The validated stream depends on the upstream bytes only: any two ways of
    cutting them into chunks give the same output, oversized frames included. *)
Theorem validated_stream_fragmentation {SJ : SerdeJson} created_at max media
    (chunks1 chunks2 : list bytes) (rest : list upstream_event)
    (Hsame : concat chunks1 = concat chunks2) :
  validated_stream created_at max media (map Chunk chunks1 ++ rest)
  = validated_stream created_at max media (map Chunk chunks2 ++ rest).
Proof.
  unfold validated_stream. rewrite !run_chunks by apply settled_new. by rewrite Hsame.
Qed.

(** Polling the stream one frame at a time, as its consumer does, ends and
    returns every frame of the run, in order. *)
Theorem poll_all_complete {SJ : SerdeJson} created_at max media (script : list upstream_event) (fuel : nat)
    (Hfuel : length (validated_stream created_at max media script) < fuel) :
  poll_all created_at max media fuel State_new script = Some (validated_stream created_at max media script).
Proof. by apply poll_all_run. Qed.


(** What a sanitised failure carries is bounded: its code is one of six, its
    message is fixed by the code, and its parameter, when there is one, is the
    upstream's own and passes [safe_error_parameter]. *)
Theorem sanitize_stream_failure_bounded (v : value) :
  one_of (failure_code (sanitize_stream_failure v)) failure_codes = true
  /\ failure_message (sanitize_stream_failure v) = stream_failure_message (failure_code (sanitize_stream_failure v))
  /\ (forall p, failure_parameter (sanitize_stream_failure v) = Some p ->
        safe_error_parameter p = true /\ vget_str "param" (error_object v) = Some p).
Proof.
  split; [apply stream_failure_code_allowed|]. split; [done|].
  intros p. cbn. fold (error_object v). destruct (vget_str "param" (error_object v)) as [q|]; [|done].
  cbn. destruct (safe_error_parameter q) eqn:E; [|done]. by intros [= <-].
Qed.

(** Every failure frame the gateway builds is itself a frame the validator reads
    as a kept [response.failed] event with the given sequence number. *)
Theorem failure_frame_accepted {SJ : SerdeJson} {SJL : SerdeJsonLaws SJ}
    created_at id model seq code message param
    (Hclock : (created_at < u64_modulus)%N) (Hseq : (seq < u64_modulus)%N) :
  inspect_frame (failure_frame created_at id model seq code message param)
  = Ok (Keep {| kind := "response.failed"; sequence_number := Some seq;
                event_value := failure_document created_at id model seq code message param |}).
Proof. by apply inspect_failure_frame. Qed.

(** ** Witnesses *)

Definition sample_event (k : string) (fields : list (string * value)) : bytes :=
  to_bytes (sse_text k (to_string (json_obj (("type", JString k) :: ("sequence_number", jnum 1) :: fields)))).
Definition sample_delta : bytes := sample_event "response.output_text.delta" [("delta", JString "hi")].
Definition sample_done : bytes :=
  sample_event "response.completed" [("response", json_obj [("id", JString "r1")])].
Definition sample_error (message : string) : bytes :=
  sample_event "error" [("message", JString message); ("code", JString "usage_limit_reached")].

Example sample_stream_forwarded :
  validated_stream 0 MAX_EVENT_BYTES None [Chunk (sample_delta ++ sample_done)] = [sample_delta; sample_done].
Proof. vm_compute. reflexivity. Qed.

Example fragmentation_witness :
  concat [take 7 sample_delta; drop 7 sample_delta ++ sample_done] = concat [sample_delta; sample_done]
  /\ validated_stream 0 MAX_EVENT_BYTES None
       (map Chunk [take 7 sample_delta; drop 7 sample_delta ++ sample_done] ++ [Interrupted])
     = validated_stream 0 MAX_EVENT_BYTES None (map Chunk [sample_delta; sample_done] ++ [Interrupted]).
Proof.
  assert (H : concat [take 7 sample_delta; drop 7 sample_delta ++ sample_done]
              = concat [sample_delta; sample_done]) by (vm_compute; reflexivity).
  split; [exact H|].
  exact (validated_stream_fragmentation 0 MAX_EVENT_BYTES None _ _ [Interrupted] H).
Defined.

Example poll_witness :
  length (validated_stream 0 MAX_EVENT_BYTES None [Chunk sample_delta]) < 3
  /\ poll_all 0 MAX_EVENT_BYTES None 3 State_new [Chunk sample_delta]
     = Some (validated_stream 0 MAX_EVENT_BYTES None [Chunk sample_delta]).
Proof.
  assert (H : length (validated_stream 0 MAX_EVENT_BYTES None [Chunk sample_delta]) < 3)
    by (vm_compute; lia).
  split; [exact H|]. exact (poll_all_complete 0 MAX_EVENT_BYTES None [Chunk sample_delta] 3 H).
Defined.

Definition sample_error_event (message : string) : InspectedEvent :=
  {| kind := "error"; sequence_number := Some 1%N;
     event_value := json_obj [("type", JString "error"); ("sequence_number", jnum 1);
                              ("message", JString message); ("code", JString "usage_limit_reached")] |}.


Example failure_frame_witness :
  inspect_frame (failure_frame 1700000000 (Some "resp_1") None 8 "invalid_request" "stopped" None)
  = Ok (Keep {| kind := "response.failed"; sequence_number := Some 8%N;
                event_value := failure_document 1700000000 (Some "resp_1") None 8 "invalid_request" "stopped" None |}).
Proof.
  exact (failure_frame_accepted 1700000000 (Some "resp_1") None 8 "invalid_request" "stopped" None
           ltac:(vm_compute; reflexivity) ltac:(vm_compute; reflexivity)).
Defined.
