(* ===== verification/Errors.v ===== *)
(** * Errors of the transport crate

    Models [crates/codex-transport/src/error.rs]. An HTTP status is its number;
    [reqwest::Error] belongs to a library and appears as what the source asks of it:
    four predicates and its displayed text. *)

From S2P Require Import Prelude.
From stdpp Require Import options.

Abbreviation StatusCode := N (only parsing).

Definition UNAUTHORIZED : StatusCode := 401.
Definition FORBIDDEN : StatusCode := 403.
Definition NOT_FOUND : StatusCode := 404.
Definition TOO_MANY_REQUESTS : StatusCode := 429.
(** [StatusCode::is_success], [is_client_error], [is_server_error] *)
Definition is_success (s : StatusCode) : bool := (200 <=? s)%N && (s <? 300)%N.
Definition is_client_error (s : StatusCode) : bool := (400 <=? s)%N && (s <? 500)%N.
Definition is_server_error (s : StatusCode) : bool := (500 <=? s)%N && (s <? 600)%N.

Record ReqwestError := {
  is_timeout : bool;
  is_connect : bool;
  is_request : bool;
  is_body : bool;
  reqwest_text : string
}.

Inductive Error : Type :=
  | DataDirectoryUnavailable
  | InvalidAuthHome (why : string)
  | Authentication (why : string)
  | NotAuthenticated
  | ZaiNotAuthenticated
  | Keyring (why : string)
  | ProviderUnsupported (what : string)
  | UnsupportedAuthMode
  | CustomBaseUrlRequiresApiKey
  | InvalidBaseUrl
  | EmptyApiKey
  | ApiKeyTooLong (limit : N)
  | ApiKeyNotUtf8
  | ApiKeyContainsWhitespace
  | ApiKeyContainsControlCharacters
  | InvalidRequest (why : string)
  | FastModeUnavailable
  | InvalidHeader (why : string)
  | Provider (why : string)
  | Http (error : ReqwestError)
  | HttpClient (why : string)
  | CredentialRefreshLock (why : string)
  | Upstream (status : StatusCode) (summary : string)
  | InvalidUpstreamResponse (why : string)
  | Io (why : string).

(** The [Display] text of the [#[error(...)]] attributes. [status_text] is how
    [http::StatusCode] prints. *)
Definition error_text (status_text : StatusCode -> string) (e : Error) : string :=
  match e with
  | DataDirectoryUnavailable => "could not determine a local data directory for Muse Codex"
  | InvalidAuthHome why => "invalid Muse Codex home: " +:+ why
  | Authentication why => "authentication failed: " +:+ why
  | NotAuthenticated => "no Codex credentials are stored; run `muse-codex login` or `muse-codex auth set --provider codex --api-key-stdin`"
  | ZaiNotAuthenticated => "no Z.ai credentials are stored; run `muse-codex auth set --provider zai --api-key-stdin`"
  | Keyring why => "the isolated credential store is unavailable: " +:+ why
  | ProviderUnsupported what => what +:+ " is not available with the selected provider"
  | UnsupportedAuthMode => "the active credential type is not supported by this adapter"
  | CustomBaseUrlRequiresApiKey => "a custom OpenAI base URL is allowed only with API-key authentication"
  | InvalidBaseUrl => "custom API base URL must use HTTPS and contain no credentials, query, or fragment"
  | EmptyApiKey => "API key input is empty"
  | ApiKeyTooLong limit => "API key input exceeds the " +:+ pretty limit +:+ "-byte limit"
  | ApiKeyNotUtf8 => "API key input is not valid UTF-8"
  | ApiKeyContainsWhitespace => "API key input contains whitespace"
  | ApiKeyContainsControlCharacters => "API key input contains control characters"
  | InvalidRequest why => "Muse produced an invalid Responses request: " +:+ why
  | FastModeUnavailable => "Fast mode is not available for the selected model"
  | InvalidHeader why => "invalid request header: " +:+ why
  | Provider why => "failed to construct the pinned Codex provider: " +:+ why
  | Http error => "upstream request failed: " +:+ reqwest_text error
  | HttpClient why => "could not build the pinned Codex HTTP client: " +:+ why
  | CredentialRefreshLock why => "credential refresh lock failed: " +:+ why
  | Upstream status summary => "upstream returned HTTP " +:+ status_text status +:+ ": " +:+ summary
  | InvalidUpstreamResponse why => "upstream response was invalid: " +:+ why
  | Io why => why
  end.
