(* ===== verification/AuthHome.v ===== *)
(** * The isolated credential home and the refresh lock

    Models [AuthConfig] of [crates/codex-transport/src/auth.rs] (the checks of the home
    directory on Unix) and [acquire_credential_refresh_lock_blocking] of [transport.rs],
    over the file system of [Posix.v]. *)

From S2P Require Import Prelude Utf8 Paths Posix Errors.
From stdpp Require Import options.

(** The [dirs] crate. *)
Class KnownDirs := { data_local_dir : option path; home_dir : option path }.

(** [{mode:04o}] of nine permission bits *)
Definition octal_mode (m : N) : string :=
  "0" +:+ pretty (m / 64)%N +:+ pretty ((m / 8) mod 8)%N +:+ pretty (m mod 8)%N.
(** [Path::display] *)
Definition display (p : path) : string := to_string_lossy p.

Section Home.
  Context {PR : Process} {KD : KnownDirs}.

(** [?] on an [io::Error] *)
Definition io_error {A} (c : io Errno A) : io Error A := io_map_err (fun e => Io (strerror e)) c.
Definition invalid_home {A} (why : string) : result Error A := Err (InvalidAuthHome why).

Definition dotted (c : Component) : bool := match c with CurDir | ParentDir => true | _ => false end.

Definition dedicated_root (home : path) : result Error path :=
  if bool_decide (file_name home = Some "muse-codex") then Ok home
  else if bool_decide (file_name home = Some "codex-home")
          && bool_decide (parent home ≫= file_name = Some "muse-codex")
  then ok_or (parent home) (InvalidAuthHome "codex-home has no parent")
  else invalid_home "path must end in `muse-codex` or `muse-codex/codex-home`".

Definition reject_known_broad_paths (home : path) : result Error unit :=
  reject (path_eq home "/") (InvalidAuthHome "filesystem root is forbidden");;
  match home_dir with
  | None => Ok tt
  | Some user_home =>
      reject (path_eq home user_home) (InvalidAuthHome "user home is forbidden");;
      reject (path_starts_with home (path_join user_home ".codex"))
             (InvalidAuthHome "the standard Codex home and its descendants are forbidden")
  end.

Definition validate_existing_private_directory (p : path) (metadata : Inode) : result Error unit :=
  reject (is_symlink metadata) (InvalidAuthHome (display p +:+ " is a symlink"));;
  reject (negb (is_dir metadata)) (InvalidAuthHome (display p +:+ " is not a directory"));;
  reject (negb (uid metadata =? geteuid)%N) (InvalidAuthHome (display p +:+ " is not owned by the current user"));;
  reject (negb (permissions metadata =? 448)%N)
    (InvalidAuthHome (display p +:+ " must already have mode 0700 (found " +:+ octal_mode (permissions metadata) +:+ ")")).

(** [fs::symlink_metadata] *)
Definition symlink_metadata (p : path) : io Errno Inode := query (fun fs => snd <$> stat false p fs).
(** [fs::metadata] *)
Definition metadata (p : path) : io Errno Inode := query (fun fs => snd <$> stat true p fs).

Definition ensure_private_directory (p : path) : io Error unit :=
  found ← attempt (symlink_metadata p);
  match found with
  | Ok inode => lift (validate_existing_private_directory p inode)
  | Err NotFound =>
      made ← attempt (call (mkdir p 448));
      match made with
      | Ok _ | Err AlreadyExists =>
          inode ← io_error (symlink_metadata p);
          lift (validate_existing_private_directory p inode)
      | Err e => lift (Err (Io (strerror e)))
      end
  | Err e => lift (Err (Io (strerror e)))
  end.

(** [AuthConfig::with_home]: the home it settles on. *)
Definition with_home (home : path) : io Error path :=
  _ ← lift (reject (is_empty home) (InvalidAuthHome "path is empty"));
  _ ← lift (reject (negb (is_absolute home)) (InvalidAuthHome "path must be absolute"));
  _ ← lift (reject (existsb dotted (components home)) (InvalidAuthHome "path must not contain `.` or `..` components"));
  dedicated_root_path ← lift (dedicated_root home);
  _ ← lift (reject_known_broad_paths home);
  root_parent ← lift (ok_or (parent dedicated_root_path) (InvalidAuthHome "dedicated directory has no parent"));
  parent_metadata ← io_map_err (fun e => InvalidAuthHome ("parent " +:+ display root_parent +:+ " must already exist: " +:+ strerror e))
                      (metadata root_parent);
  _ ← lift (reject (negb (is_dir parent_metadata)) (InvalidAuthHome ("parent " +:+ display root_parent +:+ " is not a directory")));
  canonical_parent ← io_map_err (fun e => InvalidAuthHome ("could not canonicalize parent " +:+ display root_parent +:+ ": " +:+ strerror e))
                       (query (canonicalize root_parent));
  let expected_root := path_join canonical_parent "muse-codex" in
  let expected_home := if path_eq home dedicated_root_path then expected_root else path_join expected_root "codex-home" in
  _ ← ensure_private_directory dedicated_root_path;
  _ ← (if path_eq home dedicated_root_path then mret tt else ensure_private_directory home);
  canonical ← io_map_err (fun e => InvalidAuthHome (display home +:+ ": " +:+ strerror e)) (query (canonicalize home));
  _ ← lift (reject (negb (path_eq canonical expected_home)) (InvalidAuthHome "auth path changed while it was being validated"));
  canonical_root ← lift (dedicated_root canonical);
  root_metadata ← io_error (symlink_metadata canonical_root);
  _ ← lift (validate_existing_private_directory canonical_root root_metadata);
  _ ← (if path_eq canonical canonical_root then mret tt else
       home_metadata ← io_error (symlink_metadata canonical);
       lift (validate_existing_private_directory canonical home_metadata));
  mret canonical.

(** [AuthConfig::for_muse_codex]; [variable] is [MUSE_CODEX_HOME]. *)
Definition for_muse_codex (variable : option path) : io Error path :=
  match opt_filter (fun value => negb (is_empty value)) variable with
  | Some home => with_home home
  | None =>
      data_root ← lift (ok_or data_local_dir DataDirectoryUnavailable);
      _ ← io_error (create_dir_all data_root);
      with_home (path_join (path_join data_root "muse-codex") "codex-home")
  end.

(** ** The refresh lock *)

Definition CREDENTIAL_REFRESH_LOCK_NAME : string := ".credential-refresh.lock".

(** O_CREAT and O_NOFOLLOW: an existing file, or a new one. *)
Definition open_or_create (p : path) (m : N) (fs : Fs) : result Errno (N * Fs) :=
  place ← locate false fs p;
  match names fs !! place with
  | Some i =>
      inode ← ok_or (inodes fs !! i) NotFound;
      reject (is_symlink inode) TooManyLinks;;
      reject (is_dir inode) IsADirectory;;
      Ok (i, fs)
  | None => Ok (add_entry place (Regular []) m fs)
  end.

Definition lock_error (why : string) : Error := CredentialRefreshLock why.
(** [acquire_credential_refresh_lock_blocking]: the inode locked. [flock] is the outcome
    of taking the lock. *)
Definition acquire_credential_refresh_lock (flock : result string unit) (home : path) : io Error N :=
  canonical_home ← io_map_err (fun e => lock_error ("could not canonicalize private home: " +:+ strerror e)) (query (canonicalize home));
  _ ← lift (reject (negb (path_eq canonical_home home)) (lock_error "private home changed after validation"));
  let p := path_join canonical_home CREDENTIAL_REFRESH_LOCK_NAME in
  _ ← lift (reject (negb (path_starts_with p canonical_home)) (lock_error "private lock path escaped its validated home"));
  file ← io_map_err (fun e => lock_error ("could not open private lock file: " +:+ strerror e)) (call (open_or_create p 384));
  '(inode, links) ← io_map_err (fun e => lock_error ("could not inspect private lock file: " +:+ strerror e))
                      (query (fun fs => inode ← ok_or (inodes fs !! file) NotFound; Ok (inode, nlink fs file)));
  _ ← lift (reject (negb (is_file inode)) (lock_error "private lock path is not a regular file"));
  _ ← lift (reject (negb (uid inode =? geteuid)%N || negb (permissions inode =? 384)%N || negb (links =? 1))
              (lock_error "private lock file has unsafe ownership, mode, or link count"));
  _ ← lift (map_err lock_error flock);
  mret file.

End Home.
