(* ===== verification/AuthHomeCorrect.v ===== *)
(** * The credential home is private

    Properties of [AuthHome.v]: a home that is accepted is a private directory at its
    canonical place, and looking for one never changes what was there. *)

From S2P Require Import Prelude Utf8 Paths Posix PosixCorrect Errors AuthHome.
From stdpp Require Import options.

Section Home.
  Context {PR : Process} {KD : KnownDirs}.

Lemma tidy_ensure p : tidy (ensure_private_directory p).
Proof. unfold ensure_private_directory, symlink_metadata, io_error. tidy. Qed.
Lemma tidy_with_home home : tidy (with_home home).
Proof. pose proof tidy_ensure. unfold with_home, symlink_metadata, metadata, io_error. tidy. Qed.

Lemma validated_private p inode : validate_existing_private_directory p inode = Ok tt ->
  is_dir inode = true /\ permissions inode = 448%N /\ uid inode = geteuid.
Proof.
  unfold validate_existing_private_directory.
  intros (_ & _ & (_ & Hd%reject_ok & (_ & Hu%reject_ok & Hm%reject_ok)%bind_ok)%bind_ok)%bind_ok.
  apply negb_false_iff in Hd, Hu, Hm. by apply N.eqb_eq in Hu, Hm.
Qed.
Lemma metadata_private p fs s inode u : run_io (symlink_metadata p) s = (Ok inode, fs) ->
  validate_existing_private_directory p inode = Ok u -> private_at p (disk s) /\ disk fs = disk s.
Proof.
  unfold symlink_metadata. intros [Hs Hd]%run_query_ok Hv. split; [|done]. destruct u.
  destruct (stat false p (disk s)) as [[i n]|] eqn:Hst; [|done]. cbn in Hs. injection Hs as <-.
  exists i, n. split; [done|]. by apply (validated_private p).
Qed.

Lemma metadata_same p s inode s1 : run_io (metadata p) s = (Ok inode, s1) -> disk s1 = disk s.
Proof. intros [_ Hd]%run_query_ok. done. Qed.
Lemma run_private_unless (b : bool) p s u s' :
  run_io (if b then mret tt else
          io_error (symlink_metadata p) ≫= fun inode => lift (validate_existing_private_directory p inode)) s = (Ok u, s') ->
  disk s' = disk s /\ (b = true \/ private_at p (disk s)).
Proof.
  destruct b; [intros [-> ->]%run_ret_ok; auto|].
  intros (inode & s1 & Hm%run_map_err_ok & [Hv ->]%run_lift_ok)%run_bind_ok.
  destruct (metadata_private _ _ _ _ _ Hm Hv). auto.
Qed.
Lemma broad_rejected home u : reject_known_broad_paths home = Ok u ->
  forall user_home, home_dir = Some user_home ->
    path_eq home user_home = false /\ path_starts_with home (path_join user_home ".codex") = false.
Proof.
  unfold reject_known_broad_paths. intros (_ & _ & H)%bind_ok user_home Hh. rewrite Hh in H.
  apply bind_ok in H as (_ & H1%reject_ok & H2%reject_ok). auto.
Qed.

(** C20: An accepted home is private. When a home is accepted, it is an absolute path
    without [..], the home returned is its canonical form, named [muse-codex] or
    [muse-codex/codex-home] in the canonical parent, it and the dedicated directory are
    directories of mode 0700 owned by the user, not links, and it is not under the
    standard Codex home. Whatever the outcome and whatever calls fail, no existing entry
    of the disk is changed, and all that is added are empty private directories. *)
Theorem auth_home_private (home : path) (s : Sys) (Hwf : well_formed (disk s)) :
  let '(r, s') := run_io (with_home home) s in
  makes_dirs (disk s) (disk s') /\
  forall canonical, r = Ok canonical ->
    is_absolute home = true /\ existsb dotted (components home) = false
    /\ canonicalize home (disk s') = Ok canonical
    /\ (exists dedicated root_parent canonical_parent root,
         dedicated_root home = Ok dedicated /\ parent dedicated = Some root_parent
         /\ canonicalize root_parent (disk s) = Ok canonical_parent
         /\ path_eq canonical (if path_eq home dedicated then path_join canonical_parent "muse-codex"
                               else path_join (path_join canonical_parent "muse-codex") "codex-home") = true
         /\ dedicated_root canonical = Ok root /\ private_at root (disk s')
         /\ (path_eq canonical root = true \/ private_at canonical (disk s')))
    /\ (forall user_home, home_dir = Some user_home ->
         path_eq home user_home = false /\ path_starts_with home (path_join user_home ".codex") = false).
Proof.
  destruct (run_io (with_home home) s) as [r s'] eqn:Hrun.
  split; [pose proof (tidy_with_home home s Hwf) as Ht; by rewrite Hrun in Ht|].
  intros canonical ->. unfold with_home in Hrun.
  repeat (let k := type of Hrun in lazymatch k with run_io (_ ≫= _) _ = _ => run_step Hrun end).
  apply run_ret_ok in Hrun as [-> ->].
  revert Hstep0 Hstep1 Hstep11. intros Habs%reject_ok%negb_false_iff Hdots%reject_ok Hsame%reject_ok%negb_false_iff.
  apply ok_or_ok in Hstep4. apply metadata_same in Hstep5. rewrite Hstep5 in Hstep7.
  apply run_map_err_ok in Hstep13. destruct (metadata_private _ _ _ _ _ Hstep13 Hstep14) as [Hroot Hd5].
  assert (disk s6 = disk s3 /\ (path_eq a10 a12 = true \/ private_at a10 (disk s3))) as [Hd Hcanonical].
  { apply run_private_unless in Hstep15 as [-> Hp]. rewrite Hd5, Hdisk0 in *. auto. }
  rewrite Hd, <- Hdisk0. split_and!; [done|done|by rewrite Hdisk0| |by eapply broad_rejected].
  exists a2, a4, a7, a12. rewrite Hdisk0 in *. auto 10.
Qed.

Lemma open_or_create_opens p m fs i fs' : well_formed fs -> open_or_create p m fs = Ok (i, fs') ->
  exists place, locate false fs p = Ok place /\ names fs' !! place = Some i
    /\ (fs' = fs \/ names fs !! place = None /\ fs' = (add_entry place (Regular []) m fs).2).
Proof.
  intros Hwf. unfold open_or_create. intros (place & Hl & Hp)%bind_ok. exists place. split; [done|].
  destruct (names fs !! place) as [j|] eqn:Hn.
  - apply bind_ok in Hp as (inode & Hi & (_ & _ & (_ & _ & [= -> ->])%bind_ok)%bind_ok). auto.
  - injection Hp as <- <-. split; [cbn; by rewrite lookup_insert_eq|auto].
Qed.

(** C40: The refresh lock is taken on a private file only. When the lock is taken, the home
    is still the canonical directory it was, and the file locked is the one the disk has
    under the lock's name in it: a regular file of mode 0600, owned by the user and with
    no other name. The disk is the one before, or that disk with this one empty file
    added. *)
Theorem refresh_lock_safe (flock : result string unit) (home : path) (s s' : Sys) (file : N)
  (Hwf : well_formed (disk s)) (Hrun : run_io (acquire_credential_refresh_lock flock home) s = (Ok file, s')) :
  (exists canonical place inode,
     canonicalize home (disk s) = Ok canonical /\ path_eq canonical home = true
     /\ locate false (disk s) (path_join canonical CREDENTIAL_REFRESH_LOCK_NAME) = Ok place
     /\ names (disk s') !! place = Some file /\ inodes (disk s') !! file = Some inode
     /\ is_file inode = true /\ uid inode = geteuid /\ permissions inode = 384%N /\ nlink (disk s') file = 1
     /\ (disk s' = disk s \/ names (disk s) !! place = None /\ disk s' = (add_entry place (Regular []) 384 (disk s)).2))
  /\ flock = Ok tt.
Proof.
  unfold acquire_credential_refresh_lock in Hrun.
  apply run_bind_ok in Hrun as (canonical & s1 & [Hcan Hd1]%run_map_err_ok%run_query_ok & Hrun).
  apply run_bind_ok in Hrun as (_ & ? & [Hsame%reject_ok%negb_false_iff ->]%run_lift_ok & Hrun). cbv zeta in Hrun.
  apply run_bind_ok in Hrun as (_ & ? & [_ ->]%run_lift_ok & Hrun).
  apply run_bind_ok in Hrun as (i & s2 & Hopen%run_map_err_ok & Hrun).
  apply run_bind_ok in Hrun as ([inode links] & s3 & [Hi Hd3]%run_map_err_ok%run_query_ok & Hrun).
  apply run_bind_ok in Hrun as (_ & ? & [Hf%reject_ok%negb_false_iff ->]%run_lift_ok & Hrun).
  apply run_bind_ok in Hrun as (_ & ? & [[[Hu Hm]%orb_false_iff Hl]%reject_ok%orb_false_iff ->]%run_lift_ok & Hrun).
  apply run_bind_ok in Hrun as (u & ? & [Hflock ->]%run_lift_ok & [-> ->]%run_ret_ok).
  apply bind_ok in Hi as (inode' & Hi%ok_or_ok & [= -> <-]).
  apply negb_false_iff, N.eqb_eq in Hu, Hm. apply negb_false_iff, Nat.eqb_eq in Hl.
  split; [|by destruct flock as [[]|]].
  destruct (call_goes (open_or_create (path_join canonical CREDENTIAL_REFRESH_LOCK_NAME) 384) s1)
    as [(e & ? & [Hr _ _])|(a & fs & ? & Hgo & [Hr _ Hd])]; rewrite Hr in Hopen; [done|].
  injection Hopen as -> ->. cbn in Hd. rewrite Hd1 in Hgo.
  destruct (open_or_create_opens _ _ _ _ _ Hwf Hgo) as (place & Hloc & Hn & Hfs).
  exists canonical, place, inode. rewrite Hd3, Hd in *. auto 12.
Qed.
End Home.

(** ** A home and its lock *)

Section Witness.
Let process : Process := {| geteuid := 501; umask := 18; working_directory := []; pid := 77; strerror := fun _ => "" |}.
Let known : KnownDirs := {| data_local_dir := Some "/home/me/data"; home_dir := Some "/home/me" |}.
Let inode (t : FileType) : Inode := {| file_type := t; mode := 493; uid := 501 |}.
Let disk0 (data : FileType) : Fs :=
  {| names := list_to_map [(["home"], 1%N); (["home"; "me"], 2%N); (["home"; "me"; ".codex"], 3%N); (["home"; "me"; "data"], 4%N)];
     inodes := list_to_map [(1%N, inode Directory); (2%N, inode Directory); (3%N, inode Directory); (4%N, inode data)] |}.

Lemma auth_home_private_witness :
  exists s', run_io (with_home (PR:=process) (KD:=known) "/home/me/data/muse-codex/codex-home") (boot (disk0 Directory) [])
             = (Ok "/home/me/data/muse-codex/codex-home", s')
    /\ private_at (PR:=process) "/home/me/data/muse-codex/codex-home" (disk s').
Proof.
  assert (Hwf : well_formed (disk0 Directory)) by (apply well_formed_decided; vm_compute; reflexivity).
  pose proof (auth_home_private (PR:=process) (KD:=known) "/home/me/data/muse-codex/codex-home" (boot (disk0 Directory) []) Hwf) as H.
  assert (Hrun : (run_io (with_home (PR:=process) (KD:=known) "/home/me/data/muse-codex/codex-home") (boot (disk0 Directory) [])).1
                 = Ok "/home/me/data/muse-codex/codex-home") by (vm_compute; reflexivity).
  destruct (run_io (with_home (PR:=process) (KD:=known) "/home/me/data/muse-codex/codex-home") (boot (disk0 Directory) [])) as [r s'].
  cbn [fst] in Hrun. subst r. exists s'. split; [reflexivity|].
  destruct H as [_ H]. destruct (H _ eq_refl) as (_ & _ & _ & (d & rp & cp & root & _ & _ & _ & _ & Hroot & _ & [Heq|Hp]) & _); [|exact Hp].
  exfalso. revert Hroot Heq. vm_compute. intros [= <-]. discriminate.
Defined.

Lemma refresh_lock_safe_witness :
  exists s' file, run_io (acquire_credential_refresh_lock (PR:=process) (Ok tt) "/home/me/data") (boot (disk0 Directory) []) = (Ok file, s')
    /\ names (disk s') !! ["home"; "me"; "data"; ".credential-refresh.lock"] = Some file.
Proof.
  assert (Hwf : well_formed (disk0 Directory)) by (apply well_formed_decided; vm_compute; reflexivity).
  assert (Hrun : exists file, (run_io (acquire_credential_refresh_lock (PR:=process) (Ok tt) "/home/me/data") (boot (disk0 Directory) [])).1 = Ok file)
    by (vm_compute; eexists; reflexivity).
  destruct Hrun as [file Hfile].
  destruct (run_io (acquire_credential_refresh_lock (PR:=process) (Ok tt) "/home/me/data") (boot (disk0 Directory) [])) as [r s'] eqn:Hrun.
  cbn [fst] in Hfile. subst r. exists s', file. split; [reflexivity|].
  destruct (refresh_lock_safe (PR:=process) (Ok tt) "/home/me/data" (boot (disk0 Directory) []) s' file Hwf Hrun)
    as [(c & place & i & Hc & _ & Hl & Hn & _) _].
  assert (c = "/home/me/data") as -> by (revert Hc; vm_compute; by intros [= <-]).
  assert (place = ["home"; "me"; "data"; ".credential-refresh.lock"]) as <- by (revert Hl; vm_compute; by intros [= <-]).
  exact Hn.
Defined.

(** The broad paths are compared with the text of the path only: a home below a link to
    the standard Codex home is accepted. *)
Example linked_home_accepted :
  (run_io (with_home (PR:=process) (KD:=known) "/home/me/data/muse-codex") (boot (disk0 (Symlink "/home/me/.codex")) [])).1
  = Ok "/home/me/.codex/muse-codex".
Proof. vm_compute. reflexivity. Qed.
(** A [.] inside the path is no component, so that it is accepted; [..] is refused. *)
Example dots_in_home :
  (run_io (with_home (PR:=process) (KD:=known) "/home/me/./data/muse-codex") (boot (disk0 Directory) [])).1 = Ok "/home/me/data/muse-codex"
  /\ (run_io (with_home (PR:=process) (KD:=known) "/home/me/../me/data/muse-codex") (boot (disk0 Directory) [])).1
     = Err (InvalidAuthHome "path must not contain `.` or `..` components").
Proof. split; vm_compute; reflexivity. Qed.
End Witness.
