(* ===== verification/ZaiRequest.v ===== *)
(** * Z.ai request translation

    Models [crates/codex-transport/src/zai/request.rs]: a stock-Muse Responses request
    becomes a Z.ai chat-completions body, together with the map that restores Muse's
    tool names in the answer. *)

From S2P Require Import Prelude Utf8 Json Errors.
From stdpp Require Import options.

Definition MAX_FUNCTION_NAME_BYTES : N := 64.
Definition NAMESPACE_SEPARATOR : ascii := ".".
Definition ENCODED_NAMESPACE_SEPARATOR : string := "__".

Abbreviation res := (result Error).
Definition invalid {A} (why : string) : res A := Err (InvalidRequest why).

(** ** Tool names *)

Record ToolNames := {
  decoded : gmap string string;
  freeform : gset string
}.
Definition ToolNames_default : ToolNames := {| decoded := ∅; freeform := ∅ |}.

Definition decode_name (names : ToolNames) (encoded : string) : string :=
  default encoded (decoded names !! encoded).

Definition is_freeform (names : ToolNames) (encoded : string) : bool :=
  bool_decide (encoded ∈ freeform names).

Definition wire_name_byte (b : ascii) : bool := is_ascii_alphanumeric b || char_in "_-" b.

Definition encode_function_name (original : string) : res string :=
  let encoded := replace_char NAMESPACE_SEPARATOR ENCODED_NAMESPACE_SEPARATOR original in
  if is_empty encoded || (MAX_FUNCTION_NAME_BYTES <? slen encoded)%N then
    invalid ("tool name '" +:+ original +:+ "' does not fit Z.ai's 64-byte limit")
  else if negb (str_forallb wire_name_byte encoded) then
    invalid ("tool name '" +:+ original +:+ "' contains characters Z.ai does not accept")
  else Ok encoded.

Definition record_name (names : ToolNames) (original : string) (is_free : bool) : res (string * ToolNames) :=
  encoded ← encode_function_name original;
  match decoded names !! encoded with
  | Some existing =>
      reject (negb (String.eqb existing original))
        (InvalidRequest ("tools '" +:+ existing +:+ "' and '" +:+ original
                           +:+ "' collide after Z.ai name encoding"))
  | None => Ok tt
  end;;
  Ok (encoded, {| decoded := <[encoded := original]> (decoded names);
                  freeform := if is_free then {[encoded]} ∪ freeform names else freeform names |}).

Record ModelLimits := {
  accepts_images : bool;
  limit_max_output_tokens : N
}.

Record TranslatedRequest := {
  body : value;
  tools : ToolNames
}.

(** ** Tools *)

Definition map_reasoning_effort (effort : string) : res (option string) :=
  if String.eqb effort "none" then Ok None
  else if String.eqb effort "minimal" then Ok (Some "minimal")
  else if String.eqb effort "low" then Ok (Some "low")
  else if String.eqb effort "medium" then Ok (Some "medium")
  else if String.eqb effort "high" then Ok (Some "high")
  else if one_of effort ["xhigh"; "max"; "ultra"] then Ok (Some "xhigh")
  else invalid ("reasoning effort '" +:+ effort +:+ "' is not supported by the Z.ai provider").

Definition non_empty (s : string) : bool := negb (is_empty s).
(** [.and_then(Value::as_str).filter(|s| !s.is_empty()).ok_or_else(...)] *)
Definition required_str (k : string) (m : obj) (why : string) : res string :=
  ok_or (opt_filter non_empty (get_str k m)) (InvalidRequest why).

Definition qualified_name (tool : obj) (namespace : option string) : res string :=
  name ← required_str "name" tool "a tool needs a name";
  Ok (match namespace with
      | Some namespace => namespace +:+ String NAMESPACE_SEPARATOR name
      | None => name
      end).

Definition insert_description (tool function : obj) : obj :=
  match get_str "description" tool with
  | Some description => obj_insert "description" (JString description) function
  | None => function
  end.
Definition tool_declaration (function : obj) : value :=
  json_obj [("type", JString "function"); ("function", JObject function)].

Definition function_tool (tool : obj) (namespace : option string) (names : ToolNames)
  : res (value * ToolNames) :=
  original ← qualified_name tool namespace;
  '(encoded, names) ← record_name names original false;
  let function := insert_description tool (obj_insert "name" (JString encoded) []) in
  let parameters := default (json_obj [("type", JString "object"); ("properties", json_obj [])])
                            (obj_get "parameters" tool) in
  Ok (tool_declaration (obj_insert "parameters" parameters function), names).

Definition custom_tool (tool : obj) (namespace : option string) (names : ToolNames)
  : res (value * ToolNames) :=
  original ← qualified_name tool namespace;
  '(encoded, names) ← record_name names original true;
  let function := insert_description tool (obj_insert "name" (JString encoded) []) in
  let parameters := json_obj
    [ ("type", JString "object");
      ("properties", json_obj [("input", json_obj [("type", JString "string")])]);
      ("required", JArray [JString "input"]) ] in
  Ok (tool_declaration (obj_insert "parameters" parameters function), names).

Definition unsupported (what : string) (other : option string) : string :=
  what +:+ " '" +:+ default "(missing)" other +:+ "' is not supported by the Z.ai provider".

(** A [function] or [custom] entry, at top level or in a namespace. *)
Definition leaf_tool (tool : obj) (namespace : option string)
    (acc : list value * ToolNames) : res (list value * ToolNames) :=
  let '(translated, names) := acc in
  match get_str "type" tool with
  | Some ty =>
      if String.eqb ty "function" then
        '(t, names) ← function_tool tool namespace names; Ok (translated ++ [t], names)
      else if String.eqb ty "custom" then
        '(t, names) ← custom_tool tool namespace names; Ok (translated ++ [t], names)
      else invalid (unsupported "tool type" (Some ty))
  | None => invalid (unsupported "tool type" None)
  end.

Definition namespaced_tool (namespace : string) (acc : list value * ToolNames) (tool : value)
  : res (list value * ToolNames) :=
  tool ← ok_or (as_object tool) (InvalidRequest "each namespaced tool must be an object");
  leaf_tool tool (Some namespace) acc.

Definition top_level_tool (acc : list value * ToolNames) (tool : value)
  : res (list value * ToolNames) :=
  object ← ok_or (as_object tool) (InvalidRequest "each tool must be an object");
  match get_str "type" object with
  | Some ty =>
      if String.eqb ty "namespace" then
        namespace ← required_str "name" object "a tool namespace needs a name";
        nested ← ok_or (obj_get "tools" object ≫= as_array)
                       (InvalidRequest "a tool namespace needs a tools array");
        fold_res (namespaced_tool namespace) acc nested
      else leaf_tool object None acc
  | None => leaf_tool object None acc
  end.

Definition translate_tools (tools : option value) (names : ToolNames) : res (list value * ToolNames) :=
  match tools with
  | None => Ok ([], names)
  | Some tools =>
      if is_null tools then Ok ([], names) else
      tools ← ok_or (as_array tools) (InvalidRequest "tools must be an array");
      fold_res top_level_tool ([], names) tools
  end.

(** ** Messages *)

Definition text_part (v : string) : value := json_obj [("type", JString "text"); ("text", JString v)].
(** [if !text.is_empty() { text.push('\n') } text.push_str(value)] *)
Definition push_line (text v : string) : string := if is_empty text then v else text +:+ lf +:+ v.

Record ContentState := { text : string; multimodal : list value; has_image : bool }.

Definition content_part (limits : ModelLimits) (st : ContentState) (part : value) : res ContentState :=
  part ← ok_or (as_object part) (InvalidRequest "each content part must be an object");
  let push v := {| text := push_line (text st) v; multimodal := multimodal st ++ [text_part v];
                   has_image := has_image st |} in
  match get_str "type" part with
  | Some ty =>
      if one_of ty ["input_text"; "output_text"; "text"; "summary_text"] then
        Ok (push (default EmptyString (get_str "text" part)))
      else if String.eqb ty "refusal" then
        Ok (push (default EmptyString (get_str "refusal" part)))
      else if String.eqb ty "input_image" then
        reject (negb (accepts_images limits))
               (InvalidRequest "the selected Z.ai model does not accept image input");;
        url ← ok_or (get_str "image_url" part)
                    (InvalidRequest "an image content part needs an image_url");
        Ok {| text := text st;
              multimodal := multimodal st ++
                [json_obj [("type", JString "image_url"); ("image_url", json_obj [("url", JString url)])]];
              has_image := true |}
      else invalid (unsupported "content part type" (Some ty))
  | None => invalid (unsupported "content part type" None)
  end.

Definition translate_content_parts (parts : list value) (role : string) (limits : ModelLimits) : res value :=
  st ← fold_res (content_part limits) {| text := EmptyString; multimodal := []; has_image := false |} parts;
  Ok (if has_image st && String.eqb role "user" then JArray (multimodal st) else JString (text st)).

Definition chat_role (role : option string) : res string :=
  match role with
  | Some r =>
      if one_of r ["developer"; "system"] then Ok "system"
      else if String.eqb r "user" then Ok "user"
      else if String.eqb r "assistant" then Ok "assistant"
      else invalid (unsupported "message role" (Some r))
  | None => invalid (unsupported "message role" None)
  end.

Definition translate_message (item : obj) (limits : ModelLimits) : res value :=
  role ← chat_role (get_str "role" item);
  content ← match obj_get "content" item with
            | Some (JString text) => Ok (JString text)
            | Some (JArray parts) => translate_content_parts parts role limits
            | None | Some JNull => Ok (JString EmptyString)
            | Some _ => invalid "message content must be a string or an array"
            end;
  Ok (json_obj [("role", JString role); ("content", content)]).

(** The last message when it is an assistant message with a [tool_calls] array. *)
Definition open_tool_calls (message : value) : option (list value) :=
  match message with
  | JObject last =>
      if bool_decide (get_str "role" last = Some "assistant")
      then obj_get "tool_calls" last ≫= as_array else None
  | _ => None
  end.

Definition append_call (call message : value) : value :=
  match message with
  | JObject last =>
      JObject (obj_alter (fun calls => match calls with JArray l => JArray (l ++ [call]) | v => v end)
                         "tool_calls" last)
  | v => v
  end.

Definition call_message (call : value) : value :=
  json_obj [("role", JString "assistant"); ("content", JNull); ("tool_calls", JArray [call])].

Definition push_tool_call (messages : list value) (call : value) : list value :=
  match last messages ≫= open_tool_calls with
  | Some _ => alter (append_call call) (pred (length messages)) messages
  | None => messages ++ [call_message call]
  end.

Section Translate.
  Context {SJ : SerdeJson}.

Definition tool_call (item : obj) (arguments_field : string) (names : ToolNames) (is_free : bool)
  : res (value * ToolNames) :=
  call_id ← required_str "call_id" item "a tool call needs a call_id";
  name ← required_str "name" item "a tool call needs a name";
  '(encoded, names) ← record_name names name is_free;
  let raw := default EmptyString (get_str arguments_field item) in
  let arguments :=
    if is_free then to_string (json_obj [("input", JString raw)])
    else if is_empty raw then "{}" else raw in
  Ok (json_obj
        [ ("id", JString call_id); ("type", JString "function");
          ("function", json_obj [("name", JString encoded); ("arguments", JString arguments)]) ],
      names).

Definition tool_result (item : obj) : res value :=
  call_id ← required_str "call_id" item "a tool result needs a call_id";
  let content := match obj_get "output" item with
                 | Some (JString output) => output
                 | Some v => to_string v
                 | None => EmptyString
                 end in
  Ok (json_obj [("role", JString "tool"); ("tool_call_id", JString call_id); ("content", JString content)]).

Definition input_item (limits : ModelLimits) (acc : list value * ToolNames) (item : value)
  : res (list value * ToolNames) :=
  let '(messages, names) := acc in
  item ← ok_or (as_object item) (InvalidRequest "each input item must be an object");
  match get_str "type" item with
  | Some ty =>
      if String.eqb ty "message" then
        message ← translate_message item limits; Ok (messages ++ [message], names)
      else if String.eqb ty "reasoning" then Ok (messages, names)
      else if String.eqb ty "function_call" then
        '(call, names) ← tool_call item "arguments" names false;
        Ok (push_tool_call messages call, names)
      else if String.eqb ty "custom_tool_call" then
        '(call, names) ← tool_call item "input" names true;
        Ok (push_tool_call messages call, names)
      else if one_of ty ["function_call_output"; "custom_tool_call_output"] then
        message ← tool_result item; Ok (messages ++ [message], names)
      else invalid (unsupported "input item type" (Some ty))
  | None => invalid (unsupported "input item type" None)
  end.

Definition translate_messages (request : obj) (names : ToolNames) (limits : ModelLimits)
  : res (list value * ToolNames) :=
  let messages := match opt_filter non_empty (get_str "instructions" request) with
                  | Some instructions =>
                      [json_obj [("role", JString "system"); ("content", JString instructions)]]
                  | None => []
                  end in
  match obj_get "input" request with
  | None | Some JNull => Ok (messages, names)
  | Some (JArray input) => fold_res (input_item limits) (messages, names) input
  | Some _ => invalid "input must be an array"
  end.

Definition reject_stateful (object : obj) : res unit :=
  fold_res (fun _ field =>
    reject (is_some_and (fun v => negb (is_null v)) (obj_get field object))
           (InvalidRequest (field +:+ " is not supported by the Z.ai provider")))
    tt ["previous_response_id"; "conversation"].

(** [u64::clamp(1, max)] *)
Definition clamp_tokens (n max : N) : N := N.max 1 (N.min n max).

Definition insert_tools (translated : list value) (body : obj) : obj :=
  match translated with
  | [] => body
  | _ => obj_insert "tool_stream" (JBool true)
           (obj_insert "tool_choice" (JString "auto") (obj_insert "tools" (JArray translated) body))
  end.

Definition insert_effort (object body : obj) : res obj :=
  match (obj_get "reasoning" object ≫= as_object) ≫= get_str "effort" with
  | Some effort =>
      mapped ← map_reasoning_effort effort;
      Ok (match mapped with
          | Some effort => obj_insert "reasoning_effort" (JString effort) body
          | None => obj_insert "thinking" (json_obj [("type", JString "disabled")]) body
          end)
  | None => Ok body
  end.

Definition insert_max_tokens (object : obj) (limits : ModelLimits) (body : obj) : obj :=
  match obj_get "max_output_tokens" object ≫= as_u64 with
  | Some n => obj_insert "max_tokens" (jnum (clamp_tokens n (limit_max_output_tokens limits))) body
  | None => body
  end.

Definition translate (request : value) (limits : ModelLimits) : res TranslatedRequest :=
  object ← ok_or (as_object request) (InvalidRequest "the Responses request must be an object");
  model ← required_str "model" object "the Responses request needs a model";
  reject_stateful object;;
  '(translated_tools, names) ← translate_tools (obj_get "tools" object) ToolNames_default;
  '(messages, names) ← translate_messages object names limits;
  let b := obj_insert "messages" (JArray messages) (obj_insert "model" (JString model) []) in
  let b := insert_tools translated_tools b in
  b ← insert_effort object b;
  let b := insert_max_tokens object limits b in
  let b := obj_insert "stream" (JBool true) b in
  Ok {| body := JObject b; tools := names |}.

End Translate.
