(* ===== verification/ZaiRequestCorrect.v ===== *)
(** * Correctness of the Z.ai request translation

    Theorems about [ZaiRequest.translate]: what may leave in a body, that tool names
    survive the wire encoding, and that the conversation is replayed in order, with the
    text, the images, the arguments and the outputs of its turns. *)

From S2P Require Import Prelude Utf8 Json Errors ZaiRequest.
From stdpp Require Import options.

(** ** Specification: what a request says and what a body says *)

(** The name Muse knows a declared tool by. *)
Definition tool_name (namespace : option string) (tool : value) : string :=
  let name := default EmptyString (vget_str "name" tool) in
  match namespace with
  | Some ns => ns +:+ "." +:+ name
  | None => name
  end.
Definition declared_names (tools : list value) : list string :=
  flat_map (fun t =>
    if bool_decide (vget_str "type" t = Some "namespace") then
      tool_name (vget_str "name" t) <$> default [] (vget "tools" t ≫= as_array)
    else [tool_name None t]) tools.
Definition request_tools (request : value) : list string :=
  declared_names (default [] (vget "tools" request ≫= as_array)).
(** The wire names a body declares. *)
Definition wire_name (t : value) : string :=
  default EmptyString (vget "function" t ≫= vget_str "name").
Definition body_tools (body : value) : list string :=
  wire_name <$> default [] (vget "tools" body ≫= as_array).

(** One step of a conversation, with what is said in it. *)
Inductive part :=
  | Words (text : string)
  | Image (url : string).
Inductive content :=
  | Text (text : string)
  | Parts (parts : list part).
Inductive turn :=
  | Said (role : string) (what : content)
  | Called (call_id name arguments : string)
  | Returned (call_id output : string).

Definition id_of (k : string) (v : value) : string := default EmptyString (vget_str k v).

(** The parts of a message of Muse, and what a model hears of them: the parts as they are
    when an image is among them and the user speaks, else their texts a line each, the
    empty ones before the first left out. *)
Definition part_of (v : value) : part :=
  let ty := id_of "type" v in
  if String.eqb ty "input_image" then Image (id_of "image_url" v)
  else Words (id_of (if String.eqb ty "refusal" then "refusal" else "text") v).
Definition words (p : part) : option string := match p with Words t => Some t | Image _ => None end.
Definition is_image (p : part) : bool := match p with Image _ => true | Words _ => false end.
Fixpoint after_empty (l : list string) : list string :=
  match l with
  | [] => []
  | t :: l' => if is_empty t then after_empty l' else l
  end.
Definition heard (role : string) (parts : list part) : content :=
  if existsb is_image parts && String.eqb role "user" then Parts parts
  else Text (String.concat lf (after_empty (omap words parts))).
Definition message_content (role : string) (item : value) : content :=
  match vget "content" item with
  | Some (JString text) => Text text
  | Some (JArray parts) => heard role (part_of <$> parts)
  | _ => Text EmptyString
  end.

Section Turns.
  Context {SJ : SerdeJson}.

(** The arguments of a call are JSON text: a custom tool takes its input as one field, and
    no arguments are an empty object. *)
Definition call_arguments (item : value) : string :=
  if String.eqb (id_of "type" item) "custom_tool_call"
  then to_string (json_obj [("input", JString (id_of "input" item))])
  else if is_empty (id_of "arguments" item) then "{}" else id_of "arguments" item.
(** An output that is no string is given as its JSON text. *)
Definition output_text (item : value) : string :=
  match vget "output" item with
  | Some (JString output) => output
  | Some v => to_string v
  | None => EmptyString
  end.
Definition item_turns (item : value) : list turn :=
  let ty := id_of "type" item in
  if String.eqb ty "message" then
    let role := let r := id_of "role" item in if String.eqb r "developer" then "system" else r in
    [Said role (message_content role item)]
  else if one_of ty ["function_call"; "custom_tool_call"] then
    [Called (id_of "call_id" item) (id_of "name" item) (call_arguments item)]
  else if one_of ty ["function_call_output"; "custom_tool_call_output"] then
    [Returned (id_of "call_id" item) (output_text item)]
  else [].
Definition request_turns (request : value) : list turn :=
  match opt_filter non_empty (vget_str "instructions" request) with
  | Some instructions => [Said "system" (Text instructions)]
  | None => []
  end ++ flat_map item_turns (default [] (vget "input" request ≫= as_array)).
End Turns.

(** The turns of a chat message, its wire names decoded. *)
Definition read_part (v : value) : part :=
  if String.eqb (id_of "type" v) "image_url" then Image (default EmptyString (vget "image_url" v ≫= vget_str "url"))
  else Words (id_of "text" v).
Definition read_content (message : value) : content :=
  match vget "content" message with
  | Some (JArray parts) => Parts (read_part <$> parts)
  | Some (JString text) => Text text
  | _ => Text EmptyString
  end.
Definition wire_arguments (c : value) : string :=
  default EmptyString (vget "function" c ≫= vget_str "arguments").
Definition message_turns (names : ToolNames) (message : value) : list turn :=
  match vget "tool_calls" message ≫= as_array with
  | Some calls => (fun c => Called (id_of "id" c) (decode_name names (wire_name c)) (wire_arguments c)) <$> calls
  | None =>
      if String.eqb (id_of "role" message) "tool" then [Returned (id_of "tool_call_id" message) (id_of "content" message)]
      else [Said (id_of "role" message) (read_content message)]
  end.
Definition body_turns (names : ToolNames) (body : value) : list turn :=
  flat_map (message_turns names) (default [] (vget "messages" body ≫= as_array)).

Definition allowed_body_fields : list string :=
  ["max_tokens"; "messages"; "model"; "reasoning_effort"; "stream"; "thinking"; "tool_choice";
   "tool_stream"; "tools"].

(** Multimodal content occurs only where images are accepted and the user speaks. *)
Definition content_allowed (limits : ModelLimits) (message : value) : bool :=
  match vget "content" message with
  | Some (JArray _) => accepts_images limits && String.eqb (id_of "role" message) "user"
  | _ => true
  end.

(** ** Tool names *)

Record names_ok (names : ToolNames) : Prop := {
  names_encode w o : decoded names !! w = Some o -> encode_function_name o = Ok w;
  names_free w : w ∈ freeform names -> is_Some (decoded names !! w)
}.

Lemma names_ok_default : names_ok ToolNames_default.
Proof. split; intros w; cbn; [intros o; by rewrite lookup_empty|set_solver]. Qed.

Lemma encode_wire o w :
  encode_function_name o = Ok w ->
  (0 < slen w <= MAX_FUNCTION_NAME_BYTES)%N /\ str_forallb wire_name_byte w = true.
Proof.
  unfold encode_function_name. case_match eqn:Hlen; [done|]. case_match eqn:Hgrammar; [done|].
  intros [= <-]. apply orb_false_elim in Hlen as [He Hl]. split; [split|].
  - set (s := replace_char _ _ _) in *. destruct s; [done|]. unfold slen. cbn [String.length]. lia.
  - by apply N.ltb_ge in Hl.
  - by apply negb_false_iff in Hgrammar.
Qed.

(** The map only grows, and stays well formed. *)
Record advances (names names' : ToolNames) : Prop := {
  advances_sub : decoded names ⊆ decoded names';
  advances_ok : names_ok names -> names_ok names'
}.
#[local] Instance advances_preorder : PreOrder advances.
Proof.
  split; [by split|]. intros x y z [Hxy Hxy'] [Hyz Hyz'].
  split; [by transitivity (decoded y)|auto].
Qed.

Lemma record_name_ok names o f w names' :
  record_name names o f = Ok (w, names') ->
  encode_function_name o = Ok w /\ decoded names' !! w = Some o /\ advances names names'.
Proof.
  unfold record_name. intros H.
  destruct (encode_function_name o) as [w0|] eqn:He; [|done]. cbn [mbind result_bind] in H.
  assert (Hold : decoded names !! w0 = None \/ decoded names !! w0 = Some o).
  { destruct (decoded names !! w0) as [e|]; [|auto]. right.
    apply bind_ok in H as (u & Heq%reject_ok & _).
    by apply negb_false_iff, String.eqb_eq in Heq as ->. }
  apply bind_ok in H as (_ & _ & [= -> <-]). cbn [decoded].
  repeat split; [apply lookup_insert_eq| | |].
  - destruct Hold as [Hn|Hs]; [by apply insert_subseteq|by rewrite insert_id].
  - intros w' o'. cbn [decoded]. destruct (decide (w' = w)) as [->|Hne].
    + rewrite lookup_insert_eq. congruence.
    + rewrite lookup_insert_ne by congruence. apply (names_encode _ H).
  - intros w'. cbn [decoded freeform]. destruct (decide (w' = w)) as [->|Hne].
    + rewrite lookup_insert_eq. by eexists.
    + rewrite lookup_insert_ne by congruence. intros Hin. apply (names_free _ H).
      destruct f; [|done]. by apply elem_of_union in Hin as [?%elem_of_singleton|?].
Qed.

Lemma decode_recorded names names' w o :
  decoded names !! w = Some o -> decoded names ⊆ decoded names' -> decode_name names' w = o.
Proof. intros Hw Hsub. unfold decode_name. by rewrite (lookup_weaken _ _ _ _ Hw Hsub). Qed.

(** ** Tools *)

(** [t] names the tool Muse knows as [o]. *)
Definition carries (names : ToolNames) (t : value) (o : string) : Prop :=
  decoded names !! wire_name t = Some o.

Lemma carries_advances names names' ts os :
  advances names names' -> Forall2 (carries names) ts os -> Forall2 (carries names') ts os.
Proof.
  intros [Hsub _] H. eapply Forall2_impl; [exact H|]. intros t o Ht.
  by eapply lookup_weaken.
Qed.

Lemma carries_decode names ts os :
  Forall2 (carries names) ts os -> (decode_name names ∘ wire_name) <$> ts = os.
Proof.
  intros H. induction H as [|t o ts os Ht _ IH]; [done|]. cbn. rewrite IH. f_equal.
  by eapply decode_recorded.
Qed.

Lemma qualified_name_ok tool ns o :
  qualified_name tool ns = Ok o -> o = tool_name ns (JObject tool).
Proof.
  unfold qualified_name, required_str, tool_name, vget_str, get_str. intros H.
  apply bind_ok in H as (name & Hname%ok_or_ok & [= <-]). cbn [vget].
  destruct (obj_get "name" tool ≫= as_str) as [n|]; [|done].
  cbn [opt_filter] in Hname. destruct (non_empty n); [|done]. injection Hname as ->.
  by destruct ns.
Qed.

Lemma wire_name_declaration f w :
  obj_get "name" f = Some (JString w) -> wire_name (tool_declaration f) = w.
Proof.
  intros H. unfold wire_name, tool_declaration. rewrite vget_json_obj. cbn -[obj_get vget_str].
  unfold vget_str. cbn [vget]. by rewrite H.
Qed.

Lemma get_name_described tool w params :
  obj_get "name" (obj_insert "parameters" params
    (insert_description tool (obj_insert "name" (JString w) []))) = Some (JString w).
Proof.
  unfold insert_description. case_match; by autorewrite with muse.
Qed.

Lemma function_tool_ok tool ns names t names' :
  function_tool tool ns names = Ok (t, names') ->
  carries names' t (tool_name ns (JObject tool)) /\ advances names names'.
Proof.
  unfold function_tool. intros H. apply bind_ok in H as (o & ->%qualified_name_ok & H).
  apply bind_ok in H as ([w n] & (_ & Hw & Hadv)%record_name_ok & [= <- <-]).
  split; [|done]. unfold carries. by rewrite (wire_name_declaration _ w (get_name_described _ _ _)).
Qed.

Lemma custom_tool_ok tool ns names t names' :
  custom_tool tool ns names = Ok (t, names') ->
  carries names' t (tool_name ns (JObject tool)) /\ advances names names'.
Proof.
  unfold custom_tool. intros H. apply bind_ok in H as (o & ->%qualified_name_ok & H).
  apply bind_ok in H as ([w n] & (_ & Hw & Hadv)%record_name_ok & [= <- <-]).
  split; [|done]. unfold carries. by rewrite (wire_name_declaration _ w (get_name_described _ _ _)).
Qed.

(** What a step of the loops over tools adds. *)
Definition declares (acc acc' : list value * ToolNames) (os : list string) : Prop :=
  exists ts, acc'.1 = acc.1 ++ ts /\ Forall2 (carries acc'.2) ts os /\ advances acc.2 acc'.2.

Lemma declares_nil acc : declares acc acc [].
Proof. exists []. by rewrite app_nil_r. Qed.
Lemma declares_trans acc acc1 acc2 os os' :
  declares acc acc1 os -> declares acc1 acc2 os' -> declares acc acc2 (os ++ os').
Proof.
  intros (ts & E1 & Hts & Ha) (ts' & E2 & Hts' & Ha'). exists (ts ++ ts').
  rewrite app_assoc, <- E1. split; [done|]. split; [|by etransitivity].
  apply Forall2_app; [|done]. by eapply carries_advances.
Qed.

Lemma leaf_tool_ok tool ns acc acc' :
  leaf_tool tool ns acc = Ok acc' ->
  get_str "type" tool <> Some "namespace" /\ declares acc acc' [tool_name ns (JObject tool)].
Proof.
  destruct acc as [ts names]. unfold leaf_tool.
  destruct (get_str "type" tool) as [ty|]; [|done].
  destruct (String.eqb_spec ty "function") as [->|_]; [|destruct (String.eqb_spec ty "custom") as [->|_]];
    intros H; [| |done].
  - apply bind_ok in H as ([t n] & [Hc Ha]%function_tool_ok & [= <-]).
    split; [done|]. exists [t]. split; [done|]. split; [|done]. by constructor.
  - apply bind_ok in H as ([t n] & [Hc Ha]%custom_tool_ok & [= <-]).
    split; [done|]. exists [t]. split; [done|]. split; [|done]. by constructor.
Qed.

Lemma as_object_ok v m : as_object v = Some m -> v = JObject m.
Proof. destruct v; cbn; congruence. Qed.
Lemma as_array_ok v l : as_array v = Some l -> v = JArray l.
Proof. destruct v; cbn; congruence. Qed.

(** A loop whose steps declare what [names_of] lists declares their concatenation. *)
Lemma declares_fold (step : list value * ToolNames -> value -> res (list value * ToolNames))
    (names_of : value -> list string) acc l acc' :
  (forall acc a acc', step acc a = Ok acc' -> declares acc acc' (names_of a)) ->
  fold_res step acc l = Ok acc' -> declares acc acc' (flat_map names_of l).
Proof.
  intros Hstep. apply (fold_res_ind step (fun seen t => declares acc t (flat_map names_of seen))).
  - apply declares_nil.
  - intros seen a t t' Ht Ha. rewrite flat_map_app. cbn. rewrite app_nil_r.
    eapply declares_trans; [done|]. by apply Hstep.
Qed.

Lemma namespaced_tool_ok ns acc a acc' :
  namespaced_tool ns acc a = Ok acc' -> declares acc acc' [tool_name (Some ns) a].
Proof.
  unfold namespaced_tool. intros (m & Hm%ok_or_ok & H)%bind_ok.
  apply as_object_ok in Hm as ->. by apply leaf_tool_ok in H as [_ H].
Qed.

Lemma top_level_tool_ok acc a acc' :
  top_level_tool acc a = Ok acc' -> declares acc acc' (declared_names [a]).
Proof.
  unfold top_level_tool. intros (m & Hm%ok_or_ok & H)%bind_ok.
  apply as_object_ok in Hm as ->. unfold declared_names. cbn [flat_map].
  rewrite app_nil_r. change (vget_str "type" (JObject m)) with (get_str "type" m).
  destruct (get_str "type" m) as [ty|] eqn:Hty; [|by apply leaf_tool_ok in H as [_ H]].
  destruct (String.eqb_spec ty "namespace") as [->|Hne].
  - apply bind_ok in H as (ns & Hns%ok_or_ok & H). apply bind_ok in H as (l & Hl%ok_or_ok & H).
    rewrite bool_decide_true by done. cbn [vget]. rewrite Hl. cbn [default from_option id].
    change (vget_str "name" (JObject m)) with (get_str "name" m).
    destruct (get_str "name" m) as [n|]; [|done]. cbn [opt_filter] in Hns.
    destruct (non_empty n); [|done]. injection Hns as ->.
    assert (Hflat : tool_name (Some ns) <$> l = flat_map (fun t => [tool_name (Some ns) t]) l).
    { clear. induction l as [|t l IH]; [done|]. cbn. by f_equal. }
    rewrite Hflat. eapply declares_fold; [|done]. apply namespaced_tool_ok.
  - rewrite bool_decide_false by congruence. by apply leaf_tool_ok in H as [_ H].
Qed.

Lemma declared_names_flat l : declared_names l = flat_map (fun t => declared_names [t]) l.
Proof.
  unfold declared_names. induction l as [|t l IH]; [done|]. cbn [flat_map]. rewrite IH.
  by rewrite app_nil_r.
Qed.

Lemma translate_tools_ok tools names ts names' :
  translate_tools tools names = Ok (ts, names') ->
  Forall2 (carries names') ts (declared_names (default [] (tools ≫= as_array)))
  /\ advances names names'.
Proof.
  unfold translate_tools. destruct tools as [v|]; [|by intros [= <- <-]].
  destruct (is_null v) eqn:Hn; [destruct v; try done; by intros [= <- <-]|].
  intros (l & Hl%ok_or_ok & H)%bind_ok. cbn [mbind option_bind]. rewrite Hl. cbn [default from_option id].
  rewrite declared_names_flat.
  eapply declares_fold in H as (ts' & Hts & Hc & Ha); [|apply top_level_tool_ok].
  cbn in Hts. subst ts'. done.
Qed.

(** ** Conversation *)

Definition calls_known (names : ToolNames) (message : value) : Prop :=
  forall calls, vget "tool_calls" message ≫= as_array = Some calls ->
    Forall (fun c => exists o, carries names c o) calls.

(** The messages say [turns] under [names], and only users send images. *)
Record conversation (limits : ModelLimits) (names : ToolNames) (messages : list value)
    (turns : list turn) : Prop := {
  conv_known : Forall (calls_known names) messages;
  conv_turns : flat_map (message_turns names) messages = turns;
  conv_content : Forall (fun m => content_allowed limits m = true) messages
}.

Lemma message_turns_advances names names' message :
  advances names names' -> calls_known names message ->
  message_turns names' message = message_turns names message.
Proof.
  intros [Hsub _] Hknown. unfold message_turns.
  destruct (vget "tool_calls" message ≫= as_array) as [calls|] eqn:E; [|done].
  specialize (Hknown _ E). clear E. induction Hknown as [|c calls (o & Ho) _ IH]; [done|].
  cbn. rewrite IH. rewrite !(decode_recorded names _ (wire_name c) o) by done. done.
Qed.

Lemma conversation_advances limits names names' messages turns :
  advances names names' -> conversation limits names messages turns ->
  conversation limits names' messages turns.
Proof.
  intros Ha [Hk Ht Hc]. split; [| |done].
  - eapply Forall_impl; [exact Hk|]. intros m Hm calls Hcalls.
    eapply Forall_impl; [by apply Hm|]. intros c (o & Ho). exists o.
    destruct Ha as [Hsub _]. by eapply lookup_weaken.
  - rewrite <- Ht. clear Ht Hc. induction Hk as [|m messages Hm _ IH]; [done|]. cbn.
    rewrite IH. f_equal. by apply message_turns_advances.
Qed.

Lemma conversation_app limits names ms ms' ts ts' :
  conversation limits names ms ts -> conversation limits names ms' ts' ->
  conversation limits names (ms ++ ms') (ts ++ ts').
Proof.
  intros [Hk Ht Hc] [Hk' Ht' Hc']. split; [by apply Forall_app|by rewrite flat_map_app, Ht, Ht'|by apply Forall_app].
Qed.

Lemma conversation_one limits names m :
  calls_known names m -> content_allowed limits m = true ->
  conversation limits names [m] (message_turns names m).
Proof. intros Hk Hc. split; [by constructor|by apply app_nil_r|by constructor]. Qed.

Lemma vget_append_call call last l :
  open_tool_calls last = Some l ->
  vget "tool_calls" (append_call call last) = Some (JArray (l ++ [call]))
  /\ vget "tool_calls" last = Some (JArray l)
  /\ vget "content" (append_call call last) = vget "content" last
  /\ vget "role" (append_call call last) = vget "role" last.
Proof.
  destruct last as [| | | | |m]; try done. unfold open_tool_calls. case_bool_decide; [|done].
  destruct (obj_get "tool_calls" m) as [v|] eqn:E; [|done]. cbn [mbind option_bind].
  intros ->%as_array_ok. cbn [vget append_call]. rewrite !obj_get_alter. cbn [String.eqb Ascii.eqb Bool.eqb].
  by rewrite E.
Qed.

Lemma conversation_append_call limits names call o last l :
  open_tool_calls last = Some l -> carries names call o ->
  calls_known names last -> content_allowed limits last = true ->
  conversation limits names [append_call call last]
    (message_turns names last ++ [Called (id_of "id" call) o (wire_arguments call)]).
Proof.
  intros Hopen Ho Hk Hc. destruct (vget_append_call call last l Hopen) as (E & E0 & Econtent & Erole).
  assert (Hl : Forall (fun c => exists o, carries names c o) l) by (apply Hk; by rewrite E0).
  replace (message_turns names last ++ _) with (message_turns names (append_call call last)).
  - apply conversation_one.
    + intros calls Hcalls. rewrite E in Hcalls. injection Hcalls as <-.
      apply Forall_app. split; [done|]. constructor; [by exists o|constructor].
    + unfold content_allowed, id_of, vget_str in *. by rewrite Econtent, Erole.
  - unfold message_turns. rewrite E, E0. cbn [mbind option_bind as_array].
    rewrite fmap_app. cbn [fmap list_fmap list.list_fmap]. do 3 f_equal. by eapply decode_recorded.
Qed.

Lemma open_tool_calls_dec (messages : list value) :
  (exists pre m l, messages = pre ++ [m] /\ open_tool_calls m = Some l
     /\ forall call, push_tool_call messages call = pre ++ [append_call call m])
  \/ (forall call, push_tool_call messages call = messages ++ [call_message call]).
Proof.
  unfold push_tool_call.
  destruct (last messages ≫= open_tool_calls) as [l|] eqn:E; [left|by right].
  destruct (last messages) as [m|] eqn:El; [|done]. cbn in E.
  apply last_Some in El as (pre & ->). exists pre, m, l. repeat split; [done|].
  intros call. rewrite length_app. cbn [length]. rewrite Nat.add_1_r. cbn [pred].
  rewrite alter_app_r_alt by done. by rewrite Nat.sub_diag.
Qed.

(** Folding a call into the previous message keeps the order of the calls. *)
Lemma push_tool_call_ok limits names messages turns call o :
  conversation limits names messages turns -> carries names call o ->
  conversation limits names (push_tool_call messages call) (turns ++ [Called (id_of "id" call) o (wire_arguments call)]).
Proof.
  intros Hconv Ho. destruct (open_tool_calls_dec messages) as [(pre & m & l & -> & Hopen & Hpush)|Hpush];
    rewrite Hpush.
  - destruct Hconv as [Hk Ht Hc]. apply Forall_app in Hk as [Hk Hkm], Hc as [Hc Hcm].
    apply Forall_cons_1 in Hkm as [Hkm _], Hcm as [Hcm _]. rewrite flat_map_app in Ht. cbn in Ht.
    rewrite app_nil_r in Ht. subst turns. rewrite <- app_assoc. apply conversation_app.
    + by split.
    + by apply (conversation_append_call _ _ _ _ _ l).
  - apply conversation_app; [done|].
    assert (E : vget "tool_calls" (call_message call) = Some (JArray [call])) by apply vget_json_obj.
    replace [Called _ _ _] with (message_turns names (call_message call)).
    + apply conversation_one; [|done]. intros calls Hcalls. rewrite E in Hcalls.
      injection Hcalls as <-. constructor; [by exists o|constructor].
    + unfold message_turns. rewrite E. cbn. do 2 f_equal. by eapply decode_recorded.
Qed.

Lemma content_part_image limits st part st' :
  content_part limits st part = Ok st' ->
  (has_image st = true -> accepts_images limits = true) ->
  has_image st' = true -> accepts_images limits = true.
Proof.
  unfold content_part. intros (m & _ & H)%bind_ok Hold.
  destruct (get_str "type" m) as [ty|]; [|done].
  destruct (one_of ty _); [by injection H as <-|].
  destruct (String.eqb ty "refusal"); [by injection H as <-|].
  destruct (String.eqb ty "input_image"); [|done].
  apply bind_ok in H as (_ & Hi%reject_ok & _). by apply negb_false_iff in Hi.
Qed.

Lemma concat_snoc sep l v : String.concat sep (l ++ [v]) = match l with [] => v | _ => String.concat sep l +:+ sep +:+ v end.
Proof.
  induction l as [|x l IH]; [done|]. destruct l as [|y l]; [done|].
  change (String.concat sep ((x :: y :: l) ++ [v])) with (x +:+ sep +:+ String.concat sep ((y :: l) ++ [v])). rewrite IH.
  change (String.concat sep (x :: y :: l)) with (x +:+ sep +:+ String.concat sep (y :: l)). by rewrite !append_assoc.
Qed.
Lemma is_empty_append s t : is_empty (s +:+ t) = is_empty s && is_empty t.
Proof. by destruct s. Qed.
(** Texts are pushed a line each. *)
Lemma push_line_heard l v :
  push_line (String.concat lf (after_empty l)) v = String.concat lf (after_empty (l ++ [v])).
Proof.
  unfold push_line. induction l as [|x l IH]; cbn [after_empty app].
  - cbn. destruct (is_empty v) eqn:E; [by destruct v|done].
  - destruct (is_empty x) eqn:E; [exact IH|]. rewrite (app_comm_cons l [v] x), concat_snoc.
    assert (is_empty (String.concat lf (x :: l)) = false) as ->; [|done].
    destruct l; [done|]. change (String.concat lf (x :: s :: l)) with (x +:+ lf +:+ String.concat lf (s :: l)).
    by rewrite is_empty_append, E.
Qed.

(** The state of a translation of [parts], read back. *)
Record heard_so_far (st : ContentState) (parts : list part) : Prop := {
  heard_text : text st = String.concat lf (after_empty (omap words parts));
  heard_parts : read_part <$> multimodal st = parts;
  heard_image : has_image st = existsb is_image parts
}.
Lemma content_part_heard limits st p st' parts :
  content_part limits st p = Ok st' -> heard_so_far st parts -> heard_so_far st' (parts ++ [part_of p]).
Proof.
  unfold content_part. intros (m & Hm%ok_or_ok%as_object_ok & H)%bind_ok [Ht Hp Hi]. subst p.
  assert (Hwords : forall t, part_of (JObject m) = Words t ->
    heard_so_far {| text := push_line (text st) t; multimodal := multimodal st ++ [text_part t]; has_image := has_image st |}
      (parts ++ [part_of (JObject m)])).
  { intros t E. split; cbn [text multimodal has_image].
    - by rewrite Ht, push_line_heard, omap_app, E.
    - rewrite fmap_app, Hp, E. cbn [fmap list_fmap list.list_fmap]. unfold read_part, text_part, id_of. by rewrite !vget_str_json_obj.
    - by rewrite existsb_app, <- Hi, E, orb_false_r. }
  assert (Hty : id_of "type" (JObject m) = default EmptyString (get_str "type" m)) by done.
  unfold part_of in *. rewrite Hty in *.
  destruct (get_str "type" m) as [ty|]; [|done]. cbn [default from_option id] in *.
  destruct (one_of ty _) eqn:E1.
  { injection H as <-. apply one_of_spec in E1.
    assert (String.eqb ty "input_image" = false /\ String.eqb ty "refusal" = false) as [E2 E3] by (by destruct E1 as [<-|[<-|[<-|[<-|[]]]]]).
    rewrite E2, E3 in *. by apply Hwords. }
  destruct (String.eqb_spec ty "refusal") as [->|_]; [injection H as <-; by apply Hwords|].
  destruct (String.eqb ty "input_image"); [|done].
  apply bind_ok in H as (_ & _ & H). apply bind_ok in H as (url & Hurl%ok_or_ok & [= <-]).
  assert (Hu : id_of "image_url" (JObject m) = url) by (unfold id_of; change (vget_str "image_url" (JObject m)) with (get_str "image_url" m); by rewrite Hurl).
  rewrite Hu. split; cbn [text multimodal has_image].
  - by rewrite Ht, omap_app, app_nil_r.
  - rewrite fmap_app, Hp. done.
  - rewrite existsb_app. cbn. by rewrite orb_true_r.
Qed.
Lemma translate_content_parts_heard parts role limits v :
  translate_content_parts parts role limits = Ok v ->
  match v with JArray l => Parts (read_part <$> l) | JString t => Text t | _ => Text EmptyString end = heard role (part_of <$> parts).
Proof.
  unfold translate_content_parts. intros (st & Hst & [= <-])%bind_ok.
  assert (heard_so_far st (part_of <$> parts)) as [Ht Hp Hi].
  { refine (fold_res_ind (content_part limits) (fun seen s => heard_so_far s (part_of <$> seen)) _ parts st _ _ Hst); [done|].
    intros seen p t t' Ht Hpart. rewrite fmap_app. by eapply content_part_heard. }
  unfold heard. rewrite <- Hi, <- Ht. destruct (has_image st && String.eqb role "user"); [by rewrite Hp|done].
Qed.

Lemma translate_content_parts_ok parts role limits v :
  translate_content_parts parts role limits = Ok v ->
  match v with JArray _ => accepts_images limits && String.eqb role "user" | _ => true end = true.
Proof.
  unfold translate_content_parts. intros (st & Hst & [= <-])%bind_ok.
  destruct (has_image st && String.eqb role "user") eqn:E; [|done].
  apply andb_prop in E as [Hi ->]. rewrite andb_true_r. revert Hi.
  refine (fold_res_ind (content_part limits)
           (fun _ s => has_image s = true -> accepts_images limits = true) _ parts st _ _ Hst); [done|].
  intros _ part t t' Ht Hpart. by eapply content_part_image.
Qed.

Lemma chat_role_ok o r :
  chat_role o = Ok r ->
  r = (let s := default EmptyString o in if String.eqb s "developer" then "system" else s)
  /\ String.eqb r "tool" = false.
Proof.
  unfold chat_role. destruct o as [s|]; [|done]. cbv zeta. cbn [default from_option id].
  destruct (one_of s ["developer"; "system"]) eqn:E.
  - intros [= <-]. apply one_of_spec in E as [<-|[<-|[]]]; done.
  - assert (String.eqb s "developer" = false) as ->.
    { apply String.eqb_neq. intros ->. done. }
    destruct (String.eqb_spec s "user") as [->|_]; [by intros [= <-]|].
    destruct (String.eqb_spec s "assistant") as [->|_]; [by intros [= <-]|done].
Qed.

Section Input.
  Context {SJ : SerdeJson}.

Lemma translate_message_ok limits names item m :
  get_str "type" item = Some "message" -> translate_message item limits = Ok m ->
  conversation limits names [m] (item_turns (JObject item)).
Proof.
  intros Hty. unfold translate_message. intros (role & Hrole & H)%bind_ok.
  apply bind_ok in H as (content & Hcontent & [= <-]). apply chat_role_ok in Hrole as [Hr Htool].
  assert (Enc : vget "tool_calls" (json_obj [("role", JString role); ("content", content)]) = None)
    by apply vget_json_obj.
  replace (item_turns (JObject item))
    with (message_turns names (json_obj [("role", JString role); ("content", content)])).
  - apply conversation_one.
    + intros calls. by rewrite Enc.
    + unfold content_allowed, id_of. rewrite vget_str_json_obj, vget_json_obj.
      cbn -[String.eqb].
      destruct (obj_get "content" item) as [[| | |s|parts|]|]; try done;
        try (injection Hcontent as <-; done).
      by apply translate_content_parts_ok in Hcontent.
  - assert (Er : vget_str "role" (json_obj [("role", JString role); ("content", content)]) = Some role)
      by apply vget_str_json_obj.
    unfold message_turns, item_turns, id_of. rewrite Enc, Er. cbn [mbind option_bind default from_option id].
    rewrite Htool. change (vget_str "type" (JObject item)) with (get_str "type" item).
    rewrite Hty. change (vget_str "role" (JObject item)) with (get_str "role" item).
    cbn [default from_option id String.eqb Ascii.eqb Bool.eqb]. cbv zeta in Hr. rewrite <- Hr. do 2 f_equal.
    unfold read_content, message_content. rewrite vget_json_obj. change (vget "content" (JObject item)) with (obj_get "content" item).
    cbn [last_get String.eqb Ascii.eqb Bool.eqb].
    destruct (obj_get "content" item) as [[| | |t|parts|]|]; try done; try (injection Hcontent as <-; done).
    rewrite <- (translate_content_parts_heard _ _ _ _ Hcontent). by destruct content.
Qed.

Lemma required_str_ok k m why s :
  required_str k m why = Ok s -> get_str k m = Some s /\ s <> EmptyString.
Proof.
  unfold required_str. intros H%ok_or_ok. destruct (get_str k m) as [t|]; [|done].
  cbn in H. destruct (non_empty t) eqn:E; [|done]. injection H as ->. split; [done|]. by intros ->.
Qed.

Lemma tool_result_ok limits names item m :
  tool_result item = Ok m ->
  conversation limits names [m] [Returned (id_of "call_id" (JObject item)) (output_text (JObject item))].
Proof.
  unfold tool_result. intros (id & [Hid _]%required_str_ok & H)%bind_ok.
  injection H as <-. set (content := match obj_get "output" item with Some _ => _ | None => _ end).
  set (m := json_obj _).
  assert (Enc : vget "tool_calls" m = None) by apply vget_json_obj.
  assert (Ec : vget "content" m = Some (JString content)) by apply vget_json_obj.
  assert (Er : vget_str "role" m = Some "tool") by apply vget_str_json_obj.
  assert (Ei : vget_str "tool_call_id" m = Some id) by apply vget_str_json_obj.
  replace [Returned _ _] with (message_turns names m).
  - apply conversation_one; [intros calls; by rewrite Enc|]. unfold content_allowed. by rewrite Ec.
  - assert (Eo : vget_str "content" m = Some content) by (unfold vget_str; by rewrite Ec).
    unfold message_turns, id_of. rewrite Enc, Er, Ei, Eo.
    change (vget_str "call_id" (JObject item)) with (get_str "call_id" item). by rewrite Hid.
Qed.

(** The two kinds of call: the type, the field of its arguments, and whether it is a custom tool's. *)
Inductive call_kind : string -> string -> bool -> Prop :=
  | function_kind : call_kind "function_call" "arguments" false
  | custom_kind : call_kind "custom_tool_call" "input" true.
Lemma tool_call_ok item ty field names f call names' :
  call_kind ty field f -> id_of "type" (JObject item) = ty -> tool_call item field names f = Ok (call, names') ->
  advances names names' /\ carries names' call (id_of "name" (JObject item))
  /\ id_of "id" call = id_of "call_id" (JObject item) /\ wire_arguments call = call_arguments (JObject item).
Proof.
  intros Hkind Hty. unfold tool_call. intros (id & [Hid _]%required_str_ok & H)%bind_ok.
  apply bind_ok in H as (name & [Hname _]%required_str_ok & H).
  apply bind_ok in H as ([w n] & (_ & Hw & Ha)%record_name_ok & H). injection H as <- <-.
  split; [done|]. unfold carries, wire_name, wire_arguments, call_arguments. rewrite Hty. clear Hty. unfold id_of.
  change (vget_str "name" (JObject item)) with (get_str "name" item).
  change (vget_str "call_id" (JObject item)) with (get_str "call_id" item).
  rewrite Hid, Hname, vget_json_obj, vget_str_json_obj. cbn [last_get String.eqb Ascii.eqb Bool.eqb mbind option_bind as_str].
  rewrite !vget_str_json_obj. split; [done|]. split; [done|]. by destruct Hkind.
Qed.

Lemma input_item_ok limits ms names item ms' names' ts :
  input_item limits (ms, names) item = Ok (ms', names') ->
  conversation limits names ms ts ->
  conversation limits names' ms' (ts ++ item_turns item) /\ advances names names'.
Proof.
  unfold input_item. intros (m & Hm%ok_or_ok & H)%bind_ok Hconv.
  apply as_object_ok in Hm as ->.
  destruct (get_str "type" m) as [ty|] eqn:Hty; [|done].
  assert (Hid : id_of "type" (JObject m) = ty).
  { unfold id_of. change (vget_str "type" (JObject m)) with (get_str "type" m). by rewrite Hty. }
  destruct (String.eqb_spec ty "message") as [->|Hmsg].
  { apply bind_ok in H as (message & Hmessage & [= <- <-]). split; [|done].
    apply conversation_app; [done|]. by eapply translate_message_ok. }
  destruct (String.eqb_spec ty "reasoning") as [->|Hreas].
  { injection H as <- <-. split; [|done]. unfold item_turns. rewrite Hid. cbn. by rewrite app_nil_r. }
  assert (Hcall : forall field f, (tool_call m field names f
            ≫= fun '(call, n) => Ok (push_tool_call ms call, n)) = Ok (ms', names') ->
          call_kind ty field f ->
          conversation limits names' ms' (ts ++ item_turns (JObject m)) /\ advances names names').
  { intros field f ([call n] & Hc & [= <- <-])%bind_ok Hkind.
    apply (tool_call_ok _ _ _ _ _ _ _ Hkind Hid) in Hc as (Ha & Hc & Hcid & Hargs).
    split; [|done]. unfold item_turns. rewrite Hid.
    destruct (String.eqb_spec ty "message"); [done|].
    assert (one_of ty ["function_call"; "custom_tool_call"] = true) as -> by (by destruct Hkind).
    rewrite <- Hcid, <- Hargs. apply push_tool_call_ok; [|done]. by eapply conversation_advances. }
  destruct (String.eqb_spec ty "function_call") as [->|Hf]; [eapply Hcall; [exact H|constructor]|].
  destruct (String.eqb_spec ty "custom_tool_call") as [->|Hcu]; [eapply Hcall; [exact H|constructor]|].
  destruct (one_of ty _) eqn:Hout; [|done]. clear Hcall.
  apply bind_ok in H as (message & Hmessage & [= <- <-]). split; [|done].
  apply conversation_app; [done|]. unfold item_turns. rewrite Hid.
  apply one_of_spec in Hout as [<-|[<-|[]]]; by eapply tool_result_ok.
Qed.

(** ** The whole request *)

(** The steps of [translate], opened. *)
Lemma translate_steps request limits r :
  translate request limits = Ok r ->
  exists o model ts ms names b,
    request = JObject o /\ get_str "model" o = Some model /\ reject_stateful o = Ok tt
    /\ translate_tools (obj_get "tools" o) ToolNames_default = Ok (ts, names)
    /\ translate_messages o names limits = Ok (ms, tools r)
    /\ insert_effort o (insert_tools ts
         (obj_insert "messages" (JArray ms) (obj_insert "model" (JString model) []))) = Ok b
    /\ body r = JObject (obj_insert "stream" (JBool true) (insert_max_tokens o limits b)).
Proof.
  unfold translate. intros (o & Ho%ok_or_ok & H)%bind_ok. apply as_object_ok in Ho as ->.
  apply bind_ok in H as (model & [Hmodel _]%required_str_ok & H).
  apply bind_ok in H as ([] & Hst & H).
  apply bind_ok in H as ([ts names] & Hts & H).
  apply bind_ok in H as ([ms names'] & Hms & H).
  apply bind_ok in H as (b & Hb & [= <-]).
  by exists o, model, ts, ms, names, b.
Qed.

Lemma translate_messages_ok limits names o ms names' :
  translate_messages o names limits = Ok (ms, names') ->
  conversation limits names' ms (request_turns (JObject o)) /\ advances names names'.
Proof.
  unfold translate_messages, request_turns. intros H.
  change (vget_str "instructions" (JObject o)) with (get_str "instructions" o).
  change (vget "input" (JObject o)) with (obj_get "input" o).
  set (start := match opt_filter _ _ with Some _ => [json_obj _] | None => [] end) in *.
  set (said := match opt_filter _ _ with Some _ => [Said _ _] | None => [] end).
  assert (Hstart : forall n, conversation limits n start said).
  { intros n. unfold start, said. destruct (opt_filter _ _) as [i|]; [|by split].
    apply (conversation_one limits n (json_obj [("role", JString "system"); ("content", JString i)])); [|done].
    intros calls Hcalls. by rewrite vget_json_obj in Hcalls. }
  clearbody start said.
  destruct (obj_get "input" o) as [[| | | |l|]|]; try done;
    try (injection H as <- <-; cbn; rewrite app_nil_r; by split).
  cbn [mbind option_bind as_array default from_option id].
  apply (fold_res_ind (input_item limits) (fun seen acc =>
    conversation limits acc.2 acc.1 (said ++ flat_map item_turns seen) /\ advances names acc.2)) in H;
    [done|by rewrite app_nil_r|].
  intros seen item [m n] [m' n'] [Hconv Ha] Hitem. cbn in *. rewrite flat_map_app, app_assoc. cbn.
  rewrite app_nil_r. eapply input_item_ok in Hitem as [Hc Ha']; [|done]. split; [done|by etransitivity].
Qed.

(** Reading the body's fields back. *)
Lemma get_insert_tools k ts b :
  ~ In k ["tools"; "tool_choice"; "tool_stream"] -> obj_get k (insert_tools ts b) = obj_get k b.
Proof.
  intros Hk. unfold insert_tools. destruct ts; [done|].
  repeat rewrite obj_get_insert_ne by (intros ->; apply Hk; cbn; tauto). done.
Qed.
Lemma get_insert_effort k o b b' :
  ~ In k ["reasoning_effort"; "thinking"] -> insert_effort o b = Ok b' -> obj_get k b' = obj_get k b.
Proof.
  intros Hk. unfold insert_effort. destruct (_ ≫= get_str "effort"); [|by intros [= <-]].
  intros (mapped & _ & [= <-])%bind_ok. destruct mapped; apply obj_get_insert_ne; intros ->; apply Hk; cbn; tauto.
Qed.
Lemma get_insert_max_tokens k o limits b :
  k <> "max_tokens" -> obj_get k (insert_max_tokens o limits b) = obj_get k b.
Proof. intros Hk. unfold insert_max_tokens. case_match; [by apply obj_get_insert_ne|done]. Qed.

Lemma body_get k o limits ts ms model b :
  insert_effort o (insert_tools ts
    (obj_insert "messages" (JArray ms) (obj_insert "model" (JString model) []))) = Ok b ->
  obj_get k (obj_insert "stream" (JBool true) (insert_max_tokens o limits b)) <> None ->
  In k allowed_body_fields.
Proof.
  intros Hb Hget. destruct (one_of k allowed_body_fields) eqn:E; [by apply one_of_spec in E|].
  destruct Hget. assert (Hk : ~ In k allowed_body_fields) by (rewrite <- one_of_spec; congruence).
  cbn in Hk. rewrite obj_get_insert_ne, get_insert_max_tokens by (intros ->; tauto).
  rewrite (get_insert_effort k o _ b) by (cbn; tauto || done). rewrite get_insert_tools by (cbn; tauto).
  by rewrite !obj_get_insert_ne by (intros ->; tauto).
Qed.

Lemma body_lookups request limits r :
  translate request limits = Ok r ->
  exists o model ts ms names,
    request = JObject o /\ get_str "model" o = Some model
    /\ translate_tools (obj_get "tools" o) ToolNames_default = Ok (ts, names)
    /\ translate_messages o names limits = Ok (ms, tools r)
    /\ vget "model" (body r) = Some (JString model)
    /\ vget "messages" (body r) = Some (JArray ms)
    /\ vget "tools" (body r) = match ts with [] => None | _ => Some (JArray ts) end.
Proof.
  intros (o & model & ts & ms & names & b & -> & Hmodel & _ & Hts & Hms & Hb & ->)%translate_steps.
  exists o, model, ts, ms, names. do 4 (split; [done|]). cbn [vget].
  rewrite !obj_get_insert_ne, !get_insert_max_tokens by done.
  rewrite (get_insert_effort "model" o _ b), (get_insert_effort "messages" o _ b),
    (get_insert_effort "tools" o _ b) by (done || (cbn; intuition discriminate)).
  rewrite !(get_insert_tools "model"), !(get_insert_tools "messages") by (cbn; intuition discriminate).
  autorewrite with muse. cbn [String.eqb Ascii.eqb Bool.eqb]. split; [done|]. split; [done|].
  unfold insert_tools. destruct ts; [done|]. by autorewrite with muse.
Qed.


(** Every wire name of a body: of its tool declarations and of the calls it replays. *)
Definition body_wire_names (body : value) : list string :=
  body_tools body ++
  flat_map (fun m => wire_name <$> default [] (vget "tool_calls" m ≫= as_array))
           (default [] (vget "messages" body ≫= as_array)).

(** C26: The tools Muse declared are declared, in order: decoding the wire names of the
    body gives the (namespaced) names of the request. Every wire name of the body, in a
    declaration or a replayed call, obeys Z.ai's grammar of 1 to 64 bytes, and decodes to
    a name that encodes to it again, so two tools never share a wire name. *)
Theorem translate_names_roundtrip request limits r :
  translate request limits = Ok r ->
  decode_name (tools r) <$> body_tools (body r) = request_tools request
  /\ Forall (fun w => encode_function_name (decode_name (tools r) w) = Ok w
                      /\ (0 < slen w <= MAX_FUNCTION_NAME_BYTES)%N /\ str_forallb wire_name_byte w = true)
            (body_wire_names (body r)).
Proof.
  intros (o & model & ts & ms & names & -> & _ & Hts & Hms & _ & Hmessages & Htools)%body_lookups.
  apply translate_tools_ok in Hts as [Hts [_ Hok]]. specialize (Hok names_ok_default).
  apply translate_messages_ok in Hms as [[Hknown _ _] Ha].
  assert (Hbody : body_tools (body r) = wire_name <$> ts).
  { unfold body_tools. rewrite Htools. by destruct ts. }
  apply (carries_advances _ (tools r)) in Hts; [|done]. apply advances_ok in Ha; [|done].
  assert (Hwire : forall t o', carries (tools r) t o' ->
    encode_function_name (decode_name (tools r) (wire_name t)) = Ok (wire_name t)
    /\ (0 < slen (wire_name t) <= MAX_FUNCTION_NAME_BYTES)%N
    /\ str_forallb wire_name_byte (wire_name t) = true).
  { intros t o' Ht. unfold decode_name. rewrite Ht. apply (names_encode _ Ha) in Ht.
    split; [done|]. by eapply encode_wire. }
  split.
  - rewrite Hbody, <- list_fmap_compose. by apply carries_decode in Hts.
  - unfold body_wire_names. rewrite Hmessages, Hbody. apply Forall_app. split.
    + apply Forall_fmap. clear -Hts Hwire. induction Hts; constructor; eauto.
    + apply List.Forall_flat_map. eapply Forall_impl; [exact Hknown|]. intros m Hm. apply Forall_fmap.
      destruct (vget "tool_calls" m ≫= as_array) as [calls|] eqn:E; [|by constructor].
      eapply Forall_impl; [by apply Hm|]. intros c (o' & Ho). by eapply Hwire.
Qed.

Lemma reject_stateful_ok o :
  reject_stateful o = Ok tt ->
  forall k, In k ["previous_response_id"; "conversation"] ->
    obj_get k o = None \/ obj_get k o = Some JNull.
Proof.
  unfold reject_stateful. cbn [fold_res]. intros H k Hk.
  apply bind_ok in H as ([] & H1%reject_ok & H). apply bind_ok in H as ([] & H2%reject_ok & _).
  assert (Hnull : forall o : option value, is_some_and (fun v => negb (is_null v)) o = false ->
            o = None \/ o = Some JNull) by (intros [[]|]; auto; done).
  destruct Hk as [<-|[<-|[]]]; auto.
Qed.

(** C27: Only what the translation names leaves the machine: a body is an object with
    the request's model, a streaming flag, and no field outside a list of nine; a token
    limit stays between 1 and the model's; images occur only in user messages of a model
    that accepts them; and a request that refers to server-side state is refused. *)
Theorem translate_minimal request limits r :
  (1 <= limit_max_output_tokens limits)%N -> translate request limits = Ok r ->
  (forall k, vget k (body r) <> None -> In k allowed_body_fields)
  /\ vget "stream" (body r) = Some (JBool true)
  /\ vget "model" (body r) = vget "model" request
  /\ (forall v, vget "max_tokens" (body r) = Some v ->
        exists n, v = jnum n /\ (1 <= n <= limit_max_output_tokens limits)%N)
  /\ Forall (fun m => content_allowed limits m = true) (default [] (vget "messages" (body r) ≫= as_array))
  /\ (forall k, In k ["previous_response_id"; "conversation"] ->
        vget k request = None \/ vget k request = Some JNull).
Proof.
  intros Hlimit Htr. pose proof (body_lookups _ _ _ Htr) as (o & model & ts & ms & names & -> & Hm & _ & Hms & Ebm & Emsg & _).
  apply translate_messages_ok in Hms as [[_ _ Hcontent] _]. rewrite Ebm, Emsg.
  apply translate_steps in Htr as (o' & model' & ts' & ms' & names' & b & [= <-] & _ & Hst & _ & _ & Hb & ->).
  cbn [vget]. split; [intros k; by eapply body_get|]. split; [by autorewrite with muse|].
  split; [|split; [|split; [done|by apply reject_stateful_ok]]].
  - unfold get_str in Hm. destruct (obj_get "model" o) as [[]|]; cbn in Hm; congruence.
  - intros v. rewrite obj_get_insert_ne by done. unfold insert_max_tokens.
    destruct (_ ≫= as_u64) as [n|].
    + rewrite obj_get_insert_eq. intros [= <-]. eexists. split; [done|]. unfold clamp_tokens. lia.
    + rewrite (get_insert_effort "max_tokens" o _ b) by (done || (cbn; intuition discriminate)).
      rewrite get_insert_tools by (cbn; intuition discriminate). by rewrite !obj_get_insert_ne.
Qed.

End Input.

(** ** Witnesses *)

Definition sample_limits : ModelLimits := {| accepts_images := true; limit_max_output_tokens := 131072 |}.
Definition sample_request : value :=
  let call ty id name field arguments := json_obj [("type", JString ty); ("call_id", JString id);
                                                   ("name", JString name); (field, JString arguments)] in
  let said role parts := json_obj [("type", JString "message"); ("role", JString role); ("content", JArray parts)] in
  let part ty field text := json_obj [("type", JString ty); (field, JString text)] in
  json_obj
    [ ("model", JString "glm-5.2"); ("instructions", JString "Be brief.");
      ("max_output_tokens", jnum 4000000); ("store", JBool false);
      ("tools", JArray
        [ json_obj [("type", JString "custom"); ("name", JString "apply_patch")];
          json_obj [("type", JString "namespace"); ("name", JString "shell");
                    ("tools", JArray [json_obj [("type", JString "function"); ("name", JString "exec")]])] ]);
      ("input", JArray
        [ json_obj [("type", JString "message"); ("role", JString "developer"); ("content", JString "go")];
          said "user" [part "input_text" "text" "look"; part "input_image" "image_url" "data:a"];
          json_obj [("type", JString "reasoning")];
          said "assistant" [part "output_text" "text" "one"; part "refusal" "refusal" "two"];
          call "function_call" "c1" "shell.exec" "arguments" "[1]"; call "custom_tool_call" "c2" "apply_patch" "input" "+a";
          json_obj [("type", JString "function_call_output"); ("call_id", JString "c1");
                    ("output", JString "ok")] ]) ].


Lemma names_roundtrip_witness :
  exists r, translate sample_request sample_limits = Ok r
    /\ decode_name (tools r) <$> body_tools (body r) = ["apply_patch"; "shell.exec"]
    /\ decode_name (tools r) <$> body_tools (body r) = request_tools sample_request.
Proof.
  eexists. split; [vm_compute; reflexivity|]. split; [vm_compute; reflexivity|].
  eapply (translate_names_roundtrip sample_request sample_limits). vm_compute. reflexivity.
Defined.

Lemma minimal_witness :
  exists r, translate sample_request sample_limits = Ok r
    /\ vget "store" (body r) = None /\ vget "stream" (body r) = Some (JBool true).
Proof.
  eexists. split; [vm_compute; reflexivity|]. split; [vm_compute; reflexivity|].
  eapply (translate_minimal sample_request sample_limits); [|vm_compute; reflexivity]. done.
Defined.
