(* ===== verification/ZaiStream.v ===== *)
(** * The Z.ai stream synthesizer

    Models [crates/codex-transport/src/zai/stream.rs]: Z.ai's chat-completions chunks
    become an OpenAI Responses event stream. The upstream body is a script of chunks and
    errors whose end is the end of the body. *)

From S2P Require Import Prelude Utf8 Json Errors SseFrame ZaiRequest.
From stdpp Require Import options.

Definition MAX_BUFFERED_BYTES : N := 8 * 1024 * 1024.
Definition MAX_IDENTIFIER_BYTES : nat := 64.

Inductive stream_event :=
  | Chunk (chunk : bytes)
  | StreamError (error : string).

Record TextItem := {
  item_id_of : string;
  item_output_index : N;
  item_text : string
}.

Record PendingCall := {
  id : string;
  output_index : N;
  call_id : string;
  encoded_name : string;
  name : string;
  arguments : string;
  freeform : bool;
  announced : bool
}.
Definition PendingCall_default : PendingCall :=
  {| id := ""; output_index := 0; call_id := ""; encoded_name := ""; name := ""; arguments := "";
     freeform := false; announced := false |}.

Record State := {
  model : string;
  response_id : string;
  id_stem : string;
  request_key : string;
  tools : ToolNames;
  buffer : bytes;
  pending : list bytes;
  output : list value;
  calls : list PendingCall;
  reasoning : option TextItem;
  message : option TextItem;
  usage : option value;
  next_output_index : N;
  sequence : N;
  started : bool;
  finished : bool;
  terminated : bool
}.

Definition State_new (model request_key : string) (tools : ToolNames) : State :=
  {| model := model; response_id := ""; id_stem := ""; request_key := request_key; tools := tools;
     buffer := []; pending := []; output := []; calls := []; reasoning := None; message := None;
     usage := None; next_output_index := 0; sequence := 0; started := false; finished := false;
     terminated := false |}.

(** ** Updates of single fields *)

Definition set_buffer (b : bytes) (st : State) : State :=
  {| model := model st; response_id := response_id st; id_stem := id_stem st;
     request_key := request_key st; tools := tools st; buffer := b; pending := pending st;
     output := output st; calls := calls st; reasoning := reasoning st; message := message st;
     usage := usage st; next_output_index := next_output_index st; sequence := sequence st;
     started := started st; finished := finished st; terminated := terminated st |}.
Definition set_pending (p : list bytes) (st : State) : State :=
  {| model := model st; response_id := response_id st; id_stem := id_stem st;
     request_key := request_key st; tools := tools st; buffer := buffer st; pending := p;
     output := output st; calls := calls st; reasoning := reasoning st; message := message st;
     usage := usage st; next_output_index := next_output_index st; sequence := sequence st;
     started := started st; finished := finished st; terminated := terminated st |}.
(** [self.sequence += 1; self.pending.push_back(frame)] *)
Definition push_frame (frame : bytes) (st : State) : State :=
  {| model := model st; response_id := response_id st; id_stem := id_stem st;
     request_key := request_key st; tools := tools st; buffer := buffer st;
     pending := pending st ++ [frame]; output := output st; calls := calls st;
     reasoning := reasoning st; message := message st; usage := usage st;
     next_output_index := next_output_index st; sequence := u64_add (sequence st) 1;
     started := started st; finished := finished st; terminated := terminated st |}.
Definition push_output (item : value) (st : State) : State :=
  {| model := model st; response_id := response_id st; id_stem := id_stem st;
     request_key := request_key st; tools := tools st; buffer := buffer st;
     pending := pending st; output := output st ++ [item]; calls := calls st;
     reasoning := reasoning st; message := message st; usage := usage st;
     next_output_index := next_output_index st; sequence := sequence st; started := started st;
     finished := finished st; terminated := terminated st |}.
Definition set_calls (c : list PendingCall) (st : State) : State :=
  {| model := model st; response_id := response_id st; id_stem := id_stem st;
     request_key := request_key st; tools := tools st; buffer := buffer st;
     pending := pending st; output := output st; calls := c; reasoning := reasoning st;
     message := message st; usage := usage st; next_output_index := next_output_index st;
     sequence := sequence st; started := started st; finished := finished st;
     terminated := terminated st |}.
Definition set_reasoning (r : option TextItem) (st : State) : State :=
  {| model := model st; response_id := response_id st; id_stem := id_stem st;
     request_key := request_key st; tools := tools st; buffer := buffer st;
     pending := pending st; output := output st; calls := calls st; reasoning := r;
     message := message st; usage := usage st; next_output_index := next_output_index st;
     sequence := sequence st; started := started st; finished := finished st;
     terminated := terminated st |}.
Definition set_message (m : option TextItem) (st : State) : State :=
  {| model := model st; response_id := response_id st; id_stem := id_stem st;
     request_key := request_key st; tools := tools st; buffer := buffer st;
     pending := pending st; output := output st; calls := calls st; reasoning := reasoning st;
     message := m; usage := usage st; next_output_index := next_output_index st;
     sequence := sequence st; started := started st; finished := finished st;
     terminated := terminated st |}.
Definition set_usage (u : value) (st : State) : State :=
  {| model := model st; response_id := response_id st; id_stem := id_stem st;
     request_key := request_key st; tools := tools st; buffer := buffer st;
     pending := pending st; output := output st; calls := calls st; reasoning := reasoning st;
     message := message st; usage := Some u; next_output_index := next_output_index st;
     sequence := sequence st; started := started st; finished := finished st;
     terminated := terminated st |}.
Definition set_started (stem : string) (m : string) (st : State) : State :=
  {| model := m; response_id := "resp_" +:+ stem; id_stem := stem; request_key := request_key st;
     tools := tools st; buffer := buffer st; pending := pending st; output := output st;
     calls := calls st; reasoning := reasoning st; message := message st; usage := usage st;
     next_output_index := next_output_index st; sequence := sequence st; started := true;
     finished := finished st; terminated := terminated st |}.
Definition set_next_output_index (n : N) (st : State) : State :=
  {| model := model st; response_id := response_id st; id_stem := id_stem st;
     request_key := request_key st; tools := tools st; buffer := buffer st;
     pending := pending st; output := output st; calls := calls st; reasoning := reasoning st;
     message := message st; usage := usage st; next_output_index := n; sequence := sequence st;
     started := started st; finished := finished st; terminated := terminated st |}.
Definition set_finished (st : State) : State :=
  {| model := model st; response_id := response_id st; id_stem := id_stem st;
     request_key := request_key st; tools := tools st; buffer := buffer st;
     pending := pending st; output := output st; calls := calls st; reasoning := reasoning st;
     message := message st; usage := usage st; next_output_index := next_output_index st;
     sequence := sequence st; started := started st; finished := true;
     terminated := terminated st |}.
(** [self.terminated = true; self.finished = true;] *)
Definition terminate (st : State) : State :=
  {| model := model st; response_id := response_id st; id_stem := id_stem st;
     request_key := request_key st; tools := tools st; buffer := buffer st;
     pending := pending st; output := output st; calls := calls st; reasoning := reasoning st;
     message := message st; usage := usage st; next_output_index := next_output_index st;
     sequence := sequence st; started := started st; finished := true; terminated := true |}.

(** ** Helpers *)

(** [Map::new()] and a sequence of inserts. *)
Definition obj_of (members : list (string * value)) : obj :=
  foldl (fun m kv => obj_insert (fst kv) (snd kv) m) [] members.

Definition identifier_byte (c : ascii) : bool := is_ascii_alphanumeric c || char_in "_-" c.
(** [chars().filter(...)] keeps ASCII characters, which are single bytes. *)
Definition sanitize_identifier (v : string) : string :=
  let filtered := str_take MAX_IDENTIFIER_BYTES (str_filter identifier_byte v) in
  if is_empty filtered then "unknown" else filtered.

Definition map_usage (usage : value) : value :=
  let input := vget "prompt_tokens" usage ≫= as_u64 in
  let output := vget "completion_tokens" usage ≫= as_u64 in
  let total := or_else (vget "total_tokens" usage ≫= as_u64)
                       (Some (u64_add (default 0%N input) (default 0%N output))) in
  let insert_num (k : string) (o : option N) (m : obj) :=
    match o with Some n => obj_insert k (jnum n) m | None => m end in
  JObject (insert_num "total_tokens" total
            (insert_num "output_tokens" output (insert_num "input_tokens" input []))).

(** The [while index < buffer.len()] loop over the unread rest of the buffer. *)
Fixpoint frame_scan (line_start index : nat) (rest : bytes) : option nat :=
  match rest with
  | [] => None
  | a :: r =>
      if negb (is_line_end a) then frame_scan line_start (S index) r else
      match r with
      | b :: r' =>
          if Ascii.eqb a CR && Ascii.eqb b LF then
            if index =? line_start then Some (S (S index))
            else frame_scan (S (S index)) (S (S index)) r'
          else if index =? line_start then Some (S index) else frame_scan (S index) (S index) r
      | [] => if index =? line_start then Some (S index) else None
      end
  end.
Definition complete_frame_len (buffer : bytes) : option nat := frame_scan 0 0 buffer.

Definition derive_id_stem (chunk : value) (st : State) : string :=
  sanitize_identifier (default (request_key st) (opt_filter non_empty (vget_str "id" chunk))).

Definition item_id (prefix : string) (output_index : N) (st : State) : string :=
  prefix +:+ "_" +:+ id_stem st +:+ "_" +:+ pretty output_index.

(** [let output_index = self.take_output_index();] *)
Definition take_output_index (st : State) : N * State :=
  (next_output_index st, set_next_output_index (u64_add (next_output_index st) 1) st).

Definition response_envelope (status : string) (finish_reason : option string) (include_output : bool)
    (st : State) : value :=
  let response := obj_of
    [ ("id", JString (response_id st)); ("object", JString "response"); ("status", JString status);
      ("model", JString (model st));
      ("output", JArray (if include_output then output st else [])) ] in
  let response := match usage st with
                  | Some usage => obj_insert "usage" usage response
                  | None => response
                  end in
  JObject (if bool_decide (finish_reason = Some "length")
           then obj_insert "incomplete_details" (json_obj [("reason", JString "max_output_tokens")]) response
           else response).

(** One line of a frame: the [for line in text.lines()] body. *)
Definition read_data_line (data : string) (line : string) : string :=
  let line := default line (strip_prefix bom line) in
  if is_empty line || starts_with ":" line then data else
  match split_once ":" line with
  | None => data
  | Some (field, v) =>
      if negb (String.eqb field "data") then data
      else (if is_empty data then data else data +:+ lf) +:+ default v (strip_prefix " " v)
  end.
Definition frame_data (text : string) : string := foldl read_data_line EmptyString (lines text).

Section Synthesize.
  Context {SJ : SerdeJson}.

(** The event [emit] writes. *)
Definition stamped (kind : string) (body : obj) (sequence : N) : value :=
  JObject (obj_insert "sequence_number" (jnum sequence) (obj_insert "type" (JString kind) body)).
Definition event_frame (kind : string) (body : obj) (sequence : N) : bytes :=
  to_bytes (sse_text kind (to_string (stamped kind body sequence))).

Definition emit (kind : string) (body : obj) (st : State) : State :=
  push_frame (event_frame kind body (sequence st)) st.

Definition fail (msg : string) (st : State) : State :=
  if terminated st then set_finished st else
  let body := obj_of [("message", JString msg); ("code", JString "invalid_request")] in
  let body := if is_empty (response_id st) then body
              else obj_insert "response_id" (JString (response_id st)) body in
  terminate (emit "error" body st).

Definition end_of_stream (st : State) : State :=
  if terminated st then set_finished st
  else set_finished (fail "the Z.ai stream ended before a terminal event" st).

Definition start (chunk : value) (st : State) : State :=
  if started st then st else
  let st := set_started (derive_id_stem chunk st)
              (default (model st) (opt_filter non_empty (vget_str "model" chunk))) st in
  let response := response_envelope "in_progress" None false st in
  emit "response.in_progress" (obj_of [("response", response)])
    (emit "response.created" (obj_of [("response", response)]) st).

(** *** Reasoning *)

Definition summary_text (text : string) : value :=
  json_obj [("type", JString "summary_text"); ("text", JString text)].
Definition reasoning_item (id : string) (summary : list value) : value :=
  json_obj [("id", JString id); ("type", JString "reasoning"); ("summary", JArray summary)].

Definition close_reasoning (st : State) : State :=
  match reasoning st with
  | None => st
  | Some current =>
      let st := set_reasoning None st in
      let at_item := [ ("item_id", JString (item_id_of current));
                       ("output_index", jnum (item_output_index current)); ("summary_index", jnum 0) ] in
      let st := emit "response.reasoning_summary_text.done"
                  (obj_of (at_item ++ [("text", JString (item_text current))])) st in
      let summary := summary_text (item_text current) in
      let st := emit "response.reasoning_summary_part.done" (obj_of (at_item ++ [("part", summary)])) st in
      let item := reasoning_item (item_id_of current) [summary] in
      let st := emit "response.output_item.done"
                  (obj_of [("output_index", jnum (item_output_index current)); ("item", item)]) st in
      push_output item st
  end.

(** *** Messages *)

Definition output_text_part (text : string) : value :=
  json_obj [("type", JString "output_text"); ("text", JString text); ("annotations", JArray [])].
Definition message_item (id status : string) (content : list value) : value :=
  json_obj [ ("id", JString id); ("type", JString "message"); ("status", JString status);
             ("role", JString "assistant"); ("content", JArray content) ].

Definition close_message (st : State) : State :=
  match message st with
  | None => st
  | Some current =>
      let st := set_message None st in
      let at_item := [ ("item_id", JString (item_id_of current));
                       ("output_index", jnum (item_output_index current)); ("content_index", jnum 0) ] in
      let st := emit "response.output_text.done"
                  (obj_of (at_item ++ [("text", JString (item_text current))])) st in
      let part := output_text_part (item_text current) in
      let st := emit "response.content_part.done" (obj_of (at_item ++ [("part", part)])) st in
      let item := message_item (item_id_of current) "completed" [part] in
      let st := emit "response.output_item.done"
                  (obj_of [("output_index", jnum (item_output_index current)); ("item", item)]) st in
      push_output item st
  end.

(** The [if self.reasoning.is_none()] block. *)
Definition open_reasoning (st : State) : State :=
  match reasoning st with
  | Some _ => st
  | None =>
      let '(output_index, st) := take_output_index st in
      let id := item_id "rs" output_index st in
      let st := emit "response.output_item.added"
                  (obj_of [("output_index", jnum output_index); ("item", reasoning_item id [])]) st in
      let st := emit "response.reasoning_summary_part.added"
                  (obj_of [ ("item_id", JString id); ("output_index", jnum output_index);
                            ("summary_index", jnum 0); ("part", summary_text "") ]) st in
      set_reasoning (Some {| item_id_of := id; item_output_index := output_index; item_text := "" |}) st
  end.

Definition push_item_text (delta : string) (current : TextItem) : TextItem :=
  {| item_id_of := item_id_of current; item_output_index := item_output_index current;
     item_text := item_text current +:+ delta |}.

Definition push_reasoning (delta : string) (st : State) : State :=
  let st := open_reasoning (close_message st) in
  match reasoning st with
  | None => st
  | Some current =>
      let current := push_item_text delta current in
      emit "response.reasoning_summary_text.delta"
        (obj_of [ ("item_id", JString (item_id_of current));
                  ("output_index", jnum (item_output_index current));
                  ("summary_index", jnum 0); ("delta", JString delta) ])
        (set_reasoning (Some current) st)
  end.

(** The [if self.message.is_none()] block. *)
Definition open_message (st : State) : State :=
  match message st with
  | Some _ => st
  | None =>
      let '(output_index, st) := take_output_index st in
      let id := item_id "msg" output_index st in
      let st := emit "response.output_item.added"
                  (obj_of [ ("output_index", jnum output_index);
                            ("item", message_item id "in_progress" []) ]) st in
      let st := emit "response.content_part.added"
                  (obj_of [ ("item_id", JString id); ("output_index", jnum output_index);
                            ("content_index", jnum 0); ("part", output_text_part "") ]) st in
      set_message (Some {| item_id_of := id; item_output_index := output_index; item_text := "" |}) st
  end.

Definition push_text (delta : string) (st : State) : State :=
  let st := open_message (close_reasoning st) in
  match message st with
  | None => st
  | Some current =>
      let current := push_item_text delta current in
      emit "response.output_text.delta"
        (obj_of [ ("item_id", JString (item_id_of current));
                  ("output_index", jnum (item_output_index current));
                  ("content_index", jnum 0); ("delta", JString delta) ])
        (set_message (Some current) st)
  end.

(** *** Tool calls *)

Definition call_item (call : PendingCall) (status payload : string) : value :=
  json_obj [ ("id", JString (id call));
             ("type", JString (if freeform call then "custom_tool_call" else "function_call"));
             ("status", JString status); ("call_id", JString (call_id call));
             ("name", JString (name call));
             (if freeform call then "input" else "arguments", JString payload) ].

(** Steps of [push_tool_call] on the entry at [index]. *)
Definition identify_call (stem : string) (output_index : N) (entry : PendingCall) : PendingCall :=
  {| id := "fc_" +:+ stem +:+ "_" +:+ pretty output_index; output_index := output_index;
     call_id := call_id entry; encoded_name := encoded_name entry; name := name entry;
     arguments := arguments entry; freeform := freeform entry; announced := announced entry |}.
Definition learn_call_id (call : value) (entry : PendingCall) : PendingCall :=
  match opt_filter non_empty (vget_str "id" call) with
  | Some cid =>
      if is_empty (call_id entry) then
        {| id := id entry; output_index := output_index entry; call_id := sanitize_identifier cid;
           encoded_name := encoded_name entry; name := name entry; arguments := arguments entry;
           freeform := freeform entry; announced := announced entry |}
      else entry
  | None => entry
  end.
Definition learn_name (names : ToolNames) (function : option obj) (entry : PendingCall) : PendingCall :=
  match opt_filter non_empty (function ≫= get_str "name") with
  | Some n =>
      if is_empty (encoded_name entry) then
        {| id := id entry; output_index := output_index entry; call_id := call_id entry;
           encoded_name := n; name := decode_name names n; arguments := arguments entry;
           freeform := is_freeform names n; announced := announced entry |}
      else entry
  | None => entry
  end.
Definition announce_call (entry : PendingCall) : PendingCall :=
  {| id := id entry; output_index := output_index entry; call_id := call_id entry;
     encoded_name := encoded_name entry; name := name entry; arguments := arguments entry;
     freeform := freeform entry; announced := true |}.
Definition push_arguments (fragment : string) (entry : PendingCall) : PendingCall :=
  {| id := id entry; output_index := output_index entry; call_id := call_id entry;
     encoded_name := encoded_name entry; name := name entry;
     arguments := arguments entry +:+ fragment;
     freeform := freeform entry; announced := announced entry |}.

(** [self.calls[index]] and its assignment. *)
Definition entry_at (index : nat) (st : State) : PendingCall :=
  default PendingCall_default (calls st !! index).
Definition set_entry (index : nat) (entry : PendingCall) (st : State) : State :=
  set_calls (<[index := entry]> (calls st)) st.

(** [while self.calls.len() <= index { self.calls.push(PendingCall::default()); }] *)
Definition grow_calls (index : nat) (st : State) : State :=
  set_calls (calls st ++ replicate (S index - length (calls st)) PendingCall_default) st.

Definition identify (index : nat) (st : State) : State :=
  if is_empty (id (entry_at index st)) then
    let '(output_index, st) := take_output_index st in
    set_entry index (identify_call (id_stem st) output_index (entry_at index st)) st
  else st.

Definition learn (index : nat) (call : value) (function : option obj) (st : State) : State :=
  set_entry index (learn_name (tools st) function (learn_call_id call (entry_at index st))) st.

Definition announce (index : nat) (st : State) : State :=
  let entry := entry_at index st in
  if negb (announced entry) && non_empty (encoded_name entry) && non_empty (call_id entry) then
    emit "response.output_item.added"
      (obj_of [("output_index", jnum (output_index entry)); ("item", call_item entry "in_progress" "")])
      (set_entry index (announce_call entry) st)
  else st.

Definition push_fragment (index : nat) (function : option obj) (st : State) : State :=
  match opt_filter non_empty (function ≫= get_str "arguments") with
  | None => st
  | Some fragment =>
      let entry := push_arguments fragment (entry_at index st) in
      let st := set_entry index entry st in
      if negb (freeform entry) && announced entry then
        emit "response.function_call_arguments.delta"
          (obj_of [ ("item_id", JString (id entry)); ("output_index", jnum (output_index entry));
                    ("delta", JString fragment) ]) st
      else st
  end.

Definition push_tool_call (call : value) (st : State) : State :=
  let index := N.to_nat (default 0%N (vget "index" call ≫= as_u64)) in
  let function := vget "function" call ≫= as_object in
  push_fragment index function
    (announce index (learn index call function (identify index
      (grow_calls index (close_message (close_reasoning st)))))).

Definition freeform_input (arguments : string) : string :=
  default arguments (ok (from_str arguments) ≫= vget_str "input").

Definition close_tool_call (st : State) (call : PendingCall) : State :=
  let payload := if freeform call then freeform_input (arguments call)
                 else if is_empty (arguments call) then "{}" else arguments call in
  let at_item := [("item_id", JString (id call)); ("output_index", jnum (output_index call))] in
  let st :=
    if freeform call then
      emit "response.custom_tool_call_input.done" (obj_of (at_item ++ [("input", JString payload)]))
        (emit "response.custom_tool_call_input.delta" (obj_of (at_item ++ [("delta", JString payload)])) st)
    else
      emit "response.function_call_arguments.done" (obj_of (at_item ++ [("arguments", JString payload)])) st in
  let item := call_item call "completed" payload in
  push_output item
    (emit "response.output_item.done" (obj_of [("output_index", jnum (output_index call)); ("item", item)]) st).

Definition close_tool_calls (st : State) : State :=
  foldl close_tool_call (set_calls [] st) (List.filter announced (calls st)).

(** *** Completion and dispatch *)

Definition complete (finish_reason : option string) (st : State) : State :=
  if terminated st then st else
  if negb (started st) then fail "the Z.ai stream ended before any content arrived" st else
  let st := close_tool_calls (close_message (close_reasoning st)) in
  let truncated := bool_decide (finish_reason = Some "length") in
  let status := if truncated then "incomplete" else "completed" in
  let body := obj_of [("response", response_envelope status finish_reason true st)] in
  terminate (emit (if truncated then "response.incomplete" else "response.completed") body st).

(** The [delta] of a choice. *)
Definition handle_delta (delta : obj) (st : State) : State :=
  let st := match opt_filter non_empty (get_str "reasoning_content" delta) with
            | Some reasoning => push_reasoning reasoning st
            | None => st
            end in
  let st := match opt_filter non_empty (get_str "content" delta) with
            | Some content => push_text content st
            | None => st
            end in
  match obj_get "tool_calls" delta ≫= as_array with
  | Some calls => foldl (fun st call => push_tool_call call st) st calls
  | None => st
  end.

Definition handle_choice (choice : value) (st : State) : State :=
  let st := match vget "delta" choice ≫= as_object with
            | Some delta => handle_delta delta st
            | None => st
            end in
  match opt_filter non_empty (vget_str "finish_reason" choice) with
  | Some reason => complete (Some reason) st
  | None => st
  end.

Definition handle_chunk (chunk : value) (st : State) : State :=
  match opt_filter (fun v => negb (is_null v)) (vget "error" chunk) with
  | Some error => fail (default "the Z.ai stream reported an error" (vget_str "message" error)) st
  | None =>
      let st := start chunk st in
      let st := match opt_filter is_object (vget "usage" chunk) with
                | Some usage => set_usage (map_usage usage) st
                | None => st
                end in
      match (vget "choices" chunk ≫= as_array) ≫= head with
      | Some choice => handle_choice choice st
      | None => st
      end
  end.

(** The two errors are raised before the state changes. *)
Definition handle_frame (frame : bytes) (st : State) : res State :=
  text ← ok_or (from_utf8 frame) (InvalidUpstreamResponse "the Z.ai stream was not UTF-8");
  let data := frame_data text in
  if is_empty data then Ok st
  else if String.eqb (trim data) "[DONE]" then
    Ok (set_finished
          (if terminated st then st
           else if started st then complete None st
           else fail "the Z.ai stream ended before any content arrived" st))
  else
    chunk ← map_err (fun error => InvalidUpstreamResponse ("the Z.ai stream sent invalid JSON: " +:+ error))
                    (from_str data);
    Ok (handle_chunk chunk st).

Section Push.
  (** How [http::StatusCode] prints; part of the text of errors this file never raises. *)
  Context (status_text : StatusCode -> string).

(** One iteration of the frame loop; [inl] leaves it. *)
Definition push_step (st : State) : State + State :=
  match complete_frame_len (buffer st) with
  | None => inl st
  | Some length =>
      let frame := take length (buffer st) in
      let st := set_buffer (drop length (buffer st)) st in
      match handle_frame frame st with
      | Err error => inl (fail (error_text status_text error) st)
      | Ok st => if terminated st then inl st else inr st
      end
  end.
Fixpoint push_loop (fuel : nat) (st : State) : State :=
  match fuel with
  | 0 => st
  | S fuel => match push_step st with inl st => st | inr st => push_loop fuel st end
  end.

(** Every iteration consumes a byte of the buffer. *)
Definition push (chunk : bytes) (st : State) : State :=
  if terminated st then st else
  if (MAX_BUFFERED_BYTES <? u64_saturating_add (blen (buffer st)) (blen chunk))%N
  then fail "the Z.ai stream exceeded the buffered event limit" st else
  let st := set_buffer (buffer st ++ chunk) st in
  push_loop (S (length (buffer st))) st.

(** The [match upstream.next().await] of the stream loop. *)
Definition on_event (ev : stream_event) (st : State) : State :=
  match ev with
  | Chunk chunk => push chunk st
  | StreamError error => fail ("upstream stream failed: " +:+ error) st
  end.

(** One poll of the synthesized stream: the closure given to [unfold]. *)
Fixpoint next_frame (st : State) (script : list stream_event)
  : option (bytes * State * list stream_event) :=
  match pending st with
  | frame :: rest => Some (frame, set_pending rest st, script)
  | [] =>
      if finished st then None else
      match script with
      | ev :: script' => next_frame (on_event ev st) script'
      | [] =>
          let st := end_of_stream st in
          match pending st with
          | frame :: rest => Some (frame, set_pending rest st, [])
          | [] => None
          end
      end
  end.

(** The consumer: polls until the stream ends. *)
Fixpoint poll_all (fuel : nat) (st : State) (script : list stream_event) : option (list bytes) :=
  match fuel with
  | 0 => None
  | S fuel =>
      match next_frame st script with
      | None => Some []
      | Some (frame, st', script') => cons frame <$> poll_all fuel st' script'
      end
  end.

(** The whole run with nothing popped: frames only ever join the end of the queue. *)
Fixpoint run (st : State) (script : list stream_event) : State :=
  if finished st then st else
  match script with
  | [] => end_of_stream st
  | ev :: script' => run (on_event ev st) script'
  end.

Definition responses_stream (model request_key : string) (tools : ToolNames)
    (script : list stream_event) : list bytes :=
  pending (run (State_new model request_key tools) script).

End Push.
End Synthesize.
