(* ===== verification/ZaiContract.v ===== *)
(** * The contract of a Responses stream

    Which event may follow which, as an acceptor over events: [accept]. It is the
    specification the Z.ai synthesizer is shown to refine. The second half says how the
    synthesizer's [emit] writes a list of events, and which events are accepted when. *)

From S2P Require Import Prelude Json SseFrame ZaiStream.
From stdpp Require Import options.

(** ** The Responses stream contract *)

Abbreviation event := (string * obj)%type.

(** An open text item: its output index, id and the text of its deltas so far. *)
Abbreviation slot := (N * string * string)%type.

Record phase := {
  begun : bool;
  open_reasoning_item : option slot;
  open_message_item : option slot;
  open_calls : list (N * string);
  done_items : list value;
  ended : bool
}.
Definition phase_new : phase :=
  {| begun := false; open_reasoning_item := None; open_message_item := None; open_calls := [];
     done_items := []; ended := false |}.
Definition set_slots (r m : option slot) (c : list (N * string)) (d : list value) (ph : phase) : phase :=
  {| begun := begun ph; open_reasoning_item := r; open_message_item := m; open_calls := c;
     done_items := d; ended := ended ph |}.
Definition begin_phase (ph : phase) : phase :=
  {| begun := true; open_reasoning_item := open_reasoning_item ph;
     open_message_item := open_message_item ph; open_calls := open_calls ph;
     done_items := done_items ph; ended := ended ph |}.
Definition end_phase (ph : phase) : phase :=
  {| begun := begun ph; open_reasoning_item := open_reasoning_item ph;
     open_message_item := open_message_item ph; open_calls := open_calls ph;
     done_items := done_items ph; ended := true |}.

Definition get_num (k : string) (b : obj) : option N :=
  match obj_get k b with Some (JNumber (PosInt n)) => Some n | _ => None end.
(** The index and id an event refers to, and those of the item it carries. *)
Definition part_key (b : obj) : option (N * string) :=
  i ← get_num "output_index" b; d ← get_str "item_id" b; Some (i, d).
Definition item_key (b : obj) : option (N * string * string) :=
  i ← get_num "output_index" b; item ← obj_get "item" b;
  d ← vget_str "id" item; ty ← vget_str "type" item; Some (i, d, ty).
Definition slot_key (s : slot) : N * string := fst s.

(** Removes one occurrence. *)
Fixpoint remove_one (k : N * string) (l : list (N * string)) : option (list (N * string)) :=
  match l with
  | [] => None
  | x :: l' => if bool_decide (x = k) then Some l' else cons x <$> remove_one k l'
  end.
Lemma remove_one_perm k l rest :
  l ≡ₚ k :: rest -> exists l', remove_one k l = Some l' /\ l' ≡ₚ rest.
Proof.
  revert rest. induction l as [|x l IH]; intros rest H; [by apply Permutation_nil_l in H|].
  cbn. case_bool_decide as E; [subst x; apply Permutation_cons_inv in H; eauto|].
  assert (Hin : k ∈ l).
  { assert (Hk : k ∈ x :: l) by (rewrite H; by left). by apply elem_of_cons in Hk as [->|]. }
  apply elem_of_Permutation in Hin as (l0 & Hl0).
  destruct (IH l0 Hl0) as (l' & -> & Hl'). exists (x :: l'). split; [done|].
  rewrite Hl0, Permutation_swap in H. apply Permutation_cons_inv in H. by rewrite <- H, Hl'.
Qed.

(** A delta extends the text of its slot; a [done] event repeats the whole text. *)
Definition slot_event (is_delta is_text_done : bool) (s : option slot) (b : obj) : option (option slot) :=
  s ← s; key ← part_key b;
  if negb (bool_decide (key = slot_key s)) then None
  else if is_delta then d ← get_str "delta" b; Some (Some (fst s, snd s +:+ d))
  else if is_text_done then
    t ← get_str "text" b; if String.eqb t (snd s) then Some (Some s) else None
  else Some (Some s).

Definition reasoning_kinds : list string :=
  [ "response.reasoning_summary_part.added"; "response.reasoning_summary_part.done";
    "response.reasoning_summary_text.delta"; "response.reasoning_summary_text.done" ].
Definition message_kinds : list string :=
  [ "response.content_part.added"; "response.content_part.done";
    "response.output_text.delta"; "response.output_text.done" ].
Definition call_kinds : list string :=
  [ "response.function_call_arguments.delta"; "response.function_call_arguments.done";
    "response.custom_tool_call_input.delta"; "response.custom_tool_call_input.done" ].

Definition accept_added (ph : phase) (b : obj) : option phase :=
  '(i, d, ty) ← item_key b;
  if String.eqb ty "reasoning" then
    match open_reasoning_item ph, open_message_item ph with
    | None, None => Some (set_slots (Some (i, d, "")) None (open_calls ph) (done_items ph) ph)
    | _, _ => None
    end
  else if String.eqb ty "message" then
    match open_reasoning_item ph, open_message_item ph with
    | None, None => Some (set_slots None (Some (i, d, "")) (open_calls ph) (done_items ph) ph)
    | _, _ => None
    end
  else if one_of ty ["function_call"; "custom_tool_call"] then
    match open_reasoning_item ph, open_message_item ph with
    | None, None => Some (set_slots None None ((i, d) :: open_calls ph) (done_items ph) ph)
    | _, _ => None
    end
  else None.

Definition accept_done (ph : phase) (b : obj) : option phase :=
  '(i, d, ty) ← item_key b; item ← obj_get "item" b;
  if String.eqb ty "reasoning" then
    s ← open_reasoning_item ph;
    if bool_decide (slot_key s = (i, d))
    then Some (set_slots None (open_message_item ph) (open_calls ph) (done_items ph ++ [item]) ph) else None
  else if String.eqb ty "message" then
    s ← open_message_item ph;
    if bool_decide (slot_key s = (i, d))
    then Some (set_slots (open_reasoning_item ph) None (open_calls ph) (done_items ph ++ [item]) ph) else None
  else
    c ← remove_one (i, d) (open_calls ph);
    Some (set_slots (open_reasoning_item ph) (open_message_item ph) c (done_items ph ++ [item]) ph).

(** One event. A closed stream takes no more; a response completes only when no item is
    open, and its output is the items that were done, in that order. *)
Definition accept1 (ph : phase) (e : event) : option phase :=
  let '(k, b) := e in
  if ended ph then None
  else if String.eqb k "error" then Some (end_phase ph)
  else if String.eqb k "response.created" then if begun ph then None else Some (begin_phase ph)
  else if negb (begun ph) then None
  else if String.eqb k "response.in_progress" then Some ph
  else if String.eqb k "response.output_item.added" then accept_added ph b
  else if String.eqb k "response.output_item.done" then accept_done ph b
  else if one_of k ["response.completed"; "response.incomplete"] then
    match open_reasoning_item ph, open_message_item ph, open_calls ph with
    | None, None, [] =>
        if bool_decide (obj_get "response" b ≫= vget "output" = Some (JArray (done_items ph)))
        then Some (end_phase ph) else None
    | _, _, _ => None
    end
  else if one_of k reasoning_kinds then
    s ← slot_event (String.eqb k "response.reasoning_summary_text.delta")
                   (String.eqb k "response.reasoning_summary_text.done") (open_reasoning_item ph) b;
    Some (set_slots s (open_message_item ph) (open_calls ph) (done_items ph) ph)
  else if one_of k message_kinds then
    s ← slot_event (String.eqb k "response.output_text.delta")
                   (String.eqb k "response.output_text.done") (open_message_item ph) b;
    Some (set_slots (open_reasoning_item ph) s (open_calls ph) (done_items ph) ph)
  else if one_of k call_kinds then
    key ← part_key b; if bool_decide (key ∈ open_calls ph) then Some ph else None
  else None.

Fixpoint accept (ph : phase) (evs : list event) : option phase :=
  match evs with
  | [] => Some ph
  | e :: evs' => ph' ← accept1 ph e; accept ph' evs'
  end.

Lemma accept_app ph evs evs' ph1 ph2 :
  accept ph evs = Some ph1 -> accept ph1 evs' = Some ph2 -> accept ph (evs ++ evs') = Some ph2.
Proof.
  revert ph. induction evs as [|e evs IH]; intros ph; cbn [accept app]; [by intros [= ->]|].
  destruct (accept1 ph e) as [ph'|]; [|done]. cbn [mbind option_bind]. apply IH.
Qed.

(** ** What an operation emits *)

Section Emitted.
  Context {SJ : SerdeJson}.

(** The frames of events numbered from [s]. *)
Fixpoint frames_from (s : N) (evs : list event) : list bytes :=
  match evs with
  | [] => []
  | (k, b) :: evs' => event_frame k b s :: frames_from (u64_add s 1) evs'
  end.
Fixpoint number_after (s : N) (evs : list event) : N :=
  match evs with
  | [] => s
  | _ :: evs' => number_after (u64_add s 1) evs'
  end.

Definition emitted (st st' : State) (evs : list event) : Prop :=
  pending st' = pending st ++ frames_from (sequence st) evs
  /\ sequence st' = number_after (sequence st) evs.

Lemma frames_from_app s evs evs' :
  frames_from s (evs ++ evs') = frames_from s evs ++ frames_from (number_after s evs) evs'.
Proof. revert s. induction evs as [|[k b] evs IH]; intros s; cbn; [done|]. by rewrite IH. Qed.
Lemma number_after_app s evs evs' : number_after s (evs ++ evs') = number_after (number_after s evs) evs'.
Proof. revert s. induction evs as [|e evs IH]; intros s; cbn; [done|apply IH]. Qed.

Lemma emitted_trans st st1 st2 evs evs' :
  emitted st st1 evs -> emitted st1 st2 evs' -> emitted st st2 (evs ++ evs').
Proof.
  intros [Hp Hs] [Hp' Hs']. split.
  - by rewrite frames_from_app, Hp', Hp, Hs, app_assoc.
  - by rewrite number_after_app, Hs', Hs.
Qed.
Lemma emitted_nil st st' : pending st' = pending st -> sequence st' = sequence st -> emitted st st' [].
Proof. intros Hp Hs. split; cbn; by rewrite ?app_nil_r. Qed.
Lemma emitted_emit st st1 evs k b : emitted st st1 evs -> emitted st (emit k b st1) (evs ++ [(k, b)]).
Proof. intros H. eapply emitted_trans; [exact H|]. by split. Qed.
Lemma emitted_same st st1 st2 evs :
  emitted st st1 evs -> pending st2 = pending st1 -> sequence st2 = sequence st1 -> emitted st st2 evs.
Proof. intros [Hp Hs] Hp' Hs'. split; congruence. Qed.

End Emitted.

(** Collects the events of a chain of [emit]s and field updates. *)
Ltac emits :=
  match goal with
  | |- emitted _ (emit _ _ _) _ => apply emitted_emit; emits
  | |- emitted _ (?setter _ ?s) _ => apply (emitted_same _ s); [emits|reflexivity|reflexivity]
  | |- emitted _ (?setter ?s) _ => apply (emitted_same _ s); [emits|reflexivity|reflexivity]
  | |- emitted _ _ _ => apply emitted_nil; reflexivity
  end.

(** ** Single events *)

(** A begun stream that is still open. *)
Definition ph_at (r m : option slot) (c : list (N * string)) (d : list value) : phase :=
  {| begun := true; open_reasoning_item := r; open_message_item := m; open_calls := c;
     done_items := d; ended := false |}.

Ltac read_obj := unfold part_key, item_key, get_num, get_str, obj_of; rewrite ?obj_get_foldl; cbn [last_get obj_get String.eqb Ascii.eqb Bool.eqb app mbind option_bind jnum as_str].

Section SlotEvents.
  Context (i : N) (d t : string) (b : obj).
  Context (Hi : obj_get "output_index" b = Some (jnum i)) (Hd : obj_get "item_id" b = Some (JString d)).

Lemma part_key_of : part_key b = Some (i, d).
Proof using Hd Hi. unfold part_key, get_num, get_str. by rewrite Hi, Hd. Qed.
Lemma slot_plain : slot_event false false (Some (i, d, t)) b = Some (Some (i, d, t)).
Proof using Hd Hi. unfold slot_event. cbn [mbind option_bind]. rewrite part_key_of. cbn. by rewrite bool_decide_true. Qed.
Lemma slot_delta x :
  obj_get "delta" b = Some (JString x) -> slot_event true false (Some (i, d, t)) b = Some (Some (i, d, t +:+ x)).
Proof using Hd Hi.
  intros Hx. unfold slot_event. cbn [mbind option_bind]. rewrite part_key_of.
  cbn [mbind option_bind slot_key fst snd]. rewrite bool_decide_true by done. unfold get_str. by rewrite Hx.
Qed.
Lemma slot_done :
  obj_get "text" b = Some (JString t) -> slot_event false true (Some (i, d, t)) b = Some (Some (i, d, t)).
Proof using Hd Hi.
  intros Hx. unfold slot_event. cbn [mbind option_bind]. rewrite part_key_of.
  cbn [mbind option_bind slot_key fst snd]. rewrite bool_decide_true by done. unfold get_str. rewrite Hx.
  cbn [mbind option_bind as_str]. by rewrite String.eqb_refl.
Qed.
End SlotEvents.

Lemma accept_cons ph e evs ph1 ph2 :
  accept1 ph e = Some ph1 -> accept ph1 evs = Some ph2 -> accept ph (e :: evs) = Some ph2.
Proof. intros H1 H2. cbn [accept]. by rewrite H1. Qed.

Section Accepts.
  Context (r m : option slot) (c : list (N * string)) (l : list value) (b : obj).

Lemma accept_reasoning_event (k : string) (is_delta is_done : bool) r' :
  In (k, is_delta, is_done)
     [ ("response.reasoning_summary_part.added", false, false); ("response.reasoning_summary_part.done", false, false);
       ("response.reasoning_summary_text.delta", true, false); ("response.reasoning_summary_text.done", false, true) ] ->
  slot_event is_delta is_done r b = Some r' -> accept1 (ph_at r m c l) (k, b) = Some (ph_at r' m c l).
Proof.
  intros Hk Hs. destruct Hk as [[= <- <- <-]|[[= <- <- <-]|[[= <- <- <-]|[[= <- <- <-]|[]]]]]; cbn -[slot_event];
    by rewrite Hs.
Qed.
Lemma accept_message_event (k : string) (is_delta is_done : bool) m' :
  In (k, is_delta, is_done)
     [ ("response.content_part.added", false, false); ("response.content_part.done", false, false);
       ("response.output_text.delta", true, false); ("response.output_text.done", false, true) ] ->
  slot_event is_delta is_done m b = Some m' -> accept1 (ph_at r m c l) (k, b) = Some (ph_at r m' c l).
Proof.
  intros Hk Hs. destruct Hk as [[= <- <- <-]|[[= <- <- <-]|[[= <- <- <-]|[[= <- <- <-]|[]]]]]; cbn -[slot_event];
    by rewrite Hs.
Qed.
Lemma accept_call_event k key :
  In k call_kinds -> part_key b = Some key -> key ∈ c ->
  accept1 (ph_at r m c l) (k, b) = Some (ph_at r m c l).
Proof.
  intros Hk Hkey Hin. unfold call_kinds in Hk.
  destruct Hk as [<-|[<-|[<-|[<-|[]]]]]; cbn -[part_key]; rewrite Hkey; cbn [mbind option_bind];
    by rewrite bool_decide_true.
Qed.
End Accepts.

Section AcceptItems.
  Context (i : N) (d t : string) (item : value) (b : obj) (c : list (N * string)) (l : list value).
  Context (Hi : obj_get "output_index" b = Some (jnum i)) (Hitem : obj_get "item" b = Some item)
    (Hd : vget_str "id" item = Some d).

Lemma item_key_of ty : vget_str "type" item = Some ty -> item_key b = Some (i, d, ty).
Proof using Hd Hi Hitem.
  intros Hty. unfold item_key, get_num. rewrite Hi, Hitem. cbn [mbind option_bind jnum]. by rewrite Hd, Hty.
Qed.
Ltac item_event Hty :=
  cbn -[accept_added accept_done]; unfold accept_added, accept_done; rewrite (item_key_of _ Hty), ?Hitem;
  cbn [mbind option_bind String.eqb Ascii.eqb Bool.eqb one_of existsb orb open_reasoning_item
       open_message_item open_calls done_items ph_at slot_key fst];
  rewrite ?bool_decide_true by done.

Lemma accept_reasoning_added :
  vget_str "type" item = Some "reasoning" ->
  accept1 (ph_at None None c l) ("response.output_item.added", b) = Some (ph_at (Some (i, d, "")) None c l).
Proof using Hd Hi Hitem. intros Hty. by item_event Hty. Qed.
Lemma accept_message_added :
  vget_str "type" item = Some "message" ->
  accept1 (ph_at None None c l) ("response.output_item.added", b) = Some (ph_at None (Some (i, d, "")) c l).
Proof using Hd Hi Hitem. intros Hty. by item_event Hty. Qed.
Lemma accept_call_added ty :
  vget_str "type" item = Some ty -> In ty ["function_call"; "custom_tool_call"] ->
  accept1 (ph_at None None c l) ("response.output_item.added", b) = Some (ph_at None None ((i, d) :: c) l).
Proof using Hd Hi Hitem. intros Hty Hin. destruct Hin as [<-|[<-|[]]]; by item_event Hty. Qed.

Lemma accept_reasoning_done m :
  vget_str "type" item = Some "reasoning" ->
  accept1 (ph_at (Some (i, d, t)) m c l) ("response.output_item.done", b) = Some (ph_at None m c (l ++ [item])).
Proof using Hd Hi Hitem. intros Hty. by item_event Hty. Qed.
Lemma accept_message_done r :
  vget_str "type" item = Some "message" ->
  accept1 (ph_at r (Some (i, d, t)) c l) ("response.output_item.done", b) = Some (ph_at r None c (l ++ [item])).
Proof using Hd Hi Hitem. intros Hty. by item_event Hty. Qed.
Lemma accept_call_done r m ty c' :
  vget_str "type" item = Some ty -> In ty ["function_call"; "custom_tool_call"] ->
  remove_one (i, d) c = Some c' ->
  accept1 (ph_at r m c l) ("response.output_item.done", b) = Some (ph_at r m c' (l ++ [item])).
Proof using Hd Hi Hitem.
  intros Hty Hin Hc. destruct Hin as [<-|[<-|[]]]; item_event Hty; by rewrite Hc.
Qed.
End AcceptItems.
