(* ===== verification/ZaiMoves.v ===== *)
(** * Every operation of the Z.ai synthesizer follows the contract

    [moves st st']: from [st] to [st'] the synthesizer emits events the acceptor of
    [ZaiContract] takes, each of them well formed for the gateway's validator. Shown for
    each operation of [ZaiStream], up to a whole run. *)

From S2P Require Import Prelude Utf8 Json Errors SseValidator SseFrame ZaiRequest ZaiStream ZaiContract.
From stdpp Require Import options.

(** ** Events the validator accepts *)

Record good (e : event) : Prop := {
  good_name : plain_name (fst e) = true;
  good_known : is_known_event (fst e) = true;
  good_payload : is_metadata_event (fst e) = false;
  good_exact : exact_obj (snd e) = true;
  good_shape : fst e = "error" \/ validate_event_shape (fst e) (JObject (snd e)) = Ok tt
}.

Lemma exact_obj_of members :
  forallb (fun kv => exact_value (snd kv)) members = true -> exact_obj (obj_of members) = true.
Proof. apply exact_json_obj. Qed.
#[local] Hint Resolve exact_obj_of : muse.

(** Kinds whose events have no shape requirement. *)
Definition plain_kinds : list string :=
  [ "response.in_progress"; "response.reasoning_summary_part.added"; "response.reasoning_summary_part.done";
    "response.reasoning_summary_text.done"; "response.content_part.added"; "response.content_part.done";
    "response.output_text.done"; "response.function_call_arguments.done";
    "response.custom_tool_call_input.done"; "error" ].
Definition delta_kinds : list string :=
  [ "response.reasoning_summary_text.delta"; "response.output_text.delta";
    "response.function_call_arguments.delta"; "response.custom_tool_call_input.delta" ].

Ltac each_kind H :=
  repeat match type of H with
  | In _ (_ :: _) => destruct H as [<-|H]
  | In _ [] => destruct H
  end.

Lemma good_plain k b : In k plain_kinds -> exact_obj b = true -> good (k, b).
Proof. intros Hk Hb. split; cbn [fst snd]; try done; unfold plain_kinds in Hk; each_kind Hk; try done; by (left + right). Qed.
Lemma good_delta k b s : In k delta_kinds -> obj_get "delta" b = Some (JString s) -> exact_obj b = true -> good (k, b).
Proof.
  intros Hk Hd Hb. split; cbn [fst snd]; try done; unfold delta_kinds in Hk; each_kind Hk; try done;
    right; unfold validate_event_shape; cbn [vget]; by rewrite Hd.
Qed.
Lemma good_item k b m :
  In k ["response.output_item.added"; "response.output_item.done"] -> obj_get "item" b = Some (JObject m) ->
  exact_obj b = true -> good (k, b).
Proof.
  intros Hk Hd Hb. split; cbn [fst snd]; try done; each_kind Hk; try done;
    right; unfold validate_event_shape; cbn [vget]; by rewrite Hd.
Qed.
Lemma good_response k b m id :
  In k ["response.created"; "response.in_progress"; "response.completed"; "response.incomplete"] ->
  obj_get "response" b = Some (JObject m) -> obj_get "id" m = Some (JString id) ->
  safe_protocol_identifier id = true -> exact_obj b = true -> good (k, b).
Proof.
  intros Hk Hd Hid Hsafe Hb. split; cbn [fst snd]; try done; each_kind Hk; try done;
    right; unfold validate_event_shape; cbn [vget]; rewrite Hd;
    cbn [one_of existsb String.eqb Ascii.eqb Bool.eqb orb mbind option_bind result_bind as_object ok_or];
    try done; unfold safe_id; rewrite Hid; cbn [mbind option_bind as_str opt_filter]; by rewrite Hsafe.
Qed.

(** ** Identifiers *)

Lemma identifier_byte_plain c :
  identifier_byte c = true ->
  lead_1 c = true /\ cp_is_control (N_of_ascii c) = false /\ cp_is_whitespace (N_of_ascii c) = false.
Proof. destruct c as [[] [] [] [] [] [] [] []]; by vm_compute. Qed.

Lemma safe_identifier_bytes s :
  str_forallb identifier_byte s = true -> (0 < slen s <= 512)%N -> safe_protocol_identifier s = true.
Proof.
  intros Hs Hlen. unfold safe_protocol_identifier.
  assert (is_empty s = false) as -> by (destruct s; [unfold slen in Hlen; cbn in Hlen; lia|done]).
  assert ((slen s <=? 512)%N = true) as -> by (apply N.leb_le; lia). cbn [negb andb].
  apply negb_true_iff. unfold any_char, chars.
  rewrite <- str_forallb_bytes in Hs.
  rewrite uchars_ascii; [|eapply forallb_forall; intros c Hc; eapply forallb_forall in Hs; [|exact Hc]; by apply identifier_byte_plain].
  induction (to_bytes s) as [|c l IH]; [done|]. cbn [forallb] in Hs. apply andb_prop in Hs as [Hc Hs].
  apply identifier_byte_plain in Hc as (_ & H1 & H2). rewrite fmap_cons. cbn [existsb].
  rewrite IH by done. unfold is_control, is_whitespace. cbn [code_point is_some_and]. by rewrite H1, H2.
Qed.

Lemma str_filter_forallb p s : str_forallb p (str_filter p s) = true.
Proof. induction s as [|c s IH]; [done|]. cbn. destruct (p c) eqn:E; [cbn; by rewrite E|done]. Qed.
Lemma str_take_forallb p n s : str_forallb p s = true -> str_forallb p (str_take n s) = true.
Proof.
  revert s. induction n as [|n IH]; intros [|c s]; cbn; try done.
  intros [Hc Hs]%andb_prop. by rewrite Hc, IH.
Qed.
Lemma str_take_length n s : String.length (str_take n s) <= n.
Proof. revert s. induction n as [|n IH]; intros [|c s]; cbn; try lia. specialize (IH s). lia. Qed.

(** Sanitised identifiers are short and drawn from a conservative alphabet. *)
Lemma sanitize_identifier_safe v :
  str_forallb identifier_byte (sanitize_identifier v) = true
  /\ (0 < slen (sanitize_identifier v) <= 64)%N.
Proof.
  unfold sanitize_identifier. set (s := str_take _ _).
  assert (Hs : str_forallb identifier_byte s = true) by apply str_take_forallb, str_filter_forallb.
  assert (Hl : String.length s <= 64) by apply str_take_length.
  destruct (is_empty s) eqn:E; [done|]. split; [done|]. unfold slen. destruct s; [done|]. cbn [String.length] in *. lia.
Qed.

Lemma response_id_safe v : safe_protocol_identifier ("resp_" +:+ sanitize_identifier v) = true.
Proof.
  destruct (sanitize_identifier_safe v) as [Hs Hl]. apply safe_identifier_bytes.
  - by rewrite str_forallb_app, Hs.
  - rewrite slen_app. change (slen "resp_") with 5%N. lia.
Qed.

(** ** Invariant: the state is in step with the phase of the stream it emitted *)

Definition slot_of (t : TextItem) : slot := (item_output_index t, item_id_of t, item_text t).
Definition call_key (c : PendingCall) : N * string := (output_index c, id c).
Definition announced_keys (l : list PendingCall) : list (N * string) := call_key <$> List.filter announced l.
Definition call_ok (c : PendingCall) : Prop :=
  (output_index c < u64_modulus)%N /\ (announced c = true -> id c <> EmptyString).

Record wf (st : State) : Prop := {
  wf_finished : finished st = true -> terminated st = true;
  wf_exclusive : reasoning st = None \/ message st = None;
  wf_id : started st = true -> safe_protocol_identifier (response_id st) = true;
  wf_next : (next_output_index st < u64_modulus)%N;
  wf_reasoning t : reasoning st = Some t -> (item_output_index t < u64_modulus)%N;
  wf_message t : message st = Some t -> (item_output_index t < u64_modulus)%N;
  wf_calls : Forall call_ok (calls st);
  wf_output : Forall (fun v => exact_value v = true) (output st);
  wf_usage u : usage st = Some u -> exact_value u = true
}.

(** The phase a state stands for; [c] lists the announced calls in some order. *)
Definition phase_of (c : list (N * string)) (st : State) : phase :=
  {| begun := started st; open_reasoning_item := slot_of <$> reasoning st;
     open_message_item := slot_of <$> message st; open_calls := c;
     done_items := output st; ended := terminated st |}.
Definition in_phase (st : State) (ph : phase) : Prop :=
  wf st /\ exists c, c ≡ₚ announced_keys (calls st) /\ ph = phase_of c st.

Definition live (st : State) : Prop := started st = true /\ terminated st = false.

Lemma phase_of_live c st :
  live st -> phase_of c st = ph_at (slot_of <$> reasoning st) (slot_of <$> message st) c (output st).
Proof. intros [Hs Ht]. unfold phase_of, ph_at. by rewrite Hs, Ht. Qed.

Lemma in_phase_new model key tools : in_phase (State_new model key tools) phase_new.
Proof. split; [split; try done; by left|]. by exists []. Qed.

Section Moves.
  Context {SJ : SerdeJson}.

(** From [st] to [st'] the synthesizer emits good events that the contract accepts. *)
Definition moves (st st' : State) : Prop :=
  forall ph, in_phase st ph ->
  exists evs ph', emitted st st' evs /\ accept ph evs = Some ph' /\ in_phase st' ph' /\ Forall good evs.

Lemma moves_refl st : moves st st.
Proof. intros ph H. exists [], ph. split; [by apply emitted_nil|]. by split. Qed.
Lemma moves_trans st st1 st2 : moves st st1 -> moves st1 st2 -> moves st st2.
Proof.
  intros H1 H2 ph Hinv. destruct (H1 ph Hinv) as (evs & ph1 & He & Ha & Hi & Hg).
  destruct (H2 ph1 Hi) as (evs' & ph2 & He' & Ha' & Hi' & Hg'). exists (evs ++ evs'), ph2.
  split; [by eapply emitted_trans|]. split; [by eapply accept_app|]. split; [done|]. by apply Forall_app.
Qed.

(** Reads a field of an object literal. *)
Ltac field := unfold obj_of; autorewrite with muse; reflexivity.
Ltac good_tac := eauto using good_plain, good_delta, good_item with muse.

Lemma close_reasoning_moves st : live st -> moves st (close_reasoning st).
Proof.
  intros Hlive ph [Hwf (c & Hc & ->)]. unfold close_reasoning.
  destruct (reasoning st) as [[d i t]|] eqn:Er; [|apply moves_refl; split; eauto].
  rewrite phase_of_live by done. rewrite Er.
  pose proof (wf_reasoning _ Hwf _ Er) as Hidx. cbn [item_id_of item_output_index item_text fmap option_fmap option_map slot_of] in *.
  eexists _, _. split; [emits|]. cbn [app]. split; [|split].
  - eapply accept_cons; [eapply accept_reasoning_event; [do 3 right; by left|]; apply slot_done; field|].
    eapply accept_cons; [eapply accept_reasoning_event; [right; by left|]; apply slot_plain; field|].
    eapply accept_cons; [eapply accept_reasoning_done; field|done].
  - split.
    + destruct Hwf. split; cbn; try done; eauto.
      apply Forall_app. split; [done|]. constructor; [|done]. exact_tac.
    + exists c. split; [done|]. by rewrite phase_of_live.
  - constructor; [apply good_plain; [cbn; tauto|]; unfold obj_of; exact_tac|].
    constructor; [apply good_plain; [cbn; tauto|]; exact_tac|].
    constructor; [eapply good_item; [cbn; tauto|field|]; exact_tac|done].
Qed.

Lemma close_message_moves st : live st -> moves st (close_message st).
Proof.
  intros Hlive ph [Hwf (c & Hc & ->)]. unfold close_message.
  destruct (message st) as [[d i t]|] eqn:Er; [|apply moves_refl; split; eauto].
  rewrite phase_of_live by done. rewrite Er.
  pose proof (wf_message _ Hwf _ Er) as Hidx. cbn [item_id_of item_output_index item_text fmap option_fmap option_map slot_of] in *.
  eexists _, _. split; [emits|]. cbn [app]. split; [|split].
  - eapply accept_cons; [eapply accept_message_event; [do 3 right; by left|]; apply slot_done; field|].
    eapply accept_cons; [eapply accept_message_event; [right; by left|]; apply slot_plain; field|].
    eapply accept_cons; [eapply accept_message_done; field|done].
  - split.
    + destruct Hwf. split; cbn; try done; eauto.
      apply Forall_app. split; [done|]. constructor; [|done]. exact_tac.
    + exists c. split; [done|]. by rewrite phase_of_live.
  - constructor; [apply good_plain; [cbn; tauto|]; unfold obj_of; exact_tac|].
    constructor; [apply good_plain; [cbn; tauto|]; exact_tac|].
    constructor; [eapply good_item; [cbn; tauto|field|]; exact_tac|done].
Qed.

Lemma close_reasoning_live st : live st -> live (close_reasoning st).
Proof. unfold close_reasoning. by case_match. Qed.
Lemma close_message_live st : live st -> live (close_message st).
Proof. unfold close_message. by case_match. Qed.
Lemma close_reasoning_none st : reasoning (close_reasoning st) = None.
Proof. unfold close_reasoning. by case_match. Qed.
Lemma close_message_none st : message (close_message st) = None.
Proof. unfold close_message. by case_match. Qed.
Lemma close_message_reasoning st : reasoning (close_message st) = reasoning st.
Proof. unfold close_message. by case_match. Qed.
Lemma close_reasoning_message st : message (close_reasoning st) = message st.
Proof. unfold close_reasoning. by case_match. Qed.

Lemma open_reasoning_moves st : live st -> message st = None -> moves st (open_reasoning st).
Proof.
  intros Hlive Hm ph [Hwf (c & Hc & ->)]. unfold open_reasoning.
  destruct (reasoning st) as [t|] eqn:Er; [apply moves_refl; split; eauto|].
  rewrite phase_of_live by done. rewrite Er, Hm. pose proof (wf_next _ Hwf) as Hidx.
  unfold take_output_index. set (d := item_id _ _ _).
  eexists _, _. split; [emits|]. cbn [app]. split; [|split].
  - eapply accept_cons; [eapply accept_reasoning_added; field|].
    eapply accept_cons; [eapply accept_reasoning_event; [by left|]; apply slot_plain; field|done].
  - split.
    + destruct Hwf. split; cbn; try done; eauto with muse. by intros t [= <-].
    + exists c. split; [done|]. rewrite phase_of_live by done. cbn. by rewrite Hm.
  - constructor; [eapply good_item; [cbn; tauto|field|]; exact_tac|].
    constructor; [apply good_plain; [cbn; tauto|]; exact_tac|done].
Qed.

Lemma open_message_moves st : live st -> reasoning st = None -> moves st (open_message st).
Proof.
  intros Hlive Hm ph [Hwf (c & Hc & ->)]. unfold open_message.
  destruct (message st) as [t|] eqn:Er; [apply moves_refl; split; eauto|].
  rewrite phase_of_live by done. rewrite Er, Hm. pose proof (wf_next _ Hwf) as Hidx.
  unfold take_output_index. set (d := item_id _ _ _).
  eexists _, _. split; [emits|]. cbn [app]. split; [|split].
  - eapply accept_cons; [eapply accept_message_added; field|].
    eapply accept_cons; [eapply accept_message_event; [by left|]; apply slot_plain; field|done].
  - split.
    + destruct Hwf. split; cbn; try done; eauto with muse. by intros t [= <-].
    + exists c. split; [done|]. rewrite phase_of_live by done. cbn. by rewrite Hm.
  - constructor; [eapply good_item; [cbn; tauto|field|]; exact_tac|].
    constructor; [apply good_plain; [cbn; tauto|]; exact_tac|done].
Qed.

Lemma open_reasoning_live st : live st -> live (open_reasoning st).
Proof. unfold open_reasoning. by case_match. Qed.
Lemma open_message_live st : live st -> live (open_message st).
Proof. unfold open_message. by case_match. Qed.
Lemma open_reasoning_some st : is_Some (reasoning (open_reasoning st)).
Proof. unfold open_reasoning. destruct (reasoning st) eqn:E; [by rewrite E|done]. Qed.
Lemma open_message_some st : is_Some (message (open_message st)).
Proof. unfold open_message. destruct (message st) eqn:E; [by rewrite E|done]. Qed.
Lemma open_reasoning_message st : message (open_reasoning st) = message st.
Proof. unfold open_reasoning. by case_match. Qed.
Lemma open_message_reasoning st : reasoning (open_message st) = reasoning st.
Proof. unfold open_message. by case_match. Qed.

(** The delta event of an open item. *)
Lemma reasoning_delta_moves st cur delta :
  live st -> reasoning st = Some cur -> message st = None ->
  moves st (emit "response.reasoning_summary_text.delta"
    (obj_of [ ("item_id", JString (item_id_of cur)); ("output_index", jnum (item_output_index cur));
              ("summary_index", jnum 0); ("delta", JString delta) ])
    (set_reasoning (Some (push_item_text delta cur)) st)).
Proof.
  intros Hlive Er Hm ph [Hwf (c & Hc & ->)]. rewrite phase_of_live by done. rewrite Er, Hm.
  pose proof (wf_reasoning _ Hwf _ Er) as Hidx. destruct cur as [d i t].
  cbn [item_id_of item_output_index item_text push_item_text] in *.
  eexists _, _. split; [emits|]. cbn [app]. split; [|split].
  - eapply accept_cons; [eapply accept_reasoning_event; [do 2 right; by left|]; apply slot_delta; field|done].
  - split.
    + destruct Hwf. split; cbn; try done; eauto. by intros t' [= <-].
    + exists c. split; [done|]. rewrite phase_of_live by done. cbn. by rewrite Hm.
  - constructor; [eapply good_delta; [cbn; tauto|field|]; exact_tac|done].
Qed.
Lemma message_delta_moves st cur delta :
  live st -> message st = Some cur -> reasoning st = None ->
  moves st (emit "response.output_text.delta"
    (obj_of [ ("item_id", JString (item_id_of cur)); ("output_index", jnum (item_output_index cur));
              ("content_index", jnum 0); ("delta", JString delta) ])
    (set_message (Some (push_item_text delta cur)) st)).
Proof.
  intros Hlive Er Hm ph [Hwf (c & Hc & ->)]. rewrite phase_of_live by done. rewrite Er, Hm.
  pose proof (wf_message _ Hwf _ Er) as Hidx. destruct cur as [d i t].
  cbn [item_id_of item_output_index item_text push_item_text] in *.
  eexists _, _. split; [emits|]. cbn [app]. split; [|split].
  - eapply accept_cons; [eapply accept_message_event; [do 2 right; by left|]; apply slot_delta; field|done].
  - split.
    + destruct Hwf. split; cbn; try done; eauto. by intros t' [= <-].
    + exists c. split; [done|]. rewrite phase_of_live by done. cbn. by rewrite Hm.
  - constructor; [eapply good_delta; [cbn; tauto|field|]; exact_tac|done].
Qed.

Lemma push_reasoning_moves delta st : live st -> moves st (push_reasoning delta st) /\ live (push_reasoning delta st).
Proof.
  intros Hlive. unfold push_reasoning. pose proof (close_message_live st Hlive) as Hl1.
  pose proof (open_reasoning_live _ Hl1) as Hl2.
  destruct (open_reasoning_some (close_message st)) as [cur Ecur]. rewrite Ecur. split; [|done].
  eapply moves_trans; [by apply close_message_moves|].
  eapply moves_trans; [apply open_reasoning_moves; [done|apply close_message_none]|].
  apply (reasoning_delta_moves _ cur); [done..|]. by rewrite open_reasoning_message, close_message_none.
Qed.
Lemma push_text_moves delta st : live st -> moves st (push_text delta st) /\ live (push_text delta st).
Proof.
  intros Hlive. unfold push_text. pose proof (close_reasoning_live st Hlive) as Hl1.
  pose proof (open_message_live _ Hl1) as Hl2.
  destruct (open_message_some (close_reasoning st)) as [cur Ecur]. rewrite Ecur. split; [|done].
  eapply moves_trans; [by apply close_reasoning_moves|].
  eapply moves_trans; [apply open_message_moves; [done|apply close_reasoning_none]|].
  apply (message_delta_moves _ cur); [done..|]. by rewrite open_message_reasoning, close_reasoning_none.
Qed.

(** *** Tool calls *)

Lemma silent_moves st st' :
  pending st' = pending st -> sequence st' = sequence st ->
  (forall c, phase_of c st' = phase_of c st) ->
  announced_keys (calls st') = announced_keys (calls st) -> (wf st -> wf st') -> moves st st'.
Proof.
  intros Hp Hs Hph Hk Hw ph [Hwf (c & Hc & ->)]. exists [], (phase_of c st).
  split; [by apply emitted_nil|]. split; [done|]. split; [|done]. split; [auto|].
  exists c. by rewrite Hk, Hph.
Qed.

Lemma announced_keys_app l l' : announced_keys (l ++ l') = announced_keys l ++ announced_keys l'.
Proof. unfold announced_keys. by rewrite List.filter_app, fmap_app. Qed.

Lemma insert_split {A} (l : list A) i e :
  l !! i = Some e -> exists l1 l2, l = l1 ++ e :: l2 /\ forall e', <[i:=e']> l = l1 ++ e' :: l2.
Proof.
  intros H. exists (take i l), (drop (S i) l). split; [by rewrite take_drop_middle|].
  intros e'. apply insert_take_drop. by apply lookup_lt_Some in H.
Qed.

Lemma entry_at_some i e st : calls st !! i = Some e -> entry_at i st = e.
Proof. intros H. unfold entry_at. by rewrite H. Qed.

Lemma wf_set_calls l st : Forall call_ok l -> wf st -> wf (set_calls l st).
Proof. intros Hl []. by split. Qed.

Lemma set_entry_moves i e e' st :
  calls st !! i = Some e -> announced e' = announced e ->
  (announced e = true -> call_key e' = call_key e) -> (call_ok e -> call_ok e') ->
  moves st (set_entry i e' st).
Proof.
  intros He Ha Hkey Hok. destruct (insert_split _ _ _ He) as (l1 & l2 & Hl & Hins).
  apply silent_moves; try done; unfold set_entry; cbn [calls set_calls]; rewrite Hins.
  - rewrite Hl, !announced_keys_app. f_equal. unfold announced_keys. cbn [List.filter]. rewrite Ha.
    destruct (announced e); [|done]. cbn. by rewrite Hkey.
  - intros Hwf. apply wf_set_calls; [|done]. pose proof (wf_calls _ Hwf) as Hc. rewrite Hl in Hc.
    apply Forall_app in Hc as [Hc1 Hc2]. apply Forall_cons_1 in Hc2 as [Hc2 Hc3].
    apply Forall_app. split; [done|]. constructor; auto.
Qed.

Lemma call_ok_default : call_ok PendingCall_default.
Proof. done. Qed.

Lemma grow_calls_moves i st : moves st (grow_calls i st).
Proof.
  apply silent_moves; try done; unfold grow_calls; cbn [calls set_calls].
  - rewrite announced_keys_app. assert (forall n, announced_keys (replicate n PendingCall_default) = []) as ->;
      [|by rewrite app_nil_r]. by induction n.
  - intros Hwf. apply wf_set_calls; [|done]. apply Forall_app. split; [apply Hwf|].
    apply Forall_replicate, call_ok_default.
Qed.
Lemma grow_calls_at i st : is_Some (calls (grow_calls i st) !! i).
Proof.
  apply lookup_lt_is_Some. unfold grow_calls. cbn [calls set_calls]. rewrite length_app, length_replicate. lia.
Qed.

(** The entry at [i] exists, and if announced has an id. *)
Definition entry_ok (i : nat) (st : State) : Prop :=
  exists e, calls st !! i = Some e /\ (announced e = true -> id e <> EmptyString).

Lemma set_entry_at i e st : is_Some (calls st !! i) -> calls (set_entry i e st) !! i = Some e.
Proof. intros H. unfold set_entry. cbn [calls set_calls]. apply list_lookup_insert_eq. by apply lookup_lt_is_Some. Qed.

Lemma fc_id_nonempty s : "fc_" +:+ s <> EmptyString.
Proof. done. Qed.

(** The entry at [i] exists and has its id. *)
Definition entry_named (i : nat) (st : State) : Prop :=
  exists e, calls st !! i = Some e /\ id e <> EmptyString.

Lemma identify_moves i st : entry_ok i st -> moves st (identify i st) /\ entry_named i (identify i st).
Proof.
  intros (e & He & Hid). unfold identify. rewrite (entry_at_some _ _ _ He).
  destruct (is_empty (id e)) eqn:Eid.
  2:{ split; [apply moves_refl|]. exists e. split; [done|]. by destruct (id e). }
  assert (Ha : announced e = false).
  { destruct (announced e); [|done]. destruct (id e); [by destruct Hid|done]. }
  unfold take_output_index. cbn [id_stem set_next_output_index]. split.
  - intros ph [Hwf Hph]. revert ph Hwf Hph.
    assert (Hnext : moves st (set_next_output_index (u64_add (next_output_index st) 1) st)).
    { apply silent_moves; try done. intros []. split; try done. cbn. eauto with muse. }
    intros ph Hwf Hph. eapply moves_trans; [exact Hnext| |by split].
    eapply (set_entry_moves _ e); [done| |by rewrite Ha|].
    + by rewrite (entry_at_some _ e).
    + rewrite (entry_at_some _ e) by done. intros _. by split; [apply Hwf|].
  - eexists. split; [apply set_entry_at; cbn; by rewrite He|done].
Qed.

Lemma learn_call_id_same call e : announced (learn_call_id call e) = announced e /\ call_key (learn_call_id call e) = call_key e.
Proof. unfold learn_call_id. by repeat case_match. Qed.
Lemma learn_name_same names f e : announced (learn_name names f e) = announced e /\ call_key (learn_name names f e) = call_key e.
Proof. unfold learn_name. by repeat case_match. Qed.

(** Updates that keep an entry's key and its announcement. *)
Lemma call_ok_same e e' : announced e' = announced e -> call_key e' = call_key e -> call_ok e -> call_ok e'.
Proof. unfold call_ok, call_key. intros -> [= -> ->]. done. Qed.

Lemma learn_moves i call f st : entry_named i st -> moves st (learn i call f st) /\ entry_named i (learn i call f st).
Proof.
  intros (e & He & Hid). unfold learn. rewrite (entry_at_some _ _ _ He).
  destruct (learn_call_id_same call e) as [Ha Hk]. destruct (learn_name_same (tools st) f (learn_call_id call e)) as [Ha' Hk'].
  rewrite Ha in Ha'. rewrite Hk in Hk'. split.
  - eapply set_entry_moves; [done|done|done|by apply call_ok_same].
  - eexists. split; [apply set_entry_at; by eexists|]. unfold call_key in Hk'. congruence.
Qed.

Lemma call_item_fields e status payload :
  vget_str "id" (call_item e status payload) = Some (id e)
  /\ (exists ty, vget_str "type" (call_item e status payload) = Some ty
        /\ In ty ["function_call"; "custom_tool_call"])
  /\ (exists m, call_item e status payload = JObject m)
  /\ exact_value (call_item e status payload) = true.
Proof.
  unfold call_item. split; [|split; [|split; [by eexists|exact_tac]]].
  - rewrite vget_str_json_obj. by destruct (freeform e).
  - rewrite vget_str_json_obj. destruct (freeform e); eexists; (split; [reflexivity|cbn; tauto]).
Qed.

Lemma announce_moves i st :
  live st -> reasoning st = None -> message st = None -> entry_named i st ->
  moves st (announce i st) /\ entry_named i (announce i st).
Proof.
  intros Hlive Hr Hm (e & He & Hid). unfold announce. rewrite (entry_at_some _ _ _ He).
  destruct (negb (announced e) && _ && _) eqn:Ecase.
  2:{ split; [apply moves_refl|by exists e]. }
  assert (Ha : announced e = false) by (by destruct (announced e)). clear Ecase.
  split; [|eexists; split; [apply (set_entry_at i (announce_call e) st); by eexists|done]].
  intros ph [Hwf (c & Hc & ->)]. rewrite phase_of_live by done. rewrite Hr, Hm.
  destruct (insert_split _ _ _ He) as (l1 & l2 & Hl & Hins).
  pose proof (wf_calls _ Hwf) as Hcalls. rewrite Hl in Hcalls. apply Forall_app in Hcalls as [Hc1 Hc2].
  apply Forall_cons_1 in Hc2 as [[Hidx _] Hc2].
  destruct (call_item_fields e "in_progress" "") as (Fid & (ty & Fty & Hty) & (m & Fobj) & Fexact).
  set (item := call_item e "in_progress" "") in *.
  eexists _, _. split; [emits|]. cbn [app]. split; [|split].
  - eapply accept_cons; [eapply accept_call_added; [field|field|exact Fid|exact Fty|exact Hty]|done].
  - split.
    + unfold emit. assert (Hw : wf (set_entry i (announce_call e) st)).
      { apply wf_set_calls; [|done]. rewrite Hins. apply Forall_app. split; [done|]. by constructor. }
      destruct Hw. by split.
    + eexists. split; [|rewrite phase_of_live by done; cbn; by rewrite Hr, Hm].
      cbn [calls emit push_frame set_entry set_calls]. rewrite Hins, announced_keys_app. unfold announced_keys at 2.
      cbn [List.filter announce_call announced]. rewrite fmap_cons. rewrite Hc, Hl, announced_keys_app.
      unfold announced_keys at 2. cbn [List.filter]. rewrite Ha.
      rewrite <- Permutation_middle. done.
  - constructor; [eapply good_item; [cbn; tauto|rewrite <- Fobj; field|]; exact_tac; done|done].
Qed.

Lemma announced_key_in i e st :
  calls st !! i = Some e -> announced e = true -> call_key e ∈ announced_keys (calls st).
Proof.
  intros He Ha. destruct (insert_split _ _ _ He) as (l1 & l2 & Hl & _).
  rewrite Hl, announced_keys_app. apply elem_of_app. right. unfold announced_keys. cbn [List.filter].
  rewrite Ha. by left.
Qed.

Lemma arguments_delta_moves i e fragment st :
  live st -> calls st !! i = Some e -> announced e = true ->
  moves st (emit "response.function_call_arguments.delta"
    (obj_of [ ("item_id", JString (id e)); ("output_index", jnum (output_index e));
              ("delta", JString fragment) ]) st).
Proof.
  intros Hlive He Ha ph [Hwf (c & Hc & ->)]. rewrite phase_of_live by done.
  pose proof (wf_calls _ Hwf) as Hcalls. eapply Forall_lookup_1 in Hcalls as [Hidx _]; [|done].
  eexists _, _. split; [emits|]. cbn [app]. split; [|split].
  - eapply accept_cons; [eapply (accept_call_event _ _ _ _ _ _ (call_key e)); [by left| |]|done].
    + apply part_key_of; field.
    + rewrite Hc. by eapply announced_key_in.
  - split; [destruct Hwf; by split|]. exists c. split; [done|]. by rewrite phase_of_live.
  - constructor; [eapply good_delta; [cbn; tauto|field|]; exact_tac|done].
Qed.

Lemma push_fragment_moves i f st : live st -> entry_named i st -> moves st (push_fragment i f st).
Proof.
  intros Hlive (e & He & _). unfold push_fragment.
  destruct (opt_filter _ _) as [fragment|]; [|apply moves_refl]. rewrite (entry_at_some _ _ _ He).
  assert (Hset : moves st (set_entry i (push_arguments fragment e) st)).
  { by eapply set_entry_moves. }
  destruct (negb _ && _) eqn:Ecase; [|done]. eapply moves_trans; [exact Hset|].
  apply andb_prop in Ecase as [_ Ha]. eapply (arguments_delta_moves i); [done| |done].
  apply set_entry_at. by eexists.
Qed.

Lemma moves_trans_wf st st1 st2 : moves st st1 -> (wf st1 -> moves st1 st2) -> moves st st2.
Proof.
  intros H1 H2 ph Hinv. destruct (H1 ph Hinv) as (evs & ph1 & He & Ha & [Hw Hi] & Hg).
  destruct (H2 Hw ph1 (conj Hw Hi)) as (evs' & ph2 & He' & Ha' & Hi' & Hg'). exists (evs ++ evs'), ph2.
  split; [by eapply emitted_trans|]. split; [by eapply accept_app|]. split; [done|]. by apply Forall_app.
Qed.

Lemma identify_frame i st :
  (live (identify i st) <-> live st) /\ reasoning (identify i st) = reasoning st
  /\ message (identify i st) = message st.
Proof. unfold identify. by destruct (is_empty _). Qed.
Lemma announce_live i st : live st -> live (announce i st).
Proof. unfold announce. by destruct (negb _ && _ && _). Qed.

Lemma push_tool_call_moves call st : live st -> moves st (push_tool_call call st) /\ live (push_tool_call call st).
Proof.
  intros Hlive. unfold push_tool_call. set (i := N.to_nat _). set (f := vget "function" call ≫= as_object).
  pose proof (close_message_live _ (close_reasoning_live _ Hlive)) as Hl1.
  assert (Hr : reasoning (close_message (close_reasoning st)) = None)
    by (rewrite close_message_reasoning; apply close_reasoning_none).
  pose proof (close_message_none (close_reasoning st)) as Hm.
  assert (Hm1 : moves st (close_message (close_reasoning st))).
  { eapply moves_trans; [by apply close_reasoning_moves|]. by apply close_message_moves, close_reasoning_live. }
  revert Hl1 Hr Hm Hm1. generalize (close_message (close_reasoning st)) as st1. intros st1 Hl1 Hr Hm Hm1.
  set (st2 := identify i (grow_calls i st1)).
  assert (Hst2 : live st2 /\ reasoning st2 = None /\ message st2 = None).
  { destruct (identify_frame i (grow_calls i st1)) as (Hl & Er & Em). fold st2 in Hl, Er, Em.
    rewrite Er, Em. split; [by apply Hl|by split]. }
  destruct Hst2 as (Hl2 & Hr2 & Hm2). pose proof (announce_live i (learn i call f st2) Hl2) as Hl3.
  split.
  - eapply moves_trans; [exact Hm1|]. eapply moves_trans_wf; [apply grow_calls_moves|]. intros Hwf.
    assert (Hok : entry_ok i (grow_calls i st1)).
    { destruct (grow_calls_at i st1) as [e He]. exists e. split; [done|].
      pose proof (wf_calls _ Hwf) as Hc. eapply Forall_lookup_1 in Hc; [|exact He]. apply Hc. }
    destruct (identify_moves i _ Hok) as [Hmi Hni]. eapply moves_trans; [exact Hmi|].
    destruct (learn_moves i call f _ Hni) as [Hml Hnl]. eapply moves_trans; [exact Hml|].
    destruct (announce_moves i (learn i call f st2)) as [Hma Hna]; [done..|].
    eapply moves_trans; [exact Hma|]. by apply push_fragment_moves.
  - unfold push_fragment. repeat case_match; done.
Qed.

Definition payload_of (call : PendingCall) : string :=
  if freeform call then freeform_input (arguments call)
  else if is_empty (arguments call) then "{}" else arguments call.

(** Closing one announced call: [c'] are the calls still open afterwards. *)
Lemma close_tool_call_step st call c c' :
  live st -> wf st -> call_ok call -> remove_one (call_key call) c = Some c' ->
  exists evs, emitted st (close_tool_call st call) evs
    /\ accept (phase_of c st) evs = Some (phase_of c' (close_tool_call st call))
    /\ wf (close_tool_call st call) /\ Forall good evs /\ live (close_tool_call st call)
    /\ reasoning (close_tool_call st call) = reasoning st /\ message (close_tool_call st call) = message st
    /\ calls (close_tool_call st call) = calls st.
Proof.
  intros Hlive Hwf [Hidx _] Hrem. unfold close_tool_call. fold (payload_of call). set (payload := payload_of call).
  destruct (call_item_fields call "completed" payload) as (Fid & (ty & Fty & Hty) & (m & Fobj) & Fexact).
  set (item := call_item call "completed" payload) in *.
  assert (Hin : call_key call ∈ c).
  { clear -Hrem. revert c' Hrem. induction c as [|x c IH]; intros c' H; [done|]. cbn in H.
    case_bool_decide as E; [subst x; by left|]. destruct (remove_one _ c) eqn:Er; [|done]. right. by eapply IH. }
  assert (Hcall : forall k b, In k call_kinds -> obj_get "output_index" b = Some (jnum (output_index call)) ->
     obj_get "item_id" b = Some (JString (id call)) ->
     accept1 (ph_at (slot_of <$> reasoning st) (slot_of <$> message st) c (output st)) (k, b)
     = Some (ph_at (slot_of <$> reasoning st) (slot_of <$> message st) c (output st))).
  { intros k b Hk H1 H2. eapply accept_call_event; [done|by apply part_key_of|exact Hin]. }
  assert (Hwf' : forall e, wf (push_output item (emit "response.output_item.done" e st)) ).
  { intros e. destruct Hwf. split; try done. cbn. apply Forall_app. split; [done|]. by constructor. }
  rewrite phase_of_live by done.
  destruct (freeform call) eqn:Ef; (eexists; split; [emits|]; cbn [app]; split; [|split; [|split]]).
  - eapply accept_cons; [apply Hcall; [cbn; tauto|field|field]|].
    eapply accept_cons; [apply Hcall; [cbn; tauto|field|field]|].
    eapply accept_cons; [eapply accept_call_done; [field|field|exact Fid|exact Fty|exact Hty|exact Hrem]|].
    by rewrite phase_of_live.
  - destruct (Hwf' []). by split.
  - constructor; [eapply good_delta; [cbn; tauto|field|]; exact_tac|].
    constructor; [apply good_plain; [cbn; tauto|]; exact_tac|].
    constructor; [eapply good_item; [cbn; tauto|rewrite <- Fobj; field|]; exact_tac; done|done].
  - by split.
  - eapply accept_cons; [apply Hcall; [cbn; tauto|field|field]|].
    eapply accept_cons; [eapply accept_call_done; [field|field|exact Fid|exact Fty|exact Hty|exact Hrem]|].
    by rewrite phase_of_live.
  - destruct (Hwf' []). by split.
  - constructor; [apply good_plain; [cbn; tauto|]; exact_tac|].
    constructor; [eapply good_item; [cbn; tauto|rewrite <- Fobj; field|]; exact_tac; done|done].
  - by split.
Qed.

Lemma close_tool_calls_step l st c :
  live st -> wf st -> Forall call_ok l -> c ≡ₚ call_key <$> l ->
  exists evs, emitted st (foldl close_tool_call st l) evs
    /\ accept (phase_of c st) evs = Some (phase_of [] (foldl close_tool_call st l))
    /\ wf (foldl close_tool_call st l) /\ Forall good evs /\ live (foldl close_tool_call st l)
    /\ reasoning (foldl close_tool_call st l) = reasoning st
    /\ message (foldl close_tool_call st l) = message st /\ calls (foldl close_tool_call st l) = calls st.
Proof.
  revert st c. induction l as [|call l IH]; intros st c Hlive Hwf Hok Hc; cbn [foldl].
  - apply Permutation_nil_r in Hc as ->. exists []. split; [by apply emitted_nil|]. by split_and!.
  - apply Forall_cons_1 in Hok as [Hcall Hok]. apply remove_one_perm in Hc as (c' & Hrem & Hc').
    destruct (close_tool_call_step st call c c' Hlive Hwf Hcall Hrem) as (evs & He & Ha & Hw & Hg & Hl & Hr & Hm & Hcs).
    destruct (IH _ c' Hl Hw Hok Hc') as (evs' & He' & Ha' & Hw' & Hg' & Hl' & Hr' & Hm' & Hcs').
    exists (evs ++ evs'). split; [by eapply emitted_trans|]. split; [by eapply accept_app|].
    rewrite Hr', Hm', Hcs'. split; [done|]. split; [by apply Forall_app|]. by split_and!.
Qed.

Lemma close_tool_calls_moves st :
  live st -> moves st (close_tool_calls st) /\ live (close_tool_calls st)
    /\ reasoning (close_tool_calls st) = reasoning st /\ message (close_tool_calls st) = message st
    /\ calls (close_tool_calls st) = [].
Proof.
  intros Hlive. unfold close_tool_calls.
  assert (Hwf0 : wf st -> wf (set_calls [] st)) by (intros; by apply wf_set_calls).
  assert (Hframe : forall l s, (live (foldl close_tool_call s l) <-> live s)
     /\ reasoning (foldl close_tool_call s l) = reasoning s /\ message (foldl close_tool_call s l) = message s
     /\ calls (foldl close_tool_call s l) = calls s).
  { induction l as [|a l IHl]; intros s; [done|]. cbn [foldl]. destruct (IHl (close_tool_call s a)) as (-> & -> & -> & ->).
    unfold close_tool_call. by destruct (freeform a). }
  split.
  - intros ph [Hwf (c & Hc & ->)].
    assert (Hok : Forall call_ok (List.filter announced (calls st))).
    { apply List.Forall_forall. intros e [He _]%filter_In. pose proof (wf_calls _ Hwf) as Hw.
      rewrite List.Forall_forall in Hw. by apply Hw. }
    destruct (close_tool_calls_step _ (set_calls [] st) c Hlive (Hwf0 Hwf) Hok Hc)
      as (evs & He & Ha & Hw & Hg & _ & _ & _ & Hcs).
    eexists evs, _. split; [done|]. split; [exact Ha|]. split; [|done]. split; [done|].
    exists []. by rewrite Hcs.
  - destruct (Hframe (List.filter announced (calls st)) (set_calls [] st)) as (Hl & -> & -> & ->).
    split; [by apply Hl|done].
Qed.

(** *** Terminal events *)

Lemma set_finished_moves st : terminated st = true -> moves st (set_finished st).
Proof. intros Ht. apply silent_moves; try done. intros []. by split. Qed.

Lemma accept_error ph b : ended ph = false -> accept1 ph ("error", b) = Some (end_phase ph).
Proof. intros H. unfold accept1. by rewrite H. Qed.

Lemma fail_moves msg st :
  moves st (fail msg st) /\ terminated (fail msg st) = true /\ finished (fail msg st) = true.
Proof.
  unfold fail. destruct (terminated st) eqn:Ht; [split; [by apply set_finished_moves|by split]|].
  split; [|done]. intros ph [Hwf (c & Hc & ->)]. eexists _, _. split; [emits|]. cbn [app]. split; [|split].
  - eapply accept_cons; [by apply accept_error|done].
  - split; [destruct Hwf; by split|]. exists c. split; [done|]. done.
  - constructor; [|done]. apply good_plain; [cbn; tauto|].
    destruct (is_empty (response_id st)); [|apply exact_obj_insert; [done|]]; exact_tac.
Qed.

Lemma exact_envelope status reason inc st :
  wf st -> exact_value (response_envelope status reason inc st) = true
    /\ exists m, response_envelope status reason inc st = JObject m
        /\ obj_get "id" m = Some (JString (response_id st))
        /\ obj_get "output" m = Some (JArray (if inc then output st else [])).
Proof.
  intros Hwf. unfold response_envelope.
  assert (Ho : exact_value (JArray (if inc then output st else [])) = true).
  { destruct inc; [apply exact_array, Hwf|done]. }
  set (out := if inc then output st else []) in *. clearbody out. split.
  - set (m := obj_of _). assert (Hm : exact_obj m = true) by (unfold m; exact_tac; exact Ho).
    destruct (usage st) as [u|] eqn:Eu; case_bool_decide; try done;
      repeat apply exact_obj_insert; try done; by apply (wf_usage _ Hwf).
  - eexists. split; [done|].
    destruct (usage st) as [u|]; case_bool_decide; split;
      rewrite ?obj_get_insert_ne by done; unfold obj_of; by autorewrite with muse.
Qed.

Definition completion_kinds : list string := ["response.completed"; "response.incomplete"].
Lemma accept_completion k b c l :
  In k completion_kinds -> c = [] -> obj_get "response" b ≫= vget "output" = Some (JArray l) ->
  accept1 (ph_at None None c l) (k, b) = Some (end_phase (ph_at None None c l)).
Proof.
  intros Hk -> Hb. unfold completion_kinds in Hk. each_kind Hk; cbn -[obj_get vget bool_decide]; rewrite Hb; by rewrite bool_decide_true.
Qed.

Lemma completion_moves k status reason st :
  In k completion_kinds -> live st -> reasoning st = None -> message st = None -> calls st = [] ->
  moves st (terminate (emit k (obj_of [("response", response_envelope status reason true st)]) st)).
Proof.
  intros Hk Hlive Hr Hm Hcs ph [Hwf (c & Hc & ->)]. rewrite phase_of_live by done. rewrite Hr, Hm.
  rewrite Hcs in Hc. apply Permutation_nil_r in Hc as ->.
  destruct (exact_envelope status reason true st Hwf) as (He & m & Em & Hid & Hout).
  eexists _, _. split; [emits|]. cbn [app]. split; [|split].
  - eapply accept_cons; [eapply accept_completion; [done|done|]|done]. unfold obj_of. autorewrite with muse.
    cbn [last_get String.eqb Ascii.eqb Bool.eqb mbind option_bind]. by rewrite Em.
  - split; [destruct Hwf; by split|]. exists []. split; [cbn; by rewrite Hcs|].
    destruct Hlive as [Hs _]. unfold phase_of, end_phase, ph_at. cbn. by rewrite Hr, Hm, Hs.
  - constructor; [|done]. eapply good_response; [unfold completion_kinds in Hk; cbn in *; tauto| |exact Hid| |].
    + rewrite <- Em. field.
    + apply Hwf, Hlive.
    + apply exact_obj_of. cbn [forallb snd]. by rewrite He.
Qed.

Lemma complete_moves reason st :
  moves st (complete reason st) /\ terminated (complete reason st) = true.
Proof.
  unfold complete. destruct (terminated st) eqn:Ht; [split; [apply moves_refl|done]|].
  destruct (started st) eqn:Hs; cbn [negb]; [|split; apply fail_moves].
  assert (Hlive : live st) by done. split; [|done].
  pose proof (close_reasoning_live _ Hlive) as Hl1. pose proof (close_message_live _ Hl1) as Hl2.
  destruct (close_tool_calls_moves _ Hl2) as (Hm3 & Hl3 & Hr3 & Hms3 & Hc3).
  rewrite close_message_reasoning, close_reasoning_none in Hr3. rewrite close_message_none in Hms3.
  eapply moves_trans; [by apply close_reasoning_moves|]. eapply moves_trans; [by apply close_message_moves|].
  eapply moves_trans; [exact Hm3|]. apply completion_moves; try done.
  case_bool_decide; cbn; tauto.
Qed.

(** *** Chunks and frames *)

Lemma start_moves chunk st : terminated st = false -> moves st (start chunk st) /\ live (start chunk st).
Proof.
  intros Ht. unfold start. destruct (started st) eqn:Hs; [by split; [apply moves_refl|]|]. split; [|done].
  set (st1 := set_started _ _ _). intros ph [Hwf (c & Hc & ->)].
  assert (Hwf1 : wf st1).
  { destruct Hwf. split; try done. cbn. intros _. apply response_id_safe. }
  destruct (exact_envelope "in_progress" None false st1 Hwf1) as (He & m & Em & Hid & _).
  assert (Hb : exact_obj (obj_of [("response", response_envelope "in_progress" None false st1)]) = true)
    by (apply exact_obj_of; cbn [forallb snd]; by rewrite He).
  assert (Hget : obj_get "response" (obj_of [("response", response_envelope "in_progress" None false st1)]) = Some (JObject m))
    by (rewrite <- Em; field).
  set (b := obj_of _) in *. eexists _, _. split; [emits|]. cbn [app]. split; [|split].
  - unfold phase_of. rewrite Hs, Ht. eapply accept_cons; [done|]. eapply accept_cons; [done|done].
  - split; [destruct Hwf1; by split|]. exists c. split; [done|]. unfold begin_phase, phase_of. cbn. by rewrite Ht.
  - constructor; [eapply good_response; [by left|exact Hget|exact Hid|by apply Hwf1|done]|].
    constructor; [by apply good_plain; [cbn; tauto|]|done].
Qed.

Lemma handle_delta_moves d st : live st -> moves st (handle_delta d st) /\ live (handle_delta d st).
Proof.
  intros Hlive. unfold handle_delta.
  set (st1 := match opt_filter _ (get_str "reasoning_content" d) with Some _ => _ | None => _ end).
  assert (H1 : moves st st1 /\ live st1).
  { unfold st1. case_match; [by apply push_reasoning_moves|by split; [apply moves_refl|]]. }
  clearbody st1. destruct H1 as [Hm1 Hl1].
  set (st2 := match opt_filter _ (get_str "content" d) with Some _ => _ | None => _ end).
  assert (H2 : moves st1 st2 /\ live st2).
  { unfold st2. case_match; [by apply push_text_moves|by split; [apply moves_refl|]]. }
  clearbody st2. destruct H2 as [Hm2 Hl2].
  assert (Hm : moves st st2) by (by eapply moves_trans). clear Hm1 Hm2 Hl1 st1.
  destruct (obj_get "tool_calls" d ≫= as_array) as [l|]; [|done].
  revert st2 Hl2 Hm. induction l as [|call l IH]; intros st2 Hl2 Hm; [done|]. cbn [foldl].
  destruct (push_tool_call_moves call st2 Hl2) as [Hmc Hlc]. apply IH; [done|by eapply moves_trans].
Qed.

Lemma handle_choice_moves choice st :
  live st -> moves st (handle_choice choice st) /\ started (handle_choice choice st) = true.
Proof.
  intros Hlive. unfold handle_choice.
  set (st1 := match vget "delta" choice ≫= as_object with Some _ => _ | None => _ end).
  assert (H1 : moves st st1 /\ live st1).
  { unfold st1. case_match; [by apply handle_delta_moves|by split; [apply moves_refl|]]. }
  clearbody st1. destruct H1 as [Hm1 Hl1].
  destruct (opt_filter _ _) as [reason|]; [|by split; [|apply Hl1]].
  destruct (complete_moves (Some reason) st1) as [Hc _]. split; [by eapply moves_trans|].
  unfold complete. destruct Hl1 as [Hs Ht]. rewrite Ht, Hs. cbn [negb].
  assert (Hl : live st1) by done.
  pose proof (close_message_live _ (close_reasoning_live _ Hl)) as Hl2.
  destruct (close_tool_calls_moves _ Hl2) as (_ & [Hl3 _] & _). case_bool_decide; exact Hl3.
Qed.

Lemma map_usage_exact u : exact_value (map_usage u) = true.
Proof.
  unfold map_usage.
  assert (Hb : forall k n, vget k u ≫= as_u64 = Some n -> (n < u64_modulus)%N).
  { intros k n H. apply bind_Some in H as (v & _ & H). by apply as_u64_bound in H. }
  set (total := or_else _ _).
  assert (Ht : forall n, total = Some n -> (n < u64_modulus)%N).
  { intros n. unfold total, or_else. destruct (vget "total_tokens" u ≫= as_u64) eqn:E.
    - intros [= <-]. by eapply Hb.
    - intros [= <-]. apply u64_add_bound. }
  clearbody total.
  assert (Hins : forall k (o : option N) m, (forall n, o = Some n -> (n < u64_modulus)%N) ->
    exact_obj m = true -> exact_obj (match o with Some n => obj_insert k (jnum n) m | None => m end) = true).
  { intros k [n|] m Hn Hm; [|done]. apply exact_obj_insert; [by apply exact_jnum, Hn|done]. }
  apply Hins; [done|]. apply Hins; [by apply Hb|]. apply Hins; [by apply Hb|done].
Qed.

Lemma handle_chunk_moves chunk st : terminated st = false -> moves st (handle_chunk chunk st).
Proof.
  intros Ht. unfold handle_chunk. destruct (opt_filter _ (vget "error" chunk)) as [e|]; [apply fail_moves|].
  destruct (start_moves chunk st Ht) as [Hm1 Hl1].
  set (st2 := match opt_filter is_object (vget "usage" chunk) with Some _ => _ | None => _ end).
  assert (H2 : moves (start chunk st) st2 /\ live st2).
  { unfold st2. case_match; [|by split; [apply moves_refl|]]. split; [|done].
    apply silent_moves; try done. intros []. split; try done. cbn. intros u' [= <-]. apply map_usage_exact. }
  clearbody st2. destruct H2 as [Hm2 Hl2].
  assert (Hm : moves st st2) by (by eapply moves_trans).
  destruct (_ ≫= head) as [choice|]; [|done]. eapply moves_trans; [exact Hm|]. by apply handle_choice_moves.
Qed.

Lemma handle_frame_moves frame st st' :
  terminated st = false -> handle_frame frame st = Ok st' -> moves st st'.
Proof.
  intros Ht. unfold handle_frame. intros (text & _ & H)%bind_ok.
  destruct (is_empty (frame_data text)); [injection H as <-; apply moves_refl|].
  destruct (String.eqb (trim (frame_data text)) "[DONE]").
  - injection H as <-. rewrite Ht. destruct (started st).
    + destruct (complete_moves None st) as [Hm Ht']. eapply moves_trans; [done|by apply set_finished_moves].
    + destruct (fail_moves "the Z.ai stream ended before any content arrived" st) as (Hm & Ht' & _).
      eapply moves_trans; [done|by apply set_finished_moves].
  - apply bind_ok in H as (chunk & _ & [= <-]). by apply handle_chunk_moves.
Qed.

Section Loops.
  Context (status_text : StatusCode -> string).
  Abbreviation push := (push status_text).
  Abbreviation push_step := (push_step status_text).
  Abbreviation push_loop := (push_loop status_text).
  Abbreviation on_event := (on_event status_text).
  Abbreviation run := (run status_text).

Lemma set_buffer_moves b st : moves st (set_buffer b st).
Proof. apply silent_moves; try done. intros []. by split. Qed.

Lemma push_step_moves st :
  terminated st = false ->
  match push_step st with inl st' => moves st st' | inr st' => moves st st' /\ terminated st' = false end.
Proof.
  intros Ht. unfold ZaiStream.push_step. destruct (complete_frame_len (buffer st)) as [n|]; [|apply moves_refl].
  set (st1 := set_buffer _ st). assert (Hb : moves st st1) by apply set_buffer_moves.
  assert (Ht1 : terminated st1 = false) by done.
  destruct (handle_frame _ st1) as [st2|e] eqn:E.
  - apply handle_frame_moves in E; [|done]. destruct (terminated st2) eqn:Et2; [by eapply moves_trans|].
    split; [by eapply moves_trans|done].
  - eapply moves_trans; [done|apply fail_moves].
Qed.

Lemma push_loop_moves fuel st : terminated st = false -> moves st (push_loop fuel st).
Proof.
  revert st. induction fuel as [|fuel IH]; intros st Ht; cbn [ZaiStream.push_loop]; [apply moves_refl|].
  pose proof (push_step_moves st Ht) as H. destruct (push_step st) as [st'|st']; [done|].
  destruct H as [Hm Ht']. eapply moves_trans; [done|by apply IH].
Qed.

Lemma push_moves chunk st : moves st (push chunk st).
Proof.
  unfold ZaiStream.push. destruct (terminated st) eqn:Ht; [apply moves_refl|].
  destruct (_ <? _)%N; [apply fail_moves|]. eapply moves_trans; [apply set_buffer_moves|]. by apply push_loop_moves.
Qed.

Lemma on_event_moves ev st : moves st (on_event ev st).
Proof. destruct ev; [apply push_moves|apply fail_moves]. Qed.

Lemma end_of_stream_moves st : moves st (end_of_stream st) /\ terminated (end_of_stream st) = true.
Proof.
  unfold end_of_stream. destruct (terminated st) eqn:Ht; [by split; [apply set_finished_moves|]|].
  destruct (fail_moves "the Z.ai stream ended before a terminal event" st) as (Hm & Ht' & _).
  split; [|done]. eapply moves_trans; [done|by apply set_finished_moves].
Qed.

Lemma run_moves st script : moves st (run st script) /\ (wf st -> terminated (run st script) = true).
Proof.
  revert st. induction script as [|ev script IH]; intros st; cbn [ZaiStream.run];
    (destruct (finished st) eqn:Ef; [split; [apply moves_refl|intros Hw; by apply (wf_finished _ Hw)]|]).
  - destruct (end_of_stream_moves st). by split.
  - destruct (IH (on_event ev st)) as [Hm Ht]. split; [eapply moves_trans; [apply on_event_moves|done]|].
    intros Hw. apply Ht. destruct (on_event_moves ev st (phase_of (announced_keys (calls st)) st)) as (? & ? & _ & _ & [Hw' _] & _); [|done].
    split; [done|]. by eexists.
Qed.
End Loops.
End Moves.
