(* ===== verification/ZaiStreamCorrect.v ===== *)
(** * Correctness of the Z.ai stream synthesizer

    The theorems about whole runs of [ZaiStream.responses_stream], among them that the
    gateway's validator of [SseValidator] forwards what the synthesizer writes. *)

From S2P Require Import Prelude Utf8 Json Errors SseValidator SseFrame SseCorrect ZaiRequest ZaiStream ZaiContract ZaiMoves.
From stdpp Require Import options.

(** ** Runs *)

Section Runs.
  Context {SJ : SerdeJson} (status_text : StatusCode -> string).

Lemma responses_stream_events model key tools script :
  exists evs ph, responses_stream status_text model key tools script = frames_from 0 evs
    /\ accept phase_new evs = Some ph /\ ended ph = true /\ Forall good evs.
Proof.
  destruct (run_moves status_text (State_new model key tools) script) as [Hm Ht].
  destruct (Hm phase_new (in_phase_new _ _ _)) as (evs & ph & [Hp _] & Ha & [_ (c & _ & ->)] & Hg).
  exists evs, (phase_of c (run status_text (State_new model key tools) script)).
  split; [exact Hp|]. split; [done|]. split; [|done]. apply Ht. apply (in_phase_new model key tools).
Qed.

(** An ended stream has a last event, the one that ended it. *)
Lemma accept_ended evs ph :
  accept phase_new evs = Some ph -> ended ph = true ->
  exists init k b ph0, evs = init ++ [(k, b)] /\ accept phase_new init = Some ph0 /\ ended ph0 = false
    /\ accept1 ph0 (k, b) = Some ph.
Proof.
  destruct evs as [|[k b] init _] using rev_ind; [by intros [= <-]|]. intros Ha He.
  assert (Hsplit : forall l ph1, accept ph1 (l ++ [(k, b)]) = Some ph ->
    exists ph0, accept ph1 l = Some ph0 /\ accept1 ph0 (k, b) = Some ph).
  { induction l as [|e l IH]; intros ph1; cbn [app accept].
    - destruct (accept1 ph1 (k, b)) eqn:E; [|done]. intros [= <-]. eauto.
    - destruct (accept1 ph1 e) as [ph2|]; [|done]. cbn [mbind option_bind]. apply IH. }
  destruct (Hsplit _ _ Ha) as (ph0 & H0 & H1). exists init, k, b, ph0. split; [done|]. split; [done|].
  split; [|done]. destruct (ended ph0) eqn:E; [|done]. unfold accept1 in H1. by rewrite E in H1.
Qed.

Lemma number_after_imap n evs :
  frames_from (N.of_nat n mod u64_modulus) evs
  = imap (fun i e => event_frame (fst e) (snd e) (N.of_nat (n + i) mod u64_modulus)) evs.
Proof.
  revert n. induction evs as [|[k b] evs IH]; intros n; [done|]. cbn [frames_from imap fst snd].
  rewrite Nat.add_0_r. f_equal.
  assert (u64_add (N.of_nat n mod u64_modulus) 1 = N.of_nat (S n) mod u64_modulus)%N as ->.
  { unfold u64_add. rewrite N.Div0.add_mod_idemp_l, Nat2N.inj_succ, N.add_1_r. done. }
  rewrite IH. apply imap_ext. intros i e _. unfold compose. by rewrite Nat.add_succ_r.
Qed.
End Runs.

(** C4: Whatever Z.ai sends, and however it is cut into chunks, the synthesized stream
    is a complete Responses stream: numbered events that the acceptor of the contract
    takes from the first to the last, after which the stream is ended. The acceptor
    takes nothing after a terminal event, so there is exactly one and it comes last; no
    item is touched before it is added or after it is done, every text item is closed
    with the text of its deltas, and a completed response lists exactly the items that
    were done, in order, with none left open. *)
Theorem responses_stream_contract {SJ : SerdeJson} status_text model key tools script :
  exists evs ph,
    responses_stream status_text model key tools script
      = imap (fun i e => event_frame (fst e) (snd e) (N.of_nat i mod u64_modulus)) evs
    /\ accept phase_new evs = Some ph /\ ended ph = true.
Proof.
  destruct (responses_stream_events status_text model key tools script) as (evs & ph & -> & Ha & He & _).
  exists evs, ph. split; [|done]. apply (number_after_imap 0).
Qed.

(** ** The validator reads one frame *)

Lemma scan_line line i rest :
  str_forallb (fun c => negb (is_line_end c)) line = true -> line <> EmptyString ->
  SseValidator.frame_scan i i (to_bytes line ++ LF :: rest)
  = SseValidator.frame_scan (i + S (String.length line)) (i + S (String.length line)) rest.
Proof.
  intros Hl Hne.
  assert (Hscan : forall line ls j, str_forallb (fun c => negb (is_line_end c)) line = true ->
    SseValidator.frame_scan ls j (to_bytes line ++ LF :: rest)
    = if j + String.length line =? ls then Some (S (j + String.length line))
      else SseValidator.frame_scan (j + S (String.length line)) (j + S (String.length line)) rest).
  { clear. intros line. induction line as [|c line IH]; intros ls j.
    - intros _. cbn [to_bytes list_ascii_of_string app String.length]. rewrite frame_scan_cons, Nat.add_0_r, Nat.add_1_r.
      done.
    - intros [Hc Hl]%andb_prop. change (to_bytes (String c line) ++ LF :: rest) with (c :: to_bytes line ++ LF :: rest).
      rewrite frame_scan_cons. unfold is_line_end in Hc. apply negb_true_iff, orb_false_elim in Hc as [-> ->].
      rewrite IH by done. cbn [String.length]. by rewrite !Nat.add_succ_r. }
  rewrite Hscan by done. assert ((i + String.length line =? i) = false) as ->; [|done].
  apply Nat.eqb_neq. destruct line; [done|]. cbn [String.length]. lia.
Qed.

Lemma complete_frame_len_sse k payload :
  plain_name k = true -> str_forallb (fun c => negb (is_line_end c)) payload = true ->
  SseValidator.complete_frame_len (to_bytes (sse_text k payload)) = Some (length (to_bytes (sse_text k payload))).
Proof.
  intros Hk Hp. unfold SseValidator.complete_frame_len, sse_text.
  assert (Hk' : str_forallb (fun c => negb (is_line_end c)) ("event: " +:+ k) = true).
  { rewrite str_forallb_app. cbn [andb]. eapply str_forallb_impl; [|exact Hk]. by intros c [_ ?]%andb_prop. }
  assert (Hp' : str_forallb (fun c => negb (is_line_end c)) ("data: " +:+ payload) = true)
    by (by rewrite str_forallb_app).
  rewrite <- (append_assoc "event: " k), <- (append_assoc "data: " payload), !to_bytes_app.
  rewrite <- !(to_bytes_app "event: " k), <- !(to_bytes_app "data: " payload).
  change (to_bytes lf) with [LF]. cbn [app]. rewrite !length_app. cbn [length]. rewrite length_app. cbn [length].
  rewrite !length_to_bytes, scan_line, scan_line by done.
  rewrite frame_scan_cons, Ascii.eqb_refl, Nat.eqb_refl. f_equal. lia.
Qed.

Section Validated.
  Context {SJ : SerdeJson} {SJL : SerdeJsonLaws SJ} (created_at max_event_bytes : N) (media : option string).
  Abbreviation on_event := (SseValidator.on_event created_at max_event_bytes media).
  Abbreviation drain := (SseValidator.drain_complete_frames created_at max_event_bytes media).
  Abbreviation run := (SseValidator.run created_at max_event_bytes media).

Lemma drain_empty st : SseValidator.buffer st = [] -> drain st = st.
Proof.
  intros Hb. apply drain_fixed. unfold SseValidator.drain_step. rewrite Hb.
  by destruct (SseValidator.finished st).
Qed.

(** A whole frame in one chunk is handled as that frame. *)
Lemma on_event_frame st frame :
  SseValidator.finished st = false -> SseValidator.buffer st = [] ->
  SseValidator.complete_frame_len frame = Some (length frame) -> (blen frame <= max_event_bytes)%N ->
  on_event (SseValidator.Chunk frame) st = SseValidator.handle_frame created_at media frame st.
Proof.
  intros Hf Hb Hlen Hmax. cbn [SseValidator.on_event]. rewrite Hb. cbn [app].
  assert (Hd : drain (SseValidator.set_buffer frame st) = SseValidator.handle_frame created_at media frame st).
  { rewrite drain_unfold. unfold SseValidator.drain_step. cbn [SseValidator.finished SseValidator.set_buffer SseValidator.buffer].
    rewrite Hf, Hlen. assert ((max_event_bytes <? N.of_nat (length frame))%N = false) as -> by (by apply N.ltb_ge).
    rewrite take_ge, drop_ge by done.
    assert (SseValidator.set_buffer [] (SseValidator.set_buffer frame st) = st) as ->.
    { rewrite <- (set_buffer_id st) at 2. by rewrite Hb. }
    destruct (handle_frame_buffer created_at media frame st) as [Hbuf|Hfin].
    - apply drain_empty. congruence.
    - by apply drain_finished. }
  rewrite Hd.
  destruct (SseValidator.finished (SseValidator.handle_frame created_at media frame st)) eqn:E; [done|]. cbn [negb andb].
  destruct (handle_frame_buffer created_at media frame st) as [Hbuf|Hfin]; [|congruence].
  rewrite Hbuf, Hb. assert ((max_event_bytes <? blen [])%N = false) as -> by (apply N.ltb_ge; unfold blen; cbn; lia).
  done.
Qed.

Lemma vget_stamped k k' b s :
  vget k (stamped k' b s) =
  if String.eqb k "sequence_number" then Some (jnum s)
  else if String.eqb k "type" then Some (JString k') else obj_get k b.
Proof. unfold stamped. cbn [vget]. by rewrite !obj_get_insert. Qed.

(** Stamping an event does not change its shape. *)
Lemma shape_stamped k b s : validate_event_shape k (stamped k b s) = validate_event_shape k (JObject b).
Proof. unfold validate_event_shape, vget_str. by rewrite !vget_stamped. Qed.

Lemma exact_stamped k b s : exact_obj b = true -> (s < u64_modulus)%N -> exact_value (stamped k b s) = true.
Proof. intros Hb Hs. apply exact_obj_insert; [by apply exact_jnum|]. by apply exact_obj_insert. Qed.

Lemma event_frame_len k b s :
  plain_name k = true -> SseValidator.complete_frame_len (event_frame k b s) = Some (length (event_frame k b s)).
Proof using SJL. intros Hk. apply complete_frame_len_sse; [done|apply to_string_one_line]. Qed.

Lemma inspect_event k b s :
  good (k, b) -> (s < u64_modulus)%N -> validate_event_shape k (JObject b) = Ok tt ->
  inspect_frame (event_frame k b s)
  = Ok (Keep {| kind := k; sequence_number := Some s; event_value := stamped k b s |}).
Proof using SJL.
  intros [Hn Hk Hm He _] Hs Hshape. cbn [fst snd] in *. apply inspect_sse_frame; try done.
  - by apply exact_stamped.
  - unfold vget_str. by rewrite vget_stamped.
  - by rewrite vget_stamped.
  - by rewrite shape_stamped.
Qed.

(** A frame with a malformed payload is neither kept nor discarded. *)
Lemma inspect_bad_shape k b s d e :
  good (k, b) -> (s < u64_modulus)%N -> validate_event_shape k (JObject b) = Err e ->
  inspect_frame (event_frame k b s) <> Ok d.
Proof using SJL.
  intros [Hn Hk Hm He _] Hs Hshape Hd. cbn [fst snd] in *.
  apply (inspect_sse_frame_shape k (stamped k b s) s) in Hd; try done.
  - rewrite shape_stamped in Hd. congruence.
  - by apply exact_stamped.
  - unfold vget_str. by rewrite vget_stamped.
  - by rewrite vget_stamped.
Qed.

Definition closing_kinds : list string :=
  ["error"; "response.failed"; "response.cancelled"; "response.completed"; "response.incomplete"].

(** An event after which the contract stays open is no terminal event. *)
Lemma accept_open ph k b ph' :
  accept1 ph (k, b) = Some ph' -> ended ph' = false -> one_of k closing_kinds = false.
Proof.
  intros Ha He. destruct (one_of k closing_kinds) eqn:E; [|done]. apply one_of_spec in E.
  unfold accept1 in Ha. destruct (ended ph); [done|]. unfold closing_kinds in E.
  destruct E as [<-|E]; [by injection Ha as <-|].
  destruct E as [<-|[<-|E]]; [by destruct (begun ph)..|].
  assert (Hc : k = "response.completed" \/ k = "response.incomplete") by (destruct E as [<-|[<-|[]]]; auto).
  assert (Hph : Some (end_phase ph) = Some ph' -> False) by (by intros [= <-]).
  destruct Hc as [-> | ->]; (destruct (begun ph); [|done]); cbn -[obj_get vget bool_decide] in Ha;
    (destruct (open_reasoning_item ph); [done|]); (destruct (open_message_item ph); [done|]);
    (destruct (open_calls ph); [|done]); (destruct (bool_decide _); [destruct (Hph Ha)|done]).
Qed.
Lemma accept_last ph k b ph' :
  accept1 ph (k, b) = Some ph' -> ended ph = false -> ended ph' = true -> k = "error" \/ In k completion_kinds.
Proof.
  intros Ha He He'. unfold accept1 in Ha. rewrite He in Ha.
  destruct (String.eqb_spec k "error"); [by left|]. right.
  destruct (String.eqb k "response.created"); [destruct (begun ph); simplify_eq; cbn in He'; congruence|].
  destruct (negb (begun ph)); [done|].
  destruct (String.eqb k "response.in_progress"); [simplify_eq; congruence|].
  destruct (String.eqb k "response.output_item.added").
  { unfold accept_added in Ha. exfalso. destruct (item_key b) as [[[i d] ty]|]; [|done]. cbn in Ha.
    repeat case_match; simplify_eq; cbn in He'; congruence. }
  destruct (String.eqb k "response.output_item.done").
  { unfold accept_done in Ha. exfalso. destruct (item_key b) as [[[i d] ty]|]; [|done]. cbn in Ha.
    destruct (obj_get "item" b); [|done]. cbn in Ha.
    repeat case_match; try done; apply bind_Some in Ha as (? & _ & Ha); repeat case_match; simplify_eq; cbn in He'; congruence. }
  destruct (one_of k ["response.completed"; "response.incomplete"]) eqn:E; [by apply one_of_spec in E|]. exfalso.
  destruct (one_of k reasoning_kinds); [apply bind_Some in Ha as (? & _ & Ha); simplify_eq; cbn in He'; congruence|].
  destruct (one_of k message_kinds); [apply bind_Some in Ha as (? & _ & Ha); simplify_eq; cbn in He'; congruence|].
  destruct (one_of k call_kinds); [|done].
  apply bind_Some in Ha as (? & _ & Ha). case_bool_decide; simplify_eq; congruence.
Qed.

(** A frame the stream goes on after is forwarded as it is. *)
Lemma validator_open_event st k b s :
  SseValidator.finished st = false -> SseValidator.buffer st = [] -> good (k, b) -> (s < u64_modulus)%N ->
  one_of k closing_kinds = false -> (blen (event_frame k b s) <= max_event_bytes)%N ->
  exists st', on_event (SseValidator.Chunk (event_frame k b s)) st = st'
    /\ SseValidator.finished st' = false /\ SseValidator.buffer st' = []
    /\ SseValidator.pending st' = SseValidator.pending st ++ [event_frame k b s].
Proof using SJL.
  intros Hf Hb Hgood Hs Hk Hmax. eexists. split; [done|].
  rewrite on_event_frame by (try done; apply event_frame_len; apply Hgood).
  assert (Hshape : validate_event_shape k (JObject b) = Ok tt).
  { destruct (good_shape _ Hgood) as [He|He]; [|done]. cbn in He. by subst k. }
  unfold SseValidator.handle_frame. rewrite inspect_event by done. unfold keep_event. cbn [kind].
  assert (Hfail : one_of k ["error"; "response.failed"; "response.cancelled"] = false).
  { eapply one_of_incl; [|exact Hk]. cbn. tauto. }
  assert (Hterm : is_terminal_event k = false).
  { eapply one_of_incl; [|exact Hk]. cbn. tauto. }
  rewrite Hfail, Hterm. by split_and!.
Qed.

Lemma number_after_bound s evs : (s < u64_modulus)%N -> (number_after s evs < u64_modulus)%N.
Proof. revert s. induction evs as [|e evs IH]; intros s Hs; [done|]. apply IH, u64_add_bound. Qed.

Lemma validator_open_events st evs ph ph' s rest :
  SseValidator.finished st = false -> SseValidator.buffer st = [] ->
  accept ph evs = Some ph' -> ended ph' = false -> Forall good evs -> (s < u64_modulus)%N ->
  Forall (fun f => (blen f <= max_event_bytes)%N) (frames_from s evs) ->
  exists st', run st (map SseValidator.Chunk (frames_from s evs) ++ rest) = run st' rest
    /\ SseValidator.finished st' = false /\ SseValidator.buffer st' = []
    /\ SseValidator.pending st' = SseValidator.pending st ++ frames_from s evs.
Proof using SJL.
  revert st ph s. induction evs as [|[k b] evs IH]; intros st ph s Hf Hb Ha He Hg Hs Hmax.
  - exists st. cbn. by rewrite app_nil_r.
  - cbn [accept] in Ha. destruct (accept1 ph (k, b)) as [ph1|] eqn:E1; [|done]. cbn [mbind option_bind] in Ha.
    apply Forall_cons_1 in Hg as [Hg1 Hg]. cbn [frames_from] in Hmax. apply Forall_cons_1 in Hmax as [Hm1 Hmax].
    assert (Hopen : ended ph1 = false).
    { destruct (ended ph1) eqn:E; [|done]. destruct evs as [|e evs]; [by injection Ha as <-; congruence|].
      cbn [accept] in Ha. unfold accept1 in Ha. destruct e. rewrite E in Ha. done. }
    destruct (validator_open_event st k b s) as (st1 & Hon & Hf1 & Hb1 & Hp1);
      [done|done|done|done|by eapply accept_open|done|].
    destruct (IH st1 ph1 (u64_add s 1) Hf1 Hb1 Ha He Hg (u64_add_bound _ _) Hmax) as (st' & Hrun & Hf' & Hb' & Hp').
    exists st'. cbn [frames_from map app]. rewrite run_unfold, drain_empty by done. rewrite Hf, Hon, Hrun.
    split; [done|]. split; [done|]. split; [done|]. by rewrite Hp', Hp1, <- app_assoc.
Qed.

Lemma validator_last_event st k b s :
  SseValidator.finished st = false -> SseValidator.buffer st = [] -> good (k, b) -> (s < u64_modulus)%N ->
  k = "error" \/ In k completion_kinds -> (blen (event_frame k b s) <= max_event_bytes)%N ->
  exists last, SseValidator.pending (run st [SseValidator.Chunk (event_frame k b s)]) = SseValidator.pending st ++ [last]
    /\ if String.eqb k "error"
       then exists id m seq code msg param, last = failure_frame created_at id m seq code msg param
       else last = event_frame k b s.
Proof using SJL.
  intros Hf Hb Hgood Hs Hk Hmax. rewrite run_unfold, drain_empty by done. rewrite Hf.
  rewrite on_event_frame by (try done; apply event_frame_len; apply Hgood).
  assert (Hend : SseValidator.finished (SseValidator.handle_frame created_at media (event_frame k b s) st) = true
    /\ exists last, SseValidator.pending (SseValidator.handle_frame created_at media (event_frame k b s) st)
                    = SseValidator.pending st ++ [last]
    /\ if String.eqb k "error"
       then exists id m seq code msg param, last = failure_frame created_at id m seq code msg param
       else last = event_frame k b s).
  { destruct Hk as [-> | Hk].
    - cbn [String.eqb Ascii.eqb Bool.eqb]. unfold SseValidator.handle_frame.
      destruct (inspect_frame (event_frame "error" b s)) as [[ev|ev]|reason] eqn:E.
      + assert (Hev : kind ev = "error").
        { destruct (validate_event_shape "error" (JObject b)) as [[]|] eqn:Esh.
          - rewrite inspect_event in E by done. by injection E as <-.
          - exfalso. revert E. eapply inspect_bad_shape; [done..|exact Esh]. }
        unfold keep_event. rewrite Hev. cbn [one_of existsb String.eqb Ascii.eqb Bool.eqb orb].
        split; [done|]. eexists. split; [done|]. by do 6 eexists.
      + exfalso. destruct (validate_event_shape "error" (JObject b)) as [[]|] eqn:Esh.
        * by rewrite inspect_event in E.
        * revert E. eapply inspect_bad_shape; [done..|exact Esh].
      + unfold fail_with. rewrite Hf. split; [done|]. eexists. split; [done|]. by do 6 eexists.
    - assert (Hne : String.eqb k "error" = false) by (unfold completion_kinds in Hk; each_kind Hk; done).
      assert (Hshape : validate_event_shape k (JObject b) = Ok tt).
      { destruct (good_shape _ Hgood) as [He|He]; [|done]. cbn in He. by subst k. }
      rewrite Hne. unfold SseValidator.handle_frame. rewrite inspect_event by done. unfold keep_event. cbn [kind].
      unfold completion_kinds in Hk. each_kind Hk; cbn [one_of existsb String.eqb Ascii.eqb Bool.eqb orb is_terminal_event];
        (split; [done|]; eexists; by split). }
  destruct Hend as [Hfin Hlast]. by rewrite run_finished.
Qed.
End Validated.

(** ** Text is conserved *)

(** The text of the items of type [ty], read from the first part of [field]. *)
Definition part_text (field : string) (item : value) : string :=
  default EmptyString (((vget field item ≫= as_array) ≫= head) ≫= vget_str "text").
Definition items_text (ty field : string) (items : list value) : string :=
  foldr (fun v acc => (if bool_decide (vget_str "type" v = Some ty) then part_text field v else EmptyString) +:+ acc)
        EmptyString items.
(** What the stream has said so far, and what it has thought: closed items, then the open one. *)
Definition said (st : State) : string :=
  items_text "message" "content" (output st) +:+ default EmptyString (item_text <$> message st).
Definition thought (st : State) : string :=
  items_text "reasoning" "summary" (output st) +:+ default EmptyString (item_text <$> reasoning st).

Definition chunk_delta (field : string) (chunk : value) : string :=
  default EmptyString ((((vget "choices" chunk ≫= as_array) ≫= head) ≫= vget "delta") ≫= vget_str field).

Lemma items_text_app ty field a b : items_text ty field (a ++ b) = items_text ty field a +:+ items_text ty field b.
Proof.
  induction a as [|v a IH]; [done|]. cbn [app items_text foldr]. fold (items_text ty field (a ++ b)).
  by rewrite IH, append_assoc.
Qed.
Lemma items_text_one ty field v :
  items_text ty field [v] = if bool_decide (vget_str "type" v = Some ty) then part_text field v else EmptyString.
Proof. apply append_nil_r. Qed.

Lemma type_message_item id status content : vget_str "type" (message_item id status content) = Some "message".
Proof. apply vget_str_json_obj. Qed.
Lemma type_reasoning_item id summary : vget_str "type" (reasoning_item id summary) = Some "reasoning".
Proof. apply vget_str_json_obj. Qed.
Lemma text_message_item id status t : part_text "content" (message_item id status [output_text_part t]) = t.
Proof. unfold part_text, message_item, output_text_part. rewrite vget_json_obj. cbn -[vget_str json_obj]. by rewrite vget_str_json_obj. Qed.
Lemma text_reasoning_item id t : part_text "summary" (reasoning_item id [summary_text t]) = t.
Proof. unfold part_text, reasoning_item, summary_text. rewrite vget_json_obj. cbn -[vget_str json_obj]. by rewrite vget_str_json_obj. Qed.

Section Texts.
  Context {SJ : SerdeJson}.

(** [st'] has said [t] and thought [r] more than [st]. *)
Definition adds (t r : string) (st st' : State) : Prop := said st' = said st +:+ t /\ thought st' = thought st +:+ r.

Lemma adds_same st st' :
  output st' = output st -> message st' = message st -> reasoning st' = reasoning st -> adds "" "" st st'.
Proof. intros Ho Hm Hr. unfold adds, said, thought. by rewrite Ho, Hm, Hr, !append_nil_r. Qed.
Lemma adds_trans t r t' r' st st1 st2 :
  adds t r st st1 -> adds t' r' st1 st2 -> adds (t +:+ t') (r +:+ r') st st2.
Proof. intros [H1 H2] [H3 H4]. split; [by rewrite H3, H1, append_assoc|by rewrite H4, H2, append_assoc]. Qed.

Lemma close_message_adds st : adds "" "" st (close_message st).
Proof.
  unfold close_message. destruct (message st) as [cur|] eqn:Em; [|by apply adds_same].
  split; unfold said, thought; cbn [output message reasoning push_output emit push_frame set_message];
    rewrite ?Em, items_text_app, items_text_one, type_message_item, append_nil_r.
  - rewrite bool_decide_true by done. rewrite text_message_item. by rewrite append_nil_r.
  - by rewrite ?append_nil_r.
Qed.
Lemma close_reasoning_adds st : adds "" "" st (close_reasoning st).
Proof.
  unfold close_reasoning. destruct (reasoning st) as [cur|] eqn:Em; [|by apply adds_same].
  split; unfold said, thought; cbn [output message reasoning push_output emit push_frame set_reasoning];
    rewrite ?Em, items_text_app, items_text_one, type_reasoning_item, append_nil_r.
  - by rewrite ?append_nil_r.
  - rewrite bool_decide_true by done. rewrite text_reasoning_item. by rewrite append_nil_r.
Qed.

Lemma open_message_adds st : adds "" "" st (open_message st).
Proof.
  unfold open_message. destruct (message st) as [cur|] eqn:Em; [by apply adds_same|].
  unfold adds, said, thought, take_output_index. cbn. by rewrite Em, !append_nil_r.
Qed.
Lemma open_reasoning_adds st : adds "" "" st (open_reasoning st).
Proof.
  unfold open_reasoning. destruct (reasoning st) as [cur|] eqn:Em; [by apply adds_same|].
  unfold adds, said, thought, take_output_index. cbn. by rewrite Em, !append_nil_r.
Qed.

Lemma push_text_adds d st : adds d "" st (push_text d st).
Proof.
  unfold push_text. pose proof (open_message_some (close_reasoning st)) as [cur Ec]. rewrite Ec.
  apply (adds_trans "" "" d "" _ (open_message (close_reasoning st)));
    [apply (adds_trans "" "" "" "" _ (close_reasoning st)); [apply close_reasoning_adds|apply open_message_adds]|].
  unfold adds, said, thought. cbn [output message reasoning emit push_frame set_message push_item_text].
  rewrite Ec. cbn. split; by rewrite ?append_nil_r, ?append_assoc.
Qed.
Lemma push_reasoning_adds d st : adds "" d st (push_reasoning d st).
Proof.
  unfold push_reasoning. pose proof (open_reasoning_some (close_message st)) as [cur Ec]. rewrite Ec.
  apply (adds_trans "" "" "" d _ (open_reasoning (close_message st)));
    [apply (adds_trans "" "" "" "" _ (close_message st)); [apply close_message_adds|apply open_reasoning_adds]|].
  unfold adds, said, thought. cbn [output message reasoning emit push_frame set_reasoning push_item_text].
  rewrite Ec. cbn. split; by rewrite ?append_nil_r, ?append_assoc.
Qed.

Lemma push_tool_call_adds call st : adds "" "" st (push_tool_call call st).
Proof.
  unfold push_tool_call. set (i := N.to_nat _). set (f := vget "function" call ≫= as_object).
  eapply (adds_trans "" "" "" ""); [apply (adds_trans "" "" "" ""  _ (close_reasoning st)); [apply close_reasoning_adds|apply close_message_adds]|].
  generalize (close_message (close_reasoning st)) as st1. intros st1.
  assert (H2 : adds "" "" st1 (identify i (grow_calls i st1))) by (unfold identify; destruct (is_empty _); by apply adds_same).
  eapply (adds_trans "" "" "" ""); [exact H2|]. generalize (identify i (grow_calls i st1)) as st2. intros st2.
  apply (adds_trans "" "" "" "" _ (learn i call f st2)); [by apply adds_same|].
  apply (adds_trans "" "" "" "" _ (announce i (learn i call f st2))).
  - unfold announce. destruct (negb _ && _ && _); by apply adds_same.
  - unfold push_fragment. destruct (opt_filter _ _); [|by apply adds_same].
    destruct (negb _ && _); by apply adds_same.
Qed.

Lemma close_tool_call_adds st call : adds "" "" st (close_tool_call st call).
Proof.
  unfold close_tool_call. fold (payload_of call).
  destruct (call_item_fields call "completed" (payload_of call)) as (_ & (ty & Hty & Hin) & _).
  unfold adds, said, thought. set (item := call_item call "completed" (payload_of call)) in *.
  assert (Ho : forall ty' f, In ty' ["message"; "reasoning"] -> items_text ty' f (output st ++ [item]) = items_text ty' f (output st)).
  { intros ty' f H. rewrite items_text_app, items_text_one, Hty, bool_decide_false, append_nil_r; [done|].
    intros [= ->]. cbn in *. intuition congruence. }
  destruct (freeform call); cbn [output message reasoning push_output emit push_frame];
    rewrite !Ho by (cbn; tauto); by rewrite !append_nil_r.
Qed.

Lemma complete_adds reason st : adds "" "" st (complete reason st).
Proof.
  unfold complete. destruct (terminated st) eqn:Et; [by apply adds_same|].
  destruct (negb (started st)); [unfold fail; rewrite Et; by apply adds_same|].
  apply (adds_trans "" "" "" "" _ (close_reasoning st)); [apply close_reasoning_adds|].
  apply (adds_trans "" "" "" "" _ (close_message (close_reasoning st))); [apply close_message_adds|].
  generalize (close_message (close_reasoning st)) as st1. intros st1.
  apply (adds_trans "" "" "" "" _ (close_tool_calls st1)); [|case_bool_decide; by apply adds_same].
  unfold close_tool_calls. apply (adds_trans "" "" "" "" _ (set_calls [] st1)); [by apply adds_same|].
  generalize (set_calls [] st1) as s. induction (List.filter announced (calls st1)) as [|c l IH]; intros s; [by apply adds_same|].
  cbn [foldl]. apply (adds_trans "" "" "" "" _ (close_tool_call s c)); [apply close_tool_call_adds|apply IH].
Qed.

Lemma opt_filter_non_empty o : default EmptyString (opt_filter non_empty o) = default EmptyString o.
Proof. destruct o as [s|]; [|done]. cbn. by destruct s. Qed.

Lemma handle_delta_adds d st :
  adds (default EmptyString (get_str "content" d)) (default EmptyString (get_str "reasoning_content" d)) st (handle_delta d st).
Proof.
  unfold handle_delta.
  rewrite <- (opt_filter_non_empty (get_str "content" d)), <- (opt_filter_non_empty (get_str "reasoning_content" d)).
  set (st1 := match opt_filter non_empty (get_str "reasoning_content" d) with Some _ => _ | None => _ end).
  assert (H1 : adds "" (default EmptyString (opt_filter non_empty (get_str "reasoning_content" d))) st st1).
  { unfold st1. destruct (opt_filter non_empty (get_str "reasoning_content" d)); [apply push_reasoning_adds|by apply adds_same]. }
  clearbody st1.
  set (st2 := match opt_filter non_empty (get_str "content" d) with Some _ => _ | None => _ end).
  assert (H2 : adds (default EmptyString (opt_filter non_empty (get_str "content" d))) "" st1 st2).
  { unfold st2. destruct (opt_filter non_empty (get_str "content" d)); [apply push_text_adds|by apply adds_same]. }
  clearbody st2. pose proof (adds_trans _ _ _ _ _ _ _ H1 H2) as H. rewrite append_nil_l, append_nil_r in H.
  destruct (obj_get "tool_calls" d ≫= as_array) as [l|]; [|done]. clear H1 H2. revert st2 H.
  induction l as [|c l IH]; intros st2 H; [done|]. cbn [foldl]. apply IH.
  pose proof (adds_trans _ _ _ _ _ _ _ H (push_tool_call_adds c st2)) as H'. by rewrite !append_nil_r in H'.
Qed.
End Texts.

(** C28: No text is lost, invented or reordered. A chunk that reports no error adds to
    the text of the assistant's messages exactly the [content] of its first choice, and
    to the text of the reasoning items exactly its [reasoning_content], whatever items
    the chunk opens, closes or interrupts. *)
Theorem handle_chunk_conserves {SJ : SerdeJson} chunk st :
  terminated st = false -> opt_filter (fun v => negb (is_null v)) (vget "error" chunk) = None ->
  said (handle_chunk chunk st) = said st +:+ chunk_delta "content" chunk
  /\ thought (handle_chunk chunk st) = thought st +:+ chunk_delta "reasoning_content" chunk.
Proof.
  intros Ht He. unfold handle_chunk, chunk_delta. rewrite He.
  set (st2 := match opt_filter is_object (vget "usage" chunk) with Some _ => _ | None => _ end).
  assert (H2 : adds "" "" st st2).
  { apply (adds_trans "" "" "" "" _ (start chunk st)).
    - unfold start. destruct (started st); by apply adds_same.
    - unfold st2. destruct (opt_filter is_object _); by apply adds_same. }
  clearbody st2. destruct ((vget "choices" chunk ≫= as_array) ≫= head) as [choice|]; [|exact H2].
  cbn [mbind option_bind]. unfold handle_choice.
  set (st3 := match vget "delta" choice ≫= as_object with Some _ => _ | None => _ end).
  assert (H3 : adds (default EmptyString (vget "delta" choice ≫= vget_str "content"))
                    (default EmptyString (vget "delta" choice ≫= vget_str "reasoning_content")) st2 st3).
  { unfold st3. destruct (vget "delta" choice) as [[| | | | |m]|]; try by apply adds_same.
    apply (handle_delta_adds m st2). }
  clearbody st3. pose proof (adds_trans _ _ _ _ _ _ _ H2 H3) as H. rewrite !append_nil_l in H.
  destruct (opt_filter non_empty (vget_str "finish_reason" choice)) as [reason|]; [|exact H].
  pose proof (adds_trans _ _ _ _ _ _ _ H (complete_adds (Some reason) st3)) as H'. by rewrite !append_nil_r in H'.
Qed.

(** ** The gateway forwards what the synthesizer writes *)

Lemma synthesized_events_validated {SJ : SerdeJson} {SJL : SerdeJsonLaws SJ} status_text model key tools script
    created_at max media chunks
    (Hsize : Forall (fun f => (blen f <= max)%N) (responses_stream status_text model key tools script))
    (Hchunks : concat chunks = concat (responses_stream status_text model key tools script)) :
  exists init k b ph last,
    let s := number_after 0 init in
    accept phase_new (init ++ [(k, b)]) = Some ph /\ ended ph = true
    /\ responses_stream status_text model key tools script = frames_from 0 init ++ [event_frame k b s]
    /\ validated_stream created_at max media (map SseValidator.Chunk chunks) = frames_from 0 init ++ [last]
    /\ if String.eqb k "error"
       then exists id m seq code msg param, last = failure_frame created_at id m seq code msg param
       else In k completion_kinds /\ last = event_frame k b s.
Proof.
  destruct (responses_stream_events status_text model key tools script) as (evs & ph & Hrun & Ha & He & Hg).
  destruct (accept_ended evs ph Ha He) as (evs0 & k & b & ph0 & -> & Ha0 & He0 & Ha1).
  pose proof Ha as Hall. rewrite Hrun in *. rewrite frames_from_app in *. cbn [frames_from] in *.
  set (s := number_after 0 evs0) in *.
  assert (Hs : (s < u64_modulus)%N) by (by apply number_after_bound).
  apply Forall_app in Hg as [Hg0 Hg1], Hsize as [Hmax0 Hmax1].
  apply Forall_cons_1 in Hg1 as [Hg1 _], Hmax1 as [Hmax1 _].
  pose proof (accept_last _ _ _ _ Ha1 He0 He) as Hk.
  assert (Hsame : validated_stream created_at max media (map SseValidator.Chunk chunks)
    = validated_stream created_at max media (map SseValidator.Chunk (frames_from 0 evs0 ++ [event_frame k b s]) ++ [])).
  { unfold validated_stream. rewrite <- (app_nil_r (map SseValidator.Chunk chunks)).
    rewrite !run_chunks by apply settled_new. by rewrite Hchunks. }
  rewrite Hsame, app_nil_r, map_app. unfold validated_stream. cbn [map].
  destruct (validator_open_events created_at max media SseValidator.State_new evs0 phase_new ph0 0
              [SseValidator.Chunk (event_frame k b s)]) as (st & -> & Hf & Hb & Hp); [done..|].
  destruct (validator_last_event created_at max media st k b s) as (last & Hp' & Hlast); [done..|].
  exists evs0, k, b, ph, last. cbv zeta. fold s. rewrite Hp', Hp. do 4 (split; [done|]).
  destruct (String.eqb_spec k "error") as [->|Hne]; [done|]. destruct Hk as [->|Hk]; [done|]. done.
Qed.

(** The adapter and the gateway's validator fit together. If no synthesized frame
    exceeds the validator's event limit, then however the synthesized bytes are cut into
    chunks on their way, the validator forwards every frame unchanged, up to the last:
    a completed or truncated response is forwarded unchanged too, and an [error] event is
    replaced by one failure built by the gateway. *)
Theorem synthesized_stream_validates {SJ : SerdeJson} {SJL : SerdeJsonLaws SJ} status_text model key tools script
    created_at max media chunks
    (Hsize : Forall (fun f => (blen f <= max)%N) (responses_stream status_text model key tools script))
    (Hchunks : concat chunks = concat (responses_stream status_text model key tools script)) :
  exists init k b s last,
    responses_stream status_text model key tools script = init ++ [event_frame k b s]
    /\ validated_stream created_at max media (map SseValidator.Chunk chunks) = init ++ [last]
    /\ if String.eqb k "error"
       then exists id m seq code msg param, last = failure_frame created_at id m seq code msg param
       else In k completion_kinds /\ last = event_frame k b s.
Proof.
  destruct (synthesized_events_validated status_text model key tools script created_at max media chunks Hsize Hchunks)
    as (init & k & b & ph & last & _ & _ & Hrun & Hv & Hk).
  by exists (frames_from 0 init), k, b, (number_after 0 init), last.
Qed.

(** ** The buffer *)

Section Buffer.
  Context {SJ : SerdeJson}.

Definition keeps_buffer (op : State -> State) : Prop := forall st, buffer (op st) = buffer st.

Lemma close_message_buffer : keeps_buffer close_message.
Proof. intros st. unfold close_message. by destruct (message st). Qed.
Lemma close_reasoning_buffer : keeps_buffer close_reasoning.
Proof. intros st. unfold close_reasoning. by destruct (reasoning st). Qed.
Lemma fail_buffer msg : keeps_buffer (fail msg).
Proof. intros st. unfold fail. by destruct (terminated st). Qed.
Lemma push_text_buffer d : keeps_buffer (push_text d).
Proof.
  intros st. unfold push_text. transitivity (buffer (open_message (close_reasoning st))).
  - by destruct (message (open_message _)).
  - unfold open_message. rewrite <- (close_reasoning_buffer st). by destruct (message (close_reasoning st)).
Qed.
Lemma push_reasoning_buffer d : keeps_buffer (push_reasoning d).
Proof.
  intros st. unfold push_reasoning. transitivity (buffer (open_reasoning (close_message st))).
  - by destruct (reasoning (open_reasoning _)).
  - unfold open_reasoning. rewrite <- (close_message_buffer st). by destruct (reasoning (close_message st)).
Qed.
Lemma push_tool_call_buffer c : keeps_buffer (push_tool_call c).
Proof.
  intros st. unfold push_tool_call. set (i := N.to_nat _). set (f := vget "function" c ≫= as_object).
  rewrite <- (close_reasoning_buffer st), <- (close_message_buffer (close_reasoning st)).
  generalize (close_message (close_reasoning st)) as st1. intros st1.
  transitivity (buffer (identify i (grow_calls i st1))); [|unfold identify; by destruct (is_empty _)].
  generalize (identify i (grow_calls i st1)) as st2. intros st2.
  transitivity (buffer (announce i (learn i c f st2))); [|unfold announce; by destruct (negb _ && _ && _)].
  unfold push_fragment. destruct (opt_filter _ _); [|done]. by destruct (negb _ && _).
Qed.
Lemma complete_buffer reason : keeps_buffer (complete reason).
Proof.
  intros st. unfold complete. destruct (terminated st) eqn:Et; [done|].
  destruct (negb (started st)); [apply fail_buffer|].
  transitivity (buffer (close_tool_calls (close_message (close_reasoning st)))); [by case_bool_decide|].
  rewrite <- (close_reasoning_buffer st), <- (close_message_buffer (close_reasoning st)).
  generalize (close_message (close_reasoning st)) as st1. intros st1. unfold close_tool_calls.
  change (buffer st1) with (buffer (set_calls [] st1)). generalize (set_calls [] st1) as s.
  induction (List.filter announced (calls st1)) as [|c l IH]; intros s; [done|]. cbn [foldl]. rewrite IH.
  unfold close_tool_call. by destruct (freeform c).
Qed.
Lemma handle_chunk_buffer c : keeps_buffer (handle_chunk c).
Proof.
  intros st. unfold handle_chunk. destruct (opt_filter (fun v => negb (is_null v)) _); [apply fail_buffer|].
  set (st1 := match opt_filter is_object _ with Some _ => _ | None => _ end).
  assert (H1 : buffer st1 = buffer st).
  { unfold st1. assert (H : buffer (start c st) = buffer st) by (unfold start; by destruct (started st)).
    by destruct (opt_filter is_object _). }
  rewrite <- H1. clearbody st1. destruct (_ ≫= head) as [choice|]; [|done]. unfold handle_choice.
  set (st2 := match vget "delta" choice ≫= as_object with Some _ => _ | None => _ end).
  assert (H2 : buffer st2 = buffer st1).
  { unfold st2. destruct (_ ≫= as_object) as [d|]; [|done]. unfold handle_delta.
    set (st3 := match opt_filter non_empty (get_str "reasoning_content" d) with Some _ => _ | None => _ end).
    assert (H3 : buffer st3 = buffer st1)
      by (unfold st3; destruct (opt_filter non_empty (get_str "reasoning_content" d)); [apply push_reasoning_buffer|done]).
    rewrite <- H3. clearbody st3.
    set (st4 := match opt_filter non_empty (get_str "content" d) with Some _ => _ | None => _ end).
    assert (H4 : buffer st4 = buffer st3)
      by (unfold st4; destruct (opt_filter non_empty (get_str "content" d)); [apply push_text_buffer|done]).
    rewrite <- H4. clearbody st4. destruct (_ ≫= as_array) as [l|]; [|done]. revert st4 H4.
    generalize st3. induction l as [|a l IH]; intros s st4 _; [done|]. cbn [foldl].
    rewrite (IH st4) by apply push_tool_call_buffer. apply push_tool_call_buffer. }
  rewrite <- H2. clearbody st2. destruct (opt_filter non_empty (vget_str "finish_reason" choice)); [apply complete_buffer|done].
Qed.
Lemma zai_handle_frame_buffer frame st st' : handle_frame frame st = Ok st' -> buffer st' = buffer st.
Proof.
  unfold handle_frame. intros (text & _ & H)%bind_ok. destruct (is_empty (frame_data text)); [by injection H as <-|].
  destruct (String.eqb _ _).
  - injection H as <-. destruct (terminated st); [done|]. destruct (started st); [apply complete_buffer|apply fail_buffer].
  - apply bind_ok in H as (chunk & _ & [= <-]). apply handle_chunk_buffer.
Qed.

Lemma zai_frame_scan_bounds ls i rest n :
  ZaiStream.frame_scan ls i rest = Some n -> i < n <= i + length rest.
Proof.
  revert ls i n. induction rest as [rest IH] using (induction_ltof1 _ length); unfold ltof in IH.
  intros ls i n. destruct rest as [|a r]; [done|]. cbn [ZaiStream.frame_scan length].
  assert (Hr : forall ls i n, ZaiStream.frame_scan ls i r = Some n -> i < n <= i + length r)
    by (apply IH; simpl; lia).
  destruct (negb (is_line_end a)); [intros H%Hr; lia|]. destruct r as [|b r'].
  - destruct (i =? ls); [intros [= <-]; cbn; lia|done].
  - cbn [length] in *. destruct (Ascii.eqb a CR && Ascii.eqb b LF).
    + destruct (i =? ls); [intros [= <-]; lia|]. intros H%IH; [lia|simpl; lia].
    + destruct (i =? ls); [intros [= <-]; lia|intros H%Hr; lia].
Qed.

Context (status_text : StatusCode -> string).

Lemma push_step_buffer st st' :
  push_step status_text st = inr st' -> length (buffer st') < length (buffer st).
Proof.
  unfold push_step. destruct (ZaiStream.complete_frame_len (buffer st)) as [n|] eqn:En; [|done].
  apply zai_frame_scan_bounds in En. destruct (handle_frame _ _) as [st1|e] eqn:Eh; [|done].
  apply zai_handle_frame_buffer in Eh. destruct (terminated st1); [done|]. intros [= <-].
  rewrite Eh. cbn [buffer set_buffer]. rewrite length_drop. lia.
Qed.

Lemma fail_terminated msg st : terminated (fail msg st) = true.
Proof. unfold fail. by destruct (terminated st) eqn:E. Qed.

Lemma push_loop_done fuel st :
  length (buffer st) < fuel ->
  let st' := push_loop status_text fuel st in
  terminated st' = true
  \/ (ZaiStream.complete_frame_len (buffer st') = None /\ length (buffer st') <= length (buffer st)).
Proof.
  revert st. induction fuel as [|fuel IH]; intros st Hfuel; [lia|]. cbn [push_loop]. cbv zeta.
  destruct (push_step status_text st) as [st'|st'] eqn:E.
  - unfold push_step in E. destruct (ZaiStream.complete_frame_len (buffer st)) as [n|] eqn:En.
    + left. destruct (handle_frame _ _) as [st1|e]; [destruct (terminated st1) eqn:Et|];
        try discriminate E; injection E as <-; [done|apply fail_terminated].
    + injection E as <-. by right.
  - apply push_step_buffer in E. destruct (IH st') as [H|[H1 H2]]; [lia|by left|right]. split; [done|lia].
Qed.
End Buffer.

Lemma saturating_within a b m : (m < u64_max)%N -> (u64_saturating_add a b <= m)%N -> (a + b <= m)%N.
Proof. unfold u64_saturating_add. lia. Qed.

(** After a chunk, either the stream is closed, or every complete frame has been
    handled (the loop ends by itself) and what is left in the buffer is within the
    8 MiB limit. *)
Theorem push_drains_buffer {SJ : SerdeJson} status_text chunk st :
  terminated (push status_text chunk st) = true
  \/ (ZaiStream.complete_frame_len (buffer (push status_text chunk st)) = None
      /\ (blen (buffer (push status_text chunk st)) <= MAX_BUFFERED_BYTES)%N).
Proof.
  unfold push. destruct (terminated st) eqn:Ht; [by left|].
  destruct (_ <? _)%N eqn:Hmax; [left; apply fail_terminated|].
  apply N.ltb_ge, saturating_within in Hmax; [|done].
  assert (H3 : (blen (buffer st ++ chunk) <= MAX_BUFFERED_BYTES)%N) by (unfold blen in *; rewrite length_app; lia).
  change (buffer st ++ chunk) with (buffer (set_buffer (buffer st ++ chunk) st)) in H3.
  revert H3. generalize (set_buffer (buffer st ++ chunk) st) as st1. intros st1 H3. clear Hmax.
  destruct (push_loop_done status_text (S (length (buffer st1))) st1) as [H|[H1 H2]]; [lia|by left|right].
  split; [done|]. revert H2. generalize (push_loop status_text (S (length (buffer st1))) st1) as st2. intros st2 H2.
  etransitivity; [|exact H3]. unfold blen. lia.
Qed.

(** ** Witnesses *)

Definition sample_chunk (fields : list (string * value)) : value :=
  json_obj [("id", JString "c 1"); ("choices", JArray [json_obj fields])].
Definition sample_frame (v : value) : bytes := to_bytes ("data: " +:+ to_string v +:+ lf +:+ lf).
Definition sample_script : list stream_event :=
  [ Chunk (sample_frame (sample_chunk [("delta", json_obj [("reasoning_content", JString "hm"); ("content", JString "hi")])]));
    Chunk (sample_frame (sample_chunk [("finish_reason", JString "stop")])) ].
Definition no_status (s : StatusCode) : string := EmptyString.

Example sample_stream_kinds :
  length (responses_stream no_status "glm" "k" ToolNames_default sample_script) = 15.
Proof. vm_compute. reflexivity. Qed.

Definition sample_frames : list bytes := responses_stream no_status "glm" "k" ToolNames_default sample_script.

Lemma synthesized_validates_witness :
  exists init k b s last,
    sample_frames = init ++ [event_frame k b s]
    /\ validated_stream 0 MAX_EVENT_BYTES None (map SseValidator.Chunk [concat sample_frames]) = init ++ [last]
    /\ if String.eqb k "error"
       then exists id m seq code msg param, last = failure_frame 0 id m seq code msg param
       else In k completion_kinds /\ last = event_frame k b s.
Proof.
  apply (synthesized_stream_validates no_status "glm" "k" ToolNames_default sample_script).
  - assert (Hall : forallb (fun f => (blen f <=? MAX_EVENT_BYTES)%N) sample_frames = true) by (vm_compute; reflexivity).
    apply List.Forall_forall. intros f Hf. apply N.leb_le. exact (proj1 (forallb_forall _ _) Hall f Hf).
  - apply app_nil_r.
Defined.

Lemma chunk_conserves_witness :
  let chunk := sample_chunk [("delta", json_obj [("reasoning_content", JString "hm"); ("content", JString "hi")])] in
  let st := State_new "glm" "k" ToolNames_default in
  said (handle_chunk chunk st) = "hi" /\ thought (handle_chunk chunk st) = "hm"
  /\ said (handle_chunk chunk st) = said st +:+ chunk_delta "content" chunk.
Proof.
  split; [vm_compute; reflexivity|]. split; [vm_compute; reflexivity|].
  apply (handle_chunk_conserves (sample_chunk [("delta", json_obj [("reasoning_content", JString "hm"); ("content", JString "hi")])])
           (State_new "glm" "k" ToolNames_default)); reflexivity.
Defined.

(** The frame scanner ends a line at a lone CR, the line reader does not: a frame whose
    lines end so is taken from the buffer whole and its data is not seen. *)
Definition cr_text : string :=
  "event: message" +:+ String CR ("data: [DONE]" +:+ String CR (String CR EmptyString)).
Example lone_cr_frame_ignored :
  ZaiStream.complete_frame_len (to_bytes cr_text) = Some (String.length cr_text) /\ frame_data cr_text = "".
Proof. split; reflexivity. Qed.
