(* ===== verification/Msp.v ===== *)
(** * The Muse Session Protocol relay

    Models [crates/muse-codex/src/msp.rs]: NDJSON framing, the adaptation of client and
    server frames, and the two relay threads as steps that interleave over the shared
    table of pending requests. A source is what successive [fill_buf] calls return; an
    empty buffer, or no more of them, is the end of input. *)

From S2P Require Import Prelude Utf8 Json.
From stdpp Require Import options.

Definition INTERNAL_PROVIDER : string := "meta".
Definition MAX_FRAME_BYTES : N := 10 * 1024 * 1024.
Definition MAX_PENDING_REQUESTS : nat := 4096.

Abbreviation R := (result string).

(** The methods of the requests in flight, by the key of their id. *)
Abbreviation PendingRequests := (gmap string string).

(** ** Framing *)

(** [iter().position(|byte| *byte == b'\n').map_or(len, |index| index + 1)] *)
Definition line_length (available : bytes) : nat :=
  match position is_lf available with Some index => S index | None => length available end.
Definition ends_with_lf (b : bytes) : bool := is_some_and is_lf (last b).

Definition frame_limit_error : string := "MSP frame exceeds the 10485760-byte limit".

(** [read_frame]: whether a frame was read, the frame, and the rest of the source. *)
Fixpoint read_loop (output : bytes) (source : list (R bytes)) : R (bool * bytes * list (R bytes)) :=
  match source with
  | [] | Ok [] :: _ => Ok (negb (bool_decide (output = [])), output, source)
  | Err e :: _ => Err e
  | Ok available :: rest =>
      let length := line_length available in
      let terminated := is_some_and is_lf (available !! pred length) in
      let maximum := if terminated then (MAX_FRAME_BYTES + 1)%N else MAX_FRAME_BYTES in
      if (maximum <? u64_saturating_add (blen output) (N.of_nat length))%N then Err frame_limit_error else
      let output := output ++ take length available in
      if ends_with_lf output
      then let left := drop length available in
           Ok (true, output, if bool_decide (left = []) then rest else Ok left :: rest)
      else read_loop output rest
  end.
Definition read_frame (source : list (R bytes)) : R (bool * bytes * list (R bytes)) := read_loop [] source.

(** [strip_suffix(b"\n")], then [strip_suffix(b"\r")] *)
Definition strip_last (c : ascii) (b : bytes) : bytes :=
  match last b with Some a => if Ascii.eqb a c then removelast b else b | None => b end.

(** ** In-place adaptation

    An update of a value inside a frame: the new value and whether it changed. *)
Definition adapter : Type := value -> R (value * bool).

(** [value.as_object_mut().and_then(|m| m.get_mut(k))], adapted when present. *)
Definition in_field (k : string) (f : adapter) : adapter := fun v =>
  match v with
  | JObject m =>
      match obj_get k m with
      | Some w => '(w', changed) ← f w; Ok (JObject (obj_alter (fun _ => w') k m), changed)
      | None => Ok (v, false)
      end
  | _ => Ok (v, false)
  end.
(** [if let Some(Value::Array(items)) = ... { for item in items { changed |= ... } }] *)
Fixpoint adapt_all (f : adapter) (l : list value) : R (list value * bool) :=
  match l with
  | [] => Ok ([], false)
  | v :: l' => '(v', c) ← f v; '(l'', c') ← adapt_all f l'; Ok (v' :: l'', c || c')
  end.
Definition in_items (f : adapter) : adapter := fun v =>
  match v with
  | JArray l => '(l', changed) ← adapt_all f l; Ok (JArray l', changed)
  | _ => Ok (v, false)
  end.
(** [let mut changed = f(..)?; changed |= g(..)?;] *)
Definition then_ (f g : adapter) : adapter := fun v =>
  '(v1, c1) ← f v; '(v2, c2) ← g v1; Ok (v2, c1 || c2).
Definition unchanged : adapter := fun v => Ok (v, false).

Definition adapt_provider (public : string) : adapter := fun provider =>
  match provider with
  | JNull => Ok (provider, false)
  | JString v =>
      if String.eqb v INTERNAL_PROVIDER then Ok (JString public, true)
      else if String.eqb v public then Ok (provider, false)
      else Err "stock Muse exposed an unsupported MSP provider"
  | _ => Err "stock Muse exposed a malformed MSP provider field"
  end.

Section Positions.
  (** The provider fields of the pinned schema, whatever is done at them. *)
  Context (leaf : adapter).

Definition session_provider : adapter := in_field "providerId" leaf.
Definition history_provider : adapter :=
  in_field "snapshot" (in_field "state" (in_field "effectiveModel" (in_field "providerId" leaf))).

Definition notification_providers (method : string) : adapter :=
  if one_of method ["session/started"; "session/resumed"; "session/forked"] then
    in_field "params" (in_field "session" session_provider)
  else if String.eqb method "session/modelChanged" then in_field "params" (in_field "providerId" leaf)
  else unchanged.

(** An event of a [view/page], adapted as the notification it is. *)
Definition event_providers : adapter := fun event =>
  match vget_str "method" event with
  | Some method => notification_providers method event
  | None => unchanged event
  end.

Definition result_providers (method : string) : adapter :=
  if one_of method ["session/start"; "session/resume"; "session/fork"; "session/read"] then
    then_ (in_field "session" session_provider) (in_field "history" history_provider)
  else if String.eqb method "session/list" then in_field "sessions" (in_items session_provider)
  else if String.eqb method "model/list" then
    then_ (in_field "providerId" leaf) (in_field "models" (in_items (in_field "providerId" leaf)))
  else if String.eqb method "view/page" then in_field "events" (in_items event_providers)
  else unchanged.

End Positions.

Definition adapt_session (public : string) : adapter := session_provider (adapt_provider public).
Definition adapt_history (public : string) : adapter := history_provider (adapt_provider public).
Definition adapt_server_notification (method public : string) : adapter :=
  notification_providers (adapt_provider public) method.
Definition adapt_server_result (method public : string) : adapter :=
  result_providers (adapt_provider public) method.

(** ** Replies of the adapter *)

Definition jint (z : Z) : value := JNumber (if (z <? 0)%Z then NegInt z else PosInt (Z.to_N z)).
Definition error_reply (id : value) (code : Z) (message : string) (data : list (string * value)) : value :=
  json_obj [ ("jsonrpc", JString "2.0"); ("id", id);
             ("error", json_obj [("code", jint code); ("message", JString message); ("data", json_obj data)]) ].
Definition command_rejected (id : value) (command_id public : string) : value :=
  error_reply id (-32030) ("muse-codex only accepts provider '" +:+ public +:+ "' in this session")
    [ ("kind", JString "commandRejected"); ("commandId", JString command_id);
      ("reason", JString "unsupported_provider"); ("retryable", JBool false) ].
Definition invalid_params (id : value) (message : string) : value :=
  error_reply id (-32602) message [("kind", JString "invalidParams")].
Definition invalid_request (id : value) (message : string) : value :=
  error_reply id (-32600) message [("kind", JString "invalidRequest")].
Definition overloaded (id : value) : value :=
  error_reply id (-32001) "muse-codex MSP request adapter is at capacity"
    [ ("kind", JString "overloaded"); ("capacity", jnum (N.of_nat MAX_PENDING_REQUESTS));
      ("retryable", JBool true) ].

Inductive ClientFrame :=
  | Forward (b : bytes)
  | Reject (b : bytes)
  | Drop.

Section Relay.
  Context {SJ : SerdeJson}.

Definition parse_frame (frame : bytes) : option value := from_slice (strip_last CR (strip_last LF frame)).
Definition encode_frame (v : value) : bytes := to_bytes (to_string v) ++ [LF].

Definition rpc_id_key (v : value) : option string :=
  match v with
  | JString _ | JNumber _ | JNull => Some (to_string v)
  | _ => None
  end.

(** ** Client frames *)

(** The path of the provider field of a command. *)
Definition provider_path (method : string) : option (list string) :=
  if String.eqb method "session/start" then Some ["params"; "providerId"]
  else if String.eqb method "session/setModel" then Some ["params"; "model"; "providerId"]
  else None.
Fixpoint at_path (path : list string) (v : value) : option value :=
  match path with
  | [] => Some v
  | k :: path' => w ← vget k v; at_path path' w
  end.
Fixpoint set_at_path (path : list string) (w v : value) : value :=
  match path with
  | [] => w
  | k :: path' => match v with JObject m => JObject (obj_alter (set_at_path path' w) k m) | _ => v end
  end.

(** [if let Some(Value::String(provider)) = provider]: the provider named, if any. *)
Definition named_provider (method : string) (v : value) : option string :=
  (path ← provider_path method; at_path path v) ≫= as_str.

Definition register (method : string) (object : value) (forward : bytes) (pending : PendingRequests)
  : ClientFrame * PendingRequests :=
  match vget "id" object with
  | Some id =>
      match rpc_id_key id with
      | Some key =>
          if bool_decide (is_Some (pending !! key)) then
            (Reject (encode_frame (invalid_request id "duplicate in-flight request id")), pending)
          else if MAX_PENDING_REQUESTS <=? size pending then
            (Reject (encode_frame (overloaded id)), pending)
          else (Forward forward, <[key := method]> pending)
      | None => (Forward forward, pending)
      end
  | None => (Forward forward, pending)
  end.

(** A command that names another provider. *)
Definition refuse_provider (object : value) (public : string) : ClientFrame :=
  match vget "id" object with
  | Some id =>
      match rpc_id_key id with
      | Some _ =>
          Reject (encode_frame
            (match (vget "params" object ≫= vget "commandId") ≫= as_str with
             | Some command_id => command_rejected id command_id public
             | None => invalid_params id "provider requires a valid commandId"
             end))
      | None => Reject (encode_frame (invalid_request JNull "request id must be a string, number, or null"))
      end
  | None => Drop
  end.

Definition adapt_client_frame (frame : bytes) (pending : PendingRequests) (public : string)
  : ClientFrame * PendingRequests :=
  match parse_frame frame with
  | None => (Forward frame, pending)
  | Some v =>
      match as_object v ≫= get_str "method" with
      | None => (Forward frame, pending)
      | Some method =>
          match named_provider method v with
          | Some provider =>
              if String.eqb provider public then
                let v := set_at_path (default [] (provider_path method)) (JString INTERNAL_PROVIDER) v in
                register method v (encode_frame v) pending
              else if is_empty provider then register method v frame pending
              else (refuse_provider v public, pending)
          | None => register method v frame pending
          end
      end
  end.

(** ** Server frames *)

Definition invalid_envelope : string := "stock Muse emitted an invalid MSP response envelope".

(** The value of a server frame adapted, whether it changed, and the requests still
    in flight. *)
Definition adapt_server_value (v : value) (pending : PendingRequests) (public : string)
  : R (value * bool * PendingRequests) :=
  match vget_str "method" v with
  | Some method =>
      '(v', changed) ← adapt_server_notification method public v; Ok (v', changed, pending)
  | None =>
      match vget "id" v ≫= rpc_id_key with
      | Some key =>
          let has_result := bool_decide (is_Some (vget "result" v)) in
          let has_error := bool_decide (is_Some (vget "error" v)) in
          reject (Bool.eqb has_result has_error) invalid_envelope;;
          match pending !! key with
          | Some method =>
              '(v', changed) ← in_field "result" (adapt_server_result method public) v;
              Ok (v', changed, delete key pending)
          | None =>
              reject has_result "stock Muse emitted a result with an unknown request id";;
              Ok (v, false, pending)
          end
      | None =>
          reject (existsb (fun k => bool_decide (is_Some (vget k v))) ["id"; "result"; "error"])
                 invalid_envelope;;
          Ok (v, false, pending)
      end
  end.

Definition adapt_server_frame (frame : bytes) (pending : PendingRequests) (public : string)
  : R (bytes * PendingRequests) :=
  v ← ok_or (parse_frame frame) "stock Muse emitted malformed MSP JSON";
  reject (negb (is_object v)) "stock Muse emitted a non-object MSP frame";;
  '(v', changed, pending) ← adapt_server_value v pending public;
  Ok (if changed : bool then encode_frame v' else frame, pending).

(** ** The two threads *)

Record Relay := {
  requests : PendingRequests;
  to_host : list bytes;
  to_client : list bytes
}.
Definition Relay_start : Relay := {| requests := ∅; to_host := []; to_client := [] |}.

(** One iteration of [relay_client_input]. *)
Definition client_step (public : string) (frame : bytes) (r : Relay) : Relay :=
  match adapt_client_frame frame (requests r) public with
  | (Forward b, p) => {| requests := p; to_host := to_host r ++ [b]; to_client := to_client r |}
  | (Reject b, p) => {| requests := p; to_host := to_host r; to_client := to_client r ++ [b] |}
  | (Drop, p) => {| requests := p; to_host := to_host r; to_client := to_client r |}
  end.
(** One iteration of [relay_server_output]; an error ends the relay. *)
Definition server_step (public : string) (frame : bytes) (r : Relay) : R Relay :=
  '(b, p) ← adapt_server_frame frame (requests r) public;
  Ok {| requests := p; to_host := to_host r; to_client := to_client r ++ [b] |}.

(** The threads interleave at whole frames: each holds the lock of the request table
    while it looks at it, and the lock of stdout while it writes. *)
Inductive relay_step (public : string) : Relay -> Relay -> Prop :=
  | relay_client frame r : relay_step public r (client_step public frame r)
  | relay_server frame r r' : server_step public frame r = Ok r' -> relay_step public r r'.

End Relay.
