(* ===== verification/MspCorrect.v ===== *)
(** * Correctness of the Muse Session Protocol relay

    The specification of the labels is a table of the paths at which a frame carries a
    provider, written apart from the adapter that rewrites them. *)

From S2P Require Import Prelude Utf8 Json SseFrame Msp.
From stdpp Require Import options.

(** ** Framing *)

(** The first line of the input with its LF, and what follows it. *)
Fixpoint first_line (input : bytes) : bytes * bytes :=
  match input with
  | [] => ([], [])
  | a :: rest => if is_lf a then ([a], rest) else let '(l, r) := first_line rest in (a :: l, r)
  end.
(** The bytes of a line without its LF. *)
Definition content_length (line : bytes) : N := blen (if ends_with_lf line then removelast line else line).

(** A source of non-empty buffers without read errors. *)
Definition buffers (source : list (R bytes)) : Prop :=
  Forall (fun r => exists b, r = Ok b /\ b <> []) source.
Definition source_bytes (source : list (R bytes)) : bytes :=
  flat_map (fun r => match r with Ok b => b | Err _ => [] end) source.

Lemma first_line_app input : input = fst (first_line input) ++ snd (first_line input).
Proof.
  induction input as [|a rest IH]; [done|]. cbn [first_line]. destruct (is_lf a); [done|].
  destruct (first_line rest) as [l r]. cbn [fst snd app] in *. by rewrite IH at 1.
Qed.

(** A buffer splits at its first LF, or has none. *)
Definition no_lf (b : bytes) : Prop := forallb (fun c => negb (is_lf c)) b = true.

Lemma line_split available :
  (no_lf available /\ line_length available = length available)
  \/ exists pre post, available = pre ++ LF :: post /\ no_lf pre /\ line_length available = S (length pre).
Proof.
  destruct (forallb_split (fun c => negb (is_lf c)) available) as [H|(pre & a & post & -> & Hpre & Ha)].
  - left. split; [done|]. unfold line_length. by rewrite position_none.
  - right. apply negb_false_iff in Ha. exists pre, post. unfold line_length. rewrite position_app by done.
    unfold is_lf in Ha. by apply Ascii.eqb_eq in Ha as ->.
Qed.

Lemma first_line_no_lf b rest : no_lf b -> first_line (b ++ rest) = (b ++ fst (first_line rest), snd (first_line rest)).
Proof.
  unfold no_lf. induction b as [|a b IH]; cbn; [by destruct (first_line rest)|].
  intros [Ha Hb]%andb_prop. apply negb_true_iff in Ha. by rewrite Ha, IH.
Qed.
Lemma ends_with_lf_snoc b : ends_with_lf (b ++ [LF]) = true.
Proof. unfold ends_with_lf. by rewrite last_snoc. Qed.
Lemma no_lf_last b : no_lf b -> ends_with_lf b = false.
Proof.
  destruct b as [|a b _] using rev_ind; [done|]. unfold no_lf, ends_with_lf. rewrite forallb_app, last_snoc.
  intros [_ H]%andb_prop. cbn in H. apply andb_prop in H as [H _]. by apply negb_true_iff in H.
Qed.
Lemma no_lf_app a b : no_lf a -> no_lf b -> no_lf (a ++ b).
Proof. unfold no_lf. intros Ha Hb. by rewrite forallb_app, Ha, Hb. Qed.

Lemma saturating_gtb a b m :
  (a + b < u64_max)%N -> (m <? u64_saturating_add a b)%N = (m <? a + b)%N.
Proof. intros H. unfold u64_saturating_add. rewrite N.min_l; [done|lia]. Qed.

Lemma content_length_app a line : no_lf a -> content_length (a ++ line) = (blen a + content_length line)%N.
Proof.
  intros Ha. unfold content_length. destruct line as [|x l _] using rev_ind.
  - rewrite app_nil_r, no_lf_last by done. change (ends_with_lf []) with false. cbv iota.
    unfold blen. cbn [length]. lia.
  - unfold ends_with_lf. rewrite app_assoc, !last_snoc. cbn [is_some_and].
    destruct (is_lf x); [rewrite !removelast_last|]; unfold blen; rewrite !length_app; lia.
Qed.

(** A turn of the loop on a buffer that is not empty. *)
Lemma read_loop_filled output b source : b <> [] -> read_loop output (Ok b :: source) =
  let length := line_length b in
  let maximum := if is_some_and is_lf (b !! pred length) then (MAX_FRAME_BYTES + 1)%N else MAX_FRAME_BYTES in
  if (maximum <? u64_saturating_add (blen output) (N.of_nat length))%N then Err frame_limit_error else
  if ends_with_lf (output ++ take length b)
  then Ok (true, output ++ take length b, if bool_decide (drop length b = []) then source else Ok (drop length b) :: source)
  else read_loop (output ++ take length b) source.
Proof. by destruct b. Qed.

(** The source gives up its bytes line by line, however it is buffered. *)
Lemma read_loop_line output source :
  buffers source -> no_lf output -> (blen output <= MAX_FRAME_BYTES)%N ->
  (blen output + blen (source_bytes source) < u64_max)%N ->
  let '(line, rest) := first_line (source_bytes source) in
  if (MAX_FRAME_BYTES <? content_length (output ++ line))%N then read_loop output source = Err frame_limit_error
  else exists source', read_loop output source = Ok (negb (bool_decide (output ++ line = [])), output ++ line, source')
       /\ buffers source' /\ source_bytes source' = rest.
Proof.
  revert output. induction source as [|r source IH]; intros output Hs Ho Hmax Hsize.
  - cbn. rewrite app_nil_r. unfold content_length. rewrite no_lf_last by done.
    apply N.ltb_ge in Hmax as ->. by exists [].
  - apply Forall_cons_1 in Hs as [(b & -> & Hb) Hs]. cbn [source_bytes flat_map] in *. fold (source_bytes source) in *.
    rewrite read_loop_filled by done. cbv zeta.
    assert (Hblen : blen (b ++ source_bytes source) = (blen b + blen (source_bytes source))%N)
      by (unfold blen; rewrite length_app; lia). rewrite Hblen in Hsize.
    destruct (line_split b) as [[Hno Hlen]|(pre & post & -> & Hno & Hlen)]; rewrite Hlen.
    + rewrite first_line_no_lf by done.
      assert (is_some_and is_lf (b !! pred (length b)) = false) as ->.
      { rewrite <- last_lookup. by apply no_lf_last. }
      rewrite saturating_gtb by (unfold blen in *; lia). rewrite take_ge by done.
      assert (Hob : blen (output ++ b) = (blen output + blen b)%N) by (unfold blen; rewrite length_app; lia).
      specialize (IH (output ++ b) Hs (no_lf_app _ _ Ho Hno)). rewrite (no_lf_last (output ++ b)) by (by apply no_lf_app).
      destruct (first_line (source_bytes source)) as [line rest] eqn:El. cbn [fst snd]. rewrite app_assoc.
      destruct (N.ltb_spec MAX_FRAME_BYTES (blen output + N.of_nat (length b))) as [Hover|Hfit].
      * assert ((MAX_FRAME_BYTES <? content_length ((output ++ b) ++ line))%N = true) as ->; [|done].
        apply N.ltb_lt. rewrite content_length_app by (by apply no_lf_app). rewrite Hob. unfold blen in *. lia.
      * rewrite Hob in IH. apply IH; [done|lia].
    + rewrite <- app_assoc, first_line_no_lf by done. cbn [app first_line fst snd]. change (is_lf LF) with true.
      cbv iota. cbn [fst snd pred]. rewrite list_lookup_middle by done. cbn [is_some_and]. change (is_lf LF) with true.
      cbv iota. rewrite content_length_app by done.
      assert (content_length (pre ++ [LF]) = blen pre) as ->.
      { rewrite content_length_app by done. change (content_length [LF]) with 0%N. lia. }
      rewrite saturating_gtb by (unfold blen in *; rewrite length_app in *; cbn in *; lia).
      assert ((MAX_FRAME_BYTES + 1 <? blen output + N.of_nat (S (length pre)))%N
              = (MAX_FRAME_BYTES <? blen output + blen pre)%N) as ->.
      { unfold blen. apply eq_true_iff_eq. rewrite !N.ltb_lt. lia. }
      destruct (_ <? _)%N; [done|].
      assert (take (S (length pre)) (pre ++ LF :: post) = pre ++ [LF]) as ->.
      { rewrite cons_middle, app_assoc. apply take_app_length'. rewrite length_app. cbn. lia. }
      assert (drop (S (length pre)) (pre ++ LF :: post) = post) as ->.
      { rewrite cons_middle, app_assoc. apply drop_app_length'. rewrite length_app. cbn. lia. }
      rewrite app_assoc, ends_with_lf_snoc.
      assert (bool_decide ((output ++ pre) ++ [LF] = []) = false) as ->.
      { apply bool_decide_eq_false. by destruct (output ++ pre). }
      eexists. split; [done|]. case_bool_decide as Hpost; [by subst post|]. split; [|done].
      constructor; [by eexists|done].
Qed.

(** ** Adapters *)

(** How two values may differ: [edit_field k E] in the field [k] only, and there by [E]. *)
Definition edit : Type := value -> value -> Prop.
Definition edit_any : edit := fun _ _ => True.
Definition edit_none : edit := fun v v' => v' = v.
Definition edit_field (k : string) (E : edit) : edit := fun v v' =>
  v' = v \/ exists m w w', v = JObject m /\ obj_get k m = Some w /\ E w w' /\ v' = JObject (obj_alter (fun _ => w') k m).
Definition edit_items (E : edit) : edit := fun v v' =>
  v' = v \/ exists l l', v = JArray l /\ v' = JArray l' /\ Forall2 E l l'.
Definition edit_then (E E' : edit) : edit := fun v v' => exists u, E v u /\ E' u v'.

(** The provider fields of the pinned schema. *)
Definition provider_edit : edit := edit_field "providerId" edit_any.
Definition history_edit : edit :=
  edit_field "snapshot" (edit_field "state" (edit_field "effectiveModel" provider_edit)).
Definition notification_edit (method : string) : edit :=
  if one_of method ["session/started"; "session/resumed"; "session/forked"]
  then edit_field "params" (edit_field "session" provider_edit)
  else if String.eqb method "session/modelChanged" then edit_field "params" provider_edit
  else edit_none.
Definition event_edit : edit := fun v v' =>
  match vget_str "method" v with Some method => notification_edit method v v' | None => v' = v end.
Definition result_edit (method : string) : edit :=
  if one_of method ["session/start"; "session/resume"; "session/fork"; "session/read"]
  then edit_then (edit_field "session" provider_edit) (edit_field "history" history_edit)
  else if String.eqb method "session/list" then edit_field "sessions" (edit_items provider_edit)
  else if String.eqb method "model/list"
  then edit_then provider_edit (edit_field "models" (edit_items provider_edit))
  else if String.eqb method "view/page" then edit_field "events" (edit_items event_edit)
  else edit_none.

(** [f] changes only what [E] allows, leaves nothing to adapt, and reports a change. *)
Definition sound (f : adapter) (E : edit) : Prop :=
  forall v v' c, f v = Ok (v', c) -> E v v' /\ f v' = Ok (v', false) /\ (c = false -> v' = v).

Lemma obj_alter_twice k x y m : obj_alter (fun _ => y) k (obj_alter (fun _ => x) k m) = obj_alter (fun _ => y) k m.
Proof.
  induction m as [|[k' v] m IH]; [done|]. cbn. destruct (String.eqb k k') eqn:E; cbn; rewrite E; [done|by rewrite IH].
Qed.
Lemma obj_alter_id k x m : obj_get k m = Some x -> obj_alter (fun _ => x) k m = m.
Proof.
  induction m as [|[k' v] m IH]; [done|]. cbn. destruct (String.eqb k k'); [by intros [= ->]|].
  intros H. by rewrite IH.
Qed.
Lemma get_alter_eq k w w' m : obj_get k m = Some w -> obj_get k (obj_alter (fun _ => w') k m) = Some w'.
Proof. intros H. by rewrite obj_get_alter, String.eqb_refl, H. Qed.
Lemma get_alter_ne k k' w' m : k <> k' -> obj_get k (obj_alter (fun _ => w') k' m) = obj_get k m.
Proof. intros H. rewrite obj_get_alter. by destruct (String.eqb_spec k k'). Qed.

Lemma sound_unchanged : sound unchanged edit_none.
Proof. by intros v v' c [= <- <-]. Qed.

(** The two cases of a field adapter. *)
Lemma in_field_cases k f v v' c :
  in_field k f v = Ok (v', c) ->
  (v' = v /\ c = false /\ in_field k f v = Ok (v, false))
  \/ exists m w w', v = JObject m /\ obj_get k m = Some w /\ f w = Ok (w', c) /\ v' = JObject (obj_alter (fun _ => w') k m).
Proof.
  intros H. assert (H0 := H). destruct v as [| | | | |m]; try (by left; injection H as <- <-). cbn [in_field] in H.
  destruct (obj_get k m) as [w|] eqn:Ew; [right|left; by injection H as <- <-].
  apply bind_ok in H as ([w' c'] & Hw & [= <- <-]). by exists m, w, w'.
Qed.

Lemma sound_in_field k f E : sound f E -> sound (in_field k f) (edit_field k E).
Proof.
  intros Hf v v' c [(-> & -> & H)|(m & w & w' & -> & Ew & Hw & ->)]%in_field_cases; [split; [by left|done]|].
  apply Hf in Hw as (HE & Hfix & Hid). split; [right; by exists m, w, w'|]. cbn [in_field].
  rewrite (get_alter_eq k w w' m Ew), Hfix. cbn [mbind result_bind]. rewrite obj_alter_twice.
  split; [done|]. intros Hc. rewrite (Hid Hc). by rewrite obj_alter_id.
Qed.

Lemma sound_in_items f E : sound f E -> sound (in_items f) (edit_items E).
Proof.
  intros Hf v v' c H. destruct v as [| | | |l|]; try (by injection H as <- <-; split; [left|]).
  cbn [in_items] in H. apply bind_ok in H as ([l' c'] & Hl & [= <- <-]).
  assert (Hall : Forall2 E l l' /\ adapt_all f l' = Ok (l', false) /\ (c' = false -> l' = l)).
  { revert l' c' Hl. induction l as [|x l IH]; intros l' c'; cbn [adapt_all]; [by intros [= <- <-]|].
    intros ([x' cx] & Hx & H)%bind_ok. apply bind_ok in H as ([l'' cl] & Hl & [= <- <-]).
    apply Hf in Hx as (HE & Hfix & Hid). destruct (IH _ _ Hl) as (HEs & Hfixs & Hids). cbn [adapt_all].
    rewrite Hfix. cbn [mbind result_bind]. rewrite Hfixs. split; [by constructor|]. split; [done|].
    intros [-> ->]%orb_false_elim. by rewrite Hid, Hids. }
  destruct Hall as (HE & Hfix & Hid). split; [right; by exists l, l'|]. cbn [in_items]. rewrite Hfix.
  split; [done|]. intros Hc. by rewrite Hid.
Qed.

(** An adapter of one field leaves the others alone, and depends on its own alone. *)
Lemma in_field_other k f v v' c k' : in_field k f v = Ok (v', c) -> k' <> k -> vget k' v' = vget k' v.
Proof. intros [(-> & _)|(m & w & w' & -> & _ & _ & ->)]%in_field_cases Hne; [done|]. by apply get_alter_ne. Qed.
Lemma in_field_fixed k f v v' :
  in_field k f v = Ok (v, false) -> vget k v' = vget k v -> in_field k f v' = Ok (v', false).
Proof.
  intros H Hget. destruct v' as [| | | | |m']; try done. cbn [in_field vget] in *.
  destruct (obj_get k m') as [w|] eqn:Ew; [|done].
  destruct v as [| | | | |m]; try done. cbn [vget] in Hget. cbn [in_field] in H. rewrite <- Hget in H.
  apply bind_ok in H as ([w' c] & Hw & [= Hm ->]). rewrite Hw. cbn [mbind result_bind].
  assert (w' = w) as ->; [|by rewrite obj_alter_id].
  pose proof (get_alter_eq k w w' m (eq_sym Hget)) as H'. rewrite Hm in H'. congruence.
Qed.

Lemma sound_then k k' f g E E' :
  k <> k' -> sound (in_field k f) E -> sound (in_field k' g) E' ->
  sound (then_ (in_field k f) (in_field k' g)) (edit_then E E').
Proof.
  intros Hne Hf Hg v v2 c. unfold then_. intros ([v1 c1] & H1 & H)%bind_ok.
  apply bind_ok in H as ([v2' c2] & H2 & [= <- <-]).
  pose proof (in_field_other _ _ _ _ _ k H2 Hne) as Hget.
  apply Hf in H1 as (HE & Hfix & Hid). apply Hg in H2 as (HE' & Hfix' & Hid').
  split; [by exists v1|]. rewrite (in_field_fixed _ _ _ _ Hfix Hget). cbn [mbind result_bind]. rewrite Hfix'.
  split; [done|]. intros [-> ->]%orb_false_elim. by rewrite Hid', Hid.
Qed.

(** ** The provider fields of the schema, as paths *)

(** A step into a value: a field, or every item of an array. *)
Inductive leg := Key (k : string) | Each.
Fixpoint values_at (path : list leg) (v : value) : list value :=
  match path with
  | [] => [v]
  | Key k :: path' => from_option (values_at path') [] (vget k v)
  | Each :: path' => match v with JArray l => flat_map (values_at path') l | _ => [] end
  end.
Definition in_session : list leg := [Key "session"; Key "providerId"].
Definition notification_paths (method : string) : list (list leg) :=
  if one_of method ["session/started"; "session/resumed"; "session/forked"] then [Key "params" :: in_session]
  else if String.eqb method "session/modelChanged" then [[Key "params"; Key "providerId"]]
  else [].
Definition result_paths (method : string) : list (list leg) :=
  if one_of method ["session/start"; "session/resume"; "session/fork"; "session/read"] then
    [in_session; [Key "history"; Key "snapshot"; Key "state"; Key "effectiveModel"; Key "providerId"]]
  else if String.eqb method "session/list" then [[Key "sessions"; Each; Key "providerId"]]
  else if String.eqb method "model/list" then [[Key "providerId"]; [Key "models"; Each; Key "providerId"]]
  else [].
Definition values_on (paths : list (list leg)) (v : value) : list value := flat_map (fun path => values_at path v) paths.
(** A page of a view holds events, each a notification of its own. *)
Definition event_values (event : value) : list value :=
  from_option (fun method => values_on (notification_paths method) event) [] (vget_str "method" event).
Definition result_values (method : string) (result : value) : list value :=
  if String.eqb method "view/page" then flat_map event_values (values_at [Key "events"; Each] result)
  else values_on (result_paths method) result.

(** What the caller sees of a provider. *)
Definition relabelled (public : string) (v : value) : value :=
  match v with JString s => if String.eqb s "meta" then JString public else v | _ => v end.
Definition public_label (public : string) (v : value) : Prop := v = JNull \/ v = JString public.

(** [f] relabels all that [get] finds, and nothing is left with another label. *)
Definition relabels (public : string) (f : adapter) (get : value -> list value) : Prop :=
  forall v v' c, f v = Ok (v', c) -> get v' = relabelled public <$> get v /\ Forall (public_label public) (get v').

Section Paths.
  Context (public : string).
  Abbreviation relabels := (relabels public).

Lemma relabels_provider : relabels (adapt_provider public) (values_at []).
Proof.
  intros v v' c. unfold adapt_provider. destruct v as [| | |s| |]; try done.
  - intros [= <- <-]. split; [done|]. repeat constructor.
  - cbn [values_at fmap list_fmap list.list_fmap relabelled]. change INTERNAL_PROVIDER with "meta".
    destruct (String.eqb s "meta"); [intros [= <- <-]; split; [done|repeat constructor; by right]|].
    destruct (String.eqb_spec s public) as [->|]; [|done]. intros [= <- <-]. split; [done|]. constructor; [by right|constructor].
Qed.
Lemma relabels_none f get : (forall v, get v = []) -> relabels f get.
Proof. intros H v v' c _. rewrite !H. by split. Qed.
Lemma relabels_ext f get get' : (forall v, get v = get' v) -> relabels f get -> relabels f get'.
Proof. intros H Hf v v' c Hv. rewrite <- !H. by eapply Hf. Qed.
Lemma relabels_field k f get : relabels f get -> relabels (in_field k f) (fun v => from_option get [] (vget k v)).
Proof.
  intros Hf v v' c H. assert (H0 := H). apply in_field_cases in H as [(-> & _ & _)|(m & w & w' & -> & Ew & Hw & ->)].
  - destruct v as [| | | | |m]; try (by split). cbn [in_field vget] in *. destruct (obj_get k m) as [w|] eqn:Ew; [|by split].
    apply bind_ok in H0 as ([w' c'] & Hw & [= Hm _]). pose proof (get_alter_eq k w w' m Ew) as H'. rewrite Hm, Ew in H'.
    injection H' as <-. by apply Hf in Hw.
  - cbn [vget]. rewrite (get_alter_eq k w w' m Ew), Ew. by apply Hf in Hw.
Qed.
Lemma relabels_items f get : relabels f get -> relabels (in_items f) (fun v => match v with JArray l => flat_map get l | _ => [] end).
Proof.
  intros Hf v v' c H. destruct v as [| | | |l|]; try (by injection H as <- <-).
  cbn [in_items] in H. apply bind_ok in H as ([l' c'] & Hl & [= <- <-]).
  revert l' c' Hl. induction l as [|x l IH]; intros l' c'; cbn [adapt_all]; [by intros [= <- <-]|].
  intros ([x' cx] & Hx & H)%bind_ok. apply bind_ok in H as ([l'' cl] & Hl & [= <- <-]).
  apply Hf in Hx as [Hx Hx']. destruct (IH _ _ Hl) as [IH1 IH2]. cbn [flat_map].
  rewrite Hx, IH1, fmap_app, <- Hx, <- IH1. split; [done|by apply Forall_app].
Qed.
Lemma relabels_then k k' f g get get' : k <> k' ->
  relabels (in_field k f) (fun v => from_option get [] (vget k v)) ->
  relabels (in_field k' g) (fun v => from_option get' [] (vget k' v)) ->
  relabels (then_ (in_field k f) (in_field k' g)) (fun v => from_option get [] (vget k v) ++ from_option get' [] (vget k' v)).
Proof.
  intros Hne Hf Hg v v2 c. unfold then_. intros ([v1 c1] & H1 & H)%bind_ok. apply bind_ok in H as ([v2' c2] & H2 & [= <- <-]).
  pose proof (in_field_other _ _ _ _ _ k H2 Hne) as Hget. pose proof (in_field_other _ _ _ _ _ k' H1 (not_eq_sym Hne)) as Hget'.
  apply Hf in H1 as [H1 H1']. apply Hg in H2 as [H2 H2']. rewrite Hget, fmap_app, <- H1, H2, Hget'.
  split; [done|]. apply Forall_app. split; [done|]. by rewrite <- Hget', <- H2.
Qed.

Lemma values_on_one path v : values_on [path] v = values_at path v.
Proof. apply app_nil_r. Qed.
Lemma relabels_path k path f : relabels f (values_at path) -> relabels (in_field k f) (values_at (Key k :: path)).
Proof. apply relabels_field. Qed.
Lemma relabels_each path f : relabels f (values_at path) -> relabels (in_items f) (values_at (Each :: path)).
Proof. apply relabels_items. Qed.
Lemma relabels_two k path k' path' f g : k <> k' ->
  relabels f (values_at path) -> relabels g (values_at path') ->
  relabels (then_ (in_field k f) (in_field k' g)) (values_on [Key k :: path; Key k' :: path']).
Proof.
  intros Hne Hf Hg. eapply relabels_ext; [|apply (relabels_then k k' f g (values_at path) (values_at path') Hne)]; [|by apply relabels_field..].
  intros v. unfold values_on. cbn [flat_map values_at]. by rewrite app_nil_r.
Qed.

Lemma relabels_notification method : relabels (adapt_server_notification method public) (values_on (notification_paths method)).
Proof.
  unfold adapt_server_notification, notification_providers, notification_paths.
  destruct (one_of method _); [|destruct (String.eqb method _)].
  - eapply relabels_ext; [intros v; symmetry; apply values_on_one|]. by repeat apply relabels_path; apply relabels_provider.
  - eapply relabels_ext; [intros v; symmetry; apply values_on_one|]. by repeat apply relabels_path; apply relabels_provider.
  - by apply relabels_none.
Qed.

(** Adapting a notification does not change its method. *)
Lemma notification_method method v v' c :
  adapt_server_notification method public v = Ok (v', c) -> vget_str "method" v' = vget_str "method" v.
Proof.
  unfold adapt_server_notification, notification_providers, vget_str.
  destruct (one_of method _); [by intros H; rewrite (in_field_other _ _ _ _ _ "method" H)|].
  destruct (String.eqb method _); [by intros H; rewrite (in_field_other _ _ _ _ _ "method" H)|by intros [= <- <-]].
Qed.

Lemma relabels_event : relabels (event_providers (adapt_provider public)) event_values.
Proof.
  intros v v' c. unfold event_providers, event_values. destruct (vget_str "method" v) as [method|] eqn:Em.
  - intros H. rewrite (notification_method _ _ _ _ H), Em. by apply relabels_notification in H.
  - intros [= <- <-]. by rewrite Em.
Qed.
Lemma relabels_result method : relabels (adapt_server_result method public) (result_values method).
Proof.
  unfold adapt_server_result, result_providers, result_values, result_paths.
  pose proof relabels_provider as Hp.
  destruct (one_of method ["session/start"; "session/resume"; "session/fork"; "session/read"]) eqn:E.
  { assert (String.eqb method "view/page" = false) as ->.
    { apply String.eqb_neq. intros ->. done. }
    apply relabels_two; [done|by apply relabels_path|by repeat apply relabels_path]. }
  destruct (String.eqb_spec method "session/list") as [->|_].
  { eapply relabels_ext; [intros v; symmetry; apply values_on_one|]. by apply relabels_path, relabels_each, relabels_path. }
  destruct (String.eqb_spec method "model/list") as [->|_].
  { eapply relabels_ext; [|apply (relabels_then "providerId" "models" _ _ (values_at []) (values_at [Each; Key "providerId"]))];
      [|done|by apply relabels_field|by apply relabels_field, relabels_each, relabels_path].
    intros v. unfold values_on. cbn -[String.eqb vget]. by rewrite app_nil_r. }
  destruct (String.eqb method "view/page"); [|by apply relabels_none].
  eapply relabels_ext; [|apply relabels_field, relabels_items, relabels_event].
  intros v. cbn -[String.eqb vget]. destruct (vget "events" v) as [[| | | |l|]|]; try done. cbn.
  induction l as [|x l IH]; [done|]. cbn. by rewrite IH.
Qed.
End Paths.

Section Schema.
  Context (public : string) (Hpublic : public <> INTERNAL_PROVIDER).

Lemma sound_provider : sound (adapt_provider public) edit_any.
Proof using Hpublic.
  intros v v' c. unfold adapt_provider. destruct v as [| | |s| |]; try done; [by intros [= <- <-]|].
  destruct (String.eqb_spec s INTERNAL_PROVIDER) as [->|Hs].
  - intros [= <- <-]. split; [done|]. split; [|done]. rewrite String.eqb_refl.
    by destruct (String.eqb_spec public INTERNAL_PROVIDER).
  - destruct (String.eqb_spec s public) as [->|]; [|done]. intros [= <- <-]. split; [done|]. split; [|done].
    rewrite String.eqb_refl. by destruct (String.eqb_spec public INTERNAL_PROVIDER).
Qed.

Lemma sound_notification method : sound (adapt_server_notification method public) (notification_edit method).
Proof using Hpublic.
  unfold adapt_server_notification, notification_providers, notification_edit.
  destruct (one_of method _); [by repeat apply sound_in_field; apply sound_provider|].
  destruct (String.eqb method _); [by repeat apply sound_in_field; apply sound_provider|apply sound_unchanged].
Qed.

Lemma sound_event : sound (event_providers (adapt_provider public)) event_edit.
Proof using Hpublic.
  intros v v' c. unfold event_providers, event_edit. destruct (vget_str "method" v) as [method|] eqn:Em.
  - intros H. pose proof (notification_method public _ _ _ _ H) as Em'. rewrite Em' , Em. by apply sound_notification.
  - intros [= <- <-]. by rewrite Em.
Qed.

Lemma sound_result method : sound (adapt_server_result method public) (result_edit method).
Proof using Hpublic.
  unfold adapt_server_result, result_providers, result_edit.
  pose proof sound_provider as Hp. pose proof sound_event as He.
  destruct (one_of method _).
  { apply sound_then; [done|..]; repeat apply sound_in_field; done. }
  destruct (String.eqb method _); [by apply sound_in_field, sound_in_items, sound_in_field|].
  destruct (String.eqb method _).
  { apply sound_then; [done|by apply sound_in_field|by apply sound_in_field, sound_in_items, sound_in_field]. }
  destruct (String.eqb method _); [by apply sound_in_field, sound_in_items|apply sound_unchanged].
Qed.
End Schema.

(** ** Frames *)

(** The positions that matter in a server frame. *)
Definition frame_adapter {SJ : SerdeJson} (pending : PendingRequests) (public : string) : adapter := fun v =>
  match vget_str "method" v with
  | Some method => adapt_server_notification method public v
  | None =>
      match (vget "id" v ≫= rpc_id_key) ≫= (fun key => pending !! key) with
      | Some method => in_field "result" (adapt_server_result method public) v
      | None => unchanged v
      end
  end.
Definition frame_edit {SJ : SerdeJson} (pending : PendingRequests) : edit := fun v v' =>
  match vget_str "method" v with
  | Some method => notification_edit method v v'
  | None =>
      match (vget "id" v ≫= rpc_id_key) ≫= (fun key => pending !! key) with
      | Some method => edit_field "result" (result_edit method) v v'
      | None => v' = v
      end
  end.

Lemma frame_adapter_sound {SJ : SerdeJson} pending public :
  public <> INTERNAL_PROVIDER -> sound (frame_adapter pending public) (frame_edit pending).
Proof.
  intros Hp v v' c. unfold frame_adapter, frame_edit. destruct (vget_str "method" v) as [method|] eqn:Em.
  - intros H. rewrite (notification_method _ _ _ _ _ H), Em. by apply sound_notification.
  - intros H. assert (Hsame : vget_str "method" v' = None /\ vget "id" v' = vget "id" v).
    { destruct (_ ≫= (fun key => pending !! key)); [|by injection H as <- <-]. unfold vget_str in *.
      by rewrite !(in_field_other _ _ _ _ _ _ H) by done. }
    destruct Hsame as [Em' Eid]. rewrite Em', Eid. destruct (_ ≫= (fun key => pending !! key)).
    + by apply (sound_in_field _ _ _ (sound_result _ Hp _)) in H.
    + by apply sound_unchanged in H.
Qed.

(** All that names a provider in a frame of the host: a notification's fields, or those of
    the result of the request it answers. *)
Definition frame_values {SJ : SerdeJson} (pending : PendingRequests) (v : value) : list value :=
  match vget_str "method" v with
  | Some method => values_on (notification_paths method) v
  | None =>
      match (vget "id" v ≫= rpc_id_key) ≫= (fun key => pending !! key) with
      | Some method => from_option (result_values method) [] (vget "result" v)
      | None => []
      end
  end.
Lemma relabels_frame {SJ : SerdeJson} pending public : relabels public (frame_adapter pending public) (frame_values pending).
Proof.
  intros v v' c. unfold frame_adapter, frame_values. destruct (vget_str "method" v) as [method|] eqn:Em.
  - intros H. rewrite (notification_method _ _ _ _ _ H), Em. by apply relabels_notification in H.
  - destruct (_ ≫= (fun key => pending !! key)) as [method|] eqn:Ep; [|by intros [= <- <-]; rewrite Em, Ep].
    intros H. assert (vget_str "method" v' = None) as -> by (unfold vget_str in *; by rewrite (in_field_other _ _ _ _ _ "method" H)).
    rewrite (in_field_other _ _ _ _ _ "id" H) by done. rewrite Ep. by apply (relabels_field _ _ _ _ (relabels_result public method)) in H.
Qed.

Section Frames.
  Context {SJ : SerdeJson}.

(** What happens to the table, and which responses pass. *)
Definition settles (v : value) (pending pending' : PendingRequests) : Prop :=
  match vget_str "method" v with
  | Some _ => pending' = pending
  | None =>
      match vget "id" v ≫= rpc_id_key with
      | Some key => pending' = delete key pending
                    /\ (is_Some (vget "result" v) -> is_Some (pending !! key) /\ vget "error" v = None)
      | None => pending' = pending /\ vget "result" v = None /\ vget "error" v = None
      end
  end.

Lemma adapt_server_value_ok v pending public v' c pending' :
  adapt_server_value v pending public = Ok (v', c, pending') ->
  frame_adapter pending public v = Ok (v', c) /\ settles v pending pending'.
Proof.
  unfold adapt_server_value, frame_adapter, settles. destruct (vget_str "method" v) as [method|].
  { intros ([w cw] & Hw & [= <- <- <-])%bind_ok. done. }
  destruct (vget "id" v ≫= rpc_id_key) as [key|] eqn:Ek; cbn [mbind option_bind].
  - intros (u & Hr%reject_ok & H)%bind_ok.
    assert (Herr : is_Some (vget "result" v) -> vget "error" v = None).
    { intros Hres. destruct (vget "error" v) as [e|]; [|done]. exfalso.
      by rewrite (bool_decide_true _ Hres), (bool_decide_true (is_Some (Some e))) in Hr by (by eexists). }
    destruct (pending !! key) as [method|] eqn:Ep.
    + apply bind_ok in H as ([w cw] & Hw & [= <- <- <-]). split; [done|]. split; [done|]. split; [by eexists|auto].
    + apply bind_ok in H as (u' & Hres%reject_ok & [= <- <- <-]). split; [done|].
      split; [by rewrite delete_id|]. intros Hs. by rewrite bool_decide_true in Hres.
  - intros (u & Hr%reject_ok & [= <- <- <-])%bind_ok. split; [done|]. split; [done|].
    cbn [existsb] in Hr. apply orb_false_elim in Hr as [_ Hr]. apply orb_false_elim in Hr as [H1 Hr].
    apply orb_false_elim in Hr as [H2 _]. apply bool_decide_eq_false in H1, H2.
    split; by apply eq_None_not_Some.
Qed.

Lemma set_at_path_get path w v x : at_path path v = Some x -> at_path path (set_at_path path w v) = Some w.
Proof.
  revert v. induction path as [|k path IH]; intros v; [done|]. cbn [at_path set_at_path].
  destruct v as [| | | | |m]; try done. cbn [vget]. rewrite obj_get_alter, String.eqb_refl.
  destruct (obj_get k m) as [u|]; [|done]. cbn. apply IH.
Qed.

(** [q] leaves [p] at some field. *)
Fixpoint diverges (p q : list string) : bool :=
  match p, q with
  | a :: p', b :: q' => if String.eqb a b then diverges p' q' else true
  | _, _ => false
  end.
Lemma set_at_path_other p q w v : diverges p q = true -> at_path q (set_at_path p w v) = at_path q v.
Proof.
  revert q v. induction p as [|a p IH]; intros [|b q] v; try done. cbn [diverges]. cbn [at_path set_at_path].
  destruct v as [| | | | |m]; try done. cbn [vget]. rewrite obj_get_alter.
  destruct (String.eqb_spec a b) as [->|Hne].
  - rewrite String.eqb_refl. intros Hd. destruct (obj_get b m); [|done]. cbn. by apply IH.
  - intros _. by destruct (String.eqb_spec b a) as [->|].
Qed.

Lemma register_forward method v f pending b pending' :
  register method v f pending = (Forward b, pending') ->
  b = f /\ (pending' = pending \/ exists key, vget "id" v ≫= rpc_id_key = Some key
             /\ pending !! key = None /\ size pending < MAX_PENDING_REQUESTS /\ pending' = <[key := method]> pending).
Proof.
  unfold register. destruct (vget "id" v) as [id|]; [|intros [= <- <-]; auto]. cbn [mbind option_bind].
  destruct (rpc_id_key id) as [key|]; [|intros [= <- <-]; auto].
  case_bool_decide as Hin; [done|]. destruct (Nat.leb_spec MAX_PENDING_REQUESTS (size pending)); [done|].
  intros [= <- <-]. split; [done|]. right. exists key. split; [done|]. split; [by apply eq_None_not_Some|done].
Qed.
Lemma register_other method v f pending r pending' :
  register method v f pending = (r, pending') -> (forall b, r <> Forward b) -> pending' = pending.
Proof.
  unfold register. intros H Hr. repeat case_match; simplify_eq; try done; by destruct (Hr _ eq_refl).
Qed.

(** What the relay reads of a command: the frame's value, its method. *)
Definition command (frame : bytes) : option (value * string) :=
  v ← parse_frame frame; method ← as_object v ≫= get_str "method"; Some (v, method).

Lemma adapt_client_frame_cases frame pending public r pending' :
  adapt_client_frame frame pending public = (r, pending') ->
  match command frame with
  | None => r = Forward frame /\ pending' = pending
  | Some (v, method) =>
      match named_provider method v with
      | Some p =>
          if String.eqb p public then
            let v' := set_at_path (default [] (provider_path method)) (JString INTERNAL_PROVIDER) v in
            register method v' (encode_frame v') pending = (r, pending')
          else if is_empty p then register method v frame pending = (r, pending')
          else r = refuse_provider v public /\ pending' = pending
      | None => register method v frame pending = (r, pending')
      end
  end.
Proof.
  unfold adapt_client_frame, command. destruct (parse_frame frame) as [v|]; [|by intros [= <- <-]].
  cbn [mbind option_bind]. destruct (as_object v ≫= get_str "method") as [method|]; [|by intros [= <- <-]].
  cbn [mbind option_bind]. destruct (named_provider method v) as [p|]; [|done].
  destruct (String.eqb p public); [done|]. destruct (is_empty p); [done|]. by intros [= <- <-].
Qed.

Lemma refuse_provider_not_forward v public b : refuse_provider v public <> Forward b.
Proof. unfold refuse_provider. by repeat case_match. Qed.

(** ** Traces *)

Inductive rpc_event := Asked (key : string) | Settled (key : string).
#[local] Instance rpc_event_eq_dec : EqDecision rpc_event.
Proof. solve_decision. Defined.

(** A request goes to the host under an id the relay can correlate; a response under
    the id of a request in flight comes back. *)
Definition client_events (public : string) (frame : bytes) (r : Relay) : list rpc_event :=
  match command frame, adapt_client_frame frame (requests r) public with
  | Some (v, _), (Forward _, _) =>
      match vget "id" v ≫= rpc_id_key with Some key => [Asked key] | None => [] end
  | _, _ => []
  end.
Definition server_events (frame : bytes) (r : Relay) : list rpc_event :=
  match parse_frame frame with
  | Some v =>
      match vget_str "method" v, vget "id" v ≫= rpc_id_key with
      | None, Some key => if bool_decide (is_Some (requests r !! key)) then [Settled key] else []
      | _, _ => []
      end
  | None => []
  end.

Inductive relay_trace (public : string) : Relay -> list rpc_event -> Prop :=
  | trace_start : relay_trace public Relay_start []
  | trace_client frame r t :
      relay_trace public r t -> relay_trace public (client_step public frame r) (t ++ client_events public frame r)
  | trace_server frame r r' t :
      relay_trace public r t -> server_step public frame r = Ok r' ->
      relay_trace public r' (t ++ server_events frame r).

Definition count (e : rpc_event) (t : list rpc_event) : nat := length (filter (fun e' => e' = e) t).
Lemma count_app e t t' : count e (t ++ t') = count e t + count e t'.
Proof. unfold count. by rewrite filter_app, length_app. Qed.
Lemma count_one e e' : count e [e'] = if bool_decide (e' = e) then 1 else 0.
Proof. unfold count. rewrite filter_cons, filter_nil. by do 2 case_decide || case_bool_decide. Qed.

Definition in_flight (pending : PendingRequests) (key : string) : nat :=
  if bool_decide (is_Some (pending !! key)) then 1 else 0.

Lemma in_flight_some pending key m : pending !! key = Some m -> in_flight pending key = 1.
Proof. intros H. unfold in_flight. by rewrite H. Qed.
Lemma in_flight_none pending key : pending !! key = None -> in_flight pending key = 0.
Proof. intros H. unfold in_flight. by rewrite H. Qed.
Lemma in_flight_same pending pending' key : pending !! key = pending' !! key -> in_flight pending key = in_flight pending' key.
Proof. intros H. unfold in_flight. by rewrite H. Qed.
Lemma count_one_eq e : count e [e] = 1.
Proof. rewrite count_one. by rewrite bool_decide_true. Qed.
Lemma count_one_ne e e' : e' <> e -> count e [e'] = 0.
Proof. intros H. rewrite count_one. by rewrite bool_decide_false. Qed.

Definition balanced (r : Relay) (t : list rpc_event) : Prop :=
  size (requests r) <= MAX_PENDING_REQUESTS
  /\ forall key, count (Asked key) t = count (Settled key) t + in_flight (requests r) key.

(** The method's set_at_path keeps the id: it edits [params]. *)
Lemma provider_path_id method w v :
  vget "id" (set_at_path (default [] (provider_path method)) w v) = vget "id" v \/ provider_path method = None.
Proof.
  unfold provider_path. destruct (String.eqb method _); [left|destruct (String.eqb method _); [left|by right]];
    cbn [default from_option Datatypes.id]; destruct v as [| | | | |m]; try done; cbn [set_at_path vget];
    by rewrite obj_get_alter.
Qed.
Lemma named_provider_path method v p : named_provider method v = Some p -> provider_path method <> None.
Proof. unfold named_provider. by destruct (provider_path method). Qed.

Lemma client_step_balanced public frame r t :
  balanced r t -> balanced (client_step public frame r) (t ++ client_events public frame r).
Proof.
  intros [Hsize Hcount]. unfold client_step, client_events.
  destruct (adapt_client_frame frame (requests r) public) as [c p'] eqn:E.
  pose proof (adapt_client_frame_cases _ _ _ _ _ E) as Hcases.
  assert (Hsame : p' = requests r -> forall r', requests r' = p' -> balanced r' (t ++ [])).
  { intros -> r' Hr'. unfold balanced. rewrite Hr', app_nil_r. done. }
  assert (Hreg : forall method v f, register method v f (requests r) = (c, p') ->
    forall r', requests r' = p' ->
    balanced r' (t ++ match c with
                      | Forward _ => match vget "id" v ≫= rpc_id_key with Some key => [Asked key] | None => [] end
                      | _ => [] end)).
  { intros method v f Hr r' Hr'. destruct c as [b|b|].
    2,3: apply Hsame; [by eapply register_other|done].
    pose proof (register_forward _ _ _ _ _ _ Hr) as [_ [->|(key & Hkey & Hfresh & Hlt & ->)]].
    - unfold register in Hr. destruct (vget "id" v) as [id|]; [|by apply Hsame]. cbn [mbind option_bind].
      destruct (rpc_id_key id) as [key|]; [|by apply Hsame]. exfalso.
      case_bool_decide as Hin; [done|]. destruct (_ <=? _); [done|]. injection Hr as _ Hr.
      apply Hin. rewrite <- Hr, lookup_insert_eq. by eexists.
    - rewrite Hkey. unfold balanced. rewrite Hr'. split; [rewrite map_size_insert_None by done; lia|].
      intros key'. rewrite !count_app, Hcount, (count_one_ne (Settled key')) by done.
      destruct (decide (key = key')) as [->|Hne].
      + rewrite count_one_eq, (in_flight_none (requests r)) by done.
        rewrite (in_flight_some _ key' method) by apply lookup_insert_eq. lia.
      + rewrite count_one_ne by congruence. rewrite (in_flight_same (<[key:=method]> (requests r)) (requests r)) by (by apply lookup_insert_ne). lia. }
  destruct (command frame) as [[v method]|].
  - destruct (named_provider method v) as [p|] eqn:En.
    + destruct (String.eqb p public).
      * pose proof (Hreg _ _ _ Hcases) as H.
        destruct (provider_path_id method (JString INTERNAL_PROVIDER) v) as [Hid|Hid];
          [|by apply named_provider_path in En].
        rewrite Hid in H. destruct c; by apply H.
      * destruct (is_empty p); [pose proof (Hreg _ _ _ Hcases) as H; destruct c; by apply H|].
        destruct Hcases as [Hc ->].
        destruct c as [b|b|]; [|by apply Hsame..]. symmetry in Hc. by destruct (refuse_provider_not_forward v public b).
    + pose proof (Hreg _ _ _ Hcases) as H; destruct c; by apply H.
  - destruct Hcases as [-> ->]. by apply Hsame.
Qed.

Lemma server_step_balanced public frame r r' t :
  balanced r t -> server_step public frame r = Ok r' -> balanced r' (t ++ server_events frame r).
Proof.
  intros [Hsize Hcount]. unfold server_step, adapt_server_frame, server_events.
  intros ([b p] & H & [= <-])%bind_ok. apply bind_ok in H as (v & Hv%ok_or_ok & H).
  apply bind_ok in H as (u & _ & H). apply bind_ok in H as ([[v' c] p'] & H & [= _ <-]).
  apply adapt_server_value_ok in H as [_ Hset]. rewrite Hv. unfold settles in Hset. unfold balanced. cbn [requests].
  destruct (vget_str "method" v); [by subst p'; rewrite app_nil_r|].
  destruct (vget "id" v ≫= rpc_id_key) as [key|]; [|destruct Hset as [-> _]; by rewrite app_nil_r].
  destruct Hset as [-> _]. case_bool_decide as Hin.
  - split; [rewrite map_size_delete_Some by done; lia|].
    intros key'. rewrite !count_app, Hcount, (count_one_ne (Asked key')) by done.
    destruct (decide (key = key')) as [->|Hne].
    + destruct Hin as [m Hm]. rewrite count_one_eq, (in_flight_some _ _ m) by done.
      rewrite (in_flight_none (delete key' _)) by apply lookup_delete_eq. lia.
    + rewrite count_one_ne by congruence. rewrite (in_flight_same (delete key (requests r)) (requests r)) by (by apply lookup_delete_ne). lia.
  - rewrite app_nil_r. rewrite delete_id by (by apply eq_None_not_Some). done.
Qed.

Lemma trace_balanced public r t : relay_trace public r t -> balanced r t.
Proof.
  induction 1 as [|frame r t _ IH|frame r r' t _ IH Hs].
  - split; [cbn [requests Relay_start]; rewrite map_size_empty; apply Nat.le_0_l|].
    intros key. by rewrite in_flight_none by apply lookup_empty.
  - by apply client_step_balanced.
  - by eapply server_step_balanced.
Qed.

Lemma strip_last_snoc c b : strip_last c (b ++ [c]) = b.
Proof. unfold strip_last. by rewrite last_snoc, Ascii.eqb_refl, removelast_last. Qed.
Lemma strip_last_other c b : is_some_and (fun a => Ascii.eqb a c) (last b) = false -> strip_last c b = b.
Proof. unfold strip_last. destruct (last b); [|done]. cbn. by intros ->. Qed.

(** An encoded frame parses back. *)
Lemma parse_encode_frame {SJL : SerdeJsonLaws SJ} v : exact_value v = true -> parse_frame (encode_frame v) = Some v.
Proof.
  intros Hv. unfold parse_frame, encode_frame. rewrite strip_last_snoc, strip_last_other.
  - unfold from_slice. rewrite from_utf8_of_bytes by apply to_string_utf8. cbn [mbind option_bind].
    rewrite of_to_bytes. by rewrite from_str_to_string.
  - pose proof (to_string_one_line v) as H. rewrite <- str_forallb_bytes in H.
    destruct (to_bytes (to_string v)) as [|a l _] using rev_ind; [done|]. rewrite last_snoc. cbn.
    rewrite forallb_app in H. apply andb_prop in H as [_ H]. cbn in H. apply andb_prop in H as [H _].
    unfold is_line_end in H. by apply negb_true_iff, orb_false_elim in H as [-> _].
Qed.

Lemma exact_obj_alter f k m :
  (forall w, exact_value w = true -> exact_value (f w) = true) -> exact_obj m = true -> exact_obj (obj_alter f k m) = true.
Proof.
  intros Hf. unfold exact_obj. cbn [exact_value]. intros [Hs Hm]%andb_prop. apply andb_true_intro. split.
  - clear Hm. induction m as [|[k1 v1] m IH]; [done|]. rewrite keys_sorted_cons in Hs. apply andb_prop in Hs as [H1 Hs].
    cbn [obj_alter]. destruct (String.eqb k k1); rewrite keys_sorted_cons; [by rewrite H1|].
    rewrite IH by done. destruct m as [|[k2 v2] m]; [done|]. cbn. destruct (String.eqb k k2); by rewrite H1.
  - clear Hs. induction m as [|[k1 v1] m IH]; [done|]. cbn in *. apply andb_prop in Hm as [H1 Hm].
    destruct (String.eqb k k1); cbn; [by rewrite Hf|by rewrite H1, IH].
Qed.
Lemma exact_set_at_path path w v : exact_value w = true -> exact_value v = true -> exact_value (set_at_path path w v) = true.
Proof.
  intros Hw. revert v. induction path as [|k path IH]; intros v Hv; [done|]. cbn [set_at_path].
  destruct v; try done. apply exact_obj_alter; [|done]. apply IH.
Qed.
End Frames.

(** ** Properties *)

(** C29: No command that names a provider other than the launch's own reaches the host.
    A forwarded frame is the caller's frame byte for byte, unless it is a command that
    names the public provider: then exactly that field becomes the internal name, every
    other path reads the same, and the host parses what the adapter meant. *)
Theorem client_provider_guard {SJ : SerdeJson} {SJL : SerdeJsonLaws SJ} frame pending public b pending' :
  adapt_client_frame frame pending public = (Forward b, pending') ->
  match command frame with
  | None => b = frame
  | Some (v, method) =>
      match named_provider method v with
      | None => b = frame
      | Some p =>
          (p = public /\ exists path v', provider_path method = Some path /\ b = encode_frame v'
             /\ at_path path v' = Some (JString INTERNAL_PROVIDER)
             /\ (forall q, diverges path q = true -> at_path q v' = at_path q v)
             /\ (exact_value v = true -> parse_frame b = Some v'))
          \/ (p = EmptyString /\ b = frame)
      end
  end.
Proof.
  intros H. apply adapt_client_frame_cases in H. destruct (command frame) as [[v method]|].
  2:{ by destruct H as [[= ->] _]. }
  destruct (named_provider method v) as [p|] eqn:En; [|by apply register_forward in H as [-> _]].
  destruct (String.eqb_spec p public) as [->|Hp].
  - apply register_forward in H as [-> _]. left. split; [done|]. unfold named_provider in En.
    destruct (provider_path method) as [path|]; [|done]. cbn [mbind option_bind default from_option Datatypes.id] in *.
    destruct (at_path path v) as [w|] eqn:Ew; [|done]. eexists _, _. split; [done|]. split; [done|].
    split; [by eapply set_at_path_get|]. split; [intros q; apply set_at_path_other|].
    intros Hv. apply parse_encode_frame. by apply exact_set_at_path.
  - destruct (is_empty p) eqn:Ee.
    + apply register_forward in H as [-> _]. right. by destruct p.
    + destruct H as [H _]. symmetry in H. by apply refuse_provider_not_forward in H.
Qed.

(** C30: What the client receives. A frame of the host is relayed byte for byte, or with
    changes only in the provider fields of the pinned schema. Those fields, listed as paths
    by [notification_paths] and [result_paths] (and for each event of a page), are relabelled
    one by one: [meta] becomes the public label, any other value is as it was, and after
    that each is null or the public label, so the internal name never shows. A result is
    relayed only when its id belongs to a request in flight, which it settles. *)
Theorem server_frame_sound {SJ : SerdeJson} frame pending public b pending'
    (Hpublic : public <> "meta")
    (Hok : adapt_server_frame frame pending public = Ok (b, pending')) :
  exists v v', parse_frame frame = Some v /\ is_object v = true
    /\ (b = frame /\ v' = v \/ b = encode_frame v')
    /\ frame_edit pending v v'
    /\ frame_values pending v' = relabelled public <$> frame_values pending v
    /\ Forall (public_label public) (frame_values pending v')
    /\ ~ In (JString "meta") (frame_values pending v')
    /\ settles v pending pending'.
Proof.
  unfold adapt_server_frame in Hok. apply bind_ok in Hok as (v & Hv%ok_or_ok & H).
  apply bind_ok in H as (u & Ho%reject_ok & H). apply negb_false_iff in Ho.
  apply bind_ok in H as ([[v' c] p] & H & [= <- <-]).
  apply adapt_server_value_ok in H as [Ha Hs]. pose proof (relabels_frame pending public _ _ _ Ha) as [Hmap Hlabel].
  apply (frame_adapter_sound _ _ Hpublic) in Ha as (He & _ & Hid).
  exists v, v'. split_and!; try done.
  - destruct c; [by right|]. left. by rewrite Hid.
  - intros Hin. rewrite List.Forall_forall in Hlabel. destruct (Hlabel _ Hin) as [E|E]; [done|]. injection E as E. by apply Hpublic.
Qed.

(** However the two threads interleave, the table of requests in flight never holds
    more than 4096 entries, and for every id the requests sent to the host are exactly the
    responses that came back plus the one in flight, if any: an id is never in flight
    twice and a request is never settled twice. *)
Theorem relay_correlates {SJ : SerdeJson} public r t (Htrace : relay_trace public r t) :
  size (requests r) <= MAX_PENDING_REQUESTS
  /\ forall key, count (Asked key) t = count (Settled key) t + in_flight (requests r) key.
Proof. by apply (trace_balanced public). Qed.

(** Framing does not depend on buffering: reading a frame takes exactly the first
    line of the bytes to come, with its LF if it has one, and leaves the rest; it fails
    exactly when that line has more than 10 MiB of content. *)
Theorem read_frame_line (source : list (R bytes)) (Hsource : buffers source)
    (Hsize : (blen (source_bytes source) < u64_max)%N) :
  let '(line, rest) := first_line (source_bytes source) in
  if (MAX_FRAME_BYTES <? content_length line)%N then read_frame source = Err frame_limit_error
  else exists source', read_frame source = Ok (negb (bool_decide (line = [])), line, source')
       /\ buffers source' /\ source_bytes source' = rest.
Proof. apply (read_loop_line [] source); [done|done| |done]. unfold blen, MAX_FRAME_BYTES. cbn [length]. lia. Qed.

(** ** Witnesses *)

Definition sample_start (provider : string) : value :=
  json_obj [ ("id", jnum 1); ("method", JString "session/start");
             ("params", json_obj [("providerId", JString provider); ("prompt", JString "codex")]) ].

Lemma provider_guard_witness :
  exists b pending', adapt_client_frame (encode_frame (sample_start "codex")) ∅ "codex" = (Forward b, pending')
    /\ parse_frame b = Some (sample_start "meta")
    /\ match command (encode_frame (sample_start "codex")) with
       | None => b = encode_frame (sample_start "codex")
       | Some (v, method) =>
           match named_provider method v with
           | None => b = encode_frame (sample_start "codex")
           | Some p =>
               (p = "codex" /\ exists path v', provider_path method = Some path /\ b = encode_frame v'
                  /\ at_path path v' = Some (JString INTERNAL_PROVIDER)
                  /\ (forall q, diverges path q = true -> at_path q v' = at_path q v)
                  /\ (exact_value v = true -> parse_frame b = Some v'))
               \/ (p = EmptyString /\ b = encode_frame (sample_start "codex"))
           end
       end.
Proof.
  eexists _, _. split; [vm_compute; reflexivity|]. split; [vm_compute; reflexivity|].
  eapply (client_provider_guard (encode_frame (sample_start "codex")) ∅ "codex"). vm_compute. reflexivity.
Defined.

Definition sample_reply : value :=
  json_obj [ ("id", jnum 1); ("result", json_obj [("session", json_obj [("providerId", JString "meta")])]) ].
Definition sample_pending : PendingRequests := {[ to_string (jnum 1) := "session/start" ]}.

Lemma server_sound_witness :
  exists b pending', adapt_server_frame (encode_frame sample_reply) sample_pending "codex" = Ok (b, pending')
    /\ exists v v', parse_frame (encode_frame sample_reply) = Some v /\ is_object v = true
    /\ (b = encode_frame sample_reply /\ v' = v \/ b = encode_frame v')
    /\ frame_edit sample_pending v v'
    /\ frame_values sample_pending v' = relabelled "codex" <$> frame_values sample_pending v
    /\ Forall (public_label "codex") (frame_values sample_pending v')
    /\ ~ In (JString "meta") (frame_values sample_pending v')
    /\ settles v sample_pending pending'.
Proof.
  eexists _, _. split; [vm_compute; reflexivity|].
  eapply (server_frame_sound (encode_frame sample_reply) sample_pending "codex"); [done|vm_compute; reflexivity].
Defined.
(** The fields of a page of events, of a list of models and of a history, relabelled. *)
Example frame_values_relabelled :
  let labelled fields := json_obj (("providerId", JString "meta") :: fields) in
  let page := json_obj [("id", jnum 1); ("result", json_obj [("events", JArray
                [json_obj [("method", JString "session/modelChanged"); ("params", labelled [])]; JNull])])] in
  let list := json_obj [("id", jnum 1); ("result", labelled [("models", JArray [labelled []; JNull; labelled []])])] in
  length (frame_values {[ to_string (jnum 1) := "view/page" ]} page) = 1
  /\ length (frame_values {[ to_string (jnum 1) := "model/list" ]} list) = 3
  /\ match adapt_server_frame (encode_frame list) {[ to_string (jnum 1) := "model/list" ]} "zai" with
     | Ok (b, _) => frame_values {[ to_string (jnum 1) := "model/list" ]} (default JNull (parse_frame b))
     | Err _ => []
     end = [JString "zai"; JString "zai"; JString "zai"].
Proof. vm_compute. done. Qed.

Lemma relay_correlates_witness :
  let frame := encode_frame (sample_start "codex") in
  let r := client_step "codex" frame Relay_start in
  client_events "codex" frame Relay_start = [Asked (to_string (jnum 1))]
  /\ size (requests r) <= MAX_PENDING_REQUESTS.
Proof.
  split; [vm_compute; reflexivity|].
  exact (proj1 (relay_correlates "codex" _ _ (trace_client "codex" _ _ _ (trace_start "codex")))).
Defined.

Lemma read_frame_witness :
  let source := [Ok (to_bytes "ab"); Ok (to_bytes ("c" +:+ lf +:+ "d"))] in
  exists source', read_frame source = Ok (true, to_bytes ("abc" +:+ lf), source')
    /\ buffers source' /\ source_bytes source' = to_bytes "d".
Proof.
  apply (read_frame_line [Ok (to_bytes "ab"); Ok (to_bytes ("c" +:+ lf +:+ "d"))]).
  - constructor; [by eexists|]. constructor; [by eexists|constructor].
  - vm_compute. reflexivity.
Defined.
