(* ===== verification/Responses.v ===== *)
(** * Normalising a Responses request

    Models the request half of [crates/codex-transport/src/transport.rs]: from the body
    stock Muse produces to the stateless body the pinned Codex client would send, in its
    standard and its Responses Lite form. [codex_protocol]'s [ResponseItem] and SHA-256
    belong to libraries and are an interface, [ItemCodec]. *)

From S2P Require Import Prelude Utf8 Json Errors ZaiRequest.
From stdpp Require Import options.

Definition MAX_MODEL_ID_BYTES : N := 256.

(** What the source asks of [codex_protocol::models::ResponseItem] and [sha2]. *)
Class ItemCodec := {
  ResponseItem : Type;
  item_from_value : value -> result string ResponseItem;
  item_to_value : ResponseItem -> result string value;
  is_other : ResponseItem -> bool;
  (** [parsed.id().is_some_and(|id| !id.is_prefixed())] *)
  has_unprefixed_id : ResponseItem -> bool;
  clear_id : ResponseItem -> ResponseItem;
  sha256 : bytes -> bytes
}.

(** ** Checks *)

Definition any_type (types : list string) (part : value) : bool :=
  is_some_and (fun t => one_of t types) (vget_str "type" part).
Definition has_image_part (field : string) (item : value) : bool :=
  is_some_and (existsb (any_type ["input_image"; "image_url"])) (vget field item ≫= as_array).
Definition request_contains_image (body : value) : bool :=
  is_some_and (existsb (fun item => has_image_part "content" item || has_image_part "output" item))
              (vget "input" body ≫= as_array).

Definition validate_model_id (model : string) : result string unit :=
  reject (is_empty model || (MAX_MODEL_ID_BYTES <? slen model)%N || starts_with "-" model)
         "model must contain between 1 and 256 bytes";;
  reject (any_char is_whitespace model || any_char is_control model)
         "model must not contain whitespace or control characters".

Definition is_reasoning_effort (v : string) : bool :=
  one_of v ["none"; "minimal"; "low"; "medium"; "high"; "xhigh"; "max"; "ultra"].
Definition is_reasoning_summary (v : string) : bool := one_of v ["auto"; "concise"; "detailed"; "none"].

(** ** The service tier *)

Definition apply_fast_service_tier (body : value) (enabled : bool) : res value :=
  object ← ok_or (as_object body) (InvalidRequest "request body must be an object");
  let object := obj_remove "service_tier" object in
  (* [ServiceTier::Fast.request_value()] *)
  Ok (JObject (if enabled then obj_insert "service_tier" (JString "priority") object else object)).

(** ** Fields of the request *)

Definition or_insert (k : string) (v : value) (m : obj) : obj :=
  match obj_get k m with Some _ => m | None => obj_insert k v m end.

Definition normalize_instructions (object : obj) : res obj :=
  match obj_get "instructions" object with
  | None => Ok (obj_insert "instructions" (JString "") object)
  | Some (JString _) => Ok object
  | Some _ => invalid "instructions must be a string"
  end.

Definition reject_stateful_reference (field : string) (object : obj) : res obj :=
  match obj_get field object with
  | None | Some JNull => Ok (obj_remove field object)
  | Some _ => invalid (field +:+ " cannot be used because Muse sends complete stateless history")
  end.

Definition typed_tool (tool : value) : bool :=
  is_some_and (fun tool => is_some_and is_string (obj_get "type" tool)) (as_object tool).
Definition normalize_tools (object : obj) : res obj :=
  match obj_get "tools" object with
  | None => Ok (obj_insert "tools" (JArray []) object)
  | Some (JArray tools) =>
      if forallb typed_tool tools then Ok object
      else invalid "each tool must be an object with a string type"
  | Some _ => invalid "tools must be an array"
  end.

Definition normalize_tool_choice (api_key_auth : bool) (object : obj) : res obj :=
  match obj_get "tool_choice" object with
  | None => Ok (obj_insert "tool_choice" (JString "auto") object)
  | Some (JString _) => Ok object
  | Some (JObject _) => if api_key_auth then Ok object else invalid "tool_choice has an unsupported shape"
  | Some _ => invalid "tool_choice has an unsupported shape"
  end.

Definition normalize_parallel_tool_calls (object : obj) : res obj :=
  match obj_get "parallel_tool_calls" object with
  | None => Ok (obj_insert "parallel_tool_calls" (JBool true) object)
  | Some (JBool _) => Ok object
  | Some _ => invalid "parallel_tool_calls must be a boolean"
  end.

Definition string_or_null (p : string -> bool) (o : option value) : bool :=
  match o with
  | None | Some JNull => true
  | Some (JString s) => p s
  | Some _ => false
  end.
Definition normalize_reasoning (api_key_auth : bool) (object : obj) : res obj :=
  match obj_get "reasoning" object with
  | None | Some JNull => Ok object
  | Some (JObject reasoning) =>
      reject (negb (string_or_null is_reasoning_effort (obj_get "effort" reasoning)))
             (InvalidRequest "reasoning effort is not supported");;
      reject (negb (string_or_null is_reasoning_summary (obj_get "summary" reasoning)))
             (InvalidRequest "reasoning summary is not supported");;
      let reasoning :=
        if api_key_auth then reasoning else
        let kept := obj_retain (fun k => one_of k ["effort"; "summary"]) reasoning in
        if bool_decide (get_str "summary" kept = Some "none") then obj_remove "summary" kept else kept in
      Ok (obj_alter (fun _ => JObject reasoning) "reasoning" object)
  | Some _ => invalid "reasoning must be an object or null"
  end.

(** [if !unique.contains(&value) { unique.push(value) }] *)
Definition push_unique (unique : list value) (v : value) : list value :=
  if bool_decide (v ∈ unique) then unique else unique ++ [v].
Definition encrypted_reasoning : value := JString "reasoning.encrypted_content".
Definition normalize_include (object : obj) : res obj :=
  let object := or_insert "include" (JArray []) object in
  match obj_get "include" object with
  | Some (JArray include) =>
      reject (negb (forallb is_string include)) (InvalidRequest "include entries must be strings");;
      let unique := push_unique (foldl push_unique [] include) encrypted_reasoning in
      Ok (obj_alter (fun _ => JArray unique) "include" object)
  | _ => invalid "include must be an array"
  end.

Definition validate_optional_positive_integer (field : string) (object : obj) : res unit :=
  reject (match obj_get field object with
          | None | Some JNull => false
          | Some v => match as_u64 v with Some n => (n =? 0)%N | None => true end
          end)
         (InvalidRequest (field +:+ " must be a positive integer or null")).

(** ** Namespaced tools *)

Abbreviation NamespaceCallMap := (gmap string (string * string)).

Definition standalone_names (tools : list value) : list string :=
  omap (fun tool => if bool_decide (vget_str "type" tool = Some "function")
                    then vget_str "name" tool else None) tools.

Definition collect_namespace_tool (standalone : list string) (namespace : string)
    (calls : NamespaceCallMap) (tool : value) : res NamespaceCallMap :=
  if negb (bool_decide (vget_str "type" tool = Some "function")) then Ok calls else
  match vget_str "name" tool with
  | None => Ok calls
  | Some name =>
      let flattened := namespace +:+ "." +:+ name in
      reject (one_of flattened standalone)
        (InvalidRequest ("namespace tool conflicts with standalone function " +:+ flattened));;
      reject (is_some_and (fun previous => negb (bool_decide (previous = (namespace, name)))) (calls !! flattened))
        (InvalidRequest ("namespace tools have ambiguous flattened call name " +:+ flattened));;
      Ok (<[flattened := (namespace, name)]> calls)
  end.

Definition collect_namespace (standalone : list string) (calls : NamespaceCallMap) (tool : value)
  : res NamespaceCallMap :=
  if negb (bool_decide (vget_str "type" tool = Some "namespace")) then Ok calls else
  match vget_str "name" tool, vget "tools" tool ≫= as_array with
  | Some namespace, Some tools => fold_res (collect_namespace_tool standalone namespace) calls tools
  | _, _ => Ok calls
  end.

Definition collect_namespace_calls (tools : list value) : res NamespaceCallMap :=
  fold_res (collect_namespace (standalone_names tools)) ∅ tools.

(** ** Input items *)

Definition item_types : list string :=
  [ "message"; "reasoning"; "local_shell_call"; "function_call"; "function_call_output";
    "custom_tool_call"; "custom_tool_call_output"; "tool_search_call"; "tool_search_output";
    "web_search_call"; "image_generation_call"; "compaction"; "compaction_summary";
    "compaction_trigger"; "context_compaction" ].

Definition text_type (assistant : bool) : string := if assistant then "output_text" else "input_text".

Definition normalize_content_part (assistant : bool) (item_index : nat) (part_index : nat) (part : value)
  : res value :=
  let err {A} (what : string) : res A :=
    invalid ("message item " +:+ pretty item_index +:+ " content part " +:+ pretty part_index +:+ what) in
  match part with
  | JObject object =>
      match get_str "type" object with
      | None => err " has no string type"
      | Some ty =>
          if one_of ty ["text"; "input_text"; "output_text"] then
            if is_some_and is_string (obj_get "text" object)
            then Ok (JObject (obj_insert "type" (JString (text_type assistant)) object))
            else err " has no string text"
          else if String.eqb ty "image_url" then
            object ← match obj_get "image_url" object with
                     | None => err " has no image_url"
                     | Some (JString url) => Ok (obj_insert "image_url" (JString url) (obj_remove "image_url" object))
                     | Some (JObject image) =>
                         match obj_get "url" image with
                         | Some (JString url) =>
                             let object := obj_insert "image_url" (JString url) (obj_remove "image_url" object) in
                             Ok (match obj_get "detail" image with
                                 | Some detail => obj_insert "detail" detail object
                                 | None => object
                                 end)
                         | _ => err " has no image URL"
                         end
                     | Some _ => err " has invalid image_url"
                     end;
            Ok (JObject (obj_insert "type" (JString "input_image") object))
          else if String.eqb ty "input_image" && negb assistant then Ok part
          else err " has unsupported type"
      end
  | _ => err " must be an object"
  end.

(** [for (part_index, part) in parts.iter_mut().enumerate()] *)
Fixpoint normalize_parts (assistant : bool) (item_index part_index : nat) (parts : list value) : res (list value) :=
  match parts with
  | [] => Ok []
  | part :: parts' =>
      part ← normalize_content_part assistant item_index part_index part;
      parts' ← normalize_parts assistant item_index (S part_index) parts';
      Ok (part :: parts')
  end.

Definition normalize_message_item (object : obj) (index : nat) : res obj :=
  let err {A} (what : string) : res A := invalid ("message item " +:+ pretty index +:+ what) in
  match get_str "role" object with
  | None => err " has no string role"
  | Some role =>
      if negb (one_of role ["assistant"; "developer"; "system"; "user"]) then err " has unsupported role" else
      let assistant := String.eqb role "assistant" in
      match obj_get "content" object with
      | None => err " has no content"
      | Some content =>
          let content := match content with
                         | JString text =>
                             JArray [json_obj [("type", JString (text_type assistant)); ("text", JString text)]]
                         | v => v
                         end in
          match content with
          | JArray parts =>
              parts ← normalize_parts assistant index 0 parts;
              Ok (obj_alter (fun _ => JArray parts) "content" object)
          | _ => err " content must be a string or array"
          end
      end
  end.

(** [Map::get] then the namespace of a flattened call, put back. *)
Definition split_namespace (namespace_calls : NamespaceCallMap) (normalized : value) : value :=
  match normalized with
  | JObject object =>
      if bool_decide (get_str "type" object = Some "function_call")
         && bool_decide (obj_get "namespace" object = None) then
        match get_str "name" object ≫= (fun flattened => namespace_calls !! flattened) with
        | Some (namespace, name) =>
            JObject (obj_insert "name" (JString name) (obj_insert "namespace" (JString namespace) object))
        | None => normalized
        end
      else normalized
  | _ => normalized
  end.

Definition drop_output_name (normalized : value) : value :=
  match normalized with
  | JObject object =>
      if any_type ["function_call_output"; "custom_tool_call_output"] normalized
      then JObject (obj_remove "name" object) else normalized
  | _ => normalized
  end.

(** ** Responses Lite *)

Definition is_hosted_responses_tool (tool_type : string) : bool :=
  one_of tool_type [ "web_search"; "web_search_preview"; "file_search"; "computer_use";
                     "computer_use_preview"; "code_interpreter"; "image_generation" ].

Record Grouping := {
  functions : list value;
  function_namespace_description : string;
  function_namespace_index : option nat;
  grouped : list value
}.

(** [function_namespace_index.get_or_insert(grouped.len())] *)
Definition mark (g : Grouping) : option nat :=
  Some (default (length (grouped g)) (function_namespace_index g)).

Definition group_tool (g : Grouping) (tool : value) : res Grouping :=
  tool_type ← ok_or (vget_str "type" tool) (InvalidRequest "each tool must have a string type");
  if is_hosted_responses_tool tool_type then Ok g
  else if one_of tool_type ["function"; "custom"] then
    Ok {| functions := functions g ++ [tool];
          function_namespace_description := function_namespace_description g;
          function_namespace_index := mark g; grouped := grouped g |}
  else if String.eqb tool_type "namespace" && bool_decide (vget_str "name" tool = Some "functions") then
    let description := default (function_namespace_description g)
      (opt_filter (fun d => negb (is_empty (trim d))) (vget_str "description" tool)) in
    tools ← ok_or (vget "tools" tool ≫= as_array)
                  (InvalidRequest "functions namespace tools must be an array");
    Ok {| functions := functions g ++ tools; function_namespace_description := description;
          function_namespace_index := mark g; grouped := grouped g |}
  else
    Ok {| functions := functions g;
          function_namespace_description := function_namespace_description g;
          function_namespace_index := function_namespace_index g; grouped := grouped g ++ [tool] |}.

Definition functions_namespace (description : string) (functions : list value) : value :=
  json_obj [ ("type", JString "namespace"); ("name", JString "functions");
             ("description", JString description); ("tools", JArray functions) ].

Definition group_responses_lite_tools (tools : list value) : res (list value) :=
  g ← fold_res group_tool
        {| functions := []; function_namespace_description := ""; function_namespace_index := None; grouped := [] |}
        tools;
  Ok (match function_namespace_index g, functions g with
      | Some index, _ :: _ =>
          take index (grouped g)
            ++ functions_namespace (function_namespace_description g) (functions g) :: drop index (grouped g)
      | _, _ => grouped g
      end).

Definition strip_image_detail (part : value) : value :=
  match part with
  | JObject object =>
      if bool_decide (get_str "type" object = Some "input_image") then JObject (obj_remove "detail" object) else part
  | _ => part
  end.
(** [item.get_mut(field).and_then(Value::as_array_mut)], every part stripped. *)
Definition strip_field (field : string) (item : value) : value :=
  match item with
  | JObject object =>
      JObject (obj_alter (fun v => match v with JArray l => JArray (strip_image_detail <$> l) | _ => v end) field object)
  | _ => item
  end.
Definition strip_item_details (item : value) : value :=
  match vget_str "type" item with
  | Some ty =>
      if String.eqb ty "message" then strip_field "content" item
      else if one_of ty ["function_call_output"; "custom_tool_call_output"] then strip_field "output" item
      else item
  | None => item
  end.
Definition strip_responses_lite_image_details (input : list value) : list value := strip_item_details <$> input.

Section Normalize.
  Context {SJ : SerdeJson} {IC : ItemCodec}.

Definition normalize_response_item (namespace_calls : NamespaceCallMap) (index : nat) (item : value) : res value :=
  let err {A} (what : string) : res A := invalid ("input item " +:+ pretty index +:+ what) in
  match item with
  | JObject object =>
      match get_str "type" object with
      | None => err " has no string type"
      | Some item_type =>
          if negb (one_of item_type item_types) then err " has unsupported type" else
          object ← (if String.eqb item_type "message" then normalize_message_item object index else Ok object);
          match item_from_value (JObject object) with
          | Err e => err (" is invalid: " +:+ e)
          | Ok parsed =>
              if is_other parsed then err " has unsupported type" else
              let parsed := if has_unprefixed_id parsed then clear_id parsed else parsed in
              match item_to_value parsed with
              | Err e => err (" could not be normalized: " +:+ e)
              | Ok normalized => Ok (drop_output_name (split_namespace namespace_calls normalized))
              end
          end
      end
  | _ => err " must be an object"
  end.

(** [items.into_iter().enumerate().map(..).collect()] *)
Fixpoint normalize_items (calls : NamespaceCallMap) (index : nat) (items : list value) : res (list value) :=
  match items with
  | [] => Ok []
  | item :: items' =>
      item ← normalize_response_item calls index item;
      items' ← normalize_items calls (S index) items';
      Ok (item :: items')
  end.

Definition normalize_response_input (calls : NamespaceCallMap) (input : value) : res value :=
  items ← match input with
          | JString text =>
              Ok [json_obj [ ("type", JString "message"); ("role", JString "user");
                             ("content", JArray [json_obj [("type", JString "input_text"); ("text", JString text)]]) ]]
          | JArray [] => invalid "input must contain at least one item"
          | JArray items => Ok items
          | _ => invalid "input must be a string or an array"
          end;
  JArray <$> normalize_items calls 0 items.

(** The lower-case hexadecimal digits of a byte. *)
Definition hex_digit (n : N) : ascii := ascii_of_N (if (n <? 10)%N then 48 + n else 87 + n).
Definition hex_byte (b : ascii) : string :=
  String (hex_digit (N_of_ascii b / 16)) (String (hex_digit (N_of_ascii b mod 16)) EmptyString).
Definition stable_prefix_item_id (prefix request_namespace : string) (v : value) : string :=
  let digest := sha256 (to_bytes request_namespace ++ [NUL] ++ to_bytes (to_string v)) in
  prefix +:+ "_" +:+ String.concat "" (hex_byte <$> take 16 digest).

Definition additional_tools (request_namespace : string) (tools : list value) : value :=
  json_obj [ ("id", JString (stable_prefix_item_id "at" request_namespace (JArray tools)));
             ("type", JString "additional_tools"); ("role", JString "developer"); ("tools", JArray tools) ].
Definition base_instructions (request_namespace instructions : string) : value :=
  json_obj
    [ ("id", JString (stable_prefix_item_id "msg" request_namespace (JString instructions)));
      ("type", JString "message"); ("role", JString "developer");
      ("content", JArray [json_obj [("type", JString "input_text"); ("text", JString instructions)]]);
      ("internal_chat_message_metadata_passthrough",
        json_obj [("content_item_kinds", JArray [JString "model.base_instructions"])]) ].

Definition normalize_responses_lite_request (request_namespace : string) (object : obj) : res obj :=
  instructions ← ok_or (get_str "instructions" object) (InvalidRequest "instructions must be a string");
  tools ← ok_or (obj_get "tools" object ≫= as_array) (InvalidRequest "tools must be an array");
  let object := obj_remove "tools" (obj_remove "instructions" object) in
  tools ← group_responses_lite_tools tools;
  input ← ok_or (obj_get "input" object ≫= as_array) (InvalidRequest "input must be an array");
  let prefix := additional_tools request_namespace tools
                :: (if is_empty instructions then [] else [base_instructions request_namespace instructions]) in
  let object := obj_alter (fun _ => JArray (prefix ++ strip_responses_lite_image_details input)) "input" object in
  let object := obj_insert "parallel_tool_calls" (JBool false) object in
  let object := or_insert "reasoning" (JObject []) object in
  reasoning ← ok_or (obj_get "reasoning" object ≫= as_object) (InvalidRequest "reasoning must be an object");
  Ok (obj_alter (fun _ => JObject (obj_insert "context" (JString "all_turns") reasoning)) "reasoning" object).

(** The fields only one kind of credential may send. *)
Definition normalize_auth_fields (api_key_auth : bool) (object : obj) : res obj :=
  if api_key_auth then
    validate_optional_positive_integer "max_output_tokens" object;; Ok object
  else Ok (obj_remove "metadata" (obj_remove "client_metadata" (obj_remove "max_output_tokens" object))).

Definition normalize_responses_request (body : value) (api_key_auth use_responses_lite : bool)
    (lite_request_namespace : option string) : res value :=
  object ← ok_or (as_object body) (InvalidRequest "request body must be an object");
  model ← ok_or (get_str "model" object) (InvalidRequest "model must be a string");
  map_err InvalidRequest (validate_model_id model);;
  object ← normalize_instructions object;
  object ← reject_stateful_reference "previous_response_id" object;
  object ← reject_stateful_reference "conversation" object;
  object ← normalize_tools object;
  namespace_calls ← collect_namespace_calls (default [] (obj_get "tools" object ≫= as_array));
  input ← ok_or (obj_get "input" object) (InvalidRequest "input is required");
  let object := obj_remove "input" object in
  input ← normalize_response_input namespace_calls input;
  let object := obj_insert "input" input object in
  object ← normalize_tool_choice api_key_auth object;
  object ← normalize_parallel_tool_calls object;
  object ← normalize_reasoning api_key_auth object;
  object ← normalize_include object;
  object ← normalize_auth_fields api_key_auth object;
  object ← (if use_responses_lite then
              namespace ← ok_or lite_request_namespace
                (InvalidRequest "Responses Lite request namespace was not initialized");
              normalize_responses_lite_request namespace object
            else Ok object);
  Ok (JObject (obj_insert "stream" (JBool true) (obj_insert "store" (JBool false) object))).

End Normalize.
