(* ===== verification/ResponsesCorrect.v ===== *)
(** * The Responses request, proved

    The theorems about [Responses.v]: the shape every accepted request has, the Responses
    Lite rewriting, tool grouping, namespaced calls and message normalisation. *)

From S2P Require Import Prelude Utf8 Json Errors ZaiRequest Responses.
From stdpp Require Import options.

(** ** Frames: which fields a step may change *)

Definition frame (ks : list string) (o o' : obj) : Prop :=
  forall k, one_of k ks = false -> obj_get k o' = obj_get k o.

Lemma frame_refl ks o : frame ks o o.
Proof. by intros k _. Qed.
Lemma frame_insert k v ks o : one_of k ks = true -> frame ks o (obj_insert k v o).
Proof. intros Hk k' Hk'. rewrite obj_get_insert. destruct (String.eqb_spec k' k) as [->|]; [congruence|done]. Qed.
Lemma frame_remove k ks o : one_of k ks = true -> frame ks o (obj_remove k o).
Proof. intros Hk k' Hk'. rewrite obj_get_remove. destruct (String.eqb_spec k k') as [->|]; [congruence|done]. Qed.
Lemma frame_alter f k ks o : one_of k ks = true -> frame ks o (obj_alter f k o).
Proof. intros Hk k' Hk'. rewrite obj_get_alter. destruct (String.eqb_spec k' k) as [->|]; [congruence|done]. Qed.
Lemma frame_trans ks ks' o o' o'' : frame ks o o' -> frame ks' o' o'' -> frame (ks ++ ks') o o''.
Proof.
  intros H H' k Hk. unfold one_of in *. rewrite existsb_app in Hk. apply orb_false_elim in Hk as [??].
  rewrite H' by done. by apply H.
Qed.
Lemma frame_trans_same ks o o' o'' : frame ks o o' -> frame ks o' o'' -> frame ks o o''.
Proof. intros H H' k Hk. rewrite H' by done. by apply H. Qed.
Lemma frame_or_insert k v ks o : one_of k ks = true -> frame ks o (or_insert k v o).
Proof. intros Hk. unfold or_insert. case_match; [apply frame_refl|by apply frame_insert]. Qed.
#[export] Hint Resolve frame_refl frame_insert frame_remove frame_alter frame_or_insert frame_trans_same : muse.

(** One step of the pipeline: open its cases, then frame each. *)
Ltac frame_step :=
  intros H; repeat (case_match; try discriminate H); run_ok; subst; eauto with muse.

Lemma instructions_frame o o' : normalize_instructions o = Ok o' -> frame ["instructions"] o o'.
Proof. unfold normalize_instructions. frame_step. Qed.
Lemma stateful_frame f o o' : reject_stateful_reference f o = Ok o' -> frame [f] o o'.
Proof.
  unfold reject_stateful_reference. intros H. assert (Hf : one_of f [f] = true) by (apply one_of_spec; by left).
  repeat (case_match; try discriminate H); injection H as <-; eauto with muse.
Qed.
Lemma tools_frame o o' : normalize_tools o = Ok o' -> frame ["tools"] o o'.
Proof. unfold normalize_tools. frame_step. Qed.
Lemma tool_choice_frame a o o' : normalize_tool_choice a o = Ok o' -> frame ["tool_choice"] o o'.
Proof. unfold normalize_tool_choice. frame_step. Qed.
Lemma parallel_frame o o' : normalize_parallel_tool_calls o = Ok o' -> frame ["parallel_tool_calls"] o o'.
Proof. unfold normalize_parallel_tool_calls. frame_step. Qed.
Lemma reasoning_frame a o o' : normalize_reasoning a o = Ok o' -> frame ["reasoning"] o o'.
Proof. unfold normalize_reasoning. frame_step. Qed.
Lemma include_frame o o' : normalize_include o = Ok o' -> frame ["include"] o o'.
Proof.
  unfold normalize_include. intros H. repeat (case_match; try discriminate H). run_ok. subst.
  eapply frame_trans_same; [|by apply frame_alter]. by apply frame_or_insert.
Qed.
Lemma auth_frame a o o' :
  normalize_auth_fields a o = Ok o' -> frame ["max_output_tokens"; "client_metadata"; "metadata"] o o'.
Proof.
  unfold normalize_auth_fields. destruct a; intros H; run_ok; subst; [apply frame_refl|].
  repeat (eapply frame_trans_same; [|by apply frame_remove]). apply frame_refl.
Qed.
Definition lite_fields : list string := ["instructions"; "tools"; "input"; "parallel_tool_calls"; "reasoning"].
Lemma lite_frame `{SerdeJson, ItemCodec} ns o o' :
  normalize_responses_lite_request ns o = Ok o' -> frame lite_fields o o'.
Proof.
  unfold normalize_responses_lite_request. intros Hl. run_ok. subst.
  repeat first [ eapply frame_trans_same; [|by apply frame_alter]
               | eapply frame_trans_same; [|by apply frame_insert]
               | eapply frame_trans_same; [|by apply frame_or_insert]
               | eapply frame_trans_same; [|by apply frame_remove] ].
  apply frame_refl.
Qed.

(** ** What each step establishes *)

Lemma stateful_none f o o' : reject_stateful_reference f o = Ok o' -> obj_get f o' = None.
Proof.
  unfold reject_stateful_reference. intros H.
  repeat (case_match; try discriminate H); injection H as <-; rewrite obj_get_remove, String.eqb_refl; done.
Qed.

Lemma push_unique_spec l v :
  NoDup l -> NoDup (push_unique l v) /\ forall x, x ∈ push_unique l v <-> x ∈ l \/ x = v.
Proof.
  intros Hl. unfold push_unique. case_bool_decide as Hv.
  - split; [done|]. intros x. split; [by left|intros [?| ->]; done].
  - split.
    + apply NoDup_app. repeat split; [done| |apply NoDup_singleton].
      by intros x Hx ->%list_elem_of_singleton.
    + intros x. by rewrite elem_of_app, list_elem_of_singleton.
Qed.
Lemma push_uniques_spec vs l :
  NoDup l -> NoDup (foldl push_unique l vs) /\ forall x, x ∈ foldl push_unique l vs <-> x ∈ l \/ x ∈ vs.
Proof.
  revert l. induction vs as [|v vs IH]; intros l Hl; cbn [foldl].
  - split; [done|]. intros x. rewrite elem_of_nil. tauto.
  - destruct (push_unique_spec l v Hl) as [Hn Hi]. destruct (IH _ Hn) as [Hn' Hi']. split; [done|].
    intros x. rewrite Hi', Hi, elem_of_cons. tauto.
Qed.

(** The list the caller gave, or none. *)
Definition listed (k : string) (o : obj) : list value := default [] (obj_get k o ≫= as_array).

Lemma include_set o o' :
  normalize_include o = Ok o' ->
  exists l, obj_get "include" o' = Some (JArray l) /\ NoDup l /\ Forall (fun v => is_string v = true) l /\
            forall v, v ∈ l <-> v ∈ listed "include" o \/ v = encrypted_reasoning.
Proof.
  unfold normalize_include, listed, or_insert. intros H.
  assert (exists l, obj_get "include" o' =
                    Some (JArray (push_unique (foldl push_unique [] l) encrypted_reasoning)) /\
                    forallb is_string l = true /\ l = default [] (obj_get "include" o ≫= as_array)) as (l & -> & Hs & <-).
  { destruct (obj_get "include" o) as [v|] eqn:E.
    - rewrite E in H. destruct v as [| | | |l|]; try discriminate H.
      apply bind_ok in H as (? & Hr%reject_ok & [= <-]). apply negb_false_iff in Hr.
      exists l. by rewrite obj_get_alter, String.eqb_refl, E.
    - rewrite obj_get_insert_eq in H. cbn in H. injection H as <-. exists [].
      by rewrite obj_get_alter, String.eqb_refl, obj_get_insert_eq. }
  destruct (push_uniques_spec l [] NoDup_nil_2) as [Hn Hi].
  destruct (push_unique_spec _ encrypted_reasoning Hn) as [Hn' Hi'].
  eexists. split; [done|]. split; [done|]. split.
  - apply List.Forall_forall. intros x Hx%list_elem_of_In. apply Hi' in Hx as [Hx| ->]; [|done].
    apply Hi in Hx as [Hx%elem_of_nil|Hx]; [done|]. apply list_elem_of_In in Hx.
    by apply forallb_forall with (x := x) in Hs.
  - intros v. rewrite Hi', Hi, elem_of_nil. tauto.
Qed.

(** What a [reasoning] field may hold once normalised; a subscription request keeps only
    the two members the pinned client sends. *)
Definition reasoning_ok (api_key_auth : bool) (extra : list string) (o : option value) : Prop :=
  match o with
  | None | Some JNull => True
  | Some (JObject r) =>
      string_or_null is_reasoning_effort (obj_get "effort" r) = true /\
      string_or_null is_reasoning_summary (obj_get "summary" r) = true /\
      (api_key_auth = false ->
       get_str "summary" r <> Some "none" /\
       forall k, is_Some (obj_get k r) -> one_of k ("effort" :: "summary" :: extra) = true)
  | _ => False
  end.

Lemma string_or_null_filter p o : string_or_null p o = true -> string_or_null p None = true.
Proof. done. Qed.
Lemma reasoning_normalized a o o' :
  normalize_reasoning a o = Ok o' -> reasoning_ok a [] (obj_get "reasoning" o').
Proof.
  unfold normalize_reasoning. intros H. destruct (obj_get "reasoning" o) as [[| | | | |r]|] eqn:E; try discriminate H;
    try (injection H as <-; by rewrite E).
  apply bind_ok in H as ([] & He%reject_ok%negb_false_iff & H).
  apply bind_ok in H as ([] & Hs%reject_ok%negb_false_iff & H). injection H as <-.
  rewrite obj_get_alter, String.eqb_refl, E. cbn [fmap option_fmap option_map reasoning_ok].
  destruct a; [by repeat split|].
  set (kept := obj_retain _ r).
  assert (Hk : forall k, obj_get k kept = if one_of k ["effort"; "summary"] then obj_get k r else None).
  { intros k. apply obj_get_retain. }
  assert (Heff : obj_get "effort" kept = obj_get "effort" r) by apply Hk.
  assert (Hsum : obj_get "summary" kept = obj_get "summary" r) by apply Hk.
  assert (Hkeys : forall k, is_Some (obj_get k kept) -> one_of k ["effort"; "summary"] = true).
  { intros k [v Hv]. rewrite Hk in Hv. by destruct (one_of k _). }
  clearbody kept. case_bool_decide as Hnone.
  - rewrite !obj_get_remove. cbn [String.eqb Ascii.eqb Bool.eqb]. rewrite Heff. repeat split; [done| |].
    + unfold get_str. by rewrite obj_get_remove.
    + intros k [v Hv]. rewrite obj_get_remove in Hv. destruct (String.eqb "summary" k); [done|]. by apply Hkeys; eexists.
  - rewrite Heff, Hsum. by repeat split.
Qed.

Lemma auth_fields_gone a o o' k :
  normalize_auth_fields a o = Ok o' -> a = false -> In k ["max_output_tokens"; "client_metadata"; "metadata"] ->
  obj_get k o' = None.
Proof.
  intros H -> Hk. cbn in H. injection H as <-. rewrite !obj_get_remove.
  by destruct Hk as [<-|[<-|[<-|[]]]].
Qed.

Lemma auth_fields_bound a o o' v :
  normalize_auth_fields a o = Ok o' -> obj_get "max_output_tokens" o' = Some v ->
  v = JNull \/ exists n, as_u64 v = Some n /\ n <> 0%N.
Proof.
  intros H Hv. destruct a.
  - apply bind_ok in H as ([] & Hr%reject_ok & [= <-]). rewrite Hv in Hr.
    destruct v; try discriminate Hr; [by left|right]. destruct (as_u64 _) as [m|]; [|done].
    exists m. by apply N.eqb_neq in Hr.
  - by rewrite (auth_fields_gone false _ _ "max_output_tokens" H) in Hv by (done || by left).
Qed.

Lemma input_nonempty `{SerdeJson, ItemCodec} calls input v :
  normalize_response_input calls input = Ok v -> exists items, v = JArray items /\ items <> [].
Proof.
  unfold normalize_response_input. intros (items & Hi & Hn)%bind_ok.
  assert (Hne : items <> []).
  { intros ->. destruct input as [| | | |[|]|]; cbn in Hi; try discriminate Hi. }
  destruct items as [|i items]; [done|]. cbn [normalize_items] in Hn.
  destruct (normalize_response_item calls 0 i) as [i'|]; [|discriminate Hn]. cbn [mbind result_bind] in Hn.
  destruct (normalize_items calls 1 items) as [is'|]; [|discriminate Hn]. injection Hn as <-. by eexists.
Qed.

(** The fields the standard pipeline may write. *)
Definition owned_fields : list string :=
  [ "instructions"; "previous_response_id"; "conversation"; "tools"; "input"; "tool_choice";
    "parallel_tool_calls"; "reasoning"; "include"; "max_output_tokens"; "client_metadata"; "metadata" ].

(** The standard form of a request, before the two constants are written. *)
Record standard_form (api_key_auth : bool) (object o : obj) : Prop := {
  sf_frame : frame owned_fields object o;
  sf_previous : obj_get "previous_response_id" o = None;
  sf_conversation : obj_get "conversation" o = None;
  sf_input : exists items, obj_get "input" o = Some (JArray items) /\ items <> [];
  sf_reasoning : reasoning_ok api_key_auth [] (obj_get "reasoning" o);
  sf_include : exists l, obj_get "include" o = Some (JArray l) /\ NoDup l /\
                         Forall (fun v => is_string v = true) l /\
                         forall v, v ∈ l <-> v ∈ listed "include" object \/ v = encrypted_reasoning;
  sf_gone : forall k, api_key_auth = false -> In k ["max_output_tokens"; "client_metadata"; "metadata"] ->
                      obj_get k o = None;
  sf_bound : forall v, obj_get "max_output_tokens" o = Some v -> v = JNull \/ exists n, as_u64 v = Some n /\ n <> 0%N
}.

(** The pipeline up to the Responses Lite rewriting. *)
Definition standard_steps `{SerdeJson, ItemCodec} (object : obj) (api_key_auth : bool) : res obj :=
  object ← normalize_instructions object;
  object ← reject_stateful_reference "previous_response_id" object;
  object ← reject_stateful_reference "conversation" object;
  object ← normalize_tools object;
  namespace_calls ← collect_namespace_calls (default [] (obj_get "tools" object ≫= as_array));
  input ← ok_or (obj_get "input" object) (InvalidRequest "input is required");
  let object := obj_remove "input" object in
  input ← normalize_response_input namespace_calls input;
  let object := obj_insert "input" input object in
  object ← normalize_tool_choice api_key_auth object;
  object ← normalize_parallel_tool_calls object;
  object ← normalize_reasoning api_key_auth object;
  object ← normalize_include object;
  normalize_auth_fields api_key_auth object.

Lemma frame_app ks ks' o o' : frame ks o o' -> incl ks ks' -> frame ks' o o'.
Proof. intros H Hi k Hk. apply H. by eapply one_of_incl. Qed.

Ltac keep := match goal with
  | F : frame ?ks ?o ?o' |- context[obj_get ?k ?o'] => rewrite (F k) by reflexivity
  end.
Lemma standard_steps_form `{SJ : SerdeJson, IC : ItemCodec} a object o :
  standard_steps object a = Ok o -> standard_form a object o.
Proof.
  unfold standard_steps.
  intros (o1 & F1%instructions_frame & H)%bind_ok. apply bind_ok in H as (o2 & H2 & H).
  apply bind_ok in H as (o3 & H3 & H). apply bind_ok in H as (o4 & F4%tools_frame & H).
  apply bind_ok in H as (calls & _ & H). apply bind_ok in H as (input & _ & H).
  apply bind_ok in H as (v & (items & -> & Hitems)%input_nonempty & H).
  set (o5 := obj_insert "input" (JArray items) (obj_remove "input" o4)) in *.
  assert (F5 : frame ["input"] o4 o5).
  { eapply frame_trans_same; [|by apply frame_insert]. by apply frame_remove. }
  assert (Hin : obj_get "input" o5 = Some (JArray items)) by (unfold o5; by rewrite obj_get_insert_eq).
  apply bind_ok in H as (o6 & F6%tool_choice_frame & H). apply bind_ok in H as (o7 & F7%parallel_frame & H).
  apply bind_ok in H as (o8 & H8 & H). apply bind_ok in H as (o9 & H9 & H10).
  pose proof (stateful_frame _ _ _ H2) as F2. pose proof (stateful_frame _ _ _ H3) as F3.
  pose proof (reasoning_frame _ _ _ H8) as F8. pose proof (include_frame _ _ H9) as F9.
  pose proof (auth_frame _ _ _ H10) as F10. clearbody o5.
  split.
  - intros k Hk.
    assert (Hsub : forall ks, incl ks owned_fields -> one_of k ks = false) by (intros ks ?; by eapply one_of_incl).
    rewrite F10, F9, F8, F7, F6, F5, F4, F3, F2, F1; [done|..]; apply Hsub; intros x Hx; cbn in *; tauto.
  - do 8 keep. by apply stateful_none in H2.
  - do 7 keep. by apply stateful_none in H3.
  - exists items. split; [|done]. by do 5 keep.
  - do 2 keep. by apply reasoning_normalized in H8.
  - destruct (include_set _ _ H9) as (l & Hl & Hrest). exists l. split; [by keep|].
    unfold listed in *. revert Hrest. do 8 keep. done.
  - intros k Ha Hk. by apply (auth_fields_gone _ _ _ k H10).
  - intros v. by apply (auth_fields_bound _ _ _ v H10).
Qed.

Lemma normalize_request_split `{SJ : SerdeJson, IC : ItemCodec} body a lite ns v :
  normalize_responses_request body a lite ns = Ok v ->
  exists object model o o',
    body = JObject object /\ get_str "model" object = Some model /\ validate_model_id model = Ok tt /\
    standard_steps object a = Ok o /\
    (if lite then exists n, ns = Some n /\ normalize_responses_lite_request n o = Ok o' else o' = o) /\
    v = JObject (obj_insert "stream" (JBool true) (obj_insert "store" (JBool false) o')).
Proof.
  unfold normalize_responses_request. intros (object & Hb%ok_or_ok & H)%bind_ok.
  apply bind_ok in H as (model & Hm%ok_or_ok & H). apply bind_ok in H as ([] & Hv & H).
  destruct body as [| | | | |object']; try discriminate Hb. injection Hb as ->.
  assert (exists o, standard_steps object a = Ok o /\
    (o' ← (if lite then
             namespace ← ok_or ns (InvalidRequest "Responses Lite request namespace was not initialized");
             normalize_responses_lite_request namespace o
           else Ok o);
     Ok (JObject (obj_insert "stream" (JBool true) (obj_insert "store" (JBool false) o')))) = Ok v)
    as (o & Hstd & Hrest).
  { unfold standard_steps. repeat (apply bind_ok in H as (? & ? & H)).
    match goal with Ha : normalize_auth_fields _ _ = Ok ?o |- _ => exists o end.
    split; [|by apply bind_ok; eexists].
    repeat (apply bind_ok; eexists; split; [eassumption|]). done. }
  apply bind_ok in Hrest as (o' & Hl & [= <-]).
  exists object, model, o, o'. repeat split; try done.
  - by destruct (validate_model_id model) as [[]|].
  - destruct lite; [|by injection Hl]. by apply bind_ok in Hl as (n & ?%ok_or_ok & ?); exists n.
Qed.

(** The standard form, written as one computation followed by the two constants. *)
Lemma normalize_request_standard `{SJ : SerdeJson, IC : ItemCodec} object model a o ns :
  get_str "model" object = Some model -> validate_model_id model = Ok tt -> standard_steps object a = Ok o ->
  normalize_responses_request (JObject object) a false ns =
    Ok (JObject (obj_insert "stream" (JBool true) (obj_insert "store" (JBool false) o))).
Proof.
  unfold standard_steps, normalize_responses_request. intros Hm Hv H.
  cbn [as_object ok_or mbind result_bind]. rewrite Hm. cbn [ok_or mbind result_bind]. rewrite Hv.
  cbn [map_err mbind result_bind].
  repeat (apply bind_ok in H as (? & ? & H); apply bind_ok; eexists; split; [eassumption|]).
  apply bind_ok. by eexists.
Qed.

Lemma obj_get_or_insert k k' v m :
  obj_get k (or_insert k' v m) = if String.eqb k k' then Some (default v (obj_get k m)) else obj_get k m.
Proof.
  unfold or_insert. destruct (String.eqb_spec k k') as [->|Hne].
  - destruct (obj_get k' m) eqn:E; [done|]. by rewrite obj_get_insert_eq.
  - destruct (obj_get k' m); [done|]. by rewrite obj_get_insert_ne.
Qed.
#[export] Hint Rewrite obj_get_or_insert : muse.

(** What the Lite rewriting does to a standard form. *)
Lemma lite_rewrite `{SJ : SerdeJson, IC : ItemCodec} n o o' :
  normalize_responses_lite_request n o = Ok o' ->
  exists instructions given tools input r,
    get_str "instructions" o = Some instructions /\
    obj_get "tools" o = Some (JArray given) /\ group_responses_lite_tools given = Ok tools /\
    obj_get "input" o = Some (JArray input) /\
    obj_get "input" o' =
      Some (JArray ((additional_tools n tools
                     :: (if is_empty instructions then [] else [base_instructions n instructions]))
                    ++ strip_responses_lite_image_details input)) /\
    obj_get "instructions" o' = None /\ obj_get "tools" o' = None /\
    obj_get "parallel_tool_calls" o' = Some (JBool false) /\
    (obj_get "reasoning" o = None /\ r = [] \/ obj_get "reasoning" o = Some (JObject r)) /\
    obj_get "reasoning" o' = Some (JObject (obj_insert "context" (JString "all_turns") r)).
Proof.
  unfold normalize_responses_lite_request. intros (instructions & Hi%ok_or_ok & H)%bind_ok.
  apply bind_ok in H as (given & Ht%ok_or_ok & H). apply bind_ok in H as (tools & Hg & H).
  apply bind_ok in H as (input & Hin%ok_or_ok & H). apply bind_ok in H as (r & Hr%ok_or_ok & [= <-]).
  rewrite !obj_get_remove in Hin. cbn in Hin.
  destruct (obj_get "tools" o) as [[| | | |g|]|] eqn:Et; try discriminate Ht. injection Ht as ->.
  destruct (obj_get "input" o) as [[| | | |inp|]|] eqn:Ei; try discriminate Hin. injection Hin as ->.
  exists instructions, given, tools, input, r.
  set (base := obj_remove "tools" (obj_remove "instructions" o)) in *.
  assert (Hbase : forall k, obj_get k base = if one_of k ["instructions"; "tools"] then None else obj_get k o).
  { intros k. unfold base, one_of. rewrite !obj_get_remove. cbn [existsb].
    rewrite (String.eqb_sym k), (String.eqb_sym k "tools").
    by destruct (String.eqb "instructions" k), (String.eqb "tools" k). }
  clearbody base. set (whole := JArray _) in *. clearbody whole.
  autorewrite with muse in *. rewrite !Hbase in *. cbn in *. rewrite Ei.
  destruct (obj_get "reasoning" o) as [[| | | | |r']|] eqn:Er; cbn in Hr; try discriminate Hr; injection Hr as <-.
  - repeat split; try done. by right.
  - repeat split; try done. by left.
Qed.

(** The parts an item shows to the model carry no image detail. *)
Definition image_field (item : value) : option string :=
  match vget_str "type" item with
  | Some ty => if String.eqb ty "message" then Some "content"
               else if one_of ty ["function_call_output"; "custom_tool_call_output"] then Some "output" else None
  | None => None
  end.
Definition detail_free (item : value) : Prop :=
  forall field parts part,
    image_field item = Some field -> vget field item = Some (JArray parts) -> In part parts ->
    vget_str "type" part = Some "input_image" -> vget "detail" part = None.

Lemma strip_image_detail_type part : vget_str "type" (strip_image_detail part) = vget_str "type" part.
Proof.
  destruct part; try done. unfold strip_image_detail. case_bool_decide; [|done].
  unfold vget_str, vget. by rewrite obj_get_remove.
Qed.
Lemma strip_image_detail_free part :
  vget_str "type" part = Some "input_image" -> vget "detail" (strip_image_detail part) = None.
Proof.
  destruct part as [| | | | |m]; try done. intros H. unfold strip_image_detail.
  change (get_str "type" m = Some "input_image") in H. rewrite bool_decide_true by done.
  cbn [vget]. by rewrite obj_get_remove.
Qed.
Lemma strip_field_get f k item :
  vget k (strip_field f item) =
    if String.eqb k f
    then (fun v => match v with JArray l => JArray (strip_image_detail <$> l) | _ => v end) <$> vget k item
    else vget k item.
Proof.
  destruct item; cbn [strip_field vget]; try (by destruct (String.eqb k f)). apply obj_get_alter.
Qed.
Lemma strip_item_details_eq item :
  strip_item_details item = match image_field item with Some f => strip_field f item | None => item end.
Proof.
  unfold strip_item_details, image_field. destruct (vget_str "type" item) as [ty|]; [|done].
  destruct (String.eqb ty "message"); [done|]. by destruct (one_of ty _).
Qed.
Lemma strip_item_detail_free item : detail_free (strip_item_details item).
Proof.
  intros field parts part Hf Hparts Hin Hty. rewrite strip_item_details_eq in *.
  destruct (image_field item) as [f|] eqn:E; [|congruence].
  assert (Hf' : f = "content" \/ f = "output").
  { unfold image_field in E. repeat case_match; try discriminate E; injection E as <-; auto. }
  assert (Hsame : image_field (strip_field f item) = image_field item).
  { unfold image_field, vget_str. rewrite strip_field_get. by destruct Hf' as [-> | ->]. }
  rewrite Hsame, E in Hf. injection Hf as <-. rewrite strip_field_get, String.eqb_refl in Hparts.
  destruct (vget f item) as [[| | | |l|]|]; try discriminate Hparts. injection Hparts as <-.
  apply in_map_iff in Hin as (p & <- & _). rewrite strip_image_detail_type in Hty.
  by apply strip_image_detail_free.
Qed.

(** The fields the pipeline owns are the only ones it changes. *)
Lemma request_outline `{SJ : SerdeJson, IC : ItemCodec} body a lite ns v :
  normalize_responses_request body a lite ns = Ok v ->
  exists object o,
    body = JObject object /\ v = JObject o /\ frame (["store"; "stream"] ++ owned_fields) object o /\
    obj_get "store" o = Some (JBool false) /\ obj_get "stream" o = Some (JBool true).
Proof.
  intros (object & model & o & o' & -> & _ & _ & Hstd & Hl & ->)%normalize_request_split.
  apply standard_steps_form, sf_frame in Hstd as F.
  assert (Fl : frame lite_fields o o').
  { destruct lite; [destruct Hl as (n & _ & Hl); by apply lite_frame in Hl|by subst]. }
  eexists object, _. split; [done|]. split; [done|]. rewrite !obj_get_insert. cbn [String.eqb Ascii.eqb Bool.eqb].
  split; [|done]. intros k Hk. unfold one_of in Hk. rewrite existsb_app in Hk. cbn [existsb] in Hk.
  apply orb_false_elim in Hk as [(Hs & (Ht & _)%orb_false_elim)%orb_false_elim Ho].
  rewrite !obj_get_insert, Hs, Ht, (Fl k), (F k); [done|exact Ho|].
  eapply one_of_incl; [|exact Ho]. intros x Hx; cbn in *; tauto.
Qed.

(** C31: Every request the gateway sends to Codex is stateless and asks for a stream: [store] is
    false, [stream] true, there is no reference to server-side history, the input is a
    non-empty array, and [include] lists the caller's entries plus the encrypted reasoning
    exactly once. A subscription request also sheds the API-only fields and every reasoning
    member but effort and summary, and Responses Lite adds only its context; fields the
    pipeline does not own pass through unchanged. *)
Theorem responses_request_stateless `{SJ : SerdeJson, IC : ItemCodec}
    (body : value) (api_key_auth lite : bool) (ns : option string) (v : value)
    (Hrun : normalize_responses_request body api_key_auth lite ns = Ok v) :
  exists object o model,
    body = JObject object /\ v = JObject o /\
    get_str "model" o = Some model /\ validate_model_id model = Ok tt /\
    obj_get "store" o = Some (JBool false) /\ obj_get "stream" o = Some (JBool true) /\
    obj_get "previous_response_id" o = None /\ obj_get "conversation" o = None /\
    (exists items, obj_get "input" o = Some (JArray items) /\ items <> []) /\
    (exists l, obj_get "include" o = Some (JArray l) /\ NoDup l /\
               Forall (fun v => is_string v = true) l /\
               forall v, v ∈ l <-> v ∈ listed "include" object \/ v = encrypted_reasoning) /\
    reasoning_ok api_key_auth (if lite then ["context"] else []) (obj_get "reasoning" o) /\
    (forall k, api_key_auth = false -> In k ["max_output_tokens"; "client_metadata"; "metadata"] ->
               obj_get k o = None) /\
    frame (["store"; "stream"] ++ owned_fields) object o.
Proof.
  destruct (request_outline _ _ _ _ _ Hrun) as (object0 & o0 & Hb & Ho & Fr & _).
  apply normalize_request_split in Hrun as (object & model & o & o' & -> & Hm & Hv & Hstd & Hl & ->).
  apply standard_steps_form in Hstd as [F P C (items & HI & Hne) R I G _].
  exists object, (obj_insert "stream" (JBool true) (obj_insert "store" (JBool false) o')), model.
  assert (Fl : frame lite_fields o o').
  { destruct lite; [destruct Hl as (n & _ & Hl); by apply lite_frame in Hl|by subst]. }
  repeat (rewrite obj_get_insert). cbn [String.eqb Ascii.eqb Bool.eqb].
  unfold get_str. repeat (rewrite obj_get_insert). cbn [String.eqb Ascii.eqb Bool.eqb].
  rewrite (Fl "model"), (Fl "previous_response_id"), (Fl "conversation"), (Fl "include"), (F "model") by done.
  repeat (split; [done|]). split; [|split; [exact I|split; [|split]]].
  - destruct lite; [|subst; by exists items].
    destruct Hl as (n & _ & (?&?&?&?&?&?&?&?&?&->&_)%lite_rewrite). eexists. by split.
  - destruct lite; [|by subst].
    destruct Hl as (n & _ & (?&?&?&?&r&_&_&_&_&_&_&_&_&Hr&->)%lite_rewrite).
    assert (Hok : reasoning_ok api_key_auth [] (Some (JObject r))).
    { destruct Hr as [[_ ->]|Hr]; [|by rewrite <- Hr]. by split; [|split; [|split; [|intros k [? ?]]]]. }
    destruct Hok as (He & Hs & Hk). cbn [reasoning_ok]. autorewrite with muse.
    cbn [String.eqb Ascii.eqb Bool.eqb]. repeat split; [done..| |].
    + unfold get_str. rewrite obj_get_insert. by apply Hk.
    + intros k. rewrite obj_get_insert. destruct (String.eqb_spec k "context") as [->|]; [done|].
      intros Hsome. apply Hk in Hsome; [|done]. unfold one_of in *. cbn [existsb] in *.
      by destruct (String.eqb k "effort"), (String.eqb k "summary").
  - intros k Ha Hk. rewrite !obj_get_insert, (Fl k).
    + rewrite (G k Ha Hk). by destruct Hk as [<-|[<-|[<-|[]]]].
    + by destruct Hk as [<-|[<-|[<-|[]]]].
  - injection Hb as ->. injection Ho as <-. exact Fr.
Qed.

(** C32: The Responses Lite request is the standard request of the same body, rewritten: the
    instructions and the tools leave the top level and become developer items with
    deterministic ids in front of the same input, parallel calls are off, the reasoning
    context spans all turns, no image detail is left in any message or tool output, and
    every other field is that of the standard request. *)
Theorem lite_request_rewrites_standard `{SJ : SerdeJson, IC : ItemCodec}
    (body : value) (api_key_auth : bool) (ns : option string) (v : value)
    (Hrun : normalize_responses_request body api_key_auth true ns = Ok v) :
  exists n s o instructions given tools input items,
    ns = Some n /\ normalize_responses_request body api_key_auth false ns = Ok (JObject s) /\ v = JObject o /\
    get_str "instructions" s = Some instructions /\ obj_get "tools" s = Some (JArray given) /\
    group_responses_lite_tools given = Ok tools /\ obj_get "input" s = Some (JArray input) /\
    obj_get "input" o =
      Some (JArray ((additional_tools n tools
                     :: (if is_empty instructions then [] else [base_instructions n instructions])) ++ items)) /\
    Forall2 (fun item item' => item' = strip_item_details item /\ detail_free item') input items /\
    obj_get "instructions" o = None /\ obj_get "tools" o = None /\
    obj_get "parallel_tool_calls" o = Some (JBool false) /\
    (obj_get "reasoning" o ≫= vget_str "context") = Some "all_turns" /\
    frame lite_fields s o.
Proof.
  apply normalize_request_split in Hrun as (object & model & o & o' & -> & Hm & Hv & Hstd & (n & -> & Hl) & ->).
  pose proof (lite_frame _ _ _ Hl) as Fl.
  apply lite_rewrite in Hl as (instr & given & tools & input & r & Hi & Ht & Hg & Hin & Hin' & Hi' & Ht' & Hp & _ & Hr').
  exists n, (obj_insert "stream" (JBool true) (obj_insert "store" (JBool false) o)),
    (obj_insert "stream" (JBool true) (obj_insert "store" (JBool false) o')), instr, given, tools, input,
    (strip_responses_lite_image_details input).
  split; [done|]. split; [by eapply normalize_request_standard|]. split; [done|].
  unfold get_str. repeat (rewrite obj_get_insert). cbn [String.eqb Ascii.eqb Bool.eqb].
  rewrite Hr'. repeat (split; [done|]). split; [|repeat split; try done].
  - unfold strip_responses_lite_image_details. clear. induction input; constructor; [|done].
    split; [done|apply strip_item_detail_free].
  - unfold mbind, option_bind, vget_str, vget. by rewrite obj_get_insert_eq.
  - intros k Hk. rewrite !obj_get_insert, (Fl k Hk). done.
Qed.

(** ** Tool grouping *)

Definition function_like (tool : value) : bool :=
  match vget_str "type" tool with
  | Some ty => negb (is_hosted_responses_tool ty) &&
               (one_of ty ["function"; "custom"]
                || String.eqb ty "namespace" && bool_decide (vget_str "name" tool = Some "functions"))
  | None => false
  end.
(** The client functions a tool contributes. *)
Definition client_tools (tool : value) : list value :=
  if function_like tool then
    if bool_decide (vget_str "type" tool = Some "namespace")
    then default [] (vget "tools" tool ≫= as_array) else [tool]
  else [].
Definition other_tool (tool : value) : bool :=
  match vget_str "type" tool with
  | Some ty => negb (is_hosted_responses_tool ty) && negb (function_like tool)
  | None => false
  end.
Definition groupable (tool : value) : bool :=
  is_some_and (fun _ => negb (function_like tool && bool_decide (vget_str "type" tool = Some "namespace"))
                        || is_some_and (fun _ => true) (vget "tools" tool ≫= as_array))
              (vget_str "type" tool).

Definition initial_grouping : Grouping :=
  {| functions := []; function_namespace_description := ""; function_namespace_index := None; grouped := [] |}.
Definition meaningful (d : string) : Prop := d = "" \/ is_empty (trim d) = false.

(** What one tool does to the grouping. *)
Lemma group_tool_step g tool g' :
  group_tool g tool = Ok g' ->
  functions g' = functions g ++ client_tools tool /\
  grouped g' = grouped g ++ List.filter other_tool [tool] /\
  function_namespace_index g' = (if function_like tool then mark g else function_namespace_index g) /\
  (meaningful (function_namespace_description g) -> meaningful (function_namespace_description g')) /\
  groupable tool = true.
Proof.
  unfold group_tool. intros (ty & Hty%ok_or_ok & H)%bind_ok.
  unfold client_tools, groupable, other_tool, function_like. cbn [List.filter]. rewrite Hty. cbn [is_some_and].
  destruct (is_hosted_responses_tool ty) eqn:Eh.
  { injection H as <-. cbn. by rewrite !app_nil_r. }
  cbn [negb andb]. destruct (one_of ty ["function"; "custom"]) eqn:Ef.
  { injection H as <-. cbn. rewrite app_nil_r. rewrite bool_decide_false; [done|].
    intros [= ->]. done. }
  cbn [orb]. destruct (String.eqb_spec ty "namespace") as [->|Hns]; cbn [andb] in *.
  - case_bool_decide; [|injection H as <-; cbn; by rewrite app_nil_r].
    apply bind_ok in H as (tools & Ht%ok_or_ok & [= <-]). cbn [functions grouped function_namespace_index
      function_namespace_description negb andb orb]. rewrite Ht, bool_decide_true by done. cbn. rewrite app_nil_r.
    repeat split; try done. intros Hm. destruct (vget_str "description" tool) as [d|]; [|done]. cbn [opt_filter].
    destruct (is_empty (trim d)) eqn:Ed; [done|]. by right.
  - injection H as <-. cbn. by rewrite app_nil_r.
Qed.

(** An ordinary tool is only appended. *)
Lemma group_other g tool :
  other_tool tool = true ->
  group_tool g tool = Ok {| functions := functions g; function_namespace_description := function_namespace_description g;
                            function_namespace_index := function_namespace_index g; grouped := grouped g ++ [tool] |}.
Proof.
  unfold other_tool, function_like, group_tool. destruct (vget_str "type" tool) as [ty|]; [|done].
  cbn [ok_or mbind result_bind]. destruct (is_hosted_responses_tool ty); [done|].
  destruct (one_of ty ["function"; "custom"]); [done|].
  destruct (String.eqb ty "namespace" && _); done.
Qed.
Lemma group_others g tools :
  forallb other_tool tools = true ->
  fold_res group_tool g tools =
    Ok {| functions := functions g; function_namespace_description := function_namespace_description g;
          function_namespace_index := function_namespace_index g; grouped := grouped g ++ tools |}.
Proof.
  revert g. induction tools as [|tool tools IH]; intros g; cbn [forallb fold_res].
  - intros _. rewrite app_nil_r. by destruct g.
  - intros [Ht Hts]%andb_prop. rewrite group_other by done. cbn [mbind result_bind]. rewrite IH by done.
    cbn [functions grouped function_namespace_index function_namespace_description].
    by rewrite <- app_assoc.
Qed.

Record grouped_as (seen : list value) (g : Grouping) : Prop := {
  ga_functions : functions g = flat_map client_tools seen;
  ga_grouped : grouped g = List.filter other_tool seen;
  ga_meaningful : meaningful (function_namespace_description g);
  ga_index : match function_namespace_index g with
             | None => forallb (fun t => negb (function_like t)) seen = true
             | Some i => exists pre t post, seen = pre ++ t :: post /\ function_like t = true /\
                           forallb (fun t => negb (function_like t)) pre = true /\
                           i = length (List.filter other_tool pre)
             end
}.
Lemma grouped_as_fold tools g : fold_res group_tool initial_grouping tools = Ok g -> grouped_as tools g.
Proof.
  apply fold_res_ind; [by split; [..|left|]|].
  intros seen tool g0 g1 [F G M I] (Hf & Hg & Hi & Hm & _)%group_tool_step.
  split.
  - by rewrite Hf, F, flat_map_app; cbn; rewrite app_nil_r.
  - by rewrite Hg, G, List.filter_app.
  - auto.
  - rewrite Hi. unfold mark. destruct (function_namespace_index g0) as [i|]; cbn [default].
    + destruct I as (pre & t & post & -> & ? & ? & ->).
      assert (Hgoal : exists pre' t' post', (pre ++ t :: post) ++ [tool] = pre' ++ t' :: post' /\
         function_like t' = true /\ forallb (fun t => negb (function_like t)) pre' = true /\
         length (List.filter other_tool pre) = length (List.filter other_tool pre')).
      { exists pre, t, (post ++ [tool]). by rewrite <- app_assoc. }
      by destruct (function_like tool).
    + destruct (function_like tool) eqn:E.
      * exists seen, tool, []. rewrite G. done.
      * rewrite forallb_app, I. cbn. by rewrite E.
Qed.
Lemma group_groupable g tools g' : fold_res group_tool g tools = Ok g' -> forallb groupable tools = true.
Proof.
  intros H. refine (fold_res_ind group_tool (fun seen _ => forallb groupable seen = true) g tools g' eq_refl _ H).
  intros seen a t t' Hs (_ & _ & _ & _ & Ha)%group_tool_step. rewrite forallb_app, Hs. cbn. by rewrite Ha.
Qed.
Lemma groupable_group g tools : forallb groupable tools = true -> exists g', fold_res group_tool g tools = Ok g'.
Proof.
  revert g. induction tools as [|tool tools IH]; intros g; cbn [forallb fold_res]; [by eexists|].
  intros [Ht Hts]%andb_prop.
  assert (exists g1, group_tool g tool = Ok g1) as (g1 & ->); [|by apply IH].
  unfold groupable, function_like in Ht. unfold group_tool. destruct (vget_str "type" tool) as [ty|]; [|done].
  cbn [ok_or mbind result_bind is_some_and] in *. destruct (is_hosted_responses_tool ty); [by eexists|].
  destruct (one_of ty _) eqn:E; [by eexists|]. destruct (String.eqb_spec ty "namespace") as [->|]; [|by eexists].
  cbn [andb negb orb] in *. case_bool_decide; [|by eexists].
  rewrite bool_decide_true in Ht by done. cbn in Ht.
  destruct (vget "tools" tool ≫= as_array); [by eexists|done].
Qed.

Lemma functions_namespace_read d fs :
  vget_str "type" (functions_namespace d fs) = Some "namespace" /\
  vget_str "name" (functions_namespace d fs) = Some "functions" /\
  vget_str "description" (functions_namespace d fs) = Some d /\
  vget "tools" (functions_namespace d fs) = Some (JArray fs).
Proof. unfold functions_namespace. by autorewrite with muse. Qed.
Lemma other_filter_others l : forallb other_tool (List.filter other_tool l) = true.
Proof. apply forallb_forall. by intros x [_ Hx]%filter_In. Qed.

Lemma group_namespace before d fs :
  meaningful d ->
  group_tool {| functions := []; function_namespace_description := "";
                function_namespace_index := None; grouped := before |} (functions_namespace d fs)
  = Ok {| functions := fs; function_namespace_description := d;
          function_namespace_index := Some (length before); grouped := before |}.
Proof.
  intros Hd. unfold group_tool. destruct (functions_namespace_read d fs) as (Ht & Hn & Hde & Hto).
  rewrite Ht, Hn, Hde, Hto. cbn [ok_or mbind result_bind option_bind as_array].
  rewrite bool_decide_true by done. cbn. destruct Hd as [->|Hd]; [done|]. by rewrite Hd.
Qed.

(** Regrouping a grouped list changes nothing. *)
Lemma regroup before d fs after :
  forallb other_tool before = true -> forallb other_tool after = true -> fs <> [] -> meaningful d ->
  group_responses_lite_tools (before ++ functions_namespace d fs :: after)
    = Ok (before ++ functions_namespace d fs :: after).
Proof.
  intros Hb Ha Hfs Hd. unfold group_responses_lite_tools. apply bind_ok.
  exists {| functions := fs; function_namespace_description := d;
            function_namespace_index := Some (length before); grouped := before ++ after |}.
  split; [|cbn; destruct fs; [done|]; by rewrite take_app_length, drop_app_length].
  assert (Happ : forall (f : Grouping -> value -> res Grouping) a b s,
    fold_res f s (a ++ b) = (s' ← fold_res f s a; fold_res f s' b)).
  { intros f a. induction a as [|x a IH]; intros b s; [done|]. cbn [fold_res app].
    destruct (f s x); [|done]. cbn [mbind result_bind]. apply IH. }
  rewrite Happ, group_others by done. cbn [mbind result_bind fold_res functions grouped
    function_namespace_index function_namespace_description app].
  rewrite group_namespace by done. cbn [mbind result_bind]. by rewrite group_others.
Qed.

(** Responses Lite grouping succeeds exactly on typed tools whose functions namespaces list
    their tools. It keeps every client function and custom tool, at top level or inside a
    functions namespace, once and in order, in one functions namespace that stands where the
    first of them stood; every other client tool keeps its place, only hosted tools go; and
    grouping again changes nothing. *)
Theorem group_tools_conserves (tools : list value) :
  is_ok (group_responses_lite_tools tools) = forallb groupable tools /\
  forall out, group_responses_lite_tools tools = Ok out ->
    match flat_map client_tools tools with
    | [] => out = List.filter other_tool tools
    | fs => exists pre t post d,
        tools = pre ++ t :: post /\ function_like t = true /\
        forallb (fun t => negb (function_like t)) pre = true /\
        out = List.filter other_tool pre ++ functions_namespace d fs :: List.filter other_tool post
    end /\
    group_responses_lite_tools out = Ok out.
Proof.
  split.
  - unfold group_responses_lite_tools. fold initial_grouping.
    destruct (forallb groupable tools) eqn:E.
    + by destruct (groupable_group initial_grouping tools E) as (g & ->).
    + destruct (fold_res group_tool initial_grouping tools) as [g|] eqn:Hg; [|done].
      apply group_groupable in Hg. congruence.
  - intros out. unfold group_responses_lite_tools at 1. fold initial_grouping.
    intros (g & [F G M I]%grouped_as_fold & Hout)%bind_ok. rewrite F, G in Hout.
    assert (Hothers : group_responses_lite_tools (List.filter other_tool tools) = Ok (List.filter other_tool tools)).
    { unfold group_responses_lite_tools. fold initial_grouping. by rewrite group_others by apply other_filter_others. }
    destruct (flat_map client_tools tools) as [|f fs] eqn:Efs.
    + destruct (function_namespace_index g); by injection Hout as <-.
    + destruct (function_namespace_index g) as [i|].
      * destruct I as (pre & t & post & Htools & Ht & Hpre & ->).
        assert (Hfilter : List.filter other_tool tools = List.filter other_tool pre ++ List.filter other_tool post).
        { rewrite Htools, List.filter_app. cbn. replace (other_tool t) with false; [done|].
          unfold other_tool. rewrite Ht. destruct (vget_str "type" t); [|done]. by rewrite andb_false_r. }
        rewrite Hfilter, take_app_length, drop_app_length in Hout. injection Hout as <-. split.
        -- by exists pre, t, post, (function_namespace_description g).
        -- apply regroup; [apply other_filter_others..|done|done].
      * exfalso. clear -I Efs. assert (Hnil : flat_map client_tools tools = []); [|congruence]. clear Efs.
        induction tools as [|t tools IH]; [done|]. cbn in *. apply andb_prop in I as [Ht%negb_true_iff Hts].
        rewrite (IH Hts). unfold client_tools. by rewrite Ht.
Qed.
Lemma group_tools_conserves_witness :
  let tools := [ json_obj [("type", JString "web_search")];
                 json_obj [("type", JString "function"); ("name", JString "read")];
                 json_obj [("type", JString "namespace"); ("name", JString "muse"); ("tools", JArray [])] ] in
  let out := [ functions_namespace "" [json_obj [("type", JString "function"); ("name", JString "read")]];
               json_obj [("type", JString "namespace"); ("name", JString "muse"); ("tools", JArray [])] ] in
  group_responses_lite_tools tools = Ok out /\ group_responses_lite_tools out = Ok out.
Proof.
  intros tools out. assert (H : group_responses_lite_tools tools = Ok out) by (vm_compute; reflexivity).
  split; [exact H|]. exact (proj2 (proj2 (group_tools_conserves tools) out H)).
Defined.

(** ** Namespaced calls *)

(** The functions the request advertises inside namespaces, and the name Muse records. *)
Definition flatten (p : string * string) : string := p.1 +:+ "." +:+ p.2.
Definition namespace_functions (tool : value) : list (string * string) :=
  if bool_decide (vget_str "type" tool = Some "namespace") then
    match vget_str "name" tool, vget "tools" tool ≫= as_array with
    | Some namespace, Some tools => pair namespace <$> standalone_names tools
    | _, _ => []
    end
  else [].
Definition advertised (tools : list value) : list (string * string) := flat_map namespace_functions tools.

Definition add_call (standalone : list string) (calls : NamespaceCallMap) (p : string * string) : res NamespaceCallMap :=
  reject (one_of (flatten p) standalone)
    (InvalidRequest ("namespace tool conflicts with standalone function " +:+ flatten p));;
  reject (is_some_and (fun previous => negb (bool_decide (previous = p))) (calls !! flatten p))
    (InvalidRequest ("namespace tools have ambiguous flattened call name " +:+ flatten p));;
  Ok (<[flatten p := p]> calls).

Lemma fold_res_app {E A S} (f : S -> A -> result E S) s a b :
  fold_res f s (a ++ b) = (s' ← fold_res f s a; fold_res f s' b).
Proof.
  revert s. induction a as [|x a IH]; intros s; [done|]. cbn [fold_res app].
  destruct (f s x); [|done]. cbn [mbind result_bind]. apply IH.
Qed.
Lemma fold_res_flat_map {E A B S} (f : S -> A -> result E S) (g : S -> B -> result E S) (h : A -> list B) :
  (forall s a, f s a = fold_res g s (h a)) -> forall l s, fold_res f s l = fold_res g s (flat_map h l).
Proof.
  intros Hh l. induction l as [|a l IH]; intros s; [done|]. cbn [fold_res flat_map].
  rewrite fold_res_app, Hh. by destruct (fold_res g s (h a)); [apply IH|].
Qed.
Definition function_name (tool : value) : list string :=
  if bool_decide (vget_str "type" tool = Some "function")
  then match vget_str "name" tool with Some n => [n] | None => [] end else [].
Lemma standalone_names_flat tools : standalone_names tools = flat_map function_name tools.
Proof.
  unfold standalone_names, function_name. induction tools as [|tool tools IH]; [done|].
  cbn [flat_map]. rewrite <- IH. cbn. case_bool_decide; [|done]. by destruct (vget_str "name" tool).
Qed.
Lemma collect_namespace_tools_flat standalone namespace calls tools :
  fold_res (collect_namespace_tool standalone namespace) calls tools
  = fold_res (add_call standalone) calls (pair namespace <$> standalone_names tools).
Proof.
  rewrite (fold_res_flat_map _ (add_call standalone) (fun tool => pair namespace <$> function_name tool)).
  - f_equal. rewrite standalone_names_flat. induction tools as [|t tools IH]; [done|].
    cbn [flat_map]. by rewrite IH, fmap_app.
  - intros s tool. unfold collect_namespace_tool, function_name.
    case_bool_decide; [|done]. cbn [negb]. destruct (vget_str "name" tool) as [name|]; [|done].
    cbn [fmap list_fmap fold_res]. unfold add_call, flatten. cbn [fst snd].
    destruct (reject (one_of _ _) _); cbn [mbind result_bind]; [|done]. by destruct (reject _ _).
Qed.
Lemma collect_namespaces_flat standalone calls tools :
  fold_res (collect_namespace standalone) calls tools = fold_res (add_call standalone) calls (advertised tools).
Proof.
  unfold advertised. apply fold_res_flat_map. intros s tool. unfold collect_namespace, namespace_functions.
  case_bool_decide; [|done]. cbn [negb]. destruct (vget_str "name" tool); [|done].
  destruct (vget "tools" tool ≫= as_array); [|done]. apply collect_namespace_tools_flat.
Qed.

Definition calls_of (seen : list (string * string)) (calls : NamespaceCallMap) : Prop :=
  forall f p, calls !! f = Some p <-> p ∈ seen /\ f = flatten p.

Lemma add_call_ok standalone seen calls p calls' :
  calls_of seen calls -> add_call standalone calls p = Ok calls' ->
  calls_of (seen ++ [p]) calls' /\ one_of (flatten p) standalone = false.
Proof.
  intros Hc ([] & Hs%reject_ok & H)%bind_ok. apply bind_ok in H as ([] & Hp%reject_ok & [= <-]).
  split; [|done]. intros f q. rewrite elem_of_app, list_elem_of_singleton.
  destruct (decide (f = flatten p)) as [->|Hne].
  - rewrite lookup_insert_eq. split; [intros [= ->]; auto|]. intros [[Hq| ->] Hf]; [|done].
    assert (Hl : calls !! flatten p = Some q) by (by apply Hc).
    rewrite Hl in Hp. cbn in Hp. by apply negb_false_iff, bool_decide_eq_true in Hp as ->.
  - rewrite lookup_insert_ne by done. rewrite (Hc f q). split; [tauto|]. intros [[?| ->] ?]; [done|congruence].
Qed.

Lemma add_calls_ok standalone l calls :
  fold_res (add_call standalone) ∅ l = Ok calls ->
  calls_of l calls /\ forall p, p ∈ l -> one_of (flatten p) standalone = false.
Proof.
  intros H. refine (fold_res_ind (add_call standalone)
    (fun seen m => calls_of seen m /\ forall p, p ∈ seen -> one_of (flatten p) standalone = false)
    ∅ l calls _ _ H).
  - split; [|by intros p ?%elem_of_nil]. intros f p. rewrite lookup_empty, elem_of_nil. split; [done|tauto].
  - intros seen p m m' [Hc Hs] [Hc' Hp]%(add_call_ok _ _ _ _ _ Hc). split; [done|].
    intros q [Hq| ->%list_elem_of_singleton]%elem_of_app; auto.
Qed.

Lemma add_calls_run standalone seen calls l :
  calls_of seen calls ->
  (forall p, p ∈ l -> one_of (flatten p) standalone = false) ->
  (forall p q, p ∈ seen ++ l -> q ∈ seen ++ l -> flatten p = flatten q -> p = q) ->
  is_ok (fold_res (add_call standalone) calls l) = true.
Proof.
  revert seen calls. induction l as [|p l IH]; intros seen calls Hc Hs Hi; [done|]. cbn [fold_res].
  destruct (add_call standalone calls p) as [calls'|e] eqn:E; cbn [mbind result_bind].
  - pose proof (proj1 (add_call_ok _ _ _ _ _ Hc E)) as Hc'. apply (IH (seen ++ [p])); [done| |].
    + intros q Hq. apply Hs. by right.
    + rewrite <- app_assoc. exact Hi.
  - exfalso. revert E. unfold add_call. rewrite (Hs p) by by left. cbn [reject mbind result_bind].
    destruct (calls !! flatten p) as [q|] eqn:Eq; [|done]. apply Hc in Eq as [Hq Hf]. cbn [is_some_and].
    rewrite bool_decide_true; [done|]. apply Hi; [apply elem_of_app; by left|apply elem_of_app; right; by left|done].
Qed.

(** The reverse map of namespaced calls is exact. It is built exactly when no advertised
    namespaced name collides with a standalone function and no two advertised functions
    share a flattened name, and then it holds the advertised functions and nothing else. *)
Theorem namespace_calls_exact (tools : list value) :
  (is_ok (collect_namespace_calls tools) = true <->
     (forall p, p ∈ advertised tools -> one_of (flatten p) (standalone_names tools) = false) /\
     (forall p q, p ∈ advertised tools -> q ∈ advertised tools -> flatten p = flatten q -> p = q)) /\
  forall calls, collect_namespace_calls tools = Ok calls ->
    forall f p, calls !! f = Some p <-> p ∈ advertised tools /\ f = flatten p.
Proof.
  unfold collect_namespace_calls. rewrite collect_namespaces_flat. split.
  - destruct (fold_res _ _ _) as [calls|] eqn:E; cbn [is_ok].
    + split; [|done]. intros _. apply add_calls_ok in E as [Hc Hs]. split; [done|].
      intros p q Hp Hq Hf.
      assert (Hlp : calls !! flatten p = Some p) by (by apply Hc).
      assert (Hlq : calls !! flatten p = Some q) by (by apply Hc). congruence.
    + split; [done|]. intros [Hs Hi].
      pose proof (add_calls_run (standalone_names tools) [] ∅ (advertised tools)) as H. rewrite E in H.
      apply H; [|done|done]. intros f p. rewrite lookup_empty, elem_of_nil. split; [done|tauto].
  - intros calls H. by apply add_calls_ok in H as [Hc _].
Qed.

(** Replaying history restores namespaced calls and touches no other: a recorded call under the
    flattened name of an advertised function gets its namespace and name back with every other
    field kept, and a call to a standalone function, an unadvertised dotted name or a call that
    already has a namespace is left as it is. *)
Theorem split_namespace_exact (tools : list value) (calls : NamespaceCallMap) (o : obj)
    (Hcalls : collect_namespace_calls tools = Ok calls) :
  (forall namespace name,
     get_str "type" o = Some "function_call" -> obj_get "namespace" o = None ->
     (namespace, name) ∈ advertised tools -> get_str "name" o = Some (flatten (namespace, name)) ->
     exists o', split_namespace calls (JObject o) = JObject o' /\
       get_str "namespace" o' = Some namespace /\ get_str "name" o' = Some name /\
       frame ["namespace"; "name"] o o') /\
  (get_str "type" o <> Some "function_call" \/ obj_get "namespace" o <> None \/
   (forall p, p ∈ advertised tools -> get_str "name" o <> Some (flatten p)) \/
   (exists n, get_str "name" o = Some n /\ one_of n (standalone_names tools) = true) ->
   split_namespace calls (JObject o) = JObject o).
Proof.
  unfold collect_namespace_calls in Hcalls. rewrite collect_namespaces_flat in Hcalls.
  apply add_calls_ok in Hcalls as [Hc Hs]. unfold split_namespace. split.
  - intros namespace name Hty Hns Hadv Hname. rewrite !bool_decide_true by done. rewrite Hname.
    cbn [andb mbind option_bind].
    assert (Hl : calls !! flatten (namespace, name) = Some (namespace, name)) by (by apply Hc). rewrite Hl.
    eexists. split; [done|]. unfold get_str. rewrite !obj_get_insert. cbn. repeat split.
    intros k Hk. cbn in Hk. rewrite orb_false_r in Hk. apply orb_false_elim in Hk as [H1 H2].
    by rewrite !obj_get_insert, H1, H2.
  - intros Hwhy. do 2 (case_bool_decide; cbn [andb]; try done).
    destruct (get_str "name" o) as [n|] eqn:En; [|done]. cbn [mbind option_bind].
    destruct (calls !! n) as [p|] eqn:Ep; [|done]. apply Hc in Ep as [Hp ->].
    destruct Hwhy as [?|[?|[Hno|(m & [= <-] & Hm)]]]; [done..| |].
    + by destruct (Hno p Hp).
    + rewrite (Hs p Hp) in Hm. done.
Qed.

(** ** Messages *)

Lemma obj_insert_idem k v m : obj_insert k v (obj_insert k v m) = obj_insert k v m.
Proof.
  induction m as [|[k' v'] m IH]; cbn [obj_insert]; [by rewrite compare_refl|].
  destruct (String.compare k k') eqn:E; cbn [obj_insert]; rewrite ?compare_refl, ?E, ?IH; done.
Qed.
Lemma obj_alter_const_idem k v m :
  obj_alter (fun _ => v) k (obj_alter (fun _ => v) k m) = obj_alter (fun _ => v) k m.
Proof.
  induction m as [|[k' v'] m IH]; cbn [obj_alter]; [done|].
  destruct (String.eqb k k') eqn:E; cbn [obj_alter]; rewrite E; [done|by rewrite IH].
Qed.

(** Where a part keeps its image, in either spelling. *)
Definition image_source (part : value) : option string :=
  match vget "image_url" part with
  | Some (JString url) => Some url
  | Some image => vget_str "url" image
  | None => None
  end.

(** How a normalised part relates to the one it comes from. *)
Definition normal_part (assistant : bool) (p p' : value) : Prop :=
  (exists t, vget_str "type" p' = Some (text_type assistant) /\ vget_str "text" p = Some t /\
             vget_str "text" p' = Some t /\ forall k, k <> "type" -> vget k p' = vget k p) \/
  (vget_str "type" p = Some "input_image" /\ assistant = false /\ p' = p) \/
  (exists url, vget_str "type" p = Some "image_url" /\ vget_str "type" p' = Some "input_image" /\
               image_source p = Some url /\ vget_str "image_url" p' = Some url).

Lemma content_part_normal assistant i j p p' :
  normalize_content_part assistant i j p = Ok p' -> normal_part assistant p p'.
Proof.
  destruct p as [| | | | |o]; try done. unfold normalize_content_part, normal_part.
  change (vget_str "type" (JObject o)) with (get_str "type" o).
  destruct (get_str "type" o) as [ty|]; [|done].
  destruct (one_of ty ["text"; "input_text"; "output_text"]).
  - destruct (obj_get "text" o) as [[| | |t| |]|] eqn:Et; try done. cbn. intros [= <-]. left. exists t.
    unfold vget_str, vget. rewrite !obj_get_insert, Et. cbn. repeat split.
    intros k Hk. rewrite obj_get_insert. by destruct (String.eqb_spec k "type").
  - destruct (String.eqb_spec ty "image_url") as [->|_].
    + intros (o' & Ho & [= <-])%bind_ok. right; right.
      assert (exists url, image_source (JObject o) = Some url /\ obj_get "image_url" o' = Some (JString url))
        as (url & Hs & Hu).
      { unfold image_source. cbn [vget]. destruct (obj_get "image_url" o) as [[| | |url| |image]|]; try discriminate Ho.
        - injection Ho as <-. exists url. by rewrite obj_get_insert_eq.
        - unfold vget_str. cbn [vget]. destruct (obj_get "url" image) as [[| | |url| |]|]; try discriminate Ho.
          exists url. destruct (obj_get "detail" image); injection Ho as <-; by autorewrite with muse. }
      exists url. unfold vget_str, vget. autorewrite with muse. cbn. by rewrite Hu.
    + destruct (String.eqb_spec ty "input_image") as [->|_]; [|done].
      destruct assistant; [done|]. intros [= <-]. right; left. done.
Qed.

Lemma content_part_again i j i' j' p p' :
  normalize_content_part false i j p = Ok p' -> normalize_content_part false i' j' p' = Ok p'.
Proof.
  destruct p as [| | | | |o]; try done. unfold normalize_content_part.
  destruct (get_str "type" o) as [ty|] eqn:Ety; [|done].
  destruct (one_of ty ["text"; "input_text"; "output_text"]).
  - destruct (is_some_and is_string (obj_get "text" o)) eqn:Et; [|done]. intros [= <-].
    unfold get_str. rewrite !obj_get_insert. cbn. rewrite Et. by rewrite obj_insert_idem.
  - destruct (String.eqb_spec ty "image_url") as [->|_].
    + intros (o' & _ & [= <-])%bind_ok. unfold get_str. by rewrite obj_get_insert_eq.
    + destruct (String.eqb_spec ty "input_image") as [->|_]; [|done]. intros [= <-]. by rewrite Ety.
Qed.

Lemma parts_normal assistant i j ps ps' :
  normalize_parts assistant i j ps = Ok ps' -> Forall2 (normal_part assistant) ps ps'.
Proof.
  revert j ps'. induction ps as [|p ps IH]; intros j ps'; cbn [normalize_parts]; [by intros [= <-]|].
  intros (p' & Hp & (qs & Hq & [= <-])%bind_ok)%bind_ok.
  constructor; [by eapply content_part_normal|by eapply IH].
Qed.
Lemma parts_again i j i' j' ps ps' :
  normalize_parts false i j ps = Ok ps' -> normalize_parts false i' j' ps' = Ok ps'.
Proof.
  revert j j' ps'. induction ps as [|p ps IH]; intros j j' ps'; cbn [normalize_parts]; [by intros [= <-]|].
  intros (p' & Hp & (qs & Hq & [= <-])%bind_ok)%bind_ok. cbn [normalize_parts].
  rewrite (content_part_again _ _ i' j' _ _ Hp). cbn [mbind result_bind]. by rewrite (IH _ (S j') _ Hq).
Qed.

(** The parts a message carries, its string form counted as one text part. *)
Definition message_parts (assistant : bool) (content : value) : option (list value) :=
  match content with
  | JString text => Some [json_obj [("type", JString (text_type assistant)); ("text", JString text)]]
  | JArray parts => Some parts
  | _ => None
  end.

Lemma message_item_inv o i o' :
  normalize_message_item o i = Ok o' ->
  exists role content parts parts',
    get_str "role" o = Some role /\ one_of role ["assistant"; "developer"; "system"; "user"] = true /\
    obj_get "content" o = Some content /\ message_parts (String.eqb role "assistant") content = Some parts /\
    normalize_parts (String.eqb role "assistant") i 0 parts = Ok parts' /\
    o' = obj_alter (fun _ => JArray parts') "content" o.
Proof.
  unfold normalize_message_item. destruct (get_str "role" o) as [role|]; [|done].
  destruct (one_of role _) eqn:Er; [|done]. cbn [negb].
  destruct (obj_get "content" o) as [content|]; [|done]. intros H.
  destruct content as [| | |text|parts|]; try discriminate H;
    (apply bind_ok in H as (parts' & Hp & [= <-]); eexists role, _, _, parts'; repeat split; [|exact Hp]; done).
Qed.

(** Message normalisation keeps every text and image of a message in order, in the part types
    the API expects of the role, whatever spelling stock Muse used, and changes no other field;
    for a user, system or developer message it is idempotent. *)
Theorem message_normalization (o o' : obj) (i : nat) (Hrun : normalize_message_item o i = Ok o') :
  exists role content parts parts',
    get_str "role" o = Some role /\ one_of role ["assistant"; "developer"; "system"; "user"] = true /\
    obj_get "content" o = Some content /\ message_parts (String.eqb role "assistant") content = Some parts /\
    obj_get "content" o' = Some (JArray parts') /\
    Forall2 (normal_part (String.eqb role "assistant")) parts parts' /\
    frame ["content"] o o' /\
    (role <> "assistant" -> forall j, normalize_message_item o' j = Ok o').
Proof.
  apply message_item_inv in Hrun as (role & content & parts & parts' & Hr & Ho & Hc & Hp & Hn & ->).
  exists role, content, parts, parts'. repeat (split; [done|]).
  assert (Hc' : obj_get "content" (obj_alter (fun _ => JArray parts') "content" o) = Some (JArray parts')).
  { by rewrite obj_get_alter, String.eqb_refl, Hc. }
  split; [done|]. split; [by eapply parts_normal|]. split; [by apply frame_alter|].
  intros Ha j. apply String.eqb_neq in Ha. rewrite Ha in *.
  unfold normalize_message_item, get_str. rewrite Hc', obj_get_alter. cbn [String.eqb Ascii.eqb Bool.eqb].
  fold (get_str "role" o). rewrite Hr, Ho, Ha. cbn [negb]. rewrite (parts_again _ _ j 0 _ _ Hn).
  cbn [mbind result_bind]. by rewrite obj_alter_const_idem.
Qed.

(** ** Witnesses *)

Section Witness.
(** A codec that keeps an item as it is, and a printer that prints nothing. *)
Let codec : ItemCodec := {|
  ResponseItem := value; item_from_value := fun v => Ok v; item_to_value := fun v => Ok v;
  is_other := fun _ => false; has_unprefixed_id := fun _ => false; clear_id := fun v => v;
  sha256 := fun b => take 32 b |}.
Let printer : SerdeJson := {| from_str := fun _ => Ok JNull; to_string := fun _ => "" |}.

Let body : value :=
  json_obj [ ("model", JString "gpt"); ("input", JString "hi"); ("metadata", JNull); ("instructions", JString "be kind");
             ("tools", JArray [json_obj [("type", JString "function"); ("name", JString "read")]]);
             ("reasoning", json_obj [("effort", JString "low"); ("summary", JString "none")]) ].
Let result_of (lite : bool) : res value := @normalize_responses_request printer codec body false lite (Some "process:1:1").
Let value_of (lite : bool) : value := match result_of lite with Ok v => v | Err _ => JNull end.

Lemma responses_request_stateless_witness :
  result_of false = Ok (value_of false) /\
  exists o, value_of false = JObject o /\ obj_get "store" o = Some (JBool false).
Proof.
  assert (H : result_of false = Ok (value_of false)) by (vm_compute; reflexivity).
  split; [exact H|].
  destruct (@responses_request_stateless printer codec body false false (Some "process:1:1") (value_of false) H)
    as (object & o & model & _ & Hv & _ & _ & Hs & _).
  exists o. split; [exact Hv|exact Hs].
Defined.

Lemma lite_request_rewrites_standard_witness :
  result_of true = Ok (value_of true) /\
  exists o, value_of true = JObject o /\ obj_get "parallel_tool_calls" o = Some (JBool false).
Proof.
  assert (H : result_of true = Ok (value_of true)) by (vm_compute; reflexivity).
  split; [exact H|].
  destruct (@lite_request_rewrites_standard printer codec body false (Some "process:1:1") (value_of true) H)
    as (n & s & o & instr & given & tools & input & items & _ & _ & Hv & _ & _ & _ & _ & _ & _ & _ & _ & Hp & _).
  exists o. split; [exact Hv|exact Hp].
Defined.
End Witness.

Lemma split_namespace_exact_witness :
  let tools := [ json_obj [("type", JString "namespace"); ("name", JString "muse");
                           ("tools", JArray [json_obj [("type", JString "function"); ("name", JString "read")]])] ] in
  exists calls, collect_namespace_calls tools = Ok calls /\
    exists o', split_namespace calls (json_obj [("type", JString "function_call"); ("name", JString "muse.read")]) = JObject o' /\
      get_str "namespace" o' = Some "muse" /\ get_str "name" o' = Some "read".
Proof.
  intros tools.
  assert (H : collect_namespace_calls tools = Ok (<["muse.read" := ("muse", "read")]> ∅)) by (vm_compute; reflexivity).
  eexists. split; [exact H|].
  destruct (proj1 (split_namespace_exact tools _ [("name", JString "muse.read"); ("type", JString "function_call")] H)
              "muse" "read" eq_refl eq_refl) as (o' & Hs & Hns & Hn & _).
  - vm_compute. left.
  - reflexivity.
  - exists o'. split; [exact Hs|]. split; [exact Hns|exact Hn].
Defined.

Lemma message_normalization_witness :
  let o := [("content", JString "hi"); ("role", JString "user")] in
  let o' := [("content", JArray [json_obj [("type", JString "input_text"); ("text", JString "hi")]]); ("role", JString "user")] in
  normalize_message_item o 0 = Ok o' /\ normalize_message_item o' 1 = Ok o'.
Proof.
  intros o o'. assert (H : normalize_message_item o 0 = Ok o') by (vm_compute; reflexivity).
  split; [exact H|].
  destruct (message_normalization o o' 0 H) as (role & content & parts & parts' & Hr & _ & _ & _ & _ & _ & _ & Hagain).
  apply Hagain. cbn in Hr. congruence.
Defined.

Lemma namespace_calls_exact_witness :
  let tools := [ json_obj [("type", JString "namespace"); ("name", JString "muse");
                           ("tools", JArray [json_obj [("type", JString "function"); ("name", JString "read")]])] ] in
  exists calls, collect_namespace_calls tools = Ok calls /\ ("muse", "read") ∈ advertised tools.
Proof.
  intros tools.
  assert (H : collect_namespace_calls tools = Ok (<["muse.read" := ("muse", "read")]> ∅)) by (vm_compute; reflexivity).
  eexists. split; [exact H|].
  apply (proj2 (namespace_calls_exact tools) _ H "muse.read" ("muse", "read")). reflexivity.
Defined.
