(* ===== verification/Catalog.v ===== *)
(** * The model catalog

    Models the catalog half of [crates/codex-transport/src/transport.rs]: an upstream
    models response becomes the list of [ModelInfo] the gateway serves, sorted, checked,
    with one default; the public API catalog is merged with the bundled metadata. The
    decoding of the response into the [Upstream*] structs is [serde]'s and an interface,
    [CatalogCodec]. *)

From S2P Require Import Prelude Utf8 Json Errors ZaiRequest Responses.
From stdpp Require Import options.

Definition MAX_MODELS : nat := N.to_nat 4096.
Definition CODEX_WIRE_COMPATIBILITY_VERSION : string := "0.153.4".
(** [ServiceTier::Fast.request_value()] *)
Definition FAST_TIER : string := "priority".

(** ** The upstream structs *)

Inductive UpstreamClientVersion : Type :=
  | Text (version : string)
  | Triple (version : N * N * N).

Module Upstream.
Record Model := {
  slug : string;
  display_name : option string;
  description : option string;
  context_window : option Z;
  max_output_tokens : option Z;
  supported_reasoning_levels : list string;
  default_reasoning_level : option string;
  priority : Z;
  visibility : option string;
  minimal_client_version : option UpstreamClientVersion;
  use_responses_lite : bool;
  tool_mode : option string;
  input_modalities : list string;
  supported_in_api : bool;
  service_tiers : list string;
  additional_speed_tiers : list string
}.

Record ModelsResponse := { models : list Model; data : list Model }.
End Upstream.

Class CatalogCodec := {
  (** [serde_json::from_slice::<UpstreamModelsResponse>] *)
  decode_models : bytes -> result string Upstream.ModelsResponse
}.

(** ** The gateway's metadata *)

Record ModelInfo := {
  model_id : string;
  display_name : option string;
  description : option string;
  context_window : option N;
  max_output_tokens : option N;
  supported_reasoning_efforts : list string;
  default_reasoning_effort : option string;
  is_visible : bool;
  is_default : bool;
  use_responses_lite : bool;
  tool_mode : option string;
  input_modalities : list string;
  supported_in_api : bool;
  supports_fast_mode : bool
}.

Definition set_default (d : bool) (m : ModelInfo) : ModelInfo :=
  {| model_id := model_id m; display_name := display_name m; description := description m;
     context_window := context_window m; max_output_tokens := max_output_tokens m;
     supported_reasoning_efforts := supported_reasoning_efforts m;
     default_reasoning_effort := default_reasoning_effort m; is_visible := is_visible m; is_default := d;
     use_responses_lite := use_responses_lite m; tool_mode := tool_mode m;
     input_modalities := input_modalities m; supported_in_api := supported_in_api m;
     supports_fast_mode := supports_fast_mode m |}.
Definition set_visible (v : bool) (m : ModelInfo) : ModelInfo :=
  {| model_id := model_id m; display_name := display_name m; description := description m;
     context_window := context_window m; max_output_tokens := max_output_tokens m;
     supported_reasoning_efforts := supported_reasoning_efforts m;
     default_reasoning_effort := default_reasoning_effort m; is_visible := v; is_default := is_default m;
     use_responses_lite := use_responses_lite m; tool_mode := tool_mode m;
     input_modalities := input_modalities m; supported_in_api := supported_in_api m;
     supports_fast_mode := supports_fast_mode m |}.

Record ModelCapabilities := {
  cap_is_visible : bool;
  cap_use_responses_lite : bool;
  cap_tool_mode : option string;
  cap_input_modalities : list string;
  cap_supported_reasoning_efforts : list string;
  cap_supports_fast_mode : bool
}.

(** ** Fields *)

Definition bad_response {A} (why : string) : res A := Err (InvalidUpstreamResponse why).

Definition catalog_control (allow_newlines : bool) (c : uchar) : bool :=
  is_control c && negb (allow_newlines && match code_point c with
                                          | Some 10 | Some 13 | Some 9 => true
                                          | _ => false
                                          end%N).
Definition normalize_catalog_text (v : option string) (max_bytes : N) (allow_newlines : bool)
  : res (option string) :=
  match v with
  | None => Ok None
  | Some v =>
      if is_empty (trim v) then Ok None
      else if (max_bytes <? slen v)%N || any_char (catalog_control allow_newlines) v
      then bad_response "model catalog returned invalid display text"
      else Ok (Some v)
  end.

Definition normalize_model_limit (v : option Z) : res (option N) :=
  match v with
  | None => Ok None
  | Some v => if (0 <? v)%Z then Ok (Some (Z.to_N v))
              else bad_response "model catalog returned a non-positive token limit"
  end.

(** [if !list.contains(&s) { list.push(s) }] *)
Definition push_distinct (l : list string) (s : string) : list string :=
  if one_of s l then l else l ++ [s].

Definition normalize_modality (normalized : list string) (modality : string) : res (list string) :=
  reject (is_empty modality || (32 <? slen modality)%N || any_char is_whitespace modality
          || any_char is_control modality)
         (InvalidUpstreamResponse "model catalog returned an invalid input modality");;
  Ok (push_distinct normalized modality).
Definition normalize_input_modalities (modalities : list string) : res (list string) :=
  fold_res normalize_modality [] modalities.

(** ** Client versions *)

Definition parse_version (version : string) : option (N * N * N) :=
  match split_str (Ascii.eqb ".") version with
  | [a; b; c] =>
      a ← parse_uint u64_modulus a;
      b ← parse_uint u64_modulus b;
      c ← parse_uint u64_modulus c;
      Some (a, b, c)
  | _ => None
  end.
(** The order of [[u64; 3]]. *)
Definition compare_triple (x y : N * N * N) : comparison :=
  match N.compare x.1.1 y.1.1 with
  | Eq => match N.compare x.1.2 y.1.2 with
          | Eq => N.compare x.2 y.2
          | c => c
          end
  | c => c
  end.
Definition client_version (left : UpstreamClientVersion) : res (N * N * N) :=
  match left with
  | Text version => ok_or (parse_version version)
                      (InvalidUpstreamResponse "model catalog returned an invalid minimum client version")
  | Triple version => Ok version
  end.
(** The [expect] of the source holds for the one version it is called with. *)
Definition compare_client_version (left : UpstreamClientVersion) (right : string) : res comparison :=
  left ← client_version left;
  Ok (compare_triple left (default (0, 0, 0)%N (parse_version right))).

(** ** One model *)

Definition known_efforts (levels : list string) : list string :=
  foldl (fun efforts effort => if is_reasoning_effort effort then push_distinct efforts effort else efforts) [] levels.

Definition listed_visibility (visibility : option string) : res bool :=
  match visibility with
  | None => Ok true
  | Some v => if String.eqb v "list" then Ok true
              else if one_of v ["hide"; "none"] then Ok false
              else bad_response "model catalog returned unknown visibility"
  end.
Definition too_new (minimal : option UpstreamClientVersion) : res bool :=
  match minimal with
  | None => Ok false
  | Some minimal =>
      c ← compare_client_version minimal CODEX_WIRE_COMPATIBILITY_VERSION;
      Ok match c with Gt => true | _ => false end
  end.
Definition unknown_tool_mode (mode : option string) : bool :=
  is_some_and (fun mode => negb (one_of mode ["direct"; "code_mode"; "code_mode_only"])) mode.
Definition fast_tier (model : Upstream.Model) : bool :=
  existsb (String.eqb FAST_TIER) (Upstream.service_tiers model)
  || existsb (String.eqb "fast") (Upstream.additional_speed_tiers model).

(** The body of the closure once the id is known to be valid and new. *)
Definition normalize_model (model : Upstream.Model) : res ModelInfo :=
  listed ← listed_visibility (Upstream.visibility model);
  newer ← too_new (Upstream.minimal_client_version model);
  let efforts := known_efforts (Upstream.supported_reasoning_levels model) in
  let no_known_effort := match Upstream.supported_reasoning_levels model, efforts with
                         | _ :: _, [] => true
                         | _, _ => false
                         end in
  let default_effort := opt_filter (fun d => existsb (fun s => String.eqb s d) efforts)
                                   (Upstream.default_reasoning_level model) in
  modalities ← normalize_input_modalities (Upstream.input_modalities model);
  let no_text := match modalities with [] => false | _ => negb (one_of "text" modalities) end in
  display_name ← normalize_catalog_text (Upstream.display_name model) 512 false;
  description ← normalize_catalog_text (Upstream.description model) (16 * 1024) true;
  context_window ← normalize_model_limit (Upstream.context_window model);
  max_output_tokens ← normalize_model_limit (Upstream.max_output_tokens model);
  Ok {| model_id := Upstream.slug model; display_name := display_name; description := description;
        context_window := context_window; max_output_tokens := max_output_tokens;
        supported_reasoning_efforts := efforts; default_reasoning_effort := default_effort;
        is_visible := listed && negb newer && negb (unknown_tool_mode (Upstream.tool_mode model))
                      && negb no_known_effort && negb no_text;
        is_default := false; use_responses_lite := Upstream.use_responses_lite model;
        tool_mode := Upstream.tool_mode model; input_modalities := modalities;
        supported_in_api := Upstream.supported_in_api model; supports_fast_mode := fast_tier model |}.

(** One turn of the [map] closure: [seen_ids] and the models so far. *)
Definition add_model (st : gset string * list ModelInfo) (model : Upstream.Model)
  : res (gset string * list ModelInfo) :=
  let '(seen_ids, models) := st in
  map_err (fun _ => InvalidUpstreamResponse "model catalog returned an invalid id")
          (validate_model_id (Upstream.slug model));;
  reject (bool_decide (Upstream.slug model ∈ seen_ids))
         (InvalidUpstreamResponse "model catalog returned duplicate ids");;
  info ← normalize_model model;
  Ok ({[Upstream.slug model]} ∪ seen_ids, models ++ [info]).

(** ** The catalog *)

(** [slice::sort_by_key], which is stable. *)
Fixpoint insert_by {A} (key : A -> Z) (a : A) (l : list A) : list A :=
  match l with
  | [] => [a]
  | b :: l' => if (key a <=? key b)%Z then a :: l else b :: insert_by key a l'
  end.
Definition sort_by_key {A} (key : A -> Z) (l : list A) : list A := foldr (insert_by key) [] l.

(** [models[index].is_default = true] at the first visible model. *)
Definition choose_default (models : list ModelInfo) : res (list ModelInfo) :=
  index ← ok_or (position is_visible models)
                (InvalidUpstreamResponse "model catalog has no visible models");
  Ok (alter (set_default true) index models).

Definition nonempty {A} (l : list A) : bool := match l with [] => false | _ => true end.

Section Catalog.
  Context {CC : CatalogCodec}.

Definition upstream_models (upstream : Upstream.ModelsResponse) : res (list Upstream.Model) :=
  reject (nonempty (Upstream.models upstream) && nonempty (Upstream.data upstream))
         (InvalidUpstreamResponse "models response mixed subscription and public API catalog shapes");;
  let subscription_catalog := nonempty (Upstream.models upstream) in
  let models := if subscription_catalog then Upstream.models upstream else Upstream.data upstream in
  reject (negb (nonempty models)) (InvalidUpstreamResponse "models response contained no models");;
  reject (MAX_MODELS <? length models)
         (InvalidUpstreamResponse ("models response exceeded the " +:+ pretty MAX_MODELS +:+ "-model limit"));;
  Ok (if subscription_catalog then sort_by_key Upstream.priority models else models).

Definition normalize_models (body : bytes) : res (list ModelInfo) :=
  upstream ← map_err (fun e => InvalidUpstreamResponse ("could not decode models response: " +:+ e))
                     (decode_models body);
  models ← upstream_models upstream;
  st ← fold_res add_model (∅, []) models;
  choose_default st.2.

(** [Vec::remove] *)
Definition remove_at {A} (i : nat) (l : list A) : list A := take i l ++ drop (S i) l.

(** One bundled model against the models still available. *)
Definition merge_model (st : list ModelInfo * list ModelInfo) (metadata : ModelInfo)
  : list ModelInfo * list ModelInfo :=
  let '(available, merged) := st in
  match position (fun m => String.eqb (model_id m) (model_id metadata)) available with
  | None => st
  | Some index =>
      let account_visible := is_some_and is_visible (available !! index) in
      let available := remove_at index available in
      if negb (supported_in_api metadata) then (available, merged)
      else (available, merged ++ [set_default false (set_visible (is_visible metadata && account_visible) metadata)])
  end.

Definition normalize_api_models_with_bundled_metadata (BUNDLED_MODEL_CATALOG body : bytes)
  : res (list ModelInfo) :=
  available ← normalize_models body;
  bundled ← normalize_models BUNDLED_MODEL_CATALOG;
  choose_default (foldl merge_model (available, []) bundled).2.

End Catalog.
