(* ===== verification/CatalogCorrect.v ===== *)
(** * The model catalog, proved

    The theorems about [Catalog.v]: when a catalog is accepted and what it then holds,
    its order, visibility, and the merge with the bundled metadata. *)

From S2P Require Import Prelude Utf8 Json Errors ZaiRequest Responses Catalog.
From stdpp Require Import options sorting.
#[local] Set Warnings "-no-such-hyp,-clear-no-such-hyp".

(** ** Lists *)

Lemma position_some {A} (p : A -> bool) l i :
  position p l = Some i ->
  exists pre a post, l = pre ++ a :: post /\ i = length pre /\ p a = true /\ forallb (fun a => negb (p a)) pre = true.
Proof.
  revert i. induction l as [|a l IH]; intros i; cbn [position]; [done|]. destruct (p a) eqn:E.
  - intros [= <-]. by exists [], a, l.
  - destruct (position p l) as [j|]; [|done]. intros [= <-].
    destruct (IH j eq_refl) as (pre & b & post & -> & -> & Hb & Hpre). exists (a :: pre), b, post. cbn. by rewrite E.
Qed.

Lemma push_distinct_spec l s :
  NoDup l -> NoDup (push_distinct l s) /\ forall x, x ∈ push_distinct l s <-> x ∈ l \/ x = s.
Proof.
  intros Hl. unfold push_distinct. destruct (one_of s l) eqn:E.
  - apply one_of_spec, list_elem_of_In in E. split; [done|]. intros x. split; [auto|by intros [?| ->]].
  - assert (Hs : s ∉ l).
    { intros Hs%list_elem_of_In%one_of_spec. congruence. }
    split.
    + apply NoDup_app. repeat split; [done| |apply NoDup_singleton]. by intros x Hx ->%list_elem_of_singleton.
    + intros x. by rewrite elem_of_app, list_elem_of_singleton.
Qed.

(** The insertion sort is a sorted, stable permutation. *)
Definition key_le {A} (key : A -> Z) (a b : A) : Prop := (key a <= key b)%Z.
Lemma insert_by_perm {A} (key : A -> Z) a l : Permutation (insert_by key a l) (a :: l).
Proof.
  induction l as [|b l IH]; cbn [insert_by]; [done|]. destruct (key a <=? key b)%Z; [done|].
  rewrite IH. constructor.
Qed.
Lemma insert_by_sorted {A} (key : A -> Z) a l :
  StronglySorted (key_le key) l -> StronglySorted (key_le key) (insert_by key a l).
Proof.
  induction 1 as [|b l Hl IH Hb]; cbn [insert_by]; [repeat constructor|].
  destruct (Z.leb_spec (key a) (key b)) as [Hle|Hlt].
  - constructor; [by constructor|]. constructor; [exact Hle|].
    eapply List.Forall_impl; [|exact Hb]. unfold key_le. intros c Hc. lia.
  - constructor; [done|]. apply List.Forall_forall. intros c Hc.
    apply (Permutation_in _ (insert_by_perm key a l)) in Hc as [<-|Hc]; [unfold key_le; lia|].
    rewrite List.Forall_forall in Hb. auto.
Qed.
Lemma insert_by_stable {A} (key : A -> Z) p a l :
  List.filter (fun x => (key x =? p)%Z) (insert_by key a l) = List.filter (fun x => (key x =? p)%Z) (a :: l).
Proof.
  induction l as [|b l IH]; cbn [insert_by]; [done|]. destruct (Z.leb_spec (key a) (key b)) as [|Hlt]; [done|].
  cbn [List.filter] in *. rewrite IH. destruct (Z.eqb_spec (key b) p), (Z.eqb_spec (key a) p); done || lia.
Qed.

Lemma sort_by_key_perm {A} (key : A -> Z) l : Permutation (sort_by_key key l) l.
Proof. induction l as [|a l IH]; [done|]. cbn. by rewrite insert_by_perm, IH. Qed.
Lemma sort_by_key_sorted {A} (key : A -> Z) l : StronglySorted (key_le key) (sort_by_key key l).
Proof. induction l; [constructor|]. by apply insert_by_sorted. Qed.
Lemma sort_by_key_stable {A} (key : A -> Z) p l :
  List.filter (fun x => (key x =? p)%Z) (sort_by_key key l) = List.filter (fun x => (key x =? p)%Z) l.
Proof.
  induction l as [|a l IH]; [done|]. cbn [sort_by_key foldr]. rewrite insert_by_stable. cbn [List.filter].
  fold (sort_by_key key l). by rewrite IH.
Qed.

(** ** Adding models *)

Definition slugs : list Upstream.Model -> list string := fmap Upstream.slug.
Definition valid_slug (m : Upstream.Model) : Prop := validate_model_id (Upstream.slug m) = Ok tt.

Lemma add_model_ok st m st' :
  add_model st m = Ok st' <->
  valid_slug m /\ (Upstream.slug m ∉ st.1) /\
  exists info, normalize_model m = Ok info /\ st' = ({[Upstream.slug m]} ∪ st.1, st.2 ++ [info]).
Proof.
  destruct st as [seen ms]. unfold add_model, valid_slug. cbn [fst snd]. rewrite bind_ok. split.
  - intros ([] & Hv & H). apply bind_ok in H as ([] & Hs%reject_ok%bool_decide_eq_false & H).
    apply bind_ok in H as (info & Hi & [= <-]). split; [|split; [done|by exists info]].
    by destruct (validate_model_id (Upstream.slug m)) as [[]|].
  - intros (Hv & Hs & info & Hi & ->). exists tt. rewrite Hv. split; [done|].
    apply bind_ok. exists tt. split; [by apply reject_ok, bool_decide_eq_false|].
    apply bind_ok. by exists info.
Qed.

Lemma add_models_ok us seen ms st :
  fold_res add_model (seen, ms) us = Ok st <->
  exists infos, Forall valid_slug us /\ NoDup (slugs us) /\ (forall s, s ∈ slugs us -> s ∉ seen) /\
    Forall2 (fun u i => normalize_model u = Ok i) us infos /\
    st = (list_to_set (slugs us) ∪ seen, ms ++ infos).
Proof.
  revert seen ms. induction us as [|u us IH]; intros seen ms; cbn [fold_res].
  - split.
    + intros [= <-]. exists []. rewrite app_nil_r.
      split_and!; try constructor; [by intros s ?%elem_of_nil|]. f_equal. set_solver.
    + intros (infos & _ & _ & _ & Hi & ->). inversion Hi; subst. rewrite app_nil_r.
      f_equal. f_equal. set_solver.
  - rewrite bind_ok. split.
    + intros (st1 & (Hv & Hs & info & Hi & ->)%add_model_ok & H). cbn [fst snd] in *.
      apply IH in H as (infos & Hvs & Hnd & Hfresh & His & ->). exists (info :: infos).
      split_and!.
      * by constructor.
      * cbn. apply NoDup_cons. split; [|done]. intros Hu%Hfresh. set_solver.
      * intros s. cbn. rewrite elem_of_cons. intros [->|Hin]; [done|]. apply Hfresh in Hin. set_solver.
      * by constructor.
      * rewrite <- app_assoc. f_equal. cbn. set_solver.
    + intros (infos & Hvs & Hnd & Hfresh & His & ->). inversion His as [|? info ? infos' Hi His']; subst.
      inversion Hvs; subst. cbn in Hnd. apply NoDup_cons in Hnd as [Hu Hnd].
      eexists. split.
      * apply add_model_ok. split; [done|]. split; [apply Hfresh; by left|]. by exists info.
      * cbn [fst snd]. apply IH. exists infos'. split_and!; try done.
        -- intros s Hs. assert (s ∉ seen) by (apply Hfresh; by right). assert (s <> Upstream.slug u) by congruence. set_solver.
        -- rewrite <- app_assoc. f_equal. cbn. set_solver.
Qed.

(** ** One model *)

Lemma known_efforts_spec levels :
  NoDup (known_efforts levels) /\
  forall e, e ∈ known_efforts levels <-> e ∈ levels /\ is_reasoning_effort e = true.
Proof.
  unfold known_efforts.
  assert (H : forall acc, NoDup acc ->
    let l := foldl (fun efforts effort => if is_reasoning_effort effort then push_distinct efforts effort else efforts) acc levels in
    NoDup l /\ forall e, e ∈ l <-> e ∈ acc \/ e ∈ levels /\ is_reasoning_effort e = true).
  { induction levels as [|x levels IH]; intros acc Hacc; cbn [foldl].
    - split; [done|]. intros e. rewrite elem_of_nil. tauto.
    - destruct (is_reasoning_effort x) eqn:Ex.
      + destruct (push_distinct_spec acc x Hacc) as [Hn Hi]. destruct (IH _ Hn) as [Hn' Hi'].
        split; [done|]. intros e. rewrite Hi', Hi, elem_of_cons. intuition congruence.
      + destruct (IH _ Hacc) as [Hn' Hi']. split; [done|]. intros e. rewrite Hi', elem_of_cons. intuition congruence. }
  destruct (H [] NoDup_nil_2) as [Hn Hi]. split; [done|]. intros e. rewrite Hi, elem_of_nil. tauto.
Qed.

Lemma modalities_spec ms l :
  normalize_input_modalities ms = Ok l -> NoDup l /\ forall x, x ∈ l <-> x ∈ ms.
Proof.
  intros H. refine (fold_res_ind normalize_modality
    (fun seen t => NoDup t /\ forall x, x ∈ t <-> x ∈ seen) [] ms l _ _ H).
  - split; [apply NoDup_nil_2|]. intros x. by rewrite elem_of_nil.
  - intros seen a t t' [Hn Hi] Hs. unfold normalize_modality in Hs.
    apply bind_ok in Hs as ([] & _ & [= <-]). destruct (push_distinct_spec t a Hn) as [Hn' Hi'].
    split; [done|]. intros x. by rewrite Hi', Hi, elem_of_app, list_elem_of_singleton.
Qed.

Lemma catalog_text_bound v max nl t : normalize_catalog_text v max nl = Ok (Some t) ->
  v = Some t /\ (slen t <= max)%N /\ is_empty (trim t) = false.
Proof.
  unfold normalize_catalog_text. destruct v as [v|]; [|done]. destruct (is_empty (trim v)) eqn:Et; [done|].
  destruct (N.ltb_spec max (slen v)); [done|]. cbn [orb]. destruct (any_char _ v); [done|]. by intros [= ->].
Qed.

(** What upstream says of a model that decides whether Muse may offer it. *)
Definition offered (u : Upstream.Model) : Prop :=
  (Upstream.visibility u = None \/ Upstream.visibility u = Some "list") /\
  (forall v, Upstream.minimal_client_version u = Some v ->
     exists t, client_version v = Ok t /\ compare_triple t (0, 153, 4)%N <> Gt) /\
  (forall mode, Upstream.tool_mode u = Some mode -> one_of mode ["direct"; "code_mode"; "code_mode_only"] = true) /\
  (Upstream.supported_reasoning_levels u = [] \/
   exists e, e ∈ Upstream.supported_reasoning_levels u /\ is_reasoning_effort e = true) /\
  (Upstream.input_modalities u = [] \/ "text" ∈ Upstream.input_modalities u).

(** What is guaranteed of a served model. *)
Record sound_model (u : Upstream.Model) (m : ModelInfo) : Prop := {
  sm_id : model_id m = Upstream.slug u;
  sm_visible : is_visible m = true <-> offered u;
  sm_efforts : NoDup (supported_reasoning_efforts m) /\
    forall e, e ∈ supported_reasoning_efforts m <->
              e ∈ Upstream.supported_reasoning_levels u /\ is_reasoning_effort e = true;
  sm_default_effort : forall e, default_reasoning_effort m = Some e ->
    Upstream.default_reasoning_level u = Some e /\ e ∈ supported_reasoning_efforts m;
  sm_context : forall n, context_window m = Some n -> (0 < n)%N /\ Upstream.context_window u = Some (Z.of_N n);
  sm_output : forall n, max_output_tokens m = Some n -> (0 < n)%N /\ Upstream.max_output_tokens u = Some (Z.of_N n);
  sm_modalities : NoDup (input_modalities m) /\ forall x, x ∈ input_modalities m <-> x ∈ Upstream.input_modalities u;
  sm_name : forall t, display_name m = Some t -> Upstream.display_name u = Some t /\ (slen t <= 512)%N;
  sm_fast : supports_fast_mode m = true <->
            "priority" ∈ Upstream.service_tiers u \/ "fast" ∈ Upstream.additional_speed_tiers u
}.

Lemma model_limit v n : normalize_model_limit v = Ok (Some n) -> (0 < n)%N /\ v = Some (Z.of_N n).
Proof.
  destruct v as [v|]; cbn; [|done]. destruct (Z.ltb_spec 0 v) as [Hv|]; [|done]. intros [= <-].
  split; [lia|]. by rewrite Z2N.id by lia.
Qed.

Lemma existsb_elem s l : existsb (String.eqb s) l = true <-> s ∈ l.
Proof. rewrite list_elem_of_In. apply one_of_spec. Qed.

Lemma too_new_spec minimal b :
  too_new minimal = Ok b ->
  negb b = true <-> (forall v, minimal = Some v -> exists t, client_version v = Ok t /\ compare_triple t (0, 153, 4)%N <> Gt).
Proof.
  unfold too_new, compare_client_version. destruct minimal as [v|]; [|intros [= <-]; by split].
  destruct (client_version v) as [t|] eqn:E; [|done]. cbn [mbind result_bind].
  replace (default (0, 0, 0)%N (parse_version CODEX_WIRE_COMPATIBILITY_VERSION)) with (0, 153, 4)%N by (vm_compute; reflexivity).
  intros [= <-]. split.
  - intros Hb v' [= <-]. exists t. split; [done|]. by destruct (compare_triple t _).
  - intros H. destruct (H v eq_refl) as (t' & Ht & Hc). rewrite E in Ht. injection Ht as <-.
    by destruct (compare_triple t _).
Qed.

Lemma unknown_tool_mode_spec mode :
  negb (unknown_tool_mode mode) = true <->
  (forall m, mode = Some m -> one_of m ["direct"; "code_mode"; "code_mode_only"] = true).
Proof.
  unfold unknown_tool_mode. destruct mode as [m|]; cbn [is_some_and]; [|by split].
  rewrite negb_involutive. split; [by intros ? ? [= <-]|auto].
Qed.

Lemma no_effort_spec levels efforts :
  efforts = known_efforts levels ->
  negb (match levels, efforts with _ :: _, [] => true | _, _ => false end) = true <->
  (levels = [] \/ exists e, e ∈ levels /\ is_reasoning_effort e = true).
Proof.
  intros ->. destruct (known_efforts_spec levels) as [_ Hk]. destruct levels as [|x levels]; [split; [by left|done]|].
  destruct (known_efforts (x :: levels)) as [|e efforts] eqn:E; cbn [negb].
  - split; [done|]. intros [?|(e & He)]; [done|]. apply Hk in He. by apply elem_of_nil in He.
  - split; [|done]. intros _. right. exists e. apply Hk. by left.
Qed.

Lemma no_text_spec ms l :
  normalize_input_modalities ms = Ok l ->
  negb (match l with [] => false | _ => negb (one_of "text" l) end) = true <-> (ms = [] \/ "text" ∈ ms).
Proof.
  intros [_ Hi]%modalities_spec. destruct l as [|x l].
  - split; [|done]. intros _. left. destruct ms as [|m ms]; [done|].
    assert (Hm : m ∈ []) by (apply Hi; by left). by apply elem_of_nil in Hm.
  - rewrite negb_involutive, one_of_spec, <- list_elem_of_In, Hi. split; [auto|].
    intros [->|?]; [|done]. exfalso. assert (Hx : x ∈ []) by (apply Hi; by left). by apply elem_of_nil in Hx.
Qed.

Lemma listed_visibility_spec v b :
  listed_visibility v = Ok b -> b = true <-> (v = None \/ v = Some "list").
Proof.
  unfold listed_visibility. destruct v as [v|]; [|intros [= <-]; split; auto].
  destruct (String.eqb_spec v "list") as [->|Hne]; [intros [= <-]; split; auto|].
  destruct (one_of v _); [|done]. intros [= <-]. split; [done|]. intros [?|[= ->]]; done.
Qed.

Lemma normalize_model_sound u m : normalize_model u = Ok m -> sound_model u m.
Proof.
  unfold normalize_model.
  intros (listed & Hl & (newer & Hn & (ms & Hms & (dn & Hdn & (de & Hde & (cw & Hcw & (mo & Hmo & [= <-])
    %bind_ok)%bind_ok)%bind_ok)%bind_ok)%bind_ok)%bind_ok)%bind_ok.
  split; cbn [model_id is_visible supported_reasoning_efforts default_reasoning_effort context_window
              max_output_tokens input_modalities display_name supports_fast_mode]; try done.
  - rewrite !andb_true_iff, (no_text_spec _ _ Hms), (no_effort_spec _ _ eq_refl), unknown_tool_mode_spec, (too_new_spec _ _ Hn),
      (listed_visibility_spec _ _ Hl). unfold offered. tauto.
  - apply known_efforts_spec.
  - intros e He. destruct (Upstream.default_reasoning_level u) as [d|]; [|done]. cbn in He.
    destruct (existsb _ _) eqn:E; [|done]. injection He as ->. split; [done|].
    apply existsb_exists in E as (x & Hx & ->%String.eqb_eq). by apply list_elem_of_In.
  - intros n ->. by apply model_limit.
  - intros n ->. by apply model_limit.
  - by apply modalities_spec.
  - intros t ->. apply catalog_text_bound in Hdn as (? & ? & _). done.
  - unfold fast_tier. by rewrite orb_true_iff, !existsb_elem.
Qed.
Lemma normalize_model_not_default u m : normalize_model u = Ok m -> is_default m = false.
Proof.
  unfold normalize_model.
  by intros (? & _ & (? & _ & (? & _ & (? & _ & (? & _ & (? & _ & (? & _ & [= <-])
    %bind_ok)%bind_ok)%bind_ok)%bind_ok)%bind_ok)%bind_ok)%bind_ok.
Qed.

(** ** The default *)

(** One default, the first visible model. *)
Definition first_visible_default (models : list ModelInfo) : Prop :=
  exists pre m post, models = pre ++ m :: post /\ is_visible m = true /\ is_default m = true /\
    Forall (fun m => is_visible m = false /\ is_default m = false) pre /\
    Forall (fun m => is_default m = false) post.

Lemma choose_default_ok infos models :
  choose_default infos = Ok models <->
  exists pre m post, infos = pre ++ m :: post /\ is_visible m = true /\
    forallb (fun m => negb (is_visible m)) pre = true /\ models = pre ++ set_default true m :: post.
Proof.
  unfold choose_default. rewrite bind_ok. split.
  - intros (i & (pre & m & post & -> & -> & Hm & Hpre)%ok_or_ok%position_some & [= <-]).
    exists pre, m, post. repeat split; try done.
    rewrite <- (Nat.add_0_r (length pre)), alter_app_r. done.
  - intros (pre & m & post & -> & Hm & Hpre & ->). exists (length pre).
    split; [by apply ok_or_ok, position_app|].
    f_equal. rewrite <- (Nat.add_0_r (length pre)), alter_app_r. done.
Qed.

Lemma choose_default_first infos models :
  Forall (fun m => is_default m = false) infos -> choose_default infos = Ok models ->
  first_visible_default models /\ Forall2 (fun i m => m = i \/ m = set_default true i) infos models.
Proof.
  intros Hd (pre & m & post & -> & Hm & Hpre & ->)%choose_default_ok.
  apply Forall_app in Hd as [Hdpre [Hdm Hdpost]%Forall_cons_1]. split.
  - exists pre, (set_default true m), post. repeat split; [done| |done].
    apply List.Forall_forall. intros x Hx. split.
    + apply forallb_forall with (x := x) in Hpre; [|done]. by apply negb_true_iff.
    + rewrite List.Forall_forall in Hdpre. auto.
  - apply Forall2_app; [by apply Forall_Forall2_diag, List.Forall_forall; auto|].
    constructor; [auto|]. apply Forall_Forall2_diag, List.Forall_forall. auto.
Qed.

Lemma set_default_sound u m d : sound_model u m -> sound_model u (set_default d m).
Proof. by destruct 1. Qed.

Section Theorems.
  Context {CC : CatalogCodec}.

(** The upstream models in the order they are served. *)
Lemma upstream_models_ok up us :
  upstream_models up = Ok us ->
  (Upstream.models up = [] \/ Upstream.data up = []) /\
  us <> [] /\ length us <= MAX_MODELS /\
  us = if nonempty (Upstream.models up) then sort_by_key Upstream.priority (Upstream.models up) else Upstream.data up.
Proof.
  unfold upstream_models. intros ([] & Hmix%reject_ok & H)%bind_ok.
  apply bind_ok in H as ([] & Hne%reject_ok%negb_false_iff & H).
  apply bind_ok in H as ([] & Hlen%reject_ok%Nat.ltb_ge & [= <-]).
  destruct (Upstream.models up) as [|m ms] eqn:Em; cbn [nonempty andb] in *.
  - destruct (Upstream.data up); [done|]. split_and!; [by left|done|done|done].
  - destruct (Upstream.data up); [|done].
    pose proof (sort_by_key_perm Upstream.priority (m :: ms)) as Hp. split_and!; [by right| | |done].
    + intros E. rewrite E in Hp. by apply Permutation_nil in Hp.
    + by rewrite Hp.
Qed.

Lemma normalize_models_inv body models :
  normalize_models body = Ok models ->
  exists up us infos,
    decode_models body = Ok up /\ upstream_models up = Ok us /\
    Forall valid_slug us /\ NoDup (slugs us) /\ Forall2 (fun u i => normalize_model u = Ok i) us infos /\
    choose_default infos = Ok models.
Proof.
  intros (up & Hd & (us & Hus & (st & (infos & Hv & Hn & _ & Hi & ->)%add_models_ok & Hc)%bind_ok)%bind_ok)%bind_ok.
  exists up, us, infos. cbn in Hc. split_and!; try done. by destruct (decode_models body); cbn in Hd; simplify_eq.
Qed.

(** A models response is accepted exactly when it decodes to one of the two catalog shapes,
    non-empty and within the limit, every id is valid and new, every model normalises and
    one of them is visible; no model of an accepted response is dropped. *)
Theorem catalog_accepted_iff (body : bytes) (models : list ModelInfo) :
  normalize_models body = Ok models <->
  exists up us infos,
    decode_models body = Ok up /\ upstream_models up = Ok us /\
    Forall valid_slug us /\ NoDup (slugs us) /\
    Forall2 (fun u i => normalize_model u = Ok i) us infos /\
    choose_default infos = Ok models.
Proof.
  split; [apply normalize_models_inv|].
  intros (up & us & infos & Hd & Hus & Hv & Hn & Hi & Hc). unfold normalize_models.
  apply bind_ok. exists up. rewrite Hd. split; [done|].
  apply bind_ok. exists us. split; [done|]. apply bind_ok.
  exists (list_to_set (slugs us) ∪ ∅, [] ++ infos). split; [|done]. apply add_models_ok. exists infos. split_and!; try done.
Qed.

Lemma catalog_sound body models :
  normalize_models body = Ok models ->
  exists up us, decode_models body = Ok up /\ upstream_models up = Ok us /\ NoDup (slugs us) /\
    Forall valid_slug us /\ Forall2 sound_model us models /\ first_visible_default models.
Proof.
  intros (up & us & infos & Hd & Hus & Hv & Hn & Hi & Hc)%normalize_models_inv.
  assert (Hdef : Forall (fun m => is_default m = false) infos).
  { clear -Hi. induction Hi as [|u i us infos Hu _ IH]; constructor; [by eapply normalize_model_not_default|done]. }
  destruct (choose_default_first _ _ Hdef Hc) as [Hfirst Heq]. exists up, us. split_and!; try done.
  clear -Hi Heq. revert models Heq. induction Hi as [|u i us infos Hu _ IH]; intros models Heq.
  - inversion Heq. constructor.
  - inversion Heq as [|? m ? models' Hm Hms]; subst. constructor; [|by apply IH].
    apply normalize_model_sound in Hu. destruct Hm as [->| ->]; [done|by apply set_default_sound].
Qed.

Lemma catalog_ids us models : Forall2 sound_model us models -> model_id <$> models = slugs us.
Proof. induction 1 as [|u m us models H _ IH]; [done|]. cbn. by rewrite IH, (sm_id _ _ H). Qed.

(** C33: Every served catalog is well formed: it holds each upstream model once, a subscription
    catalog in stable priority order and an API catalog in its own order; each entry is sound
    for its model (known distinct efforts, a default among them, positive limits, bounded
    names), is visible exactly when upstream offers a model this client can drive, and the
    first visible model is the only default. *)
Theorem catalog_well_formed (body : bytes) (models : list ModelInfo) (Hrun : normalize_models body = Ok models) :
  exists up us, decode_models body = Ok up /\
    Forall2 sound_model us models /\
    NoDup (model_id <$> models) /\ Forall (fun m => validate_model_id (model_id m) = Ok tt) models /\
    0 < length models <= MAX_MODELS /\
    first_visible_default models /\
    (Upstream.models up = [] /\ us = Upstream.data up \/
     Upstream.data up = [] /\ Permutation us (Upstream.models up) /\
     StronglySorted (key_le Upstream.priority) us /\
     forall p, List.filter (fun u => (Upstream.priority u =? p)%Z) us
               = List.filter (fun u => (Upstream.priority u =? p)%Z) (Upstream.models up)).
Proof.
  apply catalog_sound in Hrun as (up & us & Hd & Hus & Hn & Hv & Hs & Hf).
  apply upstream_models_ok in Hus as (Hmix & Hne & Hlen & Hus).
  exists up, us. rewrite (catalog_ids _ _ Hs). split_and!; try done.
  - clear -Hs Hv. induction Hs as [|u m us models H _ IH]; [constructor|].
    apply Forall_cons_1 in Hv as [Hu Hv]. constructor; [|auto]. by rewrite (sm_id _ _ H).
  - apply Forall2_length in Hs. rewrite <- Hs. destruct us; [done|cbn; lia].
  - apply Forall2_length in Hs. by rewrite <- Hs.
  - destruct (nonempty (Upstream.models up)) eqn:E; subst us.
    + right. destruct Hmix as [Hmix|Hmix]; [by rewrite Hmix in E|].
      split_and!; [done|apply sort_by_key_perm|apply sort_by_key_sorted|intros p; apply sort_by_key_stable].
    + left. by destruct (Upstream.models up).
Qed.

(** ** The merge with the bundled metadata *)

Definition in_account (available : list ModelInfo) (b : ModelInfo) : bool :=
  existsb (fun a => String.eqb (model_id a) (model_id b)) available.
(** A merged entry is the bundled one, visible when both catalogs show it. *)
Definition merged_from (available : list ModelInfo) (b m : ModelInfo) : Prop :=
  exists a, a ∈ available /\ model_id a = model_id b /\
    (m = set_default false (set_visible (is_visible b && is_visible a) b)).

Lemma merge_fold bundled available merged :
  NoDup (model_id <$> bundled) ->
  exists out, (foldl merge_model (available, merged) bundled).2 = merged ++ out /\
    Forall2 (merged_from available) (List.filter (fun b => supported_in_api b && in_account available b) bundled) out.
Proof.
  revert available merged. induction bundled as [|b bundled IH]; intros available merged Hn; cbn [foldl].
  { exists []. rewrite app_nil_r. by split. }
  cbn in Hn. apply NoDup_cons in Hn as [Hb Hn]. unfold merge_model at 2. cbn [List.filter].
  destruct (position _ available) as [i|] eqn:E.
  - apply position_some in E as (pre & a & post & -> & -> & Ha%String.eqb_eq & _).
    rewrite list_lookup_middle by done. cbn [is_some_and].
    replace (remove_at (length pre) (pre ++ a :: post)) with (pre ++ post).
    2: { unfold remove_at. rewrite take_app_length, <- Nat.add_1_r, <- drop_drop, drop_app_length. done. }
    assert (Hacct : in_account (pre ++ a :: post) b = true).
    { unfold in_account. rewrite existsb_app. cbn. rewrite Ha, String.eqb_refl. by rewrite orb_true_r. }
    rewrite Hacct, andb_true_r.
    assert (Hsame : forall b', b' ∈ bundled -> in_account (pre ++ a :: post) b' = in_account (pre ++ post) b').
    { intros b' Hb'. unfold in_account. rewrite !existsb_app. cbn.
      destruct (String.eqb_spec (model_id a) (model_id b')) as [Heq|]; [|done].
      exfalso. apply Hb. rewrite <- Ha, Heq. by apply list_elem_of_fmap_2. }
    assert (Hfilter : List.filter (fun b' => supported_in_api b' && in_account (pre ++ a :: post) b') bundled
                      = List.filter (fun b' => supported_in_api b' && in_account (pre ++ post) b') bundled).
    { apply List.filter_ext_in. intros b' Hb'%list_elem_of_In. by rewrite Hsame. }
    rewrite Hfilter. clear Hfilter Hsame.
    assert (Hmono : forall bs out, Forall2 (merged_from (pre ++ post)) bs out -> Forall2 (merged_from (pre ++ a :: post)) bs out).
    { intros bs out Hf. eapply Forall2_impl; [exact Hf|]. intros b' m (a' & Ha' & ?). exists a'. split; [|done]. set_solver. }
    destruct (supported_in_api b); cbn [negb].
    + destruct (IH (pre ++ post) (merged ++ [set_default false (set_visible (is_visible b && is_visible a) b)]) Hn)
        as (out & -> & Hout). rewrite <- app_assoc. eexists. split; [done|]. constructor; [|by apply Hmono].
      exists a. split; [set_solver|done].
    + destruct (IH (pre ++ post) merged Hn) as (out & -> & Hout). exists out. split; [done|by apply Hmono].
  - assert (Hacct : in_account available b = false).
    { clear -E. unfold in_account. induction available as [|a l IHl]; [done|]. cbn in *.
      destruct (String.eqb (model_id a) (model_id b)); [done|]. apply IHl.
      destruct (position _ l); done. }
    rewrite Hacct, andb_false_r. by apply IH.
Qed.

Lemma merged_catalog_inv (bundled_body body : bytes) (models : list ModelInfo) :
  normalize_api_models_with_bundled_metadata bundled_body body = Ok models ->
  exists available bundled,
    normalize_models body = Ok available /\ normalize_models bundled_body = Ok bundled /\
    Forall2 (fun b m => exists m', merged_from available b m' /\ (m = m' \/ m = set_default true m'))
      (List.filter (fun b => supported_in_api b && in_account available b) bundled) models /\
    first_visible_default models.
Proof.
  intros Hrun. unfold normalize_api_models_with_bundled_metadata in Hrun.
  apply bind_ok in Hrun as (available & Ha & H). apply bind_ok in H as (bundled & Hb & H).
  exists available, bundled. split; [done|]. split; [done|].
  apply catalog_sound in Hb as (up & us & _ & _ & Hn & _ & Hs & _).
  rewrite <- (catalog_ids _ _ Hs) in Hn.
  destruct (merge_fold bundled available [] Hn) as (out & Hout & Hall). rewrite Hout in H. cbn [app] in H.
  assert (Hdef : Forall (fun m => is_default m = false) out).
  { clear -Hall. induction Hall as [|b m bs out (a & _ & _ & ->) _ IH]; by constructor. }
  destruct (choose_default_first _ _ Hdef H) as [Hfirst Heq]. split; [|done].
  clear -Hall Heq. revert models Heq. induction Hall as [|b m' bs out Hm _ IH]; intros models Heq.
  - inversion Heq. constructor.
  - inversion Heq as [|? m ? models' Hor Hrest]; subst. constructor; [by exists m'|by apply IH].
Qed.

(** For an API key on the first-party endpoint the served catalog is the intersection of the
    account's catalog and the bundled metadata: in the bundled order, exactly the models in
    both that the API supports, each with the bundled metadata, visible only if both show
    it, the first visible one the only default. *)
Theorem merged_catalog_intersection (bundled_body body : bytes) (models : list ModelInfo)
    (Hrun : normalize_api_models_with_bundled_metadata bundled_body body = Ok models) :
  exists available bundled,
    normalize_models body = Ok available /\ normalize_models bundled_body = Ok bundled /\
    Forall2 (fun b m => exists m', merged_from available b m' /\ (m = m' \/ m = set_default true m'))
      (List.filter (fun b => supported_in_api b && in_account available b) bundled) models /\
    first_visible_default models.
Proof. by apply merged_catalog_inv. Qed.
End Theorems.

(** ** Witnesses *)

Section Witness.
Let model (slug : string) (priority : Z) (visibility : option string) : Upstream.Model := {|
  Upstream.slug := slug; Upstream.display_name := Some slug; Upstream.description := None;
  Upstream.context_window := Some 1000%Z; Upstream.max_output_tokens := None;
  Upstream.supported_reasoning_levels := ["low"; "future"; "low"]; Upstream.default_reasoning_level := Some "low";
  Upstream.priority := priority; Upstream.visibility := visibility;
  Upstream.minimal_client_version := Some (Text "0.100.0"); Upstream.use_responses_lite := true;
  Upstream.tool_mode := None; Upstream.input_modalities := ["text"]; Upstream.supported_in_api := true;
  Upstream.service_tiers := ["priority"]; Upstream.additional_speed_tiers := [] |}.
(** The empty body decodes to a subscription catalog, any other to an API catalog. *)
Let codec : CatalogCodec := {|
  decode_models := fun b => Ok match b with
    | [] => {| Upstream.models := [model "b" 2 None; model "a" 1 (Some "hide"); model "c" 2 None]; Upstream.data := [] |}
    | _ => {| Upstream.models := []; Upstream.data := [model "c" 0 None; model "a" 0 None] |}
    end |}.
Let served (r : res (list ModelInfo)) : list ModelInfo := match r with Ok l => l | Err _ => [] end.

Lemma catalog_well_formed_witness :
  (model_id <$> served (@normalize_models codec [])) = ["a"; "b"; "c"] /\
  first_visible_default (served (@normalize_models codec [])).
Proof.
  assert (H : @normalize_models codec [] = Ok (served (@normalize_models codec []))) by (vm_compute; reflexivity).
  destruct (@catalog_well_formed codec [] _ H) as (up & us & _ & _ & _ & _ & _ & Hf & _).
  split; [vm_compute; reflexivity|exact Hf].
Defined.

Lemma merged_catalog_intersection_witness :
  (model_id <$> served (@normalize_api_models_with_bundled_metadata codec [] [NUL])) = ["a"; "c"] /\
  first_visible_default (served (@normalize_api_models_with_bundled_metadata codec [] [NUL])).
Proof.
  assert (H : @normalize_api_models_with_bundled_metadata codec [] [NUL]
              = Ok (served (@normalize_api_models_with_bundled_metadata codec [] [NUL]))) by (vm_compute; reflexivity).
  destruct (@merged_catalog_intersection codec [] [NUL] _ H) as (available & bundled & _ & _ & _ & Hf).
  split; [vm_compute; reflexivity|exact Hf].
Defined.
End Witness.
