(* ===== verification/Transport.v ===== *)
(** * The Codex transport

    Models the request half of [Transport] in [crates/codex-transport/src/transport.rs]:
    the checks a body passes, the headers it leaves with, the retry and credential
    recovery loop, and how an upstream response is collected and its errors summarised.

    What the pinned Codex stack, [http], [url] and the keyring answer is an interface,
    [Upstream]; the outcome of each network attempt is an argument. The capability lock
    is never poisoned: no writer panics while it holds it. *)

From S2P Require Import Prelude Utf8 Json Errors ZaiRequest Responses Catalog.
From stdpp Require Import options.

Definition MAX_MODELS_RESPONSE_BYTES : N := 8 * 1024 * 1024.
Definition MAX_ERROR_RESPONSE_BYTES : N := 64 * 1024.
Definition MAX_PRESTREAM_ATTEMPTS : nat := 2.
(** Seconds. *)
Definition MAX_RETRY_AFTER : N := 2.
Definition RESPONSES_LITE_HEADER : string := "x-openai-internal-codex-responses-lite".
Definition CODEX_ROUTING_HINT_HEADER : string := "x-codex-routing-hint".

(** ** Headers

    [http::HeaderMap]: lower-case names, several values a name may have; [insert]
    replaces them all, [get] is the first, iteration yields every value. *)
Abbreviation HeaderMap := (list (string * string)).
Definition header_get (k : string) (h : HeaderMap) : option string := snd <$> find (fun kv => String.eqb k (fst kv)) h.
Definition header_remove (k : string) (h : HeaderMap) : HeaderMap :=
  List.filter (fun kv => negb (String.eqb k (fst kv))) h.
Definition header_insert (k v : string) (h : HeaderMap) : HeaderMap := header_remove k h ++ [(k, v)].

(** The part of [CodexAuth] the source reads. *)
Record CodexAuth := {
  is_api_key_auth : bool;
  is_chatgpt_auth : bool;
  get_token : option string;
  get_account_id : option string;
  is_fedramp_account : bool
}.
(** The part of the provider built by [ModelProviderInfo] the source reads; [url_for_path]
    is followed by [Url::parse]. *)
Record ApiProvider := {
  provider_headers : HeaderMap;
  url_for_path : string -> result string string
}.

Class Upstream := {
  (** [HeaderValue::from_str] accepts the text *)
  header_value : string -> bool;
  (** [create_openai_provider(base).to_api_provider(mode)] *)
  api_provider : option string -> CodexAuth -> result string ApiProvider;
  (** [url.query_pairs_mut().append_pair(k, v)] *)
  append_pair : string -> string -> string -> string;
  get_codex_user_agent : string;
  (** [muse-codex/<version>] *)
  MUSE_CODEX_USER_AGENT : string;
  process_id : N
}.

(** [Url] is its text. The fields of [Transport] but the library handles. *)
Record Transport := {
  api_key_override : option string;
  api_key_base_url : option string;
  model_capabilities : gmap string ModelCapabilities;
  fast_mode : bool
}.
Definition set_model_capabilities (c : gmap string ModelCapabilities) (t : Transport) : Transport :=
  {| api_key_override := api_key_override t; api_key_base_url := api_key_base_url t;
     model_capabilities := c; fast_mode := fast_mode t |}.

(** ** Collecting a response *)

(** The chunks of a body as they arrive. *)
Definition collect_chunk (limit : N) (output : bytes) (chunk : result ReqwestError bytes) : res bytes :=
  chunk ← map_err Http chunk;
  reject (limit <? u64_saturating_add (blen output) (blen chunk))%N
         (InvalidUpstreamResponse ("response exceeds " +:+ pretty limit +:+ " bytes"));;
  Ok (output ++ chunk).
Definition collect_response (limit : N) (chunks : list (result ReqwestError bytes)) : res bytes :=
  fold_res (collect_chunk limit) [] chunks.

Definition token_byte (c : ascii) : bool := is_ascii_alphanumeric c || char_in "_-." c.
Definition safe_error_token (v : string) : option string :=
  if negb (is_empty v) && (slen v <=? 128)%N && str_forallb token_byte v then Some v else None.

Definition OMITTED : string := "response body omitted".
Definition summarize_value (v : value) : string :=
  let error := default v (vget "error" v) in
  let error_type := vget_str "type" error ≫= safe_error_token in
  let error_code := vget_str "code" error ≫= safe_error_token in
  match error_type, error_code with
  | Some error_type, Some error_code => "type=" +:+ error_type +:+ ", code=" +:+ error_code
  | Some error_type, None => "type=" +:+ error_type
  | None, Some error_code => "code=" +:+ error_code
  | None, None => OMITTED
  end.

(** ** Checks on a request *)

Definition validate_fast_mode_availability (enabled custom_base_url : bool) (capabilities : option ModelCapabilities)
  : res unit :=
  match capabilities with
  | Some c => if negb enabled || custom_base_url || cap_supports_fast_mode c then Ok tt else Err FastModeUnavailable
  | None => Ok tt
  end.

Definition unsupported_effort (body : value) (c : ModelCapabilities) : bool :=
  match (vget "reasoning" body ≫= as_object) ≫= get_str "effort" with
  | Some effort => nonempty (cap_supported_reasoning_efforts c)
                   && negb (existsb (fun s => String.eqb s effort) (cap_supported_reasoning_efforts c))
  | None => false
  end.

Definition validate_model_request (t : Transport) (body : value) (api_key_auth : bool)
  : res (option ModelCapabilities) :=
  model ← ok_or (vget_str "model" body) (InvalidRequest "model must be a string");
  match model_capabilities t !! model with
  | None => if api_key_auth then Ok None
            else invalid "model is not available in the authenticated Codex catalog"
  | Some c =>
      reject (negb (cap_is_visible c)) (InvalidRequest "model is not available for interactive use");;
      reject (bool_decide (cap_tool_mode c = Some "code_mode_only") && negb (cap_use_responses_lite c))
             (InvalidRequest "model requires the Responses Lite tool protocol");;
      reject (request_contains_image body && negb (existsb (fun m => String.eqb m "image") (cap_input_modalities c)))
             (InvalidRequest "model does not accept image input");;
      reject (unsupported_effort body c)
             (InvalidRequest "reasoning effort is not supported by the selected model");;
      Ok (Some c)
  end.

Definition is_forbidden_forwarded_header (name : string) : bool :=
  one_of name
    [ "authorization"; "proxy-authorization"; "cookie"; "host"; "content-length"; "connection"; "keep-alive";
      "proxy-authenticate"; "te"; "trailer"; "transfer-encoding"; "upgrade"; "chatgpt-account-id";
      "x-openai-fedramp"; "x-api-key"; "api-key"; "openai-organization"; "openai-project"; "originator";
      "user-agent"; "version"; RESPONSES_LITE_HEADER; CODEX_ROUTING_HINT_HEADER ].

Definition merge_safe_request_headers (source destination : HeaderMap) : HeaderMap :=
  foldl (fun h kv => if is_forbidden_forwarded_header (fst kv) then h else header_insert (fst kv) (snd kv) h)
        destination source.

Definition set_internal_responses_lite_header (enabled : bool) (headers : HeaderMap) : HeaderMap :=
  if enabled then header_insert RESPONSES_LITE_HEADER "true" headers else header_remove RESPONSES_LITE_HEADER headers.
Definition set_internal_routing_hint_header (v : option string) (headers : HeaderMap) : HeaderMap :=
  match v with
  | Some v => header_insert CODEX_ROUTING_HINT_HEADER v headers
  | None => header_remove CODEX_ROUTING_HINT_HEADER headers
  end.

(** ** Search *)

Record SearchRequest := { query : string; request_id : string; iteration_index : N }.
Definition to_upstream (r : SearchRequest) : res value :=
  reject (is_empty (trim (query r))) (InvalidRequest "search query cannot be empty");;
  reject (is_empty (trim (request_id r))) (InvalidRequest "search request_id cannot be empty");;
  Ok (json_obj [ ("id", JString (request_id r +:+ ":" +:+ pretty (iteration_index r))); ("input", JString (query r)) ]).

(** ** Retry and recovery *)

Definition is_retryable_send_error (e : ReqwestError) : bool :=
  is_timeout e || is_connect e || is_request e || is_body e.

(** What the loop does, in order. *)
Inductive action : Type :=
  | Sent (attempt : nat)
  | Slept (seconds : N)
  | Locked
  | Refreshed.

Section Recovery.
  (** [T: ResponseStatus], the attempts made by [send], the steps a [Recovery] still has
      with their results, and the refresh lock: [None] without an auth manager. *)
  Context {T : Type} (response_status : T -> StatusCode) (retry_after : T -> option N).
  Context (send : nat -> res T) (refresh_lock : option (res unit)).

Definition may_retry (transient_attempts : nat) : bool := transient_attempts + 1 <? MAX_PRESTREAM_ATTEMPTS.

(** [if let Some(delay) = delay && !delay.is_zero() { sleep(delay) }] *)
Definition pause (response : T) : list action :=
  match retry_after response with
  | Some delay => if (delay =? 0)%N then [] else [Slept delay]
  | None => []
  end.

(** The lock is taken before the first step and kept. *)
Definition take_lock (locked : bool) : list action * res unit :=
  match locked, refresh_lock with
  | false, Some (Ok _) => ([Locked], Ok tt)
  | false, Some (Err e) => ([], Err e)
  | _, _ => ([], Ok tt)
  end.

(** [loop]: [n] attempts made, [transient] of them retried. *)
Fixpoint attempt (fuel n transient : nat) (recovery : option (list (res unit))) (locked : bool)
  : option (list action * res T) :=
  match fuel with
  | O => None
  | S fuel =>
      let after acts r := '(acts', result) ← r; Some (acts ++ acts', result) in
      match send n with
      | Err (Http error) =>
          if may_retry transient && is_retryable_send_error error
          then after [Sent n] (attempt fuel (S n) (S transient) recovery locked)
          else Some ([Sent n], Err (Http error))
      | Err error => Some ([Sent n], Err error)
      | Ok response =>
          if is_server_error (response_status response) && may_retry transient
          then after (Sent n :: pause response) (attempt fuel (S n) (S transient) recovery locked)
          else if negb (response_status response =? UNAUTHORIZED)%N then Some ([Sent n], Ok response)
          else match recovery with
               | Some (step :: steps) =>
                   let '(lock, held) := take_lock locked in
                   match held with
                   | Err e => Some (Sent n :: lock, Err e)
                   | Ok _ =>
                       match step with
                       | Err e => Some (Sent n :: lock ++ [Refreshed], Err e)
                       | Ok _ =>
                           after (Sent n :: lock ++ [Refreshed]) (attempt fuel (S n) transient (Some steps) true)
                       end
                   end
               | _ => Some ([Sent n], Ok response)
               end
      end
  end.

(** Each turn spends a transient attempt or a recovery step. *)
Definition attempt_fuel (recovery : option (list (res unit))) : nat :=
  MAX_PRESTREAM_ATTEMPTS + length (default [] recovery).
Definition execute_with_401_recovery (recovery : option (list (res unit))) : option (list action * res T) :=
  attempt (attempt_fuel recovery) 0 0 recovery false.

End Recovery.

(** [Retry-After] of a [reqwest::Response], in seconds; non-ASCII values do not read. *)
Definition retry_after_header (v : option string) : option N :=
  v ← opt_filter (str_forallb (fun c => in_range 32 126 c || Ascii.eqb c "009"%char)) v;
  seconds ← parse_uint u64_modulus (trim v);
  Some (N.min seconds MAX_RETRY_AFTER).

(** ** Requests *)

Section Requests.
  Context {UP : Upstream}.

Definition resolve_auth (t : Transport) (stored : option CodexAuth) : res CodexAuth :=
  auth ← match api_key_override t with
         | Some api_key => Ok {| is_api_key_auth := true; is_chatgpt_auth := false; get_token := Some api_key;
                                 get_account_id := None; is_fedramp_account := false |}
         | None => ok_or stored NotAuthenticated
         end;
  reject (negb (is_api_key_auth auth) && negb (is_chatgpt_auth auth)) UnsupportedAuthMode;;
  reject (bool_decide (is_Some (api_key_base_url t)) && negb (is_api_key_auth auth)) CustomBaseUrlRequiresApiKey;;
  Ok auth.

Definition attach_auth_headers (auth : CodexAuth) (headers : HeaderMap) : res HeaderMap :=
  token ← ok_or (get_token auth) (Authentication "credential has no bearer token");
  let authorization := "Bearer " +:+ token in
  reject (negb (header_value authorization)) (Authentication "credential is not a valid header value");;
  let headers := header_insert "authorization" authorization headers in
  headers ← match get_account_id auth with
            | Some account_id =>
                reject (negb (header_value account_id)) (Authentication "account id is not a valid header value");;
                Ok (header_insert "chatgpt-account-id" account_id headers)
            | None => Ok headers
            end;
  Ok (if is_fedramp_account auth then header_insert "x-openai-fedramp" "true" headers else headers).

Definition prepare_request (t : Transport) (stored : option CodexAuth) (path : string)
    (extra_headers : HeaderMap) (accept : string) : res (string * HeaderMap) :=
  auth ← resolve_auth t stored;
  let custom_base := if is_api_key_auth auth then api_key_base_url t else None in
  provider ← map_err Provider (api_provider custom_base auth);
  url ← map_err Provider (url_for_path provider path);
  let headers := merge_safe_request_headers extra_headers (provider_headers provider) in
  let headers := header_insert "version" CODEX_WIRE_COMPATIBILITY_VERSION headers in
  headers ← attach_auth_headers auth headers;
  let headers := header_insert "content-type" "application/json" headers in
  let headers := header_insert "accept" accept headers in
  let user_agent := MUSE_CODEX_USER_AGENT +:+ " wire/" +:+ CODEX_WIRE_COMPATIBILITY_VERSION
                    +:+ " " +:+ get_codex_user_agent in
  reject (negb (header_value user_agent)) (InvalidHeader "generated user-agent");;
  Ok (url, header_insert "user-agent" user_agent headers).

(** What [send_models_once] hands the client: URL and headers. *)
Definition send_models_once (t : Transport) (stored : option CodexAuth) : res (string * HeaderMap) :=
  '(url, headers) ← prepare_request t stored "models" [] "application/json";
  Ok (append_pair "client_version" CODEX_WIRE_COMPATIBILITY_VERSION url, headers).

(** What [send_json_once] hands the client: URL, headers and body. *)
Definition send_json_once (t : Transport) (stored : option CodexAuth) (path : string) (body : value)
    (extra_headers : HeaderMap) (accept : string) (use_responses_lite : bool) (routing_hint : option string)
  : res (string * HeaderMap * value) :=
  '(url, headers) ← prepare_request t stored path extra_headers accept;
  Ok (url, set_internal_routing_hint_header routing_hint
             (set_internal_responses_lite_header use_responses_lite headers), body).

Definition subscription_routing_hint (body : value) : res string :=
  model ← ok_or (vget_str "model" body) (InvalidRequest "model must be a string");
  let hint := match vget_str "service_tier" body with
              | Some tier => "model=" +:+ model +:+ ";tier=" +:+ tier
              | None => "model=" +:+ model
              end in
  reject (negb (header_value hint)) (InvalidHeader "generated Codex routing hint");;
  Ok hint.

(** [sequence] is the value [RESPONSES_LITE_REQUEST_SEQUENCE] gives. *)
Definition responses_lite_request_namespace (headers : HeaderMap) (sequence : N) : string :=
  match opt_filter (fun v => str_forallb (fun c => in_range 32 126 c || Ascii.eqb c "009"%char) v
                             && negb (is_empty v) && (slen v <=? 512)%N)
                   (header_get "x-request-id" headers) with
  | Some request_id => "request:" +:+ request_id
  | None => "process:" +:+ pretty process_id +:+ ":" +:+ pretty sequence
  end.

Context {SJ : SerdeJson} {IC : ItemCodec} {CC : CatalogCodec}.

Definition summarize_upstream_error (body : bytes) : string :=
  match from_slice body with
  | Some v => summarize_value v
  | None => OMITTED
  end.

Definition upstream_error (status : StatusCode) (chunks : list (result ReqwestError bytes)) : Error :=
  Errors.Upstream status
    match collect_response MAX_ERROR_RESPONSE_BYTES chunks with
    | Ok body => summarize_upstream_error body
    | Err _ => OMITTED
    end.

(** The request [stream_responses] sends, until the first attempt. *)
Record StreamRequest := {
  sr_body : value;
  sr_use_responses_lite : bool;
  sr_routing_hint : option string
}.
Definition prepare_stream (t : Transport) (stored : option CodexAuth) (body : value) (extra_headers : HeaderMap)
    (sequence : N) : res StreamRequest :=
  auth ← resolve_auth t stored;
  let api_key_auth := is_api_key_auth auth in
  capabilities ← validate_model_request t body api_key_auth;
  validate_fast_mode_availability (fast_mode t) (bool_decide (is_Some (api_key_base_url t))) capabilities;;
  let use_responses_lite := is_some_and cap_use_responses_lite capabilities in
  let namespace := if use_responses_lite then Some (responses_lite_request_namespace extra_headers sequence) else None in
  body ← apply_fast_service_tier body (fast_mode t);
  body ← normalize_responses_request body api_key_auth use_responses_lite namespace;
  routing_hint ← (if api_key_auth then Ok None else Some <$> subscription_routing_hint body);
  Ok {| sr_body := body; sr_use_responses_lite := use_responses_lite; sr_routing_hint := routing_hint |}.

(** [stream_responses]: the prepared request is built again for every attempt, from the
    credential [stored] then, and handed to the [network]. *)
Definition stream_responses {T} (response_status : T -> StatusCode) (retry_after : T -> option N)
    (network : nat -> string * HeaderMap * value -> result ReqwestError T)
    (refresh_lock : option (res unit)) (recovery : option (list (res unit)))
    (t : Transport) (before : option CodexAuth) (stored : nat -> option CodexAuth) (body : value) (extra_headers : HeaderMap) (sequence : N)
  : option (list action * res T) :=
  match prepare_stream t before body extra_headers sequence with
  | Err e => Some ([], Err e)
  | Ok r =>
      execute_with_401_recovery response_status retry_after
        (fun n => request ← send_json_once t (stored n) "responses" (sr_body r) extra_headers "text/event-stream"
                              (sr_use_responses_lite r) (sr_routing_hint r);
                  map_err Http (network n request))
        refresh_lock recovery
  end.

(** ** The catalog *)

Definition capabilities_of (m : ModelInfo) : ModelCapabilities :=
  {| cap_is_visible := is_visible m; cap_use_responses_lite := use_responses_lite m; cap_tool_mode := tool_mode m;
     cap_input_modalities := input_modalities m;
     cap_supported_reasoning_efforts := supported_reasoning_efforts m;
     cap_supports_fast_mode := supports_fast_mode m |}.

(** [self.api_key_base_url.is_none() && self.resolve_auth().await?.is_api_key_auth()] *)
Definition uses_bundled_metadata (t : Transport) (stored : option CodexAuth) : res bool :=
  match api_key_base_url t with
  | Some _ => Ok false
  | None => auth ← resolve_auth t stored; Ok (is_api_key_auth auth)
  end.
(** [list_models] once a response is there: its status and body. *)
Definition list_models (BUNDLED_MODEL_CATALOG : bytes) (t : Transport) (stored : option CodexAuth)
    (status : StatusCode) (chunks : list (result ReqwestError bytes)) : res (list ModelInfo * Transport) :=
  use_bundled_api_metadata ← uses_bundled_metadata t stored;
  if negb (is_success status) then Err (upstream_error status chunks) else
  body ← collect_response MAX_MODELS_RESPONSE_BYTES chunks;
  models ← (if use_bundled_api_metadata : bool
            then normalize_api_models_with_bundled_metadata BUNDLED_MODEL_CATALOG body
            else normalize_models body);
  Ok (models, set_model_capabilities
                (list_to_map (reverse ((fun m : ModelInfo => (model_id m, capabilities_of m)) <$> models))) t).

End Requests.
