(* ===== verification/TransportCorrect.v ===== *)
(** * The Codex transport, proved

    The theorems about [Transport.v]: the retry and recovery loop is bounded and takes the
    lock first, the caller cannot set a protected header, a subscription request stays
    within the served catalog, responses are collected within their limit and error
    summaries carry nothing but tokens. *)

From S2P Require Import Prelude Utf8 Json Errors ZaiRequest Responses ResponsesCorrect Catalog CatalogCorrect Transport.
From stdpp Require Import options.

(** ** The recovery loop *)

Section Recovery.
  Context {T : Type} (response_status : T -> StatusCode) (retry_after : T -> option N).
  Context (send : nat -> res T) (refresh_lock : option (res unit)).
  #[local] Abbreviation run := (attempt response_status retry_after send refresh_lock).

Definition count (p : action -> bool) (acts : list action) : nat := length (List.filter p acts).
Definition is_sent (a : action) : bool := match a with Sent _ => true | _ => false end.
Definition is_locked (a : action) : bool := match a with Locked => true | _ => false end.
Definition is_refreshed (a : action) : bool := match a with Refreshed => true | _ => false end.
Definition is_slept (a : action) : bool := match a with Slept _ => true | _ => false end.

Lemma acts_count_app p a b : count p (a ++ b) = count p a + count p b.
Proof. unfold count. by rewrite List.filter_app, length_app. Qed.
Lemma acts_count_cons p a b : count p (a :: b) = (if p a then 1 else 0) + count p b.
Proof. unfold count. cbn. by destruct (p a). Qed.

(** No refresh happens before the lock, when there is one to take. *)
Fixpoint locked_first (locked : bool) (acts : list action) : bool :=
  match acts with
  | [] => true
  | Locked :: acts' => negb locked && locked_first true acts'
  | Refreshed :: acts' => (locked || match refresh_lock with None => true | Some _ => false end) && locked_first locked acts'
  | _ :: acts' => locked_first locked acts'
  end.
(** Attempts are numbered in order. *)
Definition sent_numbers (acts : list action) : list nat :=
  omap (fun a => match a with Sent n => Some n | _ => None end) acts.

(** What a run from attempt [n] promises. *)
Record run_promise (n transient : nat) (recovery : option (list (res unit))) (locked : bool)
    (acts : list action) (r : res T) : Prop := {
  rp_numbers : sent_numbers acts = seq n (count is_sent acts);
  rp_some : 0 < count is_sent acts;
  rp_sent : count is_sent acts + transient <= MAX_PRESTREAM_ATTEMPTS + count is_refreshed acts;
  rp_refreshed : count is_refreshed acts <= length (default [] recovery);
  rp_slept : count is_slept acts + transient < MAX_PRESTREAM_ATTEMPTS;
  rp_locked : locked_first locked acts = true;
  rp_result : forall response, r = Ok response ->
    send (n + count is_sent acts - 1) = Ok response /\
    (response_status response = UNAUTHORIZED -> count is_refreshed acts = length (default [] recovery)) /\
    (is_server_error (response_status response) = true ->
       may_retry (transient + (count is_sent acts - 1 - count is_refreshed acts)) = false) /\
    count is_refreshed acts < count is_sent acts
}.

Lemma acts_count_one p a : count p [a] = if p a then 1 else 0.
Proof. rewrite acts_count_cons. cbn. lia. Qed.

(** The run stops at this attempt. *)
Lemma promise_stop n transient recovery locked r :
  transient < MAX_PRESTREAM_ATTEMPTS ->
  (forall response, r = Ok response ->
     send n = Ok response /\
     (response_status response = UNAUTHORIZED -> length (default [] recovery) = 0) /\
     (is_server_error (response_status response) = true -> may_retry transient = false)) ->
  run_promise n transient recovery locked [Sent n] r.
Proof.
  intros Ht Hr. split; rewrite ?acts_count_one; cbn [is_sent is_refreshed is_slept]; try done; try lia.
  intros response Heq. destruct (Hr response Heq) as (Hs & Hu & He).
  replace (n + 1 - 1) with n by lia. split_and!; [done|by intros ->%Hu| |lia].
  intros Hse. rewrite Nat.add_0_r. by apply He.
Qed.

(** The run retries without a refresh. *)
Lemma promise_retry n transient recovery locked pauses acts r :
  count is_sent pauses = 0 -> count is_refreshed pauses = 0 -> count is_slept pauses <= 1 ->
  sent_numbers pauses = [] -> (forall l a, locked_first l (pauses ++ a) = locked_first l a) ->
  run_promise (S n) (S transient) recovery locked acts r ->
  run_promise n transient recovery locked (Sent n :: pauses ++ acts) r.
Proof.
  intros Hs Hr Hp Hn Hl [Rn Rs Rt Rr Rp Rl Rx].
  split; rewrite ?acts_count_cons, ?acts_count_app, ?Hs, ?Hr; cbn [is_sent is_refreshed is_slept Nat.add]; try lia.
  - cbn. unfold sent_numbers in *. rewrite omap_app, Hn, Rn. done.
  - cbn [locked_first]. by rewrite Hl.
  - intros response Heq. destruct (Rx response Heq) as (H1 & H2 & H3 & H4). split_and!; [|done| |lia].
    + rewrite <- H1. f_equal. lia.
    + intros He. rewrite <- (H3 He). f_equal. lia.
Qed.

(** A refresh, under the lock. *)
Lemma locked_first_no_lock acts : refresh_lock = None -> locked_first true acts = true -> locked_first false acts = true.
Proof.
  intros Hn. induction acts as [|a acts IH]; [done|]. destruct a; cbn [locked_first]; rewrite ?Hn; cbn; try done.
Qed.
Lemma take_lock_first locked lock acts :
  take_lock refresh_lock locked = (lock, Ok tt) -> locked_first true acts = true ->
  locked_first locked (lock ++ Refreshed :: acts) = true.
Proof.
  unfold take_lock. destruct locked; [intros [= <-] H; by cbn|].
  destruct refresh_lock as [[]|] eqn:E; intros [= <-] H; cbn; [done|].
  rewrite E. cbn. by apply locked_first_no_lock.
Qed.
Lemma take_lock_counts locked lock held :
  take_lock refresh_lock locked = (lock, held) ->
  count is_sent lock = 0 /\ count is_refreshed lock = 0 /\ count is_slept lock = 0 /\ sent_numbers lock = [] /\
  (held <> Ok tt -> lock = []).
Proof.
  unfold take_lock. destruct locked, refresh_lock as [[[]|]|]; intros [= <- <-]; by repeat split.
Qed.
Lemma promise_refresh n transient step steps locked lock acts r :
  take_lock refresh_lock locked = (lock, Ok tt) ->
  run_promise (S n) transient (Some steps) true acts r ->
  run_promise n transient (Some (step :: steps)) locked (Sent n :: lock ++ Refreshed :: acts) r.
Proof.
  intros Hlock [Rn Rs Rt Rr Rp Rl Rx]. destruct (take_lock_counts _ _ _ Hlock) as (L1 & L2 & L3 & L4 & _).
  cbn [default from_option Datatypes.id length] in *.
  split; rewrite ?acts_count_cons, ?acts_count_app, ?acts_count_cons, ?L1, ?L2, ?L3;
    cbn [is_sent is_refreshed is_slept Nat.add default from_option Datatypes.id length]; try lia.
  - cbn. unfold sent_numbers in *. rewrite omap_app, L4. cbn. by rewrite Rn.
  - cbn [locked_first]. by apply take_lock_first.
  - intros response Heq. destruct (Rx response Heq) as (H1 & H2 & H3 & H4). split_and!.
    + rewrite <- H1. f_equal. lia.
    + intros Hu. by rewrite H2.
    + intros He. rewrite <- (H3 He). f_equal. lia.
    + lia.
Qed.

Lemma pause_counts response acts :
  count is_sent (pause retry_after response) = 0 /\ count is_refreshed (pause retry_after response) = 0 /\
  count is_slept (pause retry_after response) <= 1 /\ sent_numbers (pause retry_after response) = [] /\
  (forall l, locked_first l (pause retry_after response ++ acts) = locked_first l acts).
Proof.
  unfold pause. destruct (retry_after response) as [d|]; [destruct (d =? 0)%N|]; repeat split; cbn; lia.
Qed.

Lemma attempt_promise fuel n transient recovery locked :
  transient < MAX_PRESTREAM_ATTEMPTS ->
  MAX_PRESTREAM_ATTEMPTS + length (default [] recovery) <= fuel + transient ->
  exists acts r, run fuel n transient recovery locked = Some (acts, r) /\ run_promise n transient recovery locked acts r.
Proof.
  revert n transient recovery locked. induction fuel as [|fuel IH]; intros n transient recovery locked Ht Hf; [lia|].
  cbn [attempt]. destruct (send n) as [response|e] eqn:Es.
  - destruct (is_server_error (response_status response) && may_retry transient) eqn:Eretry.
    + apply andb_prop in Eretry as [He Hm%Nat.ltb_lt].
      destruct (IH (S n) (S transient) recovery locked) as (acts & r & -> & Hp); [lia..|].
      destruct (pause_counts response acts) as (P1 & P2 & P3 & P4 & _).
      eexists _, r. split; [reflexivity|]. apply promise_retry; try done. intros l a. by apply pause_counts.
    + assert (Hse : is_server_error (response_status response) = true -> may_retry transient = false).
      { intros H. by rewrite H in Eretry. }
      destruct (negb (response_status response =? UNAUTHORIZED)%N) eqn:Eu.
      { eexists _, _. split; [reflexivity|]. apply promise_stop; [done|]. intros ? [= <-].
        split_and!; [done| |done]. intros Hst. by rewrite Hst in Eu. }
      destruct recovery as [[|step steps]|].
      * eexists _, _. split; [reflexivity|]. apply promise_stop; [done|]. by intros ? [= <-].
      * destruct (take_lock refresh_lock locked) as [lock held] eqn:El.
        pose proof (take_lock_counts _ _ _ El) as (L1 & L2 & L3 & L4 & L5).
        destruct held as [[]|e].
        -- destruct step as [[]|e].
           ++ cbn [default from_option Datatypes.id length] in Hf.
              destruct (IH (S n) transient (Some steps) true) as (acts & r & -> & Hp); [lia|cbn [default from_option Datatypes.id]; lia|].
              eexists _, r. split; [reflexivity|]. rewrite <- app_comm_cons, <- app_assoc. by apply promise_refresh.
           ++ eexists _, _. split; [reflexivity|].
              split; rewrite ?acts_count_cons, ?acts_count_app, ?L1, ?L2, ?L3, ?acts_count_one;
                cbn [is_sent is_refreshed is_slept Nat.add default from_option Datatypes.id length]; try done; try lia.
              ** cbn. unfold sent_numbers in *. by rewrite omap_app, L4.
              ** cbn [locked_first]. by apply take_lock_first.
        -- rewrite L5 by done. eexists _, _. split; [reflexivity|]. apply promise_stop; [done|]. by intros ? [=].
      * eexists _, _. split; [reflexivity|]. apply promise_stop; [done|]. by intros ? [= <-].
  - assert (Hstop : forall e', run_promise n transient recovery locked [Sent n] (Err e')).
    { intros e'. apply promise_stop; [done|]. by intros ? [=]. }
    destruct e; try (eexists _, _; split; [reflexivity|apply Hstop]).
    destruct (may_retry transient && is_retryable_send_error error) eqn:Em;
      [|eexists _, _; split; [reflexivity|apply Hstop]].
    apply andb_prop in Em as [Hm%Nat.ltb_lt _].
    destruct (IH (S n) (S transient) recovery locked) as (acts & r & -> & Hp); [lia..|].
    eexists _, r. split; [reflexivity|]. by apply (promise_retry n transient recovery locked []); try done; cbn; lia.
Qed.
End Recovery.

Lemma execute_promise {T} (response_status : T -> StatusCode) (retry_after : T -> option N) send refresh_lock recovery :
  exists acts r, execute_with_401_recovery response_status retry_after send refresh_lock recovery = Some (acts, r)
    /\ run_promise response_status send refresh_lock 0 0 recovery false acts r.
Proof.
  apply (attempt_promise response_status retry_after send refresh_lock (attempt_fuel recovery) 0 0 recovery false);
    [unfold MAX_PRESTREAM_ATTEMPTS; lia|unfold attempt_fuel; lia].
Qed.
Lemma execute_some {T} (response_status : T -> StatusCode) (retry_after : T -> option N) send refresh_lock recovery :
  exists acts r, execute_with_401_recovery response_status retry_after send refresh_lock recovery = Some (acts, r).
Proof.
  destruct (execute_promise response_status retry_after send refresh_lock recovery) as (acts & r & H & _). eauto.
Qed.

(** C10: The retry and recovery loop always ends. It sends at most one attempt more than the transient
    budget and the recovery steps allow, sleeps at most once, refreshes the credential at
    most once per step and only under the refresh lock, which it takes at most once; and a
    response it returns is the one of its last attempt, a 401 only when every recovery step
    is spent, a server error only when the transient retry is. *)
Theorem recovery_loop_bounded {T} (response_status : T -> StatusCode) (retry_after : T -> option N)
    (send : nat -> res T) (refresh_lock : option (res unit)) (recovery : option (list (res unit))) :
  exists acts r,
    execute_with_401_recovery response_status retry_after send refresh_lock recovery = Some (acts, r) /\
    sent_numbers acts = seq 0 (count is_sent acts) /\
    1 <= count is_sent acts <= MAX_PRESTREAM_ATTEMPTS + length (default [] recovery) /\
    count is_refreshed acts <= length (default [] recovery) /\
    count is_slept acts <= 1 /\
    locked_first refresh_lock false acts = true /\
    forall response, r = Ok response ->
      send (count is_sent acts - 1) = Ok response /\
      (response_status response = UNAUTHORIZED -> count is_refreshed acts = length (default [] recovery)) /\
      (is_server_error (response_status response) = true ->
         count is_sent acts = MAX_PRESTREAM_ATTEMPTS + count is_refreshed acts).
Proof.
  destruct (execute_promise response_status retry_after send refresh_lock recovery) as (acts & r & Hrun & [Rn Rs Rt Rr Rp Rl Rx]).
  exists acts, r. split; [done|]. split; [done|]. split; [lia|]. split; [done|].
  split; [unfold MAX_PRESTREAM_ATTEMPTS in *; lia|]. split; [done|].
  intros response Heq. destruct (Rx response Heq) as (H1 & H2 & H3 & H4). split; [done|]. split; [done|].
  intros He%H3%Nat.ltb_ge. unfold MAX_PRESTREAM_ATTEMPTS in *. lia.
Qed.

(** ** Headers *)

(** Every value a name has. *)
Definition header_values (k : string) (h : HeaderMap) : list string :=
  snd <$> List.filter (fun kv => String.eqb k (fst kv)) h.

Lemma header_values_app k a b : header_values k (a ++ b) = header_values k a ++ header_values k b.
Proof. unfold header_values. by rewrite List.filter_app, fmap_app. Qed.
Lemma header_values_remove k k' h :
  header_values k (header_remove k' h) = if String.eqb k k' then [] else header_values k h.
Proof.
  unfold header_values, header_remove. induction h as [|[x v] h IH]; cbn [List.filter fst]; [by case_match|].
  destruct (String.eqb_spec k' x) as [->|Hne]; cbn [negb].
  - rewrite IH. by destruct (String.eqb k x).
  - cbn [List.filter fst]. destruct (String.eqb_spec k x) as [->|]; [|done].
    cbn. rewrite IH. by destruct (String.eqb_spec x k').
Qed.
Lemma header_values_insert k k' v h :
  header_values k (header_insert k' v h) = if String.eqb k k' then [v] else header_values k h.
Proof.
  unfold header_insert. rewrite header_values_app, header_values_remove. unfold header_values at 2. cbn.
  destruct (String.eqb k k'); cbn; [done|]. by rewrite app_nil_r.
Qed.
Lemma header_get_values k h : header_get k h = head (header_values k h).
Proof.
  unfold header_get, header_values. induction h as [|[x v] h IH]; [done|]. cbn.
  by destruct (String.eqb k x).
Qed.

(** The last value a name has in the caller's headers replaces what was there. *)
Lemma merge_values k source destination :
  header_values k (merge_safe_request_headers source destination) =
    match last (header_values k source) with
    | Some v => if is_forbidden_forwarded_header k then header_values k destination else [v]
    | None => header_values k destination
    end.
Proof.
  unfold merge_safe_request_headers. revert destination.
  induction source as [|[x v] source IH] using rev_ind; intros destination; [done|].
  rewrite foldl_app, header_values_app. cbn [foldl fst snd].
  unfold header_values at 3. cbn [List.filter fst]. destruct (String.eqb_spec k x) as [->|Hne].
  - cbn [fmap list_fmap snd]. rewrite last_snoc.
    destruct (is_forbidden_forwarded_header x) eqn:E.
    + rewrite IH. destruct (last _); done.
    + by rewrite header_values_insert, String.eqb_refl.
  - cbn [fmap list_fmap]. rewrite app_nil_r, <- IH.
    destruct (is_forbidden_forwarded_header x); [done|]. rewrite header_values_insert.
    by destruct (String.eqb_spec k x).
Qed.

(** The names the transport itself decides. *)
Definition protected (k : string) : bool := is_forbidden_forwarded_header k || one_of k ["content-type"; "accept"].

(** What the transport writes for a protected name; other protected names keep what the
    provider set. *)
Definition trusted_values `{Upstream} (auth : CodexAuth) (provider : ApiProvider) (accept : string)
    (lite : bool) (hint : option string) (k : string) : list string :=
  if String.eqb k CODEX_ROUTING_HINT_HEADER then option_list hint
  else if String.eqb k RESPONSES_LITE_HEADER then (if lite then ["true"] else [])
  else if String.eqb k "user-agent" then
    [MUSE_CODEX_USER_AGENT +:+ " wire/" +:+ CODEX_WIRE_COMPATIBILITY_VERSION +:+ " " +:+ get_codex_user_agent]
  else if String.eqb k "accept" then [accept]
  else if String.eqb k "content-type" then ["application/json"]
  else if String.eqb k "x-openai-fedramp" && is_fedramp_account auth then ["true"]
  else if String.eqb k "chatgpt-account-id" && bool_decide (is_Some (get_account_id auth)) then option_list (get_account_id auth)
  else if String.eqb k "authorization" then (fun token => "Bearer " +:+ token) <$> option_list (get_token auth)
  else if String.eqb k "version" then [CODEX_WIRE_COMPATIBILITY_VERSION]
  else header_values k (provider_headers provider).

Section Headers.
  Context {UP : Upstream}.

Lemma attach_auth_values auth h h' k :
  attach_auth_headers auth h = Ok h' ->
  header_values k h' =
    if String.eqb k "x-openai-fedramp" && is_fedramp_account auth then ["true"]
    else if String.eqb k "chatgpt-account-id" && bool_decide (is_Some (get_account_id auth)) then option_list (get_account_id auth)
    else if String.eqb k "authorization" then (fun token => "Bearer " +:+ token) <$> option_list (get_token auth)
    else header_values k h.
Proof.
  unfold attach_auth_headers. intros (token & Ht%ok_or_ok & H)%bind_ok. apply bind_ok in H as ([] & _ & H).
  apply bind_ok in H as (h1 & Hacc & [= <-]). rewrite Ht.
  assert (H1 : header_values k h1 =
    if String.eqb k "chatgpt-account-id" && bool_decide (is_Some (get_account_id auth)) then option_list (get_account_id auth)
    else if String.eqb k "authorization" then ["Bearer " +:+ token] else header_values k h).
  { destruct (get_account_id auth) as [account|].
    - apply bind_ok in Hacc as ([] & _ & [= <-]). rewrite !header_values_insert. by destruct (String.eqb k "chatgpt-account-id").
    - injection Hacc as <-. rewrite header_values_insert. by rewrite andb_false_r. }
  destruct (is_fedramp_account auth); [rewrite header_values_insert|]; rewrite H1, ?andb_true_r, ?andb_false_r; done.
Qed.

Lemma prepare_request_inv t stored path extra accept url h :
  prepare_request t stored path extra accept = Ok (url, h) ->
  exists auth provider h1,
    resolve_auth t stored = Ok auth /\
    api_provider (if is_api_key_auth auth then api_key_base_url t else None) auth = Ok provider /\
    url_for_path provider path = Ok url /\
    attach_auth_headers auth (header_insert "version" CODEX_WIRE_COMPATIBILITY_VERSION
      (merge_safe_request_headers extra (provider_headers provider))) = Ok h1 /\
    h = header_insert "user-agent"
          (MUSE_CODEX_USER_AGENT +:+ " wire/" +:+ CODEX_WIRE_COMPATIBILITY_VERSION +:+ " " +:+ get_codex_user_agent)
          (header_insert "accept" accept (header_insert "content-type" "application/json" h1)).
Proof.
  unfold prepare_request. intros (auth & Ha & H)%bind_ok. apply bind_ok in H as (provider & Hp & H).
  apply bind_ok in H as (url' & Hu & H). apply bind_ok in H as (h1 & Hh & H).
  apply bind_ok in H as ([] & _ & [= <- <-]). exists auth, provider, h1.
  destruct (api_provider _ auth) as [p|]; [|done]. cbn in Hp. injection Hp as ->.
  destruct (url_for_path provider path) as [u|]; [|done]. cbn in Hu. by injection Hu as ->.
Qed.

Lemma sent_headers (t : Transport) (stored : option CodexAuth) (path : string) (body body' : value)
    (extra : HeaderMap) (accept : string) (lite : bool) (hint : option string) (url : string) (h : HeaderMap)
    (Hrun : send_json_once t stored path body extra accept lite hint = Ok (url, h, body')) :
  body' = body /\
  exists auth provider,
    resolve_auth t stored = Ok auth /\
    api_provider (if is_api_key_auth auth then api_key_base_url t else None) auth = Ok provider /\
    url_for_path provider path = Ok url /\
    forall k, header_values k h =
      if protected k then trusted_values auth provider accept lite hint k
      else match last (header_values k extra) with
           | Some v => [v]
           | None => header_values k (provider_headers provider)
           end.
Proof.
  unfold send_json_once in Hrun. apply bind_ok in Hrun as ([url' h'] & Hp & [= <- <- <-]).
  apply prepare_request_inv in Hp as (auth & provider & h1 & Ha & Hprov & Hu & Hh & ->).
  split; [done|]. exists auth, provider. split_and!; try done. intros k.
  set (inner := header_insert "user-agent" _ _).
  assert (Hinner : header_values k inner =
    if String.eqb k "user-agent" then
      [MUSE_CODEX_USER_AGENT +:+ " wire/" +:+ CODEX_WIRE_COMPATIBILITY_VERSION +:+ " " +:+ get_codex_user_agent]
    else if String.eqb k "accept" then [accept]
    else if String.eqb k "content-type" then ["application/json"]
    else header_values k h1) by (unfold inner; by rewrite !header_values_insert).
  clearbody inner. rewrite (attach_auth_values _ _ _ k Hh), header_values_insert, merge_values in Hinner.
  unfold set_internal_routing_hint_header, set_internal_responses_lite_header.
  assert (Hlite : header_values k (if lite then header_insert RESPONSES_LITE_HEADER "true" inner
                                   else header_remove RESPONSES_LITE_HEADER inner)
                  = if String.eqb k RESPONSES_LITE_HEADER then (if lite then ["true"] else []) else header_values k inner).
  { destruct lite; [by rewrite header_values_insert|by rewrite header_values_remove]. }
  assert (Hhint : forall h, header_values k (match hint with
      | Some v => header_insert CODEX_ROUTING_HINT_HEADER v h | None => header_remove CODEX_ROUTING_HINT_HEADER h end)
      = if String.eqb k CODEX_ROUTING_HINT_HEADER then option_list hint else header_values k h).
  { intros h. destruct hint; [by rewrite header_values_insert|by rewrite header_values_remove]. }
  rewrite Hhint, Hlite, Hinner. unfold protected, trusted_values.
  destruct (is_forbidden_forwarded_header k) eqn:Ef; cbn [orb].
  - by destruct (last (header_values k extra)).
  - assert (Hne : forall n, is_forbidden_forwarded_header n = true -> String.eqb k n = false).
    { intros n Hn. destruct (String.eqb_spec k n) as [->|]; [congruence|done]. }
    rewrite (Hne CODEX_ROUTING_HINT_HEADER), (Hne RESPONSES_LITE_HEADER), (Hne "user-agent"), (Hne "x-openai-fedramp"),
      (Hne "chatgpt-account-id"), (Hne "authorization"), (Hne "version") by reflexivity. cbn [andb one_of existsb orb].
    destruct (String.eqb k "accept"), (String.eqb k "content-type"); done.
Qed.

(** C34: A caller's headers cannot reach the credential, the routing or the framing of an upstream
    request: in every request sent, each protected name has exactly the values the transport
    and the provider chose from the credential (the bearer token, the account, the Responses
    Lite flag and the routing hint among them), whatever the caller sent; any other header of
    the caller is forwarded with its last value, and the URL depends on the credential and
    the configuration alone. *)
Theorem protected_headers_trusted (t : Transport) (stored : option CodexAuth) (path : string) (body body' : value)
    (extra : HeaderMap) (accept : string) (lite : bool) (hint : option string) (url : string) (h : HeaderMap)
    (Hrun : send_json_once t stored path body extra accept lite hint = Ok (url, h, body')) :
  body' = body /\
  exists auth provider,
    resolve_auth t stored = Ok auth /\
    api_provider (if is_api_key_auth auth then api_key_base_url t else None) auth = Ok provider /\
    url_for_path provider path = Ok url /\
    forall k, header_values k h =
      if protected k then trusted_values auth provider accept lite hint k
      else match last (header_values k extra) with
           | Some v => [v]
           | None => header_values k (provider_headers provider)
           end.
Proof. exact (sent_headers t stored path body body' extra accept lite hint url h Hrun). Qed.
End Headers.

(** ** Requests and the catalog *)

Lemma service_tier_set body enabled body' :
  apply_fast_service_tier body enabled = Ok body' ->
  exists object object', body = JObject object /\ body' = JObject object' /\
    obj_get "service_tier" object' = (if enabled then Some (JString "priority") else None) /\
    frame ["service_tier"] object object'.
Proof.
  unfold apply_fast_service_tier. intros (object & Ho%ok_or_ok & [= <-])%bind_ok.
  destruct body; try discriminate Ho. injection Ho as ->. eexists object, _. split; [done|]. split; [done|].
  destruct enabled.
  - split; [by rewrite obj_get_insert_eq|]. eapply frame_trans_same; [|by apply frame_insert]. by apply frame_remove.
  - split; [by rewrite obj_get_remove|by apply frame_remove].
Qed.

(** What the checks of [validate_model_request] leave. *)
Record admitted_by (body : value) (c : ModelCapabilities) : Prop := {
  ad_visible : cap_is_visible c = true;
  ad_mode : cap_tool_mode c = Some "code_mode_only" -> cap_use_responses_lite c = true;
  ad_image : request_contains_image body = true -> "image" ∈ cap_input_modalities c;
  ad_effort : forall effort, (vget "reasoning" body ≫= as_object) ≫= get_str "effort" = Some effort ->
                cap_supported_reasoning_efforts c = [] \/ effort ∈ cap_supported_reasoning_efforts c
}.
Lemma existsb_elem_l s l : existsb (fun x => String.eqb x s) l = true <-> s ∈ l.
Proof.
  rewrite list_elem_of_In, existsb_exists. split.
  - by intros (x & Hx & ->%String.eqb_eq).
  - intros Hs. exists s. by rewrite String.eqb_refl.
Qed.

Lemma validate_model_request_ok t body api_key_auth c :
  validate_model_request t body api_key_auth = Ok c ->
  exists model, vget_str "model" body = Some model /\ model_capabilities t !! model = c /\
    match c with Some c => admitted_by body c | None => api_key_auth = true end.
Proof.
  unfold validate_model_request. intros (model & Hm%ok_or_ok & H)%bind_ok. exists model. split; [done|].
  destruct (model_capabilities t !! model) as [c0|].
  - apply bind_ok in H as ([] & Hv%reject_ok%negb_false_iff & H).
    apply bind_ok in H as ([] & Hmode%reject_ok & H). apply bind_ok in H as ([] & Himg%reject_ok & H).
    apply bind_ok in H as ([] & Heff%reject_ok & [= <-]). split; [done|]. split; [done| | |].
    + intros Ht. rewrite bool_decide_true in Hmode by done. by apply negb_false_iff in Hmode.
    + intros Hi. rewrite Hi in Himg. cbn in Himg. by apply negb_false_iff, existsb_elem_l in Himg.
    + intros effort He. unfold unsupported_effort in Heff. rewrite He in Heff.
      apply andb_false_iff in Heff as [Heff|Heff%negb_false_iff].
      * left. by destruct (cap_supported_reasoning_efforts c0).
      * right. by apply existsb_elem_l.
  - destruct api_key_auth; [|done]. by injection H as <-.
Qed.

Section Streams.
  Context {UP : Upstream} {SJ : SerdeJson} {IC : ItemCodec} {CC : CatalogCodec}.

Lemma prepare_stream_inv t stored body extra sequence r :
  prepare_stream t stored body extra sequence = Ok r ->
  exists auth c model object o,
    resolve_auth t stored = Ok auth /\ body = JObject object /\ sr_body r = JObject o /\
    get_str "model" object = Some model /\ get_str "model" o = Some model /\
    model_capabilities t !! model = c /\
    match c with Some c => admitted_by body c | None => is_api_key_auth auth = true end /\
    validate_fast_mode_availability (fast_mode t) (bool_decide (is_Some (api_key_base_url t))) c = Ok tt /\
    sr_use_responses_lite r = is_some_and cap_use_responses_lite c /\
    obj_get "service_tier" o = (if fast_mode t then Some (JString "priority") else None) /\
    obj_get "store" o = Some (JBool false) /\ obj_get "stream" o = Some (JBool true) /\
    (if is_api_key_auth auth then sr_routing_hint r = None
     else sr_routing_hint r = Some ("model=" +:+ model +:+ (if fast_mode t then ";tier=priority" else ""))).
Proof.
  unfold prepare_stream. intros (auth & Ha & H)%bind_ok. apply bind_ok in H as (c & Hc & H).
  apply bind_ok in H as ([] & Hf & H). apply bind_ok in H as (body1 & Ht & H).
  apply bind_ok in H as (body2 & Hn & H). apply bind_ok in H as (hint & Hh & [= <-]).
  apply service_tier_set in Ht as (object & object' & -> & -> & Htier & Fr).
  apply request_outline in Hn as (object'' & o & [= <-] & -> & Fr' & Hstore & Hstream).
  apply validate_model_request_ok in Hc as (model & Hm & Hc & Had).
  change (get_str "model" object = Some model) in Hm.
  assert (Hmo : get_str "model" o = Some model).
  { unfold get_str. rewrite (Fr' "model"), (Fr "model") by done. exact Hm. }
  assert (Hto : obj_get "service_tier" o = if fast_mode t then Some (JString "priority") else None).
  { by rewrite (Fr' "service_tier") by done. }
  exists auth, c, model, object, o. split_and!; try done.
  cbn [sr_routing_hint]. destruct (is_api_key_auth auth); [by injection Hh|].
  destruct (subscription_routing_hint (JObject o)) as [h|] eqn:Eh; [|done]. injection Hh as <-. f_equal.
  unfold subscription_routing_hint in Eh. change (vget_str "model" (JObject o)) with (get_str "model" o) in Eh.
  change (vget_str "service_tier" (JObject o)) with (get_str "service_tier" o) in Eh.
  rewrite Hmo in Eh. cbn [ok_or mbind result_bind] in Eh. apply bind_ok in Eh as ([] & _ & [= <-]).
  unfold get_str. rewrite Hto. destruct (fast_mode t); [done|]. cbn. by rewrite append_nil_r.
Qed.

(** The launcher alone decides the service tier and the routing. Every request that is sent
    carries the priority tier exactly in Fast mode, whatever the caller asked for; only a
    subscription request carries a routing hint, made of its own model and tier; Fast mode
    needs a catalog model that supports it unless the endpoint is custom or the model unknown;
    and the Responses Lite form is used exactly for the catalog models that require it. *)
Theorem stream_request_policy (t : Transport) (stored : option CodexAuth) (body : value) (extra : HeaderMap)
    (sequence : N) (r : StreamRequest) (Hrun : prepare_stream t stored body extra sequence = Ok r) :
  exists auth model o,
    resolve_auth t stored = Ok auth /\ vget_str "model" body = Some model /\
    sr_body r = JObject o /\ get_str "model" o = Some model /\
    obj_get "store" o = Some (JBool false) /\ obj_get "stream" o = Some (JBool true) /\
    obj_get "service_tier" o = (if fast_mode t then Some (JString "priority") else None) /\
    sr_routing_hint r =
      (if is_api_key_auth auth then None
       else Some ("model=" +:+ model +:+ (if fast_mode t then ";tier=priority" else ""))) /\
    (sr_use_responses_lite r = true <->
       exists c, model_capabilities t !! model = Some c /\ cap_use_responses_lite c = true) /\
    (fast_mode t = true -> api_key_base_url t = None ->
       forall c, model_capabilities t !! model = Some c -> cap_supports_fast_mode c = true).
Proof.
  apply prepare_stream_inv in Hrun as (auth & c & model & object & o & Ha & -> & Hb & Hm & Hmo & Hc & Had & Hf & Hl & Ht & Hs & Hst & Hh).
  exists auth, model, o. split_and!; try done.
  - by destruct (is_api_key_auth auth).
  - rewrite Hl, Hc. destruct c as [c|]; cbn [is_some_and].
    + split; [by exists c|by intros (? & [= <-] & ?)].
    + split; [intros H; discriminate H|intros (c & H & _); discriminate H].
  - intros Hfast Hurl c' Hc'. unfold validate_fast_mode_availability in Hf.
    rewrite <- Hc, Hc', Hfast, Hurl, bool_decide_false in Hf by (by intros [? ?]).
    by destruct (cap_supports_fast_mode c').
Qed.

Lemma list_models_table bundled t stored status chunks models t' :
  list_models bundled t stored status chunks = Ok (models, t') ->
  forall id c, model_capabilities t' !! id = Some c -> exists m, m ∈ models /\ model_id m = id /\ c = capabilities_of m.
Proof.
  unfold list_models. intros (b & _ & H)%bind_ok id c Hc. destruct (is_success status); [|done].
  apply bind_ok in H as (body & _ & H). apply bind_ok in H as (ms & _ & [= <- <-]).
  cbn [model_capabilities set_model_capabilities] in Hc.
  apply elem_of_list_to_map_2, elem_of_reverse, list_elem_of_fmap in Hc as (m & [= -> ->] & Hm). by exists m.
Qed.

(** C35: With a subscription credential nothing outside the served catalog is ever requested: after
    the catalog was listed, a request that is sent names one of its visible models and uses it
    as the catalog allows, in its wire form, with images only if it reads them, with a
    reasoning effort it supports. *)
Theorem subscription_bound_to_catalog (bundled : bytes) (t0 t : Transport) (stored0 stored : option CodexAuth)
    (status : StatusCode) (chunks : list (result ReqwestError bytes)) (models : list ModelInfo)
    (body : value) (extra : HeaderMap) (sequence : N) (auth : CodexAuth) (r : StreamRequest)
    (Hlist : list_models bundled t0 stored0 status chunks = Ok (models, t))
    (Hauth : resolve_auth t stored = Ok auth) (Hsub : is_api_key_auth auth = false)
    (Hrun : prepare_stream t stored body extra sequence = Ok r) :
  exists m, m ∈ models /\ vget_str "model" body = Some (model_id m) /\ vget_str "model" (sr_body r) = Some (model_id m) /\
    is_visible m = true /\ sr_use_responses_lite r = use_responses_lite m /\
    (tool_mode m = Some "code_mode_only" -> use_responses_lite m = true) /\
    (request_contains_image body = true -> "image" ∈ input_modalities m) /\
    (forall effort, (vget "reasoning" body ≫= as_object) ≫= get_str "effort" = Some effort ->
       supported_reasoning_efforts m = [] \/ effort ∈ supported_reasoning_efforts m).
Proof.
  apply prepare_stream_inv in Hrun as (auth' & c & model & object & o & Ha & -> & Hb & Hm & Hmo & Hc & Had & _ & Hl & _).
  rewrite Hauth in Ha. injection Ha as <-. rewrite Hsub in Had. destruct c as [c|]; [|done].
  destruct (list_models_table _ _ _ _ _ _ _ Hlist _ _ Hc) as (m & Hin & <- & ->).
  destruct Had as [Hv Hmode Himg Heff]. exists m. rewrite Hb. split_and!; done.
Qed.

(** ** Collecting and summarising *)

Lemma collect_chunk_ok limit out chunk out' :
  collect_chunk limit out chunk = Ok out' <->
  exists b, chunk = Ok b /\ out' = out ++ b /\ (u64_saturating_add (blen out) (blen b) <= limit)%N.
Proof.
  unfold collect_chunk. rewrite bind_ok. split.
  - intros (b & Hb & ([] & Hl%reject_ok%N.ltb_ge & [= <-])%bind_ok). exists b. by destruct chunk; [injection Hb as ->|].
  - intros (b & -> & -> & Hl). exists b. split; [done|]. apply bind_ok. exists tt. split; [|done].
    by apply reject_ok, N.ltb_ge.
Qed.

End Streams.

Lemma collect_fold limit out chunks b :
  (limit < u64_max)%N -> (blen out <= limit)%N ->
  fold_res (collect_chunk limit) out chunks = Ok b <->
  exists bs, chunks = Ok <$> bs /\ b = out ++ concat bs /\ (blen b <= limit)%N.
Proof.
  intros Hlim. revert out. induction chunks as [|chunk chunks IH]; intros out Hout; cbn [fold_res].
  - split.
    + intros [= <-]. exists []. by rewrite app_nil_r.
    + intros ([|] & Hc & -> & _); [|done]. by rewrite app_nil_r.
  - assert (Hlen : forall x y : bytes, blen (x ++ y) = (blen x + blen y)%N)
      by (intros x y; unfold blen; rewrite length_app; lia).
    rewrite bind_ok. split.
    + intros (out' & (c & -> & -> & Hc)%collect_chunk_ok & H).
      unfold u64_saturating_add in Hc. apply IH in H as (bs & -> & -> & Hb); [|rewrite Hlen; lia].
      exists (c :: bs). cbn. by rewrite app_assoc.
    + intros ([|c bs] & Hc & -> & Hb); [done|]. injection Hc as -> ->. exists (out ++ c). cbn [concat] in *.
      rewrite app_assoc, Hlen in Hb. rewrite Hlen in Hb. split.
      * apply collect_chunk_ok. exists c. unfold u64_saturating_add. split_and!; [done..|lia].
      * apply IH; [rewrite Hlen; lia|]. exists bs. rewrite app_assoc. split_and!; [done..|]. rewrite !Hlen. lia.
Qed.

(** A response body is collected exactly when every chunk arrives and they fit the limit
    together, and then it is their concatenation, however it was chunked. *)
Theorem collect_response_exact (limit : N) (chunks : list (result ReqwestError bytes)) (b : bytes)
    (Hlimit : (limit < u64_max)%N) :
  collect_response limit chunks = Ok b <->
  exists bs, chunks = Ok <$> bs /\ b = concat bs /\ (blen b <= limit)%N.
Proof. apply (collect_fold limit []); [done|]. unfold blen. apply N.le_0_l. Qed.
Lemma collect_response_witness :
  (MAX_ERROR_RESPONSE_BYTES < u64_max)%N /\
  collect_response MAX_ERROR_RESPONSE_BYTES [Ok [LF]; Ok []; Ok [CR]] = Ok [LF; CR].
Proof.
  assert (H : (MAX_ERROR_RESPONSE_BYTES < u64_max)%N) by (vm_compute; reflexivity). split; [exact H|].
  apply (proj2 (collect_response_exact _ _ _ H)). exists [[LF]; []; [CR]].
  split; [reflexivity|]. split; [reflexivity|]. vm_compute. discriminate.
Defined.

(** A token that may be shown: short, of letters, digits and three punctuation marks. *)
Definition shown_token (o : option string) (t : string) : Prop :=
  o = Some t /\ is_empty t = false /\ (slen t <= 128)%N /\ str_forallb token_byte t = true.
Lemma safe_error_token_shown o t : o ≫= safe_error_token = Some t -> shown_token o t.
Proof.
  destruct o as [s|]; [|done]. cbn. unfold safe_error_token.
  destruct (is_empty s) eqn:E1; [done|]. destruct (N.leb_spec (slen s) 128) as [Hl|]; [|done].
  destruct (str_forallb token_byte s) eqn:E2; [|done]. by intros [= <-].
Qed.

(** C36: What a caller learns of a failed upstream request is its status and at most two tokens, the
    error's type and code, each short and free of anything but letters, digits and three
    marks; messages, account names and any other field never appear. *)
Theorem error_summary_safe `{SerdeJson} (status : StatusCode) (chunks : list (result ReqwestError bytes)) :
  exists summary, upstream_error status chunks = Errors.Upstream status summary /\
    (summary = OMITTED \/
     exists body v, collect_response MAX_ERROR_RESPONSE_BYTES chunks = Ok body /\ from_slice body = Some v /\
       let error := default v (vget "error" v) in
       (exists ty, shown_token (vget_str "type" error) ty /\
          (summary = "type=" +:+ ty \/
           exists code, shown_token (vget_str "code" error) code /\ summary = "type=" +:+ ty +:+ ", code=" +:+ code)) \/
       (exists code, shown_token (vget_str "code" error) code /\ summary = "code=" +:+ code)).
Proof.
  unfold upstream_error. eexists. split; [done|].
  destruct (collect_response _ _) as [body|] eqn:Eb; [|by left]. unfold summarize_upstream_error.
  destruct (from_slice body) as [v|] eqn:Ev; [|by left]. unfold summarize_value.
  set (error := default v (vget "error" v)).
  destruct (vget_str "type" error ≫= safe_error_token) as [ty|] eqn:Et.
  - apply safe_error_token_shown in Et. right. exists body, v. split; [done|]. split; [done|]. left. exists ty.
    split; [done|]. destruct (vget_str "code" error ≫= safe_error_token) as [code|] eqn:Ec; [|by left].
    apply safe_error_token_shown in Ec. right. by exists code.
  - destruct (vget_str "code" error ≫= safe_error_token) as [code|] eqn:Ec; [|by left].
    apply safe_error_token_shown in Ec. right. exists body, v. split; [done|]. split; [done|]. right. by exists code.
Qed.

(** ** Witnesses *)

Section Witness.
Let up : Upstream := {|
  header_value := str_forallb (in_range 32 126);
  api_provider := fun base auth => Ok {|
    provider_headers := [("originator", "muse")];
    url_for_path := fun path => Ok ("https://host/" +:+ path) |};
  append_pair := fun k v url => url +:+ "?" +:+ k +:+ "=" +:+ v;
  get_codex_user_agent := "codex"; MUSE_CODEX_USER_AGENT := "muse-codex/1"; process_id := 7 |}.
Let codec : ItemCodec := {|
  ResponseItem := value; item_from_value := fun v => Ok v; item_to_value := fun v => Ok v;
  is_other := fun _ => false; has_unprefixed_id := fun _ => false; clear_id := fun v => v;
  sha256 := fun b => take 32 b |}.
Let printer : SerdeJson := {| from_str := fun _ => Ok JNull; to_string := fun _ => "" |}.
Let catalog : CatalogCodec := {|
  decode_models := fun _ => Ok {| Upstream.data := []; Upstream.models := [{|
    Upstream.slug := "gpt"; Upstream.display_name := None; Upstream.description := None;
    Upstream.context_window := None; Upstream.max_output_tokens := None;
    Upstream.supported_reasoning_levels := ["low"]; Upstream.default_reasoning_level := None;
    Upstream.priority := 0; Upstream.visibility := None; Upstream.minimal_client_version := None;
    Upstream.use_responses_lite := true; Upstream.tool_mode := None; Upstream.input_modalities := [];
    Upstream.supported_in_api := true; Upstream.service_tiers := ["priority"];
    Upstream.additional_speed_tiers := [] |}] |} |}.
Let auth : CodexAuth := {| is_api_key_auth := false; is_chatgpt_auth := true; get_token := Some "secret";
                           get_account_id := Some "acct"; is_fedramp_account := false |}.
Let t0 : Transport := {| api_key_override := None; api_key_base_url := None; model_capabilities := ∅; fast_mode := true |}.
Let listed : list ModelInfo * Transport :=
  match list_models (SJ:=printer) (CC:=catalog) [] t0 (Some auth) 200 [] with Ok r => r | Err _ => ([], t0) end.
Let body : value := json_obj [("model", JString "gpt"); ("input", JString "hi"); ("service_tier", JString "flex")].
Let prepared : StreamRequest :=
  match prepare_stream (UP:=up) (SJ:=printer) (IC:=codec) listed.2 (Some auth) body [] 1 with
  | Ok r => r | Err _ => {| sr_body := JNull; sr_use_responses_lite := false; sr_routing_hint := None |} end.
Let sent : string * HeaderMap * value :=
  match send_json_once (UP:=up) t0 (Some auth) "responses" body [("authorization", "Bearer stolen"); ("x-request-id", "1")]
          "text/event-stream" true (Some "model=gpt") with Ok r => r | Err _ => ("", [], JNull) end.

Lemma recovery_loop_bounded_witness :
  exists acts r,
    execute_with_401_recovery (fun s : StatusCode => s) (fun _ => Some 1%N)
      (fun n => Ok (nth n [503; 401; 200] 0)%N) (Some (Ok tt)) (Some [Ok tt]) = Some (acts, r) /\
    acts = [Sent 0; Slept 1; Sent 1; Locked; Refreshed; Sent 2] /\ r = Ok 200%N.
Proof.
  destruct (recovery_loop_bounded (fun s : StatusCode => s) (fun _ => Some 1%N)
    (fun n => Ok (nth n [503; 401; 200] 0)%N) (Some (Ok tt)) (Some [Ok tt])) as (acts & r & H & _).
  exists acts, r. split; [exact H|]. vm_compute in H. injection H as <- <-. split; reflexivity.
Defined.

Lemma protected_headers_trusted_witness :
  header_values "authorization" sent.1.2 = ["Bearer secret"] /\ header_values "x-request-id" sent.1.2 = ["1"].
Proof.
  assert (H : send_json_once (UP:=up) t0 (Some auth) "responses" body
    [("authorization", "Bearer stolen"); ("x-request-id", "1")] "text/event-stream" true (Some "model=gpt")
    = Ok (sent.1.1, sent.1.2, sent.2)) by (vm_compute; reflexivity).
  destruct (protected_headers_trusted (UP:=up) _ _ _ _ _ _ _ _ _ _ _ H) as (_ & a & p & Ha & _ & _ & Hk).
  split; [|rewrite Hk; vm_compute; reflexivity].
  rewrite Hk. vm_compute in Ha. injection Ha as <-. vm_compute. reflexivity.
Defined.

Lemma stream_request_policy_witness :
  exists o, sr_body prepared = JObject o /\ obj_get "service_tier" o = Some (JString "priority") /\
    sr_routing_hint prepared = Some "model=gpt;tier=priority".
Proof.
  assert (H : prepare_stream (UP:=up) (SJ:=printer) (IC:=codec) listed.2 (Some auth) body [] 1 = Ok prepared) by (vm_compute; reflexivity).
  destruct (stream_request_policy (UP:=up) (SJ:=printer) (IC:=codec) _ _ _ _ _ _ H)
    as (a & model & o & _ & _ & Hb & _ & _ & _ & Ht & _).
  exists o. split; [exact Hb|]. split; [exact Ht|]. vm_compute. reflexivity.
Defined.

Lemma subscription_bound_to_catalog_witness :
  exists m, m ∈ listed.1 /\ vget_str "model" body = Some (model_id m) /\
    sr_use_responses_lite prepared = use_responses_lite m.
Proof.
  assert (Hl : list_models (SJ:=printer) (CC:=catalog) [] t0 (Some auth) 200 [] = Ok (listed.1, listed.2)) by (vm_compute; reflexivity).
  assert (Ha : resolve_auth listed.2 (Some auth) = Ok auth) by (vm_compute; reflexivity).
  assert (H : prepare_stream (UP:=up) (SJ:=printer) (IC:=codec) listed.2 (Some auth) body [] 1 = Ok prepared) by (vm_compute; reflexivity).
  destruct (subscription_bound_to_catalog (UP:=up) (SJ:=printer) (IC:=codec) (CC:=catalog) _ _ _ _ _ _ _ _ _ _ _ _ _ Hl Ha eq_refl H)
    as (m & Hm & Hid & _ & _ & Hlite & _).
  exists m. split; [exact Hm|]. split; [exact Hid|exact Hlite].
Defined.
End Witness.
