(* ===== verification/Net.v ===== *)
(** * Requests, responses and URLs

    What crosses the network: [url::Url] as the source reads it, the request handed to
    [reqwest], and a response whose body is the script of what its reader meets.
    Models [RawResponse], [build_http_client] and [validate_base_url] of
    [crates/codex-transport/src/transport.rs]. *)

From S2P Require Import Prelude Json Errors ZaiRequest Transport.
From stdpp Require Import options.

(** ** URLs *)

Record Url := {
  url_str : string;
  scheme : string;
  host_str : option string;
  username : string;
  password : option string;
  url_query : option string;
  fragment : option string
}.

Class UrlParser := {
  (** [Url::parse], the error as it displays *)
  Url_parse : string -> result string Url
}.

(** [validate_base_url] of the built program ([cfg(test)] also admits loopback HTTP). *)
Definition validate_base_url (url : Url) : res unit :=
  let secure_scheme := String.eqb (scheme url) "https" in
  reject (negb secure_scheme || negb (bool_decide (is_Some (host_str url))) || negb (is_empty (username url))
          || bool_decide (is_Some (password url)) || bool_decide (is_Some (url_query url))
          || bool_decide (is_Some (fragment url))) InvalidBaseUrl.

(** ** The client *)

(** What [build_http_client] asks of [reqwest]; seconds. *)
Record ClientSettings := {
  default_headers : HeaderMap;
  connect_timeout : N;
  read_timeout : N;
  redirects : nat;
  chatgpt_cloudflare_cookies : bool
}.
(** [defaults] are those of [codex_login]; [build] adds the custom certificates and builds. *)
Definition build_http_client (defaults : HeaderMap) (build : ClientSettings -> result string unit) : res unit :=
  map_err HttpClient
    (build {| default_headers := defaults; connect_timeout := 15; read_timeout := 150; redirects := 0;
              chatgpt_cloudflare_cookies := true |}).

(** ** Exchanges *)

Inductive Method : Type := GET | POST.
Record HttpRequest := {
  req_method : Method;
  req_url : string;
  req_headers : HeaderMap;
  req_body : option value
}.

(** What the reader of a body meets next: bytes, an error, or its own time limit. The
    end of the script is the end of the body. *)
Inductive body_event : Type :=
  | Data (chunk : bytes)
  | Broken (error : ReqwestError)
  | Stalled.

Record RawResponse := {
  raw_status : StatusCode;
  raw_headers : HeaderMap;
  raw_body : list body_event
}.

(** A read to the end without a time limit of the caller's own: the client's read
    timeout turns a stall into an error. *)
Definition read_timeout_error : ReqwestError :=
  {| is_timeout := true; is_connect := false; is_request := false; is_body := false;
     reqwest_text := "error decoding response body" |}.
Definition chunk_of (ev : body_event) : result ReqwestError bytes :=
  match ev with
  | Data chunk => Ok chunk
  | Broken error => Err error
  | Stalled => Err read_timeout_error
  end.
(** [response.bytes()] *)
Fixpoint read_all (body : list body_event) : result ReqwestError bytes :=
  match body with
  | [] => Ok []
  | ev :: body' => chunk ← chunk_of ev; rest ← read_all body'; Ok (chunk ++ rest)
  end.
