(* ===== verification/Auth.v ===== *)
(** * API keys and the Z.ai credential record

    Models the key checks of [crates/codex-transport/src/auth.rs], the gateway's
    [read_secret_line], the launcher's [SecretInput], and [ZaiCredentials] of
    [zai/auth.rs]. Standard input is the bytes it yields, or the error of reading it.
    A [SecretString] is its text; zeroing memory is not observable here. *)

From S2P Require Import Prelude Utf8 Errors ZaiRequest.
From stdpp Require Import options.

Definition MAX_API_KEY_BYTES : N := 16 * 1024.

Definition is_crlf (c : ascii) : bool := Ascii.eqb c CR || Ascii.eqb c LF.
(** [reader.take(n).read_to_end(..)] *)
Definition read_at_most (n : N) (input : bytes) : bytes := take (N.to_nat n) input.

(** ** [auth.rs] *)

Definition validate_api_key (api_key : string) : res unit :=
  reject (is_empty api_key) EmptyApiKey;;
  reject (MAX_API_KEY_BYTES <? slen api_key)%N (ApiKeyTooLong MAX_API_KEY_BYTES);;
  reject (any_char is_whitespace api_key) ApiKeyContainsWhitespace;;
  reject (any_char is_control api_key) ApiKeyContainsControlCharacters;;
  Ok tt.

Definition read_api_key (reader : result string bytes) : res string :=
  input ← map_err Io reader;
  let read := read_at_most (MAX_API_KEY_BYTES + 1) input in
  reject (MAX_API_KEY_BYTES <? blen read)%N (ApiKeyTooLong MAX_API_KEY_BYTES);;
  raw ← ok_or (from_utf8 read) ApiKeyNotUtf8;
  let without_line_ending := trim_end_matches is_crlf raw in
  validate_api_key without_line_ending;;
  Ok without_line_ending.

(** ** The gateway's [main.rs]

    [anyhow] errors are their outermost message. *)
Definition read_secret_line (reader : result string bytes) : result string string :=
  input ← map_err (fun _ => "read API key from stdin") reader;
  let read := read_at_most (MAX_API_KEY_BYTES + 1) input in
  reject (MAX_API_KEY_BYTES <? blen read)%N ("API key stdin exceeds " +:+ pretty MAX_API_KEY_BYTES +:+ " bytes");;
  value ← ok_or (from_utf8 read) "API key stdin is not UTF-8";
  let value := trim_end_matches is_crlf value in
  reject (is_empty value) "API key stdin was empty";;
  reject (any_char is_whitespace value) "API key stdin contains whitespace";;
  reject (any_char is_control value) "API key stdin contains control characters";;
  Ok value.

(** ** The launcher's [SecretInput] *)

Definition SecretInput_parse (input : bytes) : result string bytes :=
  reject (MAX_API_KEY_BYTES <? blen input)%N "API key input exceeds the 16384-byte limit";;
  value ← ok_or (from_utf8 input) "API key input must be UTF-8";
  let value := trim_end_matches is_crlf value in
  reject (is_empty value || any_char (fun c => is_whitespace c || is_control c) value)
         "API key input must be non-empty and contain no whitespace";;
  Ok (to_bytes value).
Definition SecretInput_from_reader (reader : result string bytes) : result string bytes :=
  input ← reader;
  SecretInput_parse (read_at_most (16 * 1024 + 1) input).
(** The value of the environment variable, when it is set. *)
Definition SecretInput_from_environment (var : option bytes) : result string (option bytes) :=
  match var with
  | None | Some [] => Ok None
  | Some value => Some <$> SecretInput_parse value
  end.
(** What the launcher writes to the gateway's standard input. *)
Definition gateway_stdin (secret : bytes) : bytes := secret ++ [LF].

(** ** [zai/auth.rs] *)

Definition ZAI_KEYRING_SERVICE : string := "Muse Codex Z.ai".
Definition STORED_CREDENTIAL_SCHEMA_VERSION : N := 1.
Record StoredCredential := { schema_version : N; api_key : string }.

(** The derived [serde] implementation of the record, through [serde_json]. *)
Class CredentialCodec := {
  credential_to_string : StoredCredential -> result string string;
  credential_from_str : string -> option StoredCredential
}.
(** The [codex_keyring_store] crate: records by service and account. *)
Class KeyringStore (St : Type) := {
  ks_save : string -> string -> string -> St -> result string St;
  ks_load : string -> string -> St -> result string (option string);
  ks_delete : string -> string -> St -> result string (bool * St)
}.
(** [Path::canonicalize] of the home and the hexadecimal SHA-256 of a text. *)
Class HomeDigest := { canonicalize : string -> option string; sha256_hex : string -> string }.

Definition store_key `{HomeDigest} (home : string) : string :=
  let canonical := default home (canonicalize home) in
  "zai|" +:+ str_take 16 (sha256_hex canonical).

Section ZaiCredentials.
  Context {CR : CredentialCodec} {St : Type} {KS : KeyringStore St} (account : string).

Definition save (api_key : string) (store : St) : res St :=
  validate_api_key api_key;;
  encoded ← map_err (fun error => Keyring ("could not encode the credential: " +:+ error))
              (credential_to_string {| schema_version := STORED_CREDENTIAL_SCHEMA_VERSION; api_key := api_key |});
  map_err Keyring (ks_save ZAI_KEYRING_SERVICE account encoded store).

Definition load (store : St) : res (option string) :=
  found ← map_err Keyring (ks_load ZAI_KEYRING_SERVICE account store);
  match found with
  | None => Ok None
  | Some encoded =>
      record ← ok_or (credential_from_str encoded)
                 (Keyring "the stored Z.ai credential is unreadable; store it again");
      reject (negb (schema_version record =? STORED_CREDENTIAL_SCHEMA_VERSION)%N)
             (Keyring "the stored Z.ai credential uses an unsupported schema; store it again");;
      validate_api_key (api_key record);;
      Ok (Some (api_key record))
  end.

Definition delete (store : St) : res (bool * St) :=
  map_err Keyring (ks_delete ZAI_KEYRING_SERVICE account store).

(** [zai_auth] of the gateway's [main.rs]: what it prints, or the error. *)
Inductive AuthCommand : Type :=
  | Login (device_auth : bool)
  | Logout
  | SetApiKey
  | Status.

Definition zai_status_line (found : option string) : string :=
  match found with
  | Some _ => "Signed in with a Z.ai GLM Coding Plan API key."
  | None => "Not signed in."
  end.
Definition zai_auth (error_text : Error -> string) (stdin : result string bytes) (command : AuthCommand) (store : St)
  : result string (string * St) :=
  match command with
  | Login _ =>
      Err "Z.ai has no interactive sign-in; run `muse-codex auth set --provider zai --api-key-stdin`"
  | Logout =>
      '(deleted, store) ← map_err error_text (delete store);
      Ok (if deleted : bool then "Logged out and removed muse-codex Z.ai credentials."
          else "No saved muse-codex Z.ai credentials were found.", store)
  | SetApiKey =>
      key ← read_secret_line stdin;
      store ← map_err error_text (save key store);
      Ok ("Z.ai API key saved in macOS Keychain.", store)
  | Status =>
      found ← map_err error_text (load store);
      Ok (zai_status_line found, store)
  end.

End ZaiCredentials.
