(* ===== verification/AuthCorrect.v ===== *)
(** * API keys and the Z.ai credential store

    The three readers of an API key accept the same inputs, what the launcher hands over
    is what the gateway reads, and over any sequence of operations on any homes each
    isolated record gives back the key that its own home was given last. *)

From S2P Require Import Prelude Utf8 Errors ZaiRequest Auth SseFrame.
From stdpp Require Import options.

(** ** The common contract *)

(** The key in some input: within the limit, UTF-8, without its line ends, not empty, no
    whitespace and no control character. *)
Definition good_key (key : string) : bool :=
  negb (is_empty key) && negb (any_char is_whitespace key) && negb (any_char is_control key).
Definition accepted_key (input : bytes) : option string :=
  if (blen input <=? MAX_API_KEY_BYTES)%N
  then opt_filter good_key (trim_end_matches is_crlf <$> from_utf8 input) else None.

Lemma read_limited input :
  (MAX_API_KEY_BYTES <? blen (read_at_most (MAX_API_KEY_BYTES + 1) input))%N = negb (blen input <=? MAX_API_KEY_BYTES)%N
  /\ ((blen input <= MAX_API_KEY_BYTES)%N -> read_at_most (MAX_API_KEY_BYTES + 1) input = input).
Proof.
  unfold read_at_most, blen. generalize MAX_API_KEY_BYTES as m. intros m. rewrite length_take. split.
  - rewrite <- N.ltb_antisym. apply eq_true_iff_eq. rewrite !N.ltb_lt. lia.
  - intros H. apply take_ge. lia.
Qed.

Lemma trim_end_length p s : String.length (trim_end_matches p s) <= String.length s.
Proof.
  induction s as [|c s IH]; [done|]. cbn [trim_end_matches String.length].
  destruct (trim_end_matches p s) as [|d t]; [destruct (p c); cbn; lia|]. cbn [String.length] in *. lia.
Qed.
Lemma trim_end_idem p s : trim_end_matches p (trim_end_matches p s) = trim_end_matches p s.
Proof.
  induction s as [|c s IH]; [done|]. cbn [trim_end_matches].
  destruct (trim_end_matches p s) as [|d t] eqn:E.
  - destruct (p c) eqn:Ec; [done|]. cbn. by rewrite Ec.
  - cbn [trim_end_matches] in *. by rewrite IH.
Qed.
Lemma trim_end_snoc p s c : p c = true -> trim_end_matches p (s +:+ String c EmptyString) = trim_end_matches p s.
Proof.
  intros Hc. induction s as [|d s IH]; [cbn [trim_end_matches]; rewrite append_nil_l; cbn [trim_end_matches]; by rewrite Hc|]. rewrite append_cons. cbn [trim_end_matches]. by rewrite IH.
Qed.
(** Removing line ends keeps the text UTF-8. *)
Lemma trim_end_suffix p s : exists r, s = trim_end_matches p s +:+ r /\ str_forallb p r = true.
Proof.
  induction s as [|c s (r & Hs & Hr)]; [by exists EmptyString|]. cbn [trim_end_matches].
  destruct (trim_end_matches p s) as [|d t] eqn:E.
  - rewrite append_nil_l in Hs. subst r. destruct (p c) eqn:Ec.
    + exists (String c s). split; [done|]. cbn. by rewrite Ec.
    + exists s. by split.
  - exists r. split; [|done]. rewrite append_cons. by f_equal.
Qed.
Lemma utf8_strip_ascii a r :
  str_forallb is_crlf r = true -> utf8_valid (to_bytes (a +:+ r)) = true -> utf8_valid (to_bytes a) = true.
Proof.
  rewrite to_bytes_app. rewrite <- str_forallb_bytes. generalize (to_bytes r) as l. intros l.
  induction l as [|c l IH] using rev_ind; [by rewrite app_nil_r|]. rewrite forallb_app. cbn. rewrite andb_true_r.
  intros [Hl Hc]%andb_prop Hv. apply IH; [done|]. apply (utf8_valid_app_ascii _ c).
  - unfold is_crlf in Hc. destruct (Ascii.eqb_spec c CR) as [->|]; [done|]. by destruct (Ascii.eqb_spec c LF) as [->|].
  - by rewrite <- app_assoc.
Qed.

Lemma blank_split key :
  any_char (fun c => is_whitespace c || is_control c) key = any_char is_whitespace key || any_char is_control key.
Proof.
  unfold any_char. induction (chars key) as [|c l IH]; [done|]. cbn [existsb]. rewrite IH.
  destruct (is_whitespace c), (is_control c), (existsb is_whitespace l); done.
Qed.

Lemma validate_good key : ok (validate_api_key key) = if good_key key && (slen key <=? MAX_API_KEY_BYTES)%N then Some tt else None.
Proof.
  unfold validate_api_key, good_key. rewrite (N.leb_antisym MAX_API_KEY_BYTES (slen key)).
  destruct (is_empty key), (MAX_API_KEY_BYTES <? slen key)%N, (any_char is_whitespace key), (any_char is_control key); done.
Qed.
Lemma accepted_bound input key :
  (blen input <= MAX_API_KEY_BYTES)%N -> from_utf8 input = Some key ->
  (slen (trim_end_matches is_crlf key) <=? MAX_API_KEY_BYTES)%N = true.
Proof.
  unfold from_utf8. destruct (utf8_valid input); [|done]. intros Hb [= <-]. apply N.leb_le.
  pose proof (trim_end_length is_crlf (of_bytes input)) as Hl. unfold slen, blen in *.
  rewrite <- (length_to_bytes (of_bytes input)), to_of_bytes in Hl. lia.
Qed.

Lemma read_api_key_accepted input : ok (read_api_key (Ok input)) = accepted_key input.
Proof.
  unfold read_api_key, accepted_key. cbn [map_err mbind result_bind].
  destruct (read_limited input) as [-> Hsame]. destruct (N.leb_spec (blen input) MAX_API_KEY_BYTES) as [Hb|Hb]; [|done].
  rewrite Hsame by done. cbn [negb reject mbind result_bind].
  destruct (from_utf8 input) as [raw|] eqn:E; [|done]. cbn [ok_or mbind result_bind fmap option_fmap option_map opt_filter].
  pose proof (validate_good (trim_end_matches is_crlf raw)) as Hv.
  rewrite (accepted_bound _ _ Hb E), andb_true_r in Hv.
  destruct (validate_api_key _) as [[]|]; cbn in Hv |- *; by destruct (good_key _).
Qed.
Lemma read_secret_line_accepted input : ok (read_secret_line (Ok input)) = accepted_key input.
Proof.
  unfold read_secret_line, accepted_key. cbn [map_err mbind result_bind].
  destruct (read_limited input) as [-> Hsame]. destruct (N.leb_spec (blen input) MAX_API_KEY_BYTES) as [Hb|Hb]; [|done].
  rewrite Hsame by done. cbn [negb reject mbind result_bind].
  destruct (from_utf8 input) as [raw|] eqn:E; [|done]. cbn [ok_or mbind result_bind fmap option_fmap option_map opt_filter].
  unfold good_key. set (key := trim_end_matches is_crlf raw).
  by destruct (is_empty key), (any_char is_whitespace key), (any_char is_control key).
Qed.
Lemma secret_parse_accepted input : of_bytes <$> ok (SecretInput_parse input) = accepted_key input.
Proof.
  unfold SecretInput_parse, accepted_key. rewrite N.ltb_antisym.
  destruct (N.leb_spec (blen input) MAX_API_KEY_BYTES) as [Hb|Hb]; [|done]. cbn [negb reject mbind result_bind].
  destruct (from_utf8 input) as [raw|] eqn:E; [|done]. cbn [ok_or mbind result_bind fmap option_fmap option_map opt_filter].
  unfold good_key. set (key := trim_end_matches is_crlf raw). rewrite blank_split.
  by destruct (is_empty key), (any_char is_whitespace key), (any_char is_control key); cbn; rewrite ?of_to_bytes.
Qed.
Lemma secret_reader_accepted input : of_bytes <$> ok (SecretInput_from_reader (Ok input)) = accepted_key input.
Proof.
  unfold SecretInput_from_reader. cbn [mbind result_bind]. rewrite secret_parse_accepted. unfold accepted_key.
  change (16 * 1024 + 1)%N with (MAX_API_KEY_BYTES + 1)%N.
  destruct (read_limited input) as [Hlim Hsame].
  destruct (N.leb_spec (blen input) MAX_API_KEY_BYTES) as [Hb|Hb].
  - rewrite Hsame by done. by apply N.leb_le in Hb as ->.
  - rewrite N.ltb_antisym in Hlim. apply (f_equal negb) in Hlim. rewrite !negb_involutive in Hlim. by rewrite Hlim.
Qed.

(** ** The hand-over *)

Lemma accepted_parts input key :
  accepted_key input = Some key ->
  good_key key = true /\ (slen key <= MAX_API_KEY_BYTES)%N /\ utf8_valid (to_bytes key) = true
  /\ trim_end_matches is_crlf key = key.
Proof.
  unfold accepted_key. destruct (N.leb_spec (blen input) MAX_API_KEY_BYTES) as [Hb|]; [|done].
  destruct (from_utf8 input) as [raw|] eqn:E; [|done]. cbn [fmap option_fmap option_map opt_filter].
  destruct (good_key _) eqn:Eg; [|done]. intros [= <-]. split_and!; [done| | |apply trim_end_idem].
  - apply N.leb_le. by eapply accepted_bound.
  - unfold from_utf8 in E. destruct (utf8_valid input) eqn:Ev; [|done]. injection E as <-.
    destruct (trim_end_suffix is_crlf (of_bytes input)) as (r & Hr & Hall).
    apply (utf8_strip_ascii _ r); [done|]. rewrite <- Hr. by rewrite to_of_bytes.
Qed.
Lemma accepted_line key :
  good_key key = true -> utf8_valid (to_bytes key) = true -> trim_end_matches is_crlf key = key ->
  accepted_key (gateway_stdin (to_bytes key))
  = if (slen key <? MAX_API_KEY_BYTES)%N then Some key else None.
Proof.
  intros Hg Hu Ht. unfold accepted_key, gateway_stdin.
  assert ((blen (to_bytes key ++ [LF]) <=? MAX_API_KEY_BYTES)%N = (slen key <? MAX_API_KEY_BYTES)%N) as ->.
  { apply eq_true_iff_eq. rewrite N.leb_le, N.ltb_lt. unfold blen, slen. rewrite length_app, length_to_bytes. cbn [length]. lia. }
  destruct (slen key <? MAX_API_KEY_BYTES)%N; [|done].
  rewrite from_utf8_of_bytes by (by apply utf8_valid_app). rewrite of_bytes_app, of_to_bytes.
  cbn [fmap option_fmap option_map]. change (of_bytes [LF]) with (String LF EmptyString).
  rewrite trim_end_snoc by done. rewrite Ht. cbn [opt_filter]. by rewrite Hg.
Qed.

(** ** Properties *)

(** The three readers of an API key agree: the transport's, the gateway's and the
    launcher's accept the same inputs, with the same key, whatever arrives on the reader.
    The key is the input without its line ends and nothing else; it passes the validation
    every store and transport repeats, and reading it again gives the same key. *)
Theorem api_key_readers_agree (input : bytes) :
  ok (read_api_key (Ok input)) = accepted_key input
  /\ ok (read_secret_line (Ok input)) = accepted_key input
  /\ of_bytes <$> ok (SecretInput_from_reader (Ok input)) = accepted_key input
  /\ forall key, accepted_key input = Some key ->
       validate_api_key key = Ok tt /\ accepted_key (to_bytes key) = Some key
       /\ exists line_ends, input = to_bytes key ++ line_ends /\ forallb is_crlf line_ends = true.
Proof.
  split; [apply read_api_key_accepted|]. split; [apply read_secret_line_accepted|].
  split; [apply secret_reader_accepted|]. intros key Hk.
  destruct (accepted_parts _ _ Hk) as (Hg & Hl & Hu & Ht). split_and!.
  - pose proof (validate_good key) as Hv. apply N.leb_le in Hl. rewrite Hg, Hl in Hv.
    by destruct (validate_api_key key) as [[]|].
  - unfold accepted_key. apply N.leb_le in Hl. unfold blen, slen in *. rewrite length_to_bytes, Hl.
    rewrite from_utf8_of_bytes by done. cbn [fmap option_fmap option_map opt_filter]. by rewrite of_to_bytes, Ht, Hg.
  - unfold accepted_key in Hk. destruct (blen input <=? MAX_API_KEY_BYTES)%N; [|done].
    unfold from_utf8 in Hk. destruct (utf8_valid input); [|done]. cbn [fmap option_fmap option_map opt_filter] in Hk.
    destruct (good_key _); [|done]. injection Hk as <-.
    destruct (trim_end_suffix is_crlf (of_bytes input)) as (r & Hr & Hall). exists (to_bytes r).
    rewrite str_forallb_bytes. split; [|done]. by rewrite <- to_bytes_app, <- Hr, to_of_bytes.
Qed.

(** C38: What the launcher hands to the gateway is what the gateway reads, but for one
    length: a key the launcher accepted reaches the gateway unchanged when it is shorter
    than the limit, and is refused when it has exactly the limit's length, because the
    line end that delimits it counts. *)
Theorem api_key_handover (input secret : bytes) (Hparse : SecretInput_parse input = Ok secret) :
  ok (read_secret_line (Ok (gateway_stdin secret)))
  = (if (blen secret <? MAX_API_KEY_BYTES)%N then Some (of_bytes secret) else None)
  /\ (blen secret <= MAX_API_KEY_BYTES)%N.
Proof.
  pose proof (secret_parse_accepted input) as Hk. rewrite Hparse in Hk. cbn in Hk. symmetry in Hk.
  destruct (accepted_parts _ _ Hk) as (Hg & Hl & Hu & Ht).
  rewrite read_secret_line_accepted. rewrite <- (to_of_bytes secret) at 1. rewrite accepted_line by done.
  unfold slen in Hl |- *. rewrite <- length_to_bytes, to_of_bytes in Hl |- *. by split.
Qed.

(** ** The Z.ai record *)

(** The documented behaviour of the store and of the derived codec. *)
Class KeyringLaws (St : Type) `{!KeyringStore St} := {
  load_saved service account v st st' o :
    ks_save service account v st = Ok st' -> ks_load service account st' = Ok o -> o = Some v;
  load_deleted service account st st' d o :
    ks_delete service account st = Ok (d, st') -> ks_load service account st' = Ok o -> o = None;
  save_frame service account v st st' service' account' :
    ks_save service account v st = Ok st' -> (service, account) <> (service', account') ->
    ks_load service' account' st' = ks_load service' account' st;
  delete_frame service account st st' d service' account' :
    ks_delete service account st = Ok (d, st') -> (service, account) <> (service', account') ->
    ks_load service' account' st' = ks_load service' account' st
}.
Class CredentialLaws `{!CredentialCodec} :=
  credential_roundtrip r t : credential_to_string r = Ok t -> credential_from_str t = Some r.

(** What is done to a keyring: by this program for some home, or by another to its records. *)
Inductive operation : Type :=
  | SaveKey (home key : string)
  | DeleteKey (home : string)
  | WriteOther (service account text : string).

Section Registers.
  Context {CR : CredentialCodec} {CRL : CredentialLaws} {St : Type} {KS : KeyringStore St} {KL : KeyringLaws St} {HD : HomeDigest}.

Definition attempt_operation (op : operation) (st : St) : result unit St :=
  match op with
  | SaveKey home key => map_err (fun _ => tt) (save (store_key home) key st)
  | DeleteKey home => snd <$> map_err (fun _ => tt) (delete (store_key home) st)
  | WriteOther service account text => map_err (fun _ => tt) (ks_save service account text st)
  end.
(** A sequence of operations: those that succeeded, and the keyring after it. *)
Fixpoint perform (ops : list operation) (st : St) : list operation * St :=
  match ops with
  | [] => ([], st)
  | op :: ops =>
      match attempt_operation op st with
      | Ok st' => let '(completed, last) := perform ops st' in (op :: completed, last)
      | Err _ => perform ops st
      end
  end.

(** What tells homes apart: the first half of the digest of the directory they name. *)
Definition home_id (home : string) : string := str_take 16 (sha256_hex (default home (canonicalize home))).
(** The register of a home after completed operations: the key, no key, or as it was. *)
Fixpoint register (id : string) (completed : list operation) (now : option (option string)) : option (option string) :=
  match completed with
  | [] => now
  | op :: completed =>
      register id completed match op with
                            | SaveKey home key => if String.eqb (home_id home) id then Some (Some key) else now
                            | DeleteKey home => if String.eqb (home_id home) id then Some None else now
                            | WriteOther _ _ _ => now
                            end
  end.
Definition other_service (op : operation) : Prop :=
  match op with WriteOther service _ _ => service <> ZAI_KEYRING_SERVICE | _ => True end.
(** The operation writes the record of [service] and [account]. *)
Definition writes (service account : string) (op : operation) : Prop :=
  match op with
  | SaveKey home _ | DeleteKey home => (ZAI_KEYRING_SERVICE, store_key home) = (service, account)
  | WriteOther service' account' _ => (service', account') = (service, account)
  end.

Lemma store_key_id home home' : store_key home = store_key home' <-> home_id home = home_id home'.
Proof using Type.
  unfold store_key, home_id. split; [|by intros ->]. intros H. by injection H.
Qed.

Lemma saved_ok account key st st' : save account key st = Ok st' ->
  validate_api_key key = Ok tt /\ exists t, credential_to_string {| schema_version := STORED_CREDENTIAL_SCHEMA_VERSION; api_key := key |} = Ok t
    /\ ks_save ZAI_KEYRING_SERVICE account t st = Ok st'.
Proof using Type.
  unfold save. intros ([] & Hv & (t & Ht & Hs)%bind_ok)%bind_ok. split; [done|]. exists t.
  destruct (credential_to_string _) as [t'|] eqn:Et; [|done]. injection Ht as ->.
  split; [done|]. by destruct (ks_save _ _ _ _) as [st1|]; [injection Hs as ->|].
Qed.
Lemma deleted_ok account d st st' : delete account st = Ok (d, st') -> ks_delete ZAI_KEYRING_SERVICE account st = Ok (d, st').
Proof using Type. unfold delete. destruct (ks_delete _ _ _) as [[d1 st1]|]; [|done]. by intros [= -> ->]. Qed.
Lemma load_same account st st' :
  ks_load ZAI_KEYRING_SERVICE account st' = ks_load ZAI_KEYRING_SERVICE account st -> load account st' = load account st.
Proof using Type. intros H. unfold load. by rewrite H. Qed.

Lemma load_after_save account key st st' o : save account key st = Ok st' -> load account st' = Ok o -> o = Some key.
Proof using CRL KL.
  intros (_ & t & Et & Es)%saved_ok (found & Hl & Ho)%bind_ok.
  destruct (ks_load _ _ _) as [o1|] eqn:El; [|done]. injection Hl as ->.
  rewrite (load_saved _ _ _ _ _ _ Es El) in Ho. rewrite (credential_roundtrip _ _ Et) in Ho.
  cbn [ok_or mbind result_bind schema_version api_key] in Ho.
  apply bind_ok in Ho as (_ & _ & Ho). apply bind_ok in Ho as (_ & _ & Ho). by injection Ho.
Qed.
Lemma load_after_delete account d st st' o : delete account st = Ok (d, st') -> load account st' = Ok o -> o = None.
Proof using KL.
  intros Ed%deleted_ok (found & Hl & Ho)%bind_ok. destruct (ks_load _ _ _) as [o1|] eqn:El; [|done]. injection Hl as ->.
  rewrite (load_deleted _ _ _ _ _ _ Ed El) in Ho. by injection Ho.
Qed.

(** An operation touches one record. *)
Lemma operation_frame op st st' service account :
  attempt_operation op st = Ok st' -> ~ writes service account op -> ks_load service account st' = ks_load service account st.
Proof using KL.
  intros H Hw. destruct op as [home key|home|service' account' text]; cbn [attempt_operation writes] in *.
  - destruct (save _ _ _) as [st1|] eqn:E; [|done]. injection H as ->. apply saved_ok in E as (_ & t & _ & Es).
    by eapply save_frame.
  - destruct (delete _ _) as [[d st1]|] eqn:E; [|done]. injection H as ->. apply deleted_ok in E. by eapply delete_frame.
  - destruct (ks_save _ _ _ _) as [st1|] eqn:E; [|done]. injection H as ->. by eapply save_frame.
Qed.

(** What is known of a home: nothing but that it is as in [st0], or the register. *)
Definition known (st0 : St) (home : string) (now : option (option string)) (st : St) : Prop :=
  match now with
  | None => load (store_key home) st = load (store_key home) st0
  | Some o => forall o', load (store_key home) st = Ok o' -> o' = o
  end.
Lemma known_unwritten st0 home now st st' op :
  attempt_operation op st = Ok st' -> ~ writes ZAI_KEYRING_SERVICE (store_key home) op -> known st0 home now st -> known st0 home now st'.
Proof using KL. intros H Hw Hk. pose proof (load_same _ _ _ (operation_frame _ _ _ _ _ H Hw)) as E. unfold known in *. by rewrite E. Qed.
Lemma known_perform st0 home ops : Forall other_service ops -> forall st now, known st0 home now st ->
  let '(completed, st') := perform ops st in known st0 home (register (home_id home) completed now) st'.
Proof using CRL KL.
  induction 1 as [|op ops Hop _ IH]; intros st now Hk; [exact Hk|]. cbn [perform].
  destruct (attempt_operation op st) as [st1|] eqn:E; [|by apply IH].
  assert (Hnext : forall next', (match op with
      | SaveKey h key => if String.eqb (home_id h) (home_id home) then Some (Some key) else now
      | DeleteKey h => if String.eqb (home_id h) (home_id home) then Some None else now
      | WriteOther _ _ _ => now end) = next' -> known st0 home next' st1).
  { intros next' <-. destruct op as [h key|h|service account text].
    - destruct (String.eqb_spec (home_id h) (home_id home)) as [Hid|Hid].
      + intros o'. cbn in E. destruct (save _ _ _) as [st2|] eqn:Es; [|done]. injection E as ->.
        apply store_key_id in Hid. rewrite <- Hid. by eapply load_after_save.
      + eapply known_unwritten; [exact E| |done]. intros [= Hs]. by apply Hid, store_key_id.
    - destruct (String.eqb_spec (home_id h) (home_id home)) as [Hid|Hid].
      + intros o'. cbn in E. destruct (delete _ _) as [[d st2]|] eqn:Es; [|done]. injection E as ->.
        apply store_key_id in Hid. rewrite <- Hid. by eapply load_after_delete.
      + eapply known_unwritten; [exact E| |done]. intros [= Hs]. by apply Hid, store_key_id.
    - eapply known_unwritten; [exact E| |done]. intros [= Hs _]. by apply Hop. }
  specialize (IH st1 _ (Hnext _ eq_refl)). by destruct (perform ops st1).
Qed.
Lemma perform_frame ops service account : (forall op, In op ops -> ~ writes service account op) -> forall st,
  ks_load service account (snd (perform ops st)) = ks_load service account st.
Proof using KL.
  induction ops as [|op ops IH]; intros Hw st; [done|]. cbn [perform].
  destruct (attempt_operation op st) as [st1|] eqn:E; [|apply IH; intros o Ho; apply Hw; by right].
  specialize (IH (fun o Ho => Hw o (or_intror Ho)) st1). destruct (perform ops st1). cbn [snd] in *.
  rewrite IH. apply (operation_frame _ _ _ _ _ E). apply Hw. by left.
Qed.

Lemma perform_valid ops : forall st home key, In (SaveKey home key) (fst (perform ops st)) -> validate_api_key key = Ok tt.
Proof using Type.
  induction ops as [|op ops IH]; intros st home key; [done|]. cbn [perform].
  destruct (attempt_operation op st) as [st1|] eqn:E; [|apply IH].
  specialize (IH st1 home key). destruct (perform ops st1). cbn [fst] in *. intros [->|Hin]; [|by apply IH].
  cbn in E. destruct (save _ _ _) as [st2|] eqn:Es; [|done]. by apply saved_ok in Es as [Hv _].
Qed.

(** C39: The Z.ai credential store is one register per home. (1) After any sequence of saves
    and deletes for any homes, of which some fail, among writes of other programs to other
    services: what loads for a home is what the last completed operation for that home left,
    the key saved or none, and what loaded before when there was none. (2) Two paths of one
    directory are one home; two homes share a record only if the first 16 digits of their
    digests agree. (3) Records that no operation names, those of Codex among them, are
    untouched. (4) A key that is saved or that loads passes validation, whatever the record
    holds, so no unusable key reaches a request. *)
Theorem zai_credential_register (ops : list operation) (st : St) (Hother : Forall other_service ops) :
  let '(completed, st') := perform ops st in
  (forall home, match register (home_id home) completed None with
                | Some o => forall o', load (store_key home) st' = Ok o' -> o' = o
                | None => load (store_key home) st' = load (store_key home) st
                end)
  /\ (forall home home', (forall c, canonicalize home = Some c -> canonicalize home' = Some c -> store_key home = store_key home')
        /\ (store_key home = store_key home' -> home_id home = home_id home'))
  /\ (forall service account, (forall op, In op ops -> ~ writes service account op) ->
        ks_load service account st' = ks_load service account st)
  /\ (forall home key, load (store_key home) st' = Ok (Some key) -> validate_api_key key = Ok tt)
  /\ (forall home key, In (SaveKey home key) completed -> validate_api_key key = Ok tt).
Proof using CRL KL.
  pose proof (fun home => known_perform st home ops Hother st None eq_refl) as Hk.
  pose proof (fun s a H => perform_frame ops s a H st) as Hf. pose proof (perform_valid ops st) as Hv.
  destruct (perform ops st) as [completed st']. split_and!.
  - exact Hk.
  - intros home home'. split; [|by intros ?%store_key_id].
    intros c H H'. apply store_key_id. unfold home_id. by rewrite H, H'.
  - exact Hf.
  - intros home key (found & _ & Ho)%bind_ok. destruct found as [encoded|]; [|done].
    apply bind_ok in Ho as (record & _ & Ho). apply bind_ok in Ho as (_ & _ & Ho).
    apply bind_ok in Ho as ([] & Hvalid & Ho). by injection Ho as <-.
  - exact Hv.
Qed.
End Registers.

(** ** Witnesses *)

Lemma api_key_handover_witness :
  SecretInput_parse (to_bytes ("sk-1" +:+ lf)) = Ok (to_bytes "sk-1")
  /\ ok (read_secret_line (Ok (gateway_stdin (to_bytes "sk-1")))) = Some "sk-1".
Proof.
  assert (H : SecretInput_parse (to_bytes ("sk-1" +:+ lf)) = Ok (to_bytes "sk-1")) by (vm_compute; reflexivity).
  split; [exact H|]. exact (proj1 (api_key_handover _ _ H)).
Defined.

Section Witness.
#[local] Instance map_store : KeyringStore (gmap (string * string) string) := {|
  ks_save s a v st := Ok (<[(s, a) := v]> st);
  ks_load s a st := Ok (st !! (s, a));
  ks_delete s a st := Ok (bool_decide (is_Some (st !! (s, a))), base.delete (s, a) st) |}.
#[local] Instance map_laws : KeyringLaws (gmap (string * string) string).
Proof.
  split; cbn.
  - intros s a v st st' o [= <-] [= <-]. apply lookup_insert_eq.
  - intros s a st st' d o [= <- <-] [= <-]. apply lookup_delete_eq.
  - intros s a v st st' s' a' [= <-] Hne. by rewrite lookup_insert_ne.
  - intros s a st st' d s' a' [= _ <-] Hne. by rewrite lookup_delete_ne.
Qed.
#[local] Instance one_codec : CredentialCodec := {|
  credential_to_string r := if (schema_version r =? 1)%N then Ok (api_key r) else Err "schema";
  credential_from_str t := Some {| schema_version := 1; api_key := t |} |}.
#[local] Instance one_codec_laws : CredentialLaws.
Proof. intros [v k] t. cbn. destruct (N.eqb_spec v 1) as [->|]; [|done]. by intros [= <-]. Qed.

#[local] Instance one_digest : HomeDigest := {| canonicalize p := Some p; sha256_hex s := s |}.
(** A second home, a delete, a key that is refused, and the record of Codex. *)
Let operations : list operation :=
  [SaveKey "a" "key"; SaveKey "b" "other"; WriteOther "Codex Auth" "cli|a" "token"; DeleteKey "b"; SaveKey "a" ""].
Let after : gmap (string * string) string := snd (perform operations ∅).
Lemma zai_credential_register_witness :
  fst (perform operations (∅ : gmap (string * string) string))
  = [SaveKey "a" "key"; SaveKey "b" "other"; WriteOther "Codex Auth" "cli|a" "token"; DeleteKey "b"]
  /\ load (store_key "a") after = Ok (Some "key") /\ load (store_key "b") after = Ok None.
Proof.
  assert (Hother : Forall other_service operations) by (repeat constructor; discriminate).
  pose proof (zai_credential_register operations (∅ : gmap (string * string) string) Hother) as H.
  assert (Hrun : perform operations (∅ : gmap (string * string) string)
                 = ([SaveKey "a" "key"; SaveKey "b" "other"; WriteOther "Codex Auth" "cli|a" "token"; DeleteKey "b"], after))
    by (vm_compute; reflexivity).
  rewrite Hrun in H |- *. destruct H as [H _]. split; [reflexivity|].
  assert (Ha : exists o, load (store_key "a") after = Ok o) by (eexists; vm_compute; reflexivity).
  assert (Hb : exists o, load (store_key "b") after = Ok o) by (eexists; vm_compute; reflexivity).
  destruct Ha as [oa Ha], Hb as [ob Hb]. rewrite Ha, Hb.
  split; f_equal; [exact (H "a" oa Ha)|exact (H "b" ob Hb)].
Defined.
End Witness.
