(* ===== verification/Zai.v ===== *)
(** * The Z.ai backend

    Models [zai/catalog.rs] (the pinned catalog), [zai/mod.rs] ([ZaiTransport]: one
    request to the coding plan, its failures in canonical form, its body synthesized
    into a Responses stream) and the provider choice of [backend.rs].

    The network is a function from the request to what came of it. *)

From S2P Require Import Prelude Json Errors ZaiRequest Catalog Transport Net Auth.
From S2P Require ZaiStream.
From stdpp Require Import options.

(** ** The pinned catalog *)

Definition MAX_OUTPUT_TOKENS : N := 131072.
Definition REASONING_EFFORTS : list string := ["minimal"; "low"; "medium"; "high"; "xhigh"; "ultra"].

Record PinnedModel := {
  pinned_id : string;
  pinned_display_name : string;
  pinned_description : string;
  pinned_context_window : option N;
  pinned_accepts_images : bool
}.

Definition PINNED_MODELS : list PinnedModel :=
  [ {| pinned_id := "glm-5.3"; pinned_display_name := "GLM-5.3";
       pinned_description := "Z.ai GLM Coding Plan default coding model";
       pinned_context_window := Some 1048576%N; pinned_accepts_images := false |};
    {| pinned_id := "glm-5.3-flash"; pinned_display_name := "GLM-5.3 Flash";
       pinned_description := "Faster multimodal GLM Coding Plan model";
       pinned_context_window := None; pinned_accepts_images := true |};
    {| pinned_id := "glm-4.7"; pinned_display_name := "GLM-4.7";
       pinned_description := "Previous-generation GLM coding model";
       pinned_context_window := None; pinned_accepts_images := false |};
    {| pinned_id := "glm-4.6"; pinned_display_name := "GLM-4.6";
       pinned_description := "Previous-generation GLM coding model";
       pinned_context_window := None; pinned_accepts_images := false |} ].

Definition pinned_model (index : nat) (model : PinnedModel) : ModelInfo :=
  {| model_id := pinned_id model;
     display_name := Some (pinned_display_name model);
     description := Some (pinned_description model);
     context_window := pinned_context_window model;
     max_output_tokens := Some MAX_OUTPUT_TOKENS;
     supported_reasoning_efforts := REASONING_EFFORTS;
     default_reasoning_effort := Some "medium";
     is_visible := true;
     is_default := (index =? 0);
     use_responses_lite := false;
     tool_mode := Some "direct";
     input_modalities := if pinned_accepts_images model then ["text"; "image"] else ["text"];
     supported_in_api := true;
     supports_fast_mode := false |}.
Definition pinned_models : list ModelInfo := imap pinned_model PINNED_MODELS.
Definition find (id : string) : option ModelInfo := Prelude.find (fun model => String.eqb (model_id model) id) pinned_models.

(** ** [ZaiTransport] *)

Definition DEFAULT_BASE_URL : string := "https://api.z.ai/api/coding/paas/v4".
Definition QUOTA_URL : string := "https://api.z.ai/api/monitor/usage/quota/limit".

Record ZaiTransport := { zai_api_key : string; zai_base_url : Url }.

(** [loaded] is what [ZaiCredentials::load] gives. The HTTP client may fail to build. *)
Definition ZaiTransport_new {UR : UrlParser} (loaded : res (option string)) (client : res unit)
    (api_key_override : option string) (base_url : option Url) : res ZaiTransport :=
  api_key ← match api_key_override with
            | Some api_key => validate_api_key api_key;; Ok api_key
            | None => found ← loaded; ok_or found ZaiNotAuthenticated
            end;
  base_url ← match base_url with
             | Some base_url => validate_base_url base_url;; Ok base_url
             | None => map_err Provider (Url_parse DEFAULT_BASE_URL)
             end;
  client;;
  Ok {| zai_api_key := api_key; zai_base_url := base_url |}.

Definition is_slash (c : ascii) : bool := Ascii.eqb c "/".
Definition chat_completions_url {UR : UrlParser} (base_url : Url) : res Url :=
  map_err Provider (Url_parse (trim_end_matches is_slash (url_str base_url) +:+ "/chat/completions")).

(** ** Failures *)

Definition classify_failure {SJ : SerdeJson} (status : StatusCode) (details : option value) : string :=
  let error := details ≫= vget "error" in
  let code := match error ≫= vget "code" with
              | Some (JString code) => code
              | Some other => to_string other
              | None => ""
              end in
  let message := to_ascii_lowercase (default "" (error ≫= vget_str "message")) in
  if contains "context length" message || contains "context window" message then "context_length_exceeded"
  else if one_of code ["1000"; "1001"; "1002"; "1003"; "1004"] then "invalid_api_key"
  else if one_of code ["1110"; "1112"; "1113"] then "insufficient_quota"
  else if one_of code ["1211"; "1212"] then "model_not_found"
  else if one_of code ["1261"] then "context_length_exceeded"
  else if one_of code ["1302"; "1303"; "1304"; "1305"] then "rate_limit_exceeded"
  else if (status =? TOO_MANY_REQUESTS)%N then "rate_limit_exceeded"
  else if (status =? UNAUTHORIZED)%N || (status =? FORBIDDEN)%N then "invalid_api_key"
  else if (status =? NOT_FOUND)%N then "model_not_found"
  else "invalid_request".

Definition canonical_document (code : string) : value :=
  json_obj [("error", json_obj [("code", JString code); ("param", JNull)])].

Definition canonical_failure {SJ : SerdeJson} (status : StatusCode) (response : list body_event) : RawResponse :=
  let body := default [] (ok (read_all response)) in
  let details := if (blen body <=? MAX_ERROR_RESPONSE_BYTES)%N then from_slice body else None in
  {| raw_status := status;
     raw_headers := [("content-type", "application/json")];
     raw_body := [Data (to_bytes (to_string (canonical_document (classify_failure status details))))] |}.

(** ** The synthesized body

    What the consumer of [responses_stream] meets when the upstream stalls: the frames
    already made, then its own time limit. *)
Fixpoint until_stall (script : list body_event) : list ZaiStream.stream_event * bool :=
  match script with
  | [] => ([], false)
  | Stalled :: _ => ([], true)
  | Data chunk :: script' => let '(heard, stalled) := until_stall script' in (ZaiStream.Chunk chunk :: heard, stalled)
  | Broken error :: script' =>
      let '(heard, stalled) := until_stall script' in
      (ZaiStream.StreamError ("upstream request failed: " +:+ reqwest_text error) :: heard, stalled)
  end.

Section Zai.
  Context {UP : Upstream} {UR : UrlParser} {SJ : SerdeJson} (status_text : StatusCode -> string).

(** Everything heard so far, without the end of the body. *)
Definition feed (st : ZaiStream.State) (heard : list ZaiStream.stream_event) : ZaiStream.State :=
  foldl (fun st ev => if ZaiStream.finished st then st else ZaiStream.on_event status_text ev st) st heard.
Definition synthesized_body (model request_key : string) (tools : ToolNames) (script : list body_event)
  : list body_event :=
  let '(heard, stalled) := until_stall script in
  let st := feed (ZaiStream.State_new model request_key tools) heard in
  if negb stalled || ZaiStream.finished st
  then Data <$> ZaiStream.responses_stream status_text model request_key tools heard
  else (Data <$> ZaiStream.pending st) ++ [Stalled].

(** ** Requests *)

Definition probe_request (t : ZaiTransport) : res HttpRequest :=
  reject (negb (header_value (zai_api_key t))) (InvalidHeader "the stored Z.ai key is not a valid header");;
  Ok {| req_method := GET; req_url := QUOTA_URL;
        req_headers := [("authorization", zai_api_key t); ("accept", "application/json")]; req_body := None |}.

Definition probe_plan (network : HttpRequest -> result ReqwestError RawResponse) (t : ZaiTransport) : res unit :=
  request ← probe_request t;
  response ← map_err Http (network request);
  if is_success (raw_status response) then Ok tt
  else Err (Errors.Upstream (raw_status response) "the Z.ai plan check was rejected").

(** [skip] is the environment variable [MUSE_CODEX_ZAI_SKIP_PROBE]. *)
Definition skip_probe (skip : option string) : bool := bool_decide (skip = Some "1").
Definition list_models (network : HttpRequest -> result ReqwestError RawResponse) (skip : option string)
    (t : ZaiTransport) : res (list ModelInfo) :=
  (if skip_probe skip then Ok tt else probe_plan network t);;
  Ok pinned_models.

Definition limits_of (pinned : ModelInfo) : ModelLimits :=
  {| accepts_images := existsb (fun modality => String.eqb modality "image") (input_modalities pinned);
     limit_max_output_tokens := MAX_OUTPUT_TOKENS |}.

(** The request [stream_responses] sends, with its model and tool names. *)
Definition chat_request (t : ZaiTransport) (request : value) : res (string * ToolNames * HttpRequest) :=
  model ← ok_or (vget_str "model" request) (InvalidRequest "the Responses request needs a model");
  pinned ← ok_or (find model) (InvalidRequest "the requested model is not in the pinned Z.ai catalog");
  translated ← translate request (limits_of pinned);
  let authorization := "Bearer " +:+ zai_api_key t in
  reject (negb (header_value authorization)) (InvalidHeader "the stored Z.ai key is not a valid header");;
  url ← chat_completions_url (zai_base_url t);
  Ok (model, tools translated,
      {| req_method := POST; req_url := url_str url;
         req_headers := [("authorization", authorization); ("content-type", "application/json");
                         ("accept", "text/event-stream")];
         req_body := Some (body translated) |}).

(** [sequence] is the value [REQUEST_SEQUENCE] gives; the caller's headers are not used. *)
Definition stream_responses (network : HttpRequest -> result ReqwestError RawResponse) (t : ZaiTransport)
    (sequence : N) (request : value) : res RawResponse :=
  '(model, names, http) ← chat_request t request;
  response ← map_err Http (network http);
  if negb (is_success (raw_status response))
  then Ok (canonical_failure (raw_status response) (raw_body response))
  else
    let request_key := "process:" +:+ pretty process_id +:+ ":" +:+ pretty sequence in
    Ok {| raw_status := 200; raw_headers := [("content-type", "text/event-stream")];
          raw_body := synthesized_body model request_key names (raw_body response) |}.

End Zai.
