(* ===== verification/Backend.v ===== *)
(** * One provider per process

    Models [crates/codex-transport/src/backend.rs] and the search and browser-open
    calls of [Transport]. A call on the Codex side is the retry and recovery loop of
    [Transport] around one request; [None] is a loop that did not end. *)

From S2P Require Import Prelude Utf8 Json Errors ZaiRequest Responses Catalog Transport Net Auth Zai.
From stdpp Require Import options.

(** [HeaderValue::to_str]: visible ASCII, spaces and tabs. *)
Definition header_to_str (v : string) : option string :=
  if str_forallb (fun c => in_range 32 126 c || Ascii.eqb c "009"%char) v then Some v else None.

(** What the Codex side meets outside: the stored credential (before the first attempt
    and at each one), the network, the outcome of taking the refresh lock, and what each
    step of [UnauthorizedRecovery] left answers. *)
Record CodexWorld := {
  stored_before : option CodexAuth;
  stored_at : nat -> option CodexAuth;
  codex_network : nat -> string * HeaderMap * value -> result ReqwestError RawResponse;
  codex_models : nat -> string * HeaderMap -> result ReqwestError RawResponse;
  codex_refresh_lock : res unit;
  codex_recovery : list (result string unit)
}.

(** A transport with a key of its own has no [auth_manager]: nothing to refresh. *)
Definition has_auth_manager (t : Transport) : bool := negb (bool_decide (is_Some (api_key_override t))).
(** [CodexRecovery::next] *)
Definition CodexRecovery_next (step : result string unit) : res unit :=
  map_err (fun _ => Authentication "credential refresh failed; run `muse-codex login` again") step.
(** [Transport::recovery], and the home whose lock is taken. *)
Definition recovery (w : CodexWorld) (t : Transport) : option (list (res unit)) :=
  if has_auth_manager t then Some (CodexRecovery_next <$> codex_recovery w) else None.
Definition refresh_lock (w : CodexWorld) (t : Transport) : option (res unit) :=
  if has_auth_manager t then Some (codex_refresh_lock w) else None.

(** The derived [Deserialize] of [SearchRequest]. *)
Class SearchCodec := { search_from_value : value -> result string SearchRequest }.

Definition raw_retry_after (r : RawResponse) : option N := retry_after_header (header_get "retry-after" (raw_headers r)).

(** [Transport::new]; [client] is the outcome of building the HTTP client. *)
Definition Transport_new (stored : option CodexAuth) (client : res unit) (api_key_override : option string)
    (api_key_base_url : option Url) (fast_mode : bool) : res Transport :=
  match api_key_override with Some api_key => validate_api_key api_key | None => Ok tt end;;
  match api_key_base_url with Some base_url => validate_base_url base_url | None => Ok tt end;;
  client;;
  let transport := {| api_key_override := api_key_override; api_key_base_url := url_str <$> api_key_base_url;
                      model_capabilities := ∅; fast_mode := fast_mode |} in
  resolve_auth transport stored;;
  Ok transport.

Section Codex.
  Context {UP : Upstream} {UR : UrlParser} {SC : SearchCodec} (w : CodexWorld) (t : Transport).

(** The shared call of both auxiliary services. *)
Definition send_search (body : value) (extra_headers : HeaderMap) : option (res RawResponse) :=
  snd <$> execute_with_401_recovery raw_status raw_retry_after
    (fun n => request ← send_json_once t (stored_at w n) "alpha/search" body extra_headers "application/json" false None;
              map_err Http (codex_network w n request))
    (refresh_lock w t) (recovery w t).

Definition search (request : SearchRequest) (extra_headers : HeaderMap) : option (res RawResponse) :=
  match to_upstream request with
  | Ok body => send_search body extra_headers
  | Err e => Some (Err e)
  end.

Definition search_muse_request (request : value) (extra_headers : HeaderMap) : option (res RawResponse) :=
  match search_from_value request with
  | Ok request => search request extra_headers
  | Err error => Some (invalid ("invalid Muse search request: " +:+ error))
  end.

(** The body of the browser-open call; [sequence] is the value [BROWSER_OPEN_SEQUENCE] gives. *)
Definition browser_open_body (request : value) (extra_headers : HeaderMap) (sequence : N) : res value :=
  object ← ok_or (as_object request) (InvalidRequest "Muse browser_open request must be an object");
  url ← ok_or (opt_filter (fun v => negb (is_empty (trim v))) (get_str "url" object))
          (InvalidRequest "Muse browser_open request must contain a non-empty url");
  parsed_url ← map_err (fun error => InvalidRequest ("invalid browser_open URL: " +:+ error)) (Url_parse url);
  reject (negb (one_of (scheme parsed_url) ["http"; "https"]))
         (InvalidRequest "browser_open URL must use http or https");;
  let request_id :=
    default ("muse-browser-open-" +:+ pretty process_id +:+ "-" +:+ pretty sequence)
            (or_else (get_str "request_id" object) (header_get "x-request-id" extra_headers ≫= header_to_str)) in
  Ok (json_obj [ ("id", JString request_id);
                 ("commands", json_obj [("open", JArray [json_obj [("ref_id", JString (url_str parsed_url))]])]) ]).

(** [Transport::list_models]; [BUNDLED] is the bundled catalog. *)
Definition codex_list_models {SJ : SerdeJson} {CC : CatalogCodec} (BUNDLED : bytes) : option (res (list ModelInfo * Transport)) :=
  match uses_bundled_metadata t (stored_before w) with
  | Err e => Some (Err e)
  | Ok _ =>
      '(_, outcome) ← execute_with_401_recovery raw_status raw_retry_after
        (fun n => request ← send_models_once t (stored_at w n); map_err Http (codex_models w n request))
        (refresh_lock w t) (recovery w t);
      Some (response ← outcome;
            Transport.list_models BUNDLED t (stored_before w) (raw_status response) (chunk_of <$> raw_body response))
  end.

Definition browser_open_muse_request (request : value) (extra_headers : HeaderMap) (sequence : N)
  : option (res RawResponse) :=
  match browser_open_body request extra_headers sequence with
  | Ok body => send_search body extra_headers
  | Err e => Some (Err e)
  end.
End Codex.

(** ** The provider of the process *)

Inductive Backend : Type :=
  | Codex (transport : Transport)
  | ZaiBackend (transport : ZaiTransport).

Definition provider (b : Backend) : string :=
  match b with Codex _ => "codex" | ZaiBackend _ => "zai" end.

(** [world_sequence] is the next value of the process counters. *)
Record World := {
  world_codex : CodexWorld;
  world_zai : HttpRequest -> result ReqwestError RawResponse;
  world_status_text : StatusCode -> string;
  world_sequence : N
}.

Section Dispatch.
  Context {UP : Upstream} {UR : UrlParser} {SC : SearchCodec} {SJ : SerdeJson} {IC : ItemCodec}.
  Context (w : World) (b : Backend).

Definition stream_responses (body : value) (headers : HeaderMap) : option (res RawResponse) :=
  match b with
  | Codex t =>
      let c := world_codex w in
      snd <$> Transport.stream_responses raw_status raw_retry_after (codex_network c) (refresh_lock c t)
                (recovery c t) t (stored_before c) (stored_at c) body headers (world_sequence w)
  | ZaiBackend t => Some (Zai.stream_responses (world_status_text w) (world_zai w) t (world_sequence w) body)
  end.

(** The models and the backend that remembers what they can do. [zai_skip] is the
    environment variable that skips the plan check. *)
Definition backend_list_models {CC : CatalogCodec} (BUNDLED : bytes) (zai_skip : option string)
  : option (res (list ModelInfo * Backend)) :=
  match b with
  | Codex t =>
      outcome ← codex_list_models (world_codex w) t BUNDLED;
      Some ('(models, t) ← outcome; Ok (models, Codex t))
  | ZaiBackend t => Some (models ← Zai.list_models (world_zai w) zai_skip t; Ok (models, b))
  end.

Definition backend_search (request : value) (headers : HeaderMap) : option (res RawResponse) :=
  match b with
  | Codex t => search_muse_request (world_codex w) t request headers
  | ZaiBackend _ => Some (Err (ProviderUnsupported "web search"))
  end.

Definition backend_browser_open (request : value) (headers : HeaderMap) : option (res RawResponse) :=
  match b with
  | Codex t => browser_open_muse_request (world_codex w) t request headers (world_sequence w)
  | ZaiBackend _ => Some (Err (ProviderUnsupported "browser open"))
  end.

End Dispatch.
