(* ===== verification/Recovery.v ===== *)
(** * Calls that share a credential

    The calls of one gateway, and of every gateway of the same home, share one stored
    credential. Models how their retry and recovery loops interleave
    ([execute_with_401_recovery] of [crates/codex-transport/src/transport.rs], with
    [CredentialRefreshLock], its acquisition and its [Drop]): the loop of [Transport.v] cut
    into the steps between which other calls may run. The lock is the one that [flock] keeps
    on the inode of [AuthHome.v]; it is free again when its holder returns, is cancelled or
    dies. *)

From S2P Require Import Prelude Errors ZaiRequest Transport.
From stdpp Require Import options.

Section Recovery.
  (** Responses and credentials. *)
  Context {T C : Type} (response_status : T -> StatusCode) (retry_after : T -> option N).

(** A call: the outcomes of its attempts, of opening its lock file and of its recovery
    steps, and what the step with [k] more to come makes of the credential it reads. *)
Record Call := {
  send : nat -> res T;
  refresh_lock : option (res unit);
  recovery : option (list (res unit));
  refresh : nat -> C -> C
}.

Inductive Phase : Type :=
  | Sending (n transient : nat) (steps : option (list (res unit))) (locked : bool)
  | Acquiring (n transient : nat) (step : res unit) (steps : list (res unit))
  (** inside [recovery.next()]: the credential it has read *)
  | Recovering (n transient : nat) (step : res unit) (steps : list (res unit)) (read : option C)
  | Finished (r : res T)
  | Cancelled.
Record Turn := { the_call : Call; phase : Phase; log : list action }.
Record System := { turns : list Turn; holder : option nat; store : C }.

Definition over (p : Phase) : bool := match p with Finished _ | Cancelled => true | _ => false end.

(** The loop from an attempt's outcome to its next suspension. *)
Definition on_outcome (c : Call) (n transient : nat) (steps : option (list (res unit))) (locked : bool) : list action * Phase :=
  match send c n with
  | Err (Http error) =>
      ([Sent n], if may_retry transient && is_retryable_send_error error
                 then Sending (S n) (S transient) steps locked else Finished (Err (Http error)))
  | Err error => ([Sent n], Finished (Err error))
  | Ok response =>
      if is_server_error (response_status response) && may_retry transient
      then (Sent n :: pause retry_after response, Sending (S n) (S transient) steps locked)
      else if negb (response_status response =? UNAUTHORIZED)%N then ([Sent n], Finished (Ok response))
      else match steps with
           | Some (step :: steps) =>
               ([Sent n], match locked, refresh_lock c with
                          | false, Some (Ok _) => Acquiring n transient step steps
                          | false, Some (Err e) => Finished (Err e)
                          | _, _ => Recovering n transient step steps None
                          end)
           | _ => ([Sent n], Finished (Ok response))
           end
  end.
Definition on_recovered (n transient : nat) (step : res unit) (steps : list (res unit)) : Phase :=
  match step with Err e => Finished (Err e) | Ok _ => Sending (S n) transient (Some steps) true end.

(** The turn goes on; the lock is dropped with the call. *)
Definition settle (i : nat) (t : Turn) (acts : list action) (p : Phase) (s : System) : System :=
  {| turns := <[i := {| the_call := the_call t; phase := p; log := log t ++ acts |}]> (turns s);
     holder := if over p && bool_decide (holder s = Some i) then None else holder s;
     store := store s |}.
Definition take_the_lock (i : nat) (s : System) : System := {| turns := turns s; holder := Some i; store := store s |}.
Definition write_credential (c : C) (s : System) : System := {| turns := turns s; holder := holder s; store := c |}.

(** The next step of call [i]; [None] when it is over or waits for the lock. *)
Definition advance (i : nat) (s : System) : option System :=
  t ← turns s !! i;
  match phase t with
  | Sending n transient steps locked =>
      let '(acts, p) := on_outcome (the_call t) n transient steps locked in Some (settle i t acts p s)
  | Acquiring n transient step steps =>
      match holder s with
      | None => Some (settle i t [Locked] (Recovering n transient step steps None) (take_the_lock i s))
      | Some _ => None
      end
  | Recovering n transient step steps None =>
      Some (settle i t [] (Recovering n transient step steps (Some (store s))) s)
  | Recovering n transient step steps (Some c) =>
      Some (settle i t [Refreshed] (on_recovered n transient step steps)
              (write_credential (refresh (the_call t) (length steps) c) s))
  | Finished _ | Cancelled => None
  end.
(** The call is dropped by its client, or its process dies. *)
Definition cancel (i : nat) (s : System) : option System :=
  t ← turns s !! i;
  if over (phase t) then None else Some (settle i t [] Cancelled s).

Inductive step : System -> System -> Prop :=
  | step_advance i s s' : advance i s = Some s' -> step s s'
  | step_cancel i s s' : cancel i s = Some s' -> step s s'.

Definition started (c : Call) : Turn := {| the_call := c; phase := Sending 0 0 (recovery c) false; log := [] |}.
Definition start (calls : list Call) (c : C) : System := {| turns := started <$> calls; holder := None; store := c |}.

End Recovery.
Arguments Call : clear implicits.
Arguments Phase : clear implicits.
Arguments Turn : clear implicits.
Arguments System : clear implicits.
