(* ===== verification/RecoveryCorrect.v ===== *)
(** * Refreshes are serialised, and every call runs its loop

    Properties of [Recovery.v]: whatever the order in which the calls run, are cancelled or
    die, one refreshes at a time, on the latest credential; each call that returns did what
    the loop of [Transport.v] does; none waits for ever. *)

From S2P Require Import Prelude Errors ZaiRequest Transport TransportCorrect Recovery.
From stdpp Require Import options.

(** ** More fuel changes nothing *)

Section Fuel.
  Context {T : Type} (response_status : T -> StatusCode) (retry_after : T -> option N) (send : nat -> res T) (lock : option (res unit)).
  Abbreviation run := (attempt response_status retry_after send lock).

Lemma attempt_more fuel : forall fuel' n transient steps locked x,
  fuel <= fuel' -> run fuel n transient steps locked = Some x -> run fuel' n transient steps locked = Some x.
Proof.
  induction fuel as [|fuel IH]; intros fuel' n transient steps locked x Hle Hrun; [discriminate|].
  destruct fuel' as [|fuel']; [lia|]. assert (Hle' : fuel <= fuel') by lia. clear Hle. cbn [attempt] in Hrun |- *.
  destruct (send n) as [response|e].
  - destruct (is_server_error _ && _).
    + destruct (run fuel _ _ _ _) as [[acts r]|] eqn:E; [|discriminate]. by rewrite (IH fuel' _ _ _ _ _ Hle' E).
    + destruct (negb _); [done|]. destruct steps as [[|step steps]|]; [done| |done].
      destruct (take_lock lock locked) as [l [|]]; [|done]. destruct step; [|done].
      destruct (run fuel _ _ _ _) as [[acts r]|] eqn:E; [|discriminate]. by rewrite (IH fuel' _ _ _ _ _ Hle' E).
  - destruct e; try done. destruct (may_retry _ && _); [|done].
    destruct (run fuel _ _ _ _) as [[acts r]|] eqn:E; [|discriminate]. by rewrite (IH fuel' _ _ _ _ _ Hle' E).
Qed.

(** What the loop does from an attempt on. *)
Definition completes (n transient : nat) (steps : option (list (res unit))) (locked : bool) (acts : list action) (r : res T) : Prop :=
  exists fuel, run fuel n transient steps locked = Some (acts, r).
Lemma completes_execute steps acts r :
  completes 0 0 steps false acts r -> execute_with_401_recovery response_status retry_after send lock steps = Some (acts, r).
Proof.
  intros [fuel Hf]. destruct (execute_some response_status retry_after send lock steps) as (acts' & r' & He).
  rewrite He. unfold execute_with_401_recovery in He.
  apply (attempt_more _ (Nat.max fuel (attempt_fuel steps))) in Hf; [|lia].
  apply (attempt_more _ (Nat.max fuel (attempt_fuel steps))) in He; [|lia]. congruence.
Qed.
End Fuel.

Section Calls.
  Context {T C : Type} (response_status : T -> StatusCode) (retry_after : T -> option N).
  Abbreviation on_outcome := (on_outcome (C:=C) response_status retry_after).
  Abbreviation advance := (advance response_status retry_after).
  Abbreviation step := (step (C:=C) response_status retry_after).

(** ** One call *)

(** What is left of the loop at each suspension. *)
Definition left_to_do (c : Call T C) (p : Phase T C) (acts : list action) (r : res T) : Prop :=
  let completes := completes response_status retry_after (send c) (refresh_lock c) in
  let recovered n transient step steps acts :=
    match step with
    | Err e => acts = [Refreshed] /\ r = Err e
    | Ok _ => exists acts', acts = Refreshed :: acts' /\ completes (S n) transient (Some steps) true acts' r
    end in
  match p with
  | Sending n transient steps locked => completes n transient steps locked acts r
  | Acquiring n transient step steps => exists acts', acts = Locked :: acts' /\ recovered n transient step steps acts'
  | Recovering n transient step steps _ => recovered n transient step steps acts
  | Finished r' => acts = [] /\ r = r'
  | Cancelled => False
  end.

Lemma on_outcome_left c n transient steps locked acts p acts' r :
  on_outcome c n transient steps locked = (acts, p) -> left_to_do c p acts' r ->
  left_to_do c (Sending n transient steps locked) (acts ++ acts') r.
Proof.
  unfold Recovery.on_outcome. cbn [left_to_do]. unfold completes.
  destruct (send c n) as [response|e] eqn:Es.
  - destruct (is_server_error (response_status response) && may_retry transient) eqn:Er.
    { intros [= <- <-] [fuel Hf]. exists (S fuel). cbn [attempt]. rewrite Es, Er, Hf. done. }
    destruct (negb (response_status response =? UNAUTHORIZED)%N) eqn:Eu.
    { intros [= <- <-] [-> ->]. exists 1. cbn [attempt]. by rewrite Es, Er, Eu. }
    destruct steps as [[|st steps]|].
    1,3: intros [= <- <-] [-> ->]; exists 1; cbn [attempt]; by rewrite Es, Er, Eu.
    destruct (take_lock (refresh_lock c) locked) as [lock held] eqn:El. unfold take_lock in El.
    assert (Hrec : forall acts1, held = Ok tt -> left_to_do c (Recovering n transient st steps None) acts1 r ->
              exists fuel, attempt response_status retry_after (send c) (refresh_lock c) fuel n transient (Some (st :: steps)) locked
                           = Some (Sent n :: lock ++ acts1, r)).
    { intros acts1 -> H1. cbn in H1. destruct st as [[]|e].
      - destruct H1 as (acts2 & -> & [fuel Hf]). exists (S fuel). cbn [attempt]. rewrite Es, Er, Eu. unfold take_lock. rewrite El, Hf.
        cbn [mbind option_bind app]. by rewrite <- app_assoc.
      - destruct H1 as [-> ->]. exists 1. cbn [attempt]. rewrite Es, Er, Eu. unfold take_lock. rewrite El. done. }
    destruct locked, (refresh_lock c) as [[[]|e]|] eqn:Ec; injection El as <- <-; intros [= <- <-] H1.
    1,2,3,6: exact (Hrec _ eq_refl H1).
    + destruct H1 as (acts1 & -> & H1). exact (Hrec acts1 eq_refl H1).
    + destruct H1 as [-> ->]. exists 1. cbn [attempt]. by rewrite Es, Er, Eu.
  - destruct e; try (intros [= <- <-] [-> ->]; exists 1; cbn [attempt]; by rewrite Es).
    destruct (may_retry transient && is_retryable_send_error error) eqn:Em; intros [= <- <-] H1.
    + destruct H1 as [fuel Hf]. exists (S fuel). cbn [attempt]. by rewrite Es, Em, Hf.
    + destruct H1 as [-> ->]. exists 1. cbn [attempt]. by rewrite Es, Em.
Qed.
Lemma on_recovered_left c n transient st steps read acts r :
  left_to_do c (on_recovered n transient st steps) acts r -> left_to_do c (Recovering n transient st steps read) (Refreshed :: acts) r.
Proof. destruct st as [[]|e]; cbn; [eauto|]. by intros [-> ->]. Qed.

(** ** All of them *)

(** The call holds the lock. *)
Definition holds (t : Turn T C) : Prop :=
  is_Some (refresh_lock (the_call t)) /\ match phase t with Sending _ _ _ locked => locked = true | Recovering _ _ _ _ _ => True | _ => False end.
(** A call that may recover has a lock to take, as [Transport] has it. *)
Definition guarded (c : Call T C) : Prop := is_Some (recovery c) -> is_Some (refresh_lock c).
(** What a turn keeps to. *)
Record faithful (c : C) (t : Turn T C) : Prop := {
  faithful_guard : guarded (the_call t);
  faithful_lock : match phase t with
                  | Sending _ _ steps _ => is_Some steps -> is_Some (recovery (the_call t))
                  | Acquiring _ _ _ _ | Recovering _ _ _ _ _ => is_Some (recovery (the_call t))
                  | _ => True
                  end;
  faithful_read : forall n tr st steps seen, phase t = Recovering n tr st steps (Some seen) -> seen = c;
  faithful_log : forall acts r, left_to_do (the_call t) (phase t) acts r ->
                 execute_with_401_recovery response_status retry_after (send (the_call t)) (refresh_lock (the_call t))
                   (recovery (the_call t)) = Some (log t ++ acts, r)
}.
Record serial (s : System T C) : Prop := {
  serial_holder : forall i, holder s = Some i -> exists t, turns s !! i = Some t /\ holds t;
  serial_holds : forall i t, turns s !! i = Some t -> holds t -> holder s = Some i;
  serial_turns : forall i t, turns s !! i = Some t -> faithful (store s) t
}.

Lemma over_not_holds (t : Turn T C) : over (phase t) = true -> ~ holds t.
Proof using Type. unfold holds. destruct (phase t); try discriminate; by intros _ []. Qed.

(** A step of one call: the phase it comes to, the credential it leaves, and the holder it
    had before its end. *)
Lemma settle_serial i (t : Turn T C) acts p h c s (Hs : serial s) (Ht : turns s !! i = Some t)
    (Hh : h = holder s \/ (holder s = None /\ h = Some i))
    (Hc : c = store s \/ holder s = Some i)
    (Hp : holds {| the_call := the_call t; phase := p; log := log t ++ acts |} -> h = Some i)
    (Hq : h = Some i -> over p = true \/ holds {| the_call := the_call t; phase := p; log := log t ++ acts |})
    (Hf : faithful c {| the_call := the_call t; phase := p; log := log t ++ acts |}) :
  serial (settle i t acts p {| turns := turns s; holder := h; store := c |}).
Proof using Type.
  pose proof (lookup_lt_Some _ _ _ Ht) as Hlt.
  assert (Hother : forall j u, i <> j -> turns s !! j = Some u -> holds u -> holder s = Some j /\ h = Some j).
  { intros j u Hne Hu Hhu. pose proof (serial_holds _ Hs _ _ Hu Hhu) as Hj. split; [done|].
    destruct Hh as [->|[Hn _]]; [done|congruence]. }
  split; unfold settle; cbn.
  - intros j Hj. destruct (over p) eqn:Ho; cbn in Hj.
    + destruct (bool_decide_reflect (h = Some i)); [discriminate|]. subst h.
      destruct (serial_holder _ Hs j) as (u & Hu & Hhu); [destruct Hh as [->|[? [=]]]; [done|congruence]|].
      assert (i <> j) by congruence. exists u. by rewrite list_lookup_insert_ne.
    + destruct (decide (i = j)) as [<-|Hne].
      * rewrite list_lookup_insert_eq by done. eexists. split; [done|]. destruct (Hq Hj); [congruence|done].
      * rewrite list_lookup_insert_ne by done. apply (serial_holder _ Hs).
        destruct Hh as [<-|[_ Hi]]; [done|congruence].
  - intros j u Hu Hhu. destruct (decide (i = j)) as [<-|Hne].
    + rewrite list_lookup_insert_eq in Hu by done. injection Hu as <-. destruct (over p) eqn:Ho; [|by apply Hp].
      destruct (over_not_holds {| the_call := the_call t; phase := p; log := log t ++ acts |} Ho Hhu).
    + rewrite list_lookup_insert_ne in Hu by done. destruct (Hother j u Hne Hu Hhu) as [_ Hj]. rewrite Hj.
      rewrite bool_decide_eq_false_2 by congruence. by rewrite andb_false_r.
  - intros j u Hu. destruct (decide (i = j)) as [<-|Hne].
    + rewrite list_lookup_insert_eq in Hu by done. by injection Hu as <-.
    + rewrite list_lookup_insert_ne in Hu by done. pose proof (serial_turns _ Hs _ _ Hu) as [F1 F2 F3 F4]. split; try done.
      intros n tr st steps seen Hph. destruct Hc as [->|Hi]; [by eapply F3|].
      assert (Hhu : holds u) by (unfold holds; rewrite Hph in F2 |- *; split; [by apply F1|done]).
      destruct (Hother j u Hne Hu Hhu) as [Hj _]. congruence.
Qed.

Lemma on_outcome_shape c n transient steps locked acts p : on_outcome c n transient steps locked = (acts, p) ->
  match p with
  | Sending n' transient' steps' locked' => n' = S n /\ transient' = S transient /\ transient < 1 /\ steps' = steps /\ locked' = locked
  | Acquiring _ transient' st steps' => transient' = transient /\ steps = Some (st :: steps') /\ locked = false
  | Recovering _ transient' st steps' read =>
      transient' = transient /\ steps = Some (st :: steps') /\ read = None /\ (locked = true \/ refresh_lock c = None)
  | Finished _ => True
  | Cancelled => False
  end.
Proof using Type.
  unfold Recovery.on_outcome, may_retry, MAX_PRESTREAM_ATTEMPTS. destruct (send c n) as [response|e].
  - destruct (is_server_error _ && _) eqn:E; [intros [= <- <-]; apply andb_prop in E as [_ E%Nat.ltb_lt]; split_and!; lia || done|].
    destruct (negb _); [by intros [= <- <-]|]. destruct steps as [[|st steps]|]; try by intros [= <- <-].
    destruct locked, (refresh_lock c) as [[]|]; intros [= <- <-]; auto.
  - destruct e; try by intros [= <- <-]. destruct (_ && _) eqn:E; [|by intros [= <- <-]].
    intros [= <- <-]. apply andb_prop in E as [E%Nat.ltb_lt _]. split_and!; lia || done.
Qed.

Lemma holder_holds s i t : serial s -> turns s !! i = Some t -> holder s = Some i -> holds t.
Proof using Type. intros Hs Ht Hi. destruct (serial_holder _ Hs _ Hi) as (u & Hu & Hh). by simplify_eq. Qed.

Lemma advance_serial i s s' : serial s -> advance i s = Some s' -> serial s'.
Proof using Type.
  intros Hs. unfold Recovery.advance. intros (t & Ht & Ha)%bind_Some.
  pose proof (serial_turns _ Hs _ _ Ht) as [F1 F2 F3 F4]. pose proof (serial_holds _ Hs _ _ Ht) as Hh. unfold holds in Hh.
  pose proof (holder_holds _ _ _ Hs Ht) as Hq. unfold holds in Hq.
  destruct s as [ts h c]. cbn [turns holder store] in *.
  destruct (phase t) as [n tr steps locked|n tr st steps|n tr st steps [seen|]|r|] eqn:Hp; try discriminate.
  - destruct (on_outcome _ _ _ _ _) as [acts p] eqn:Eo. injection Ha as <-. pose proof (on_outcome_shape _ _ _ _ _ _ _ Eo) as Hshape.
    assert (Hst : match p with Acquiring _ _ _ _ | Recovering _ _ _ _ _ => is_Some (recovery (the_call t)) | _ => True end).
    { destruct p; try done; apply F2; destruct Hshape as (_ & -> & _); eauto. }
    apply (settle_serial i t acts p h c (Build_System ts h c) Hs Ht); auto.
    + intros [Hl Hph]. cbn in Hl, Hph. apply Hh. split; [done|]. destruct p; try done.
      * by destruct Hshape as (_ & _ & _ & _ & <-).
      * destruct Hshape as (_ & _ & _ & [H|H]); [done|]. rewrite H in Hl. by destruct Hl.
    + intros Hi. destruct (Hq Hi) as [Hl Hlk]. unfold holds. cbn. destruct p; try (by left).
      * destruct Hshape as (_ & _ & _ & _ & ->). by right.
      * destruct Hshape as (_ & _ & Hf). congruence.
      * right. split; [by apply F1|done].
    + split; cbn; [done| | |].
      * destruct p; try done. by destruct Hshape as (_ & _ & _ & -> & _).
      * intros n' tr' st' steps' seen ->. by destruct Hshape as (_ & _ & [=] & _).
      * intros acts' r Hl. rewrite <- app_assoc. apply F4. exact (on_outcome_left _ _ _ _ _ _ _ _ _ Eo Hl).
  - destruct h; [discriminate|]. injection Ha as <-.
    apply (settle_serial i t [Locked] _ (Some i) c (Build_System ts None c) Hs Ht); auto.
    + intros _. right. split; [by apply F1|done].
    + split; cbn; [done|done|intros; congruence|]. intros acts r Hl. rewrite <- app_assoc. apply F4. cbn. eauto.
  - injection Ha as <-. rewrite (F3 _ _ _ _ _ eq_refl). assert (Hi : h = Some i) by (apply Hh; split; [by apply F1|done]).
    apply (settle_serial i t [Refreshed] _ h _ (Build_System ts h c) Hs Ht); auto.
    + intros _. unfold on_recovered, holds. destruct st; cbn; [right; split; [by apply F1|done]|by left].
    + split; cbn; [done| | |].
      * unfold on_recovered. by destruct st.
      * unfold on_recovered. by destruct st.
      * intros acts r Hl. rewrite <- app_assoc. apply F4. exact (on_recovered_left _ _ _ _ _ _ _ _ Hl).
  - injection Ha as <-. apply (settle_serial i t [] _ h c (Build_System ts h c) Hs Ht); auto.
    + intros Hi. right. by apply Hq.
    + split; cbn; [done|done|congruence|]. rewrite app_nil_r. intros acts r Hl. by apply F4.
Qed.
Lemma cancel_serial i s s' : serial s -> cancel i s = Some s' -> serial s'.
Proof using Type.
  intros Hs. unfold cancel. intros (t & Ht & Ha)%bind_Some. destruct (over (phase t)) eqn:Ho; [discriminate|]. injection Ha as <-.
  pose proof (serial_turns _ Hs _ _ Ht) as [F1 F2 F3 F4]. destruct s as [ts h c].
  apply (settle_serial i t [] Cancelled h c (Build_System ts h c) Hs Ht); auto.
  - intros [_ []].
  - split; cbn; [done|done|congruence|done].
Qed.
Lemma start_serial calls c : Forall guarded calls -> serial (start calls c).
Proof using Type.
  intros Hg. split; cbn; [discriminate| |].
  - intros i t Ht. apply list_lookup_fmap_Some in Ht as (k & -> & _). by intros [_ ?].
  - intros i t Ht. apply list_lookup_fmap_Some in Ht as (k & -> & Hk). split; cbn; [|done|discriminate|].
    + exact (proj1 (Forall_lookup _ _) Hg _ _ Hk).
    + intros acts r. apply completes_execute.
Qed.
Lemma reachable_serial calls c s : Forall guarded calls -> rtc step (start calls c) s -> serial s.
Proof using Type.
  intros Hg Hr. pose proof (start_serial calls c Hg) as H0. revert H0. induction Hr as [|s1 s2 s3 H1 _ IH]; [done|].
  intros Hs. apply IH. destruct H1 as [i s1 s2 H1|i s1 s2 H1]; [by eapply advance_serial|by eapply cancel_serial].
Qed.

(** ** The end of every run *)

(** An upper bound of the steps a phase has left. *)
Definition weight (p : Phase T C) : nat :=
  match p with
  | Sending _ transient steps _ => 5 * length (default [] steps) + 2 * (MAX_PRESTREAM_ATTEMPTS - transient) + 1
  | Acquiring _ transient _ steps => 5 * length steps + 2 * (MAX_PRESTREAM_ATTEMPTS - transient) + 4
  | Recovering _ transient _ steps None => 5 * length steps + 2 * (MAX_PRESTREAM_ATTEMPTS - transient) + 3
  | Recovering _ transient _ steps (Some _) => 5 * length steps + 2 * (MAX_PRESTREAM_ATTEMPTS - transient) + 2
  | Finished _ | Cancelled => 0
  end.
Definition total (s : System T C) : nat := sum_list_with (fun t => weight (phase t)) (turns s).

Lemma weight_over p : weight p = 0 -> over p = true.
Proof using Type. destruct p as [| | ???? []| |]; cbn; try done; lia. Qed.
Lemma sum_insert {A} (f : A -> nat) (l : list A) i a b : l !! i = Some a -> sum_list_with f (<[i := b]> l) + f a = sum_list_with f l + f b.
Proof using Type.
  revert i. induction l as [|x l IH]; intros i Hi; [discriminate|]. destruct i as [|i]; cbn in *.
  - injection Hi as ->. lia.
  - rewrite <- !Nat.add_assoc. f_equal. exact (IH i Hi).
Qed.
Lemma settle_total i t acts p s : turns s !! i = Some t -> weight p < weight (phase t) -> total (settle i t acts p s) < total s.
Proof using Type.
  intros Ht Hw. unfold total, settle. cbn.
  pose proof (sum_insert (fun t => weight (phase t)) (turns s) i t {| the_call := the_call t; phase := p; log := log t ++ acts |} Ht) as H.
  cbn in H. lia.
Qed.
Lemma step_total s s' : step s s' -> total s' < total s.
Proof using Type.
  intros [i s1 s2 H|i s1 s2 H].
  - unfold Recovery.advance in H. apply bind_Some in H as (t & Ht & Ha).
    destruct (phase t) as [n tr steps locked|n tr st steps|n tr st steps [seen|]|r|] eqn:Hp; try discriminate.
    + destruct (on_outcome _ _ _ _ _) as [acts p] eqn:Eo. injection Ha as <-. apply settle_total; [done|].
      pose proof (on_outcome_shape _ _ _ _ _ _ _ Eo) as Hshape. rewrite Hp.
      destruct p as [| |? ? ? ? [] | |]; cbn; unfold MAX_PRESTREAM_ATTEMPTS in *; try lia; destruct Hshape as (-> & H); split_hyps; subst; cbn; try lia; done.
    + destruct (holder s1); [discriminate|]. injection Ha as <-.
      refine (settle_total i t _ _ (take_the_lock i s1) Ht _). rewrite Hp. cbn. lia.
    + injection Ha as <-. refine (settle_total i t _ _ (write_credential _ s1) Ht _). rewrite Hp. destruct st; cbn; lia.
    + injection Ha as <-. apply settle_total; [done|]. rewrite Hp. cbn. lia.
  - unfold cancel in H. apply bind_Some in H as (t & Ht & Ha). destruct (over (phase t)) eqn:Ho; [discriminate|]. injection Ha as <-.
    apply settle_total; [done|]. cbn. destruct (decide (weight (phase t) = 0)) as [H0|]; [|lia]. by rewrite (weight_over _ H0) in Ho.
Qed.
Lemma nsteps_total n s s' : nsteps step n s s' -> n + total s' <= total s.
Proof using Type.
  induction 1 as [|n s1 s2 s3 H1 _ IH]; [lia|]. apply step_total in H1. lia.
Qed.

(** Nobody waits for ever: some call that is not over can go on. *)
Lemma some_advance s : serial s -> forallb (fun t => over (phase t)) (turns s) = false -> exists i s', advance i s = Some s'.
Proof using Type.
  intros Hs Hsome. destruct (holder s) as [i|] eqn:Hh.
  - destruct (serial_holder _ Hs _ Hh) as (t & Ht & _ & Hp). exists i. unfold Recovery.advance. rewrite Ht. cbn.
    destruct (phase t) as [n tr steps locked|n tr st steps|n tr st steps [seen|]|r|]; try done; eauto.
    destruct (on_outcome _ _ _ _ _); eauto.
  - assert (Hex : exists i t, turns s !! i = Some t /\ over (phase t) = false).
    { clear Hs Hh. induction (turns s) as [|t l IH]; [discriminate|]. cbn in Hsome. apply andb_false_iff in Hsome as [H|H].
      - by exists 0, t.
      - destruct (IH H) as (i & u & Hi & Hu). by exists (S i), u. }
    destruct Hex as (i & t & Ht & Ho). exists i. unfold Recovery.advance. rewrite Ht. cbn.
    destruct (phase t) as [n tr steps locked|n tr st steps|n tr st steps [seen|]|r|]; try done; rewrite ?Hh; eauto.
    destruct (on_outcome _ _ _ _ _); eauto.
Qed.

(** C14: Calls that share a stored credential, in one gateway or in several, refresh it one at
    a time, however their steps interleave and whichever of them are cancelled or die.
    (1) At most one call holds the refresh lock. (2) A refresh acts on the latest
    credential: what it has read is still the stored one when it writes, so no rotation of
    a token is lost or made twice from one token. (3) A call that returns did exactly what
    the loop of the transport does on its own. (4) As long as a call is not over some call
    can go on, and no run is longer than the attempts and recovery steps allow: the lock
    is never waited for in vain. *)
Theorem refreshes_serialized (calls : list (Call T C)) (c : C) (Hguarded : Forall guarded calls)
    (s : System T C) (Hreach : rtc step (start calls c) s) :
  (forall i j t u, turns s !! i = Some t -> turns s !! j = Some u -> holds t -> holds u -> i = j)
  /\ (forall i t n transient st steps read, turns s !! i = Some t -> phase t = Recovering n transient st steps (Some read) -> read = store s)
  /\ (forall i t r, turns s !! i = Some t -> phase t = Finished r ->
        execute_with_401_recovery response_status retry_after (send (the_call t)) (refresh_lock (the_call t)) (recovery (the_call t))
        = Some (log t, r))
  /\ (forallb (fun t => over (phase t)) (turns s) = false -> exists i s', advance i s = Some s')
  /\ (forall n s', nsteps step n s s' -> n <= sum_list_with (fun call => 5 * length (default [] (recovery call)) + 5) calls).
Proof using Type.
  pose proof (reachable_serial _ _ _ Hguarded Hreach) as Hs. split_and!.
  - intros i j t u Ht Hu Hht Hhu. pose proof (serial_holds _ Hs _ _ Ht Hht). pose proof (serial_holds _ Hs _ _ Hu Hhu). congruence.
  - intros i t n tr st steps read Ht Hp. exact (faithful_read _ _ (serial_turns _ Hs _ _ Ht) _ _ _ _ _ Hp).
  - intros i t r Ht Hp. rewrite <- (app_nil_r (log t)). apply (faithful_log _ _ (serial_turns _ Hs _ _ Ht)). by rewrite Hp.
  - by apply some_advance.
  - intros n s' Hn. apply rtc_nsteps in Hreach as [m Hm]. pose proof (nsteps_total _ _ _ (nsteps_trans _ _ _ _ _ Hm Hn)) as Ht.
    assert (total (start calls c) = sum_list_with (fun call : Call T C => 5 * length (default [] (recovery call)) + 5) calls) as H0.
    { clear. unfold total, start. cbn [turns]. induction calls as [|call l IH]; [done|]. cbn [fmap list_fmap sum_list_with]. rewrite IH.
      unfold started, MAX_PRESTREAM_ATTEMPTS. cbn [phase weight]. unfold MAX_PRESTREAM_ATTEMPTS. lia. }
    lia.
Qed.
End Calls.

(** ** Two gateways with one stale credential *)

Section Witness.
(** A response is its status, a credential its generation. Both calls meet a 401, then succeed. *)
Let call : Call N N := {|
  send n := Ok (if n =? 0 then 401%N else 200%N);
  refresh_lock := Some (Ok tt);
  recovery := Some [Ok tt];
  refresh k c := (c + 1)%N
|}.
Fixpoint play_out (schedule : list nat) (s : System N N) : option (System N N) :=
  match schedule with
  | [] => Some s
  | i :: schedule => s ← advance (fun r => r) (fun _ => None) i s; play_out schedule s
  end.
Lemma play_reach schedule s s' : play_out schedule s = Some s' -> rtc (step (fun r => r) (fun _ => None)) s s'.
Proof.
  revert s. induction schedule as [|i schedule IH]; intros s H; [by injection H as <-|].
  apply bind_Some in H as (s1 & H1 & H2). eapply rtc_l; [by eapply step_advance|by apply IH].
Qed.
(** Both are refused; the second takes the lock, so that the first waits until it returns. *)
Let schedule : list nat := [0; 1; 1; 1; 1; 1; 0; 0; 0; 0].

Lemma refreshes_serialized_witness :
  exists s t, play_out schedule (start [call; call] 7%N) = Some s /\ store s = 9%N /\ turns s !! 0 = Some t
    /\ execute_with_401_recovery (fun r => r) (fun _ => None) (send (the_call t)) (refresh_lock (the_call t)) (recovery (the_call t))
       = Some ([Sent 0; Locked; Refreshed; Sent 1], Ok 200%N)
    /\ advance (fun r => r) (fun _ => None) 0 (default s (play_out [0; 1; 1] (start [call; call] 7%N))) = None.
Proof.
  assert (Hrun : exists s, play_out schedule (start [call; call] 7%N) = Some s) by (eexists; vm_compute; reflexivity).
  destruct Hrun as [s Hrun]. assert (Hg : Forall guarded [call; call]) by (repeat constructor; intros _; eexists; reflexivity).
  destruct (refreshes_serialized (fun r => r) (fun _ => None) [call; call] 7%N Hg s (play_reach _ _ _ Hrun)) as (_ & _ & Hdone & _).
  revert Hrun. vm_compute in Hdone |- *. intros [= <-]. do 2 eexists.
  split; [reflexivity|]. split; [reflexivity|]. split; [reflexivity|]. split; [exact (Hdone 0 _ _ eq_refl eq_refl)|reflexivity].
Defined.
End Witness.
