(* ===== verification/Gateway.v ===== *)
(** * The gateway's HTTP server

    Models [crates/muse-codex-gateway/src/server.rs]: the routes behind the bearer check,
    the handlers, what of an upstream response reaches stock Muse, and how its failures
    are sanitised. A request is what axum hands a handler: the headers and the outcome of
    the JSON extractor. A response is its status, headers and the script of its body. *)

From S2P Require Import Prelude Utf8 Json Errors ZaiRequest Responses Catalog Transport Net Auth Zai Backend.
From S2P Require SseValidator.
From stdpp Require Import options.

Definition MAX_UPSTREAM_ERROR_BYTES : N := 64 * 1024.
Definition READY_SCHEMA_VERSION : N := 4.

Record Response := {
  status : StatusCode;
  headers : HeaderMap;
  response_body : list body_event
}.

(** [HeaderMap::append] *)
Definition header_append (k v : string) (h : HeaderMap) : HeaderMap := h ++ [(k, v)].

Section Gateway.
  Context {UP : Upstream} {UR : UrlParser} {SC : SearchCodec} {SJ : SerdeJson} {IC : ItemCodec}.
  (** The seconds of the system clock when a failure frame is built. *)
  Context (clock : N).

(** ** Answers of the gateway's own *)

Definition json_response (status : StatusCode) (v : value) : Response :=
  {| status := status; headers := [("content-type", "application/json")];
     response_body := [Data (to_bytes (to_string v))] |}.
Definition error_document (message kind : string) : value :=
  json_obj [("error", json_obj [("message", JString message); ("type", JString kind)])].
Definition gateway_error (status : StatusCode) (message kind : string) : Response :=
  let response := json_response status (error_document message kind) in
  {| status := Gateway.status response;
     headers := header_insert "x-content-type-options" "nosniff"
                  (header_insert "cache-control" "no-store" (headers response));
     response_body := response_body response |}.

Definition health : Response :=
  json_response 200 (json_obj [("status", JString "ok"); ("schema_version", jnum READY_SCHEMA_VERSION)]).
Definition models : Response := {| status := 304; headers := []; response_body := [] |}.
Definition feedback : Response := {| status := 204; headers := []; response_body := [] |}.

Definition PAYLOAD_TOO_LARGE : StatusCode := 413.
Definition UNSUPPORTED_MEDIA_TYPE : StatusCode := 415.
(** A rejected extraction carries the status axum gives it. *)
Definition extract_json (payload : result StatusCode value) : result Response value :=
  map_err (fun status =>
    gateway_error status
      (if (status =? PAYLOAD_TOO_LARGE)%N then "The gateway request body exceeded the size limit."
       else if (status =? UNSUPPORTED_MEDIA_TYPE)%N then "The gateway request must use application/json."
       else "The gateway request body was not valid JSON.")
      "invalid_request") payload.

Definition prepare_responses_request (request : value) : result string value :=
  object ← ok_or (as_object request) "The Responses request must be a JSON object.";
  reject (bool_decide (obj_get "stream" object = Some (JBool false)))
         "muse-codex requires streaming Responses requests.";;
  reject (bool_decide (obj_get "background" object = Some (JBool true)))
         "muse-codex does not support background Responses requests.";;
  Ok (JObject (obj_insert "stream" (JBool true) (obj_insert "store" (JBool false) object))).

(** ** Headers *)

Definition forwarded_request_headers : list string := ["accept-language"; "x-request-id"].
Definition upstream_request_headers (source : HeaderMap) : HeaderMap :=
  foldl (fun target name => match header_get name source with
                            | Some value => header_insert name value target
                            | None => target
                            end) [] forwarded_request_headers.

Definition usage_suffixes : list string :=
  [ "-limit-name"; "-primary-used-percent"; "-primary-window-minutes"; "-primary-reset-at";
    "-secondary-used-percent"; "-secondary-window-minutes"; "-secondary-reset-at" ].
Definition is_codex_usage_header (name : string) : bool :=
  one_of name [ "x-codex-active-limit"; "x-codex-primary-over-secondary-limit-percent"; "x-codex-promo-message" ]
  || starts_with "x-codex-credits-" name
  || existsb (fun suffix => starts_with "x-codex-" name && ends_with suffix name) usage_suffixes.
Definition is_forwarded_response_header (name : string) : bool :=
  String.eqb name "content-type"
  || one_of name [ "retry-after"; "retry-after-ms"; "x-request-id"; "x-oai-request-id"; "openai-model";
                   "x-openai-model"; "x-reasoning-included"; "x-models-etag" ]
  || starts_with "x-ratelimit-" name
  || is_codex_usage_header name.

Definition media_type_byte (b : ascii) : bool := is_ascii_alphanumeric b || char_in "-+./" b.
Definition safe_upstream_media_type (headers : HeaderMap) : option string :=
  value ← header_get "content-type" headers ≫= header_to_str;
  value ← trim <$> head (split_str (fun c => Ascii.eqb c ";") value);
  if negb (is_empty value) && (slen value <=? 127)%N && str_forallb media_type_byte value
  then Some (to_ascii_lowercase value) else None.

(** ** Forwarding *)

Definition proxy_response (status : StatusCode) (headers : HeaderMap) (body : list body_event) : Response :=
  {| status := status;
     headers := foldl (fun response kv => if is_forwarded_response_header (fst kv)
                                          then header_append (fst kv) (snd kv) response else response)
                      [("cache-control", "no-store"); ("x-content-type-options", "nosniff")] headers;
     response_body := body |}.

Definition proxy_auxiliary_response (upstream : RawResponse) (failure_message failure_kind : string) : Response :=
  if is_success (raw_status upstream)
  then proxy_response (raw_status upstream) (raw_headers upstream) (raw_body upstream) else
  let response := gateway_error (raw_status upstream) failure_message failure_kind in
  {| status := Gateway.status response;
     headers := foldl (fun response kv => if negb (String.eqb (fst kv) "content-type")
                                             && is_forwarded_response_header (fst kv)
                                          then header_append (fst kv) (snd kv) response else response)
                      (Gateway.headers response) (raw_headers upstream);
     response_body := response_body response |}.

Definition terminal_sse_stream (headers : HeaderMap) (body : list body_event) : Response :=
  proxy_response 200 (header_insert "content-type" "text/event-stream" headers) body.
Definition terminal_sse_response (headers : HeaderMap) (frame : bytes) : Response :=
  terminal_sse_stream headers [Data frame].

(** ** Upstream failures *)

Record SanitizedUpstreamFailure := {
  code : string;
  message : string;
  parameter : option string
}.

Definition safe_error_parameter (value : string) : bool :=
  negb (is_empty value) && (slen value <=? 128)%N
  && str_forallb (fun byte => is_ascii_alphanumeric byte || char_in "_-.[]" byte) value.

Definition failure_code (status : StatusCode) (upstream_code : option string) : string :=
  let by_status :=
    if (status =? TOO_MANY_REQUESTS)%N then "rate_limit_exceeded"
    else if (status =? UNAUTHORIZED)%N || (status =? FORBIDDEN)%N then "invalid_api_key"
    else "invalid_request" in
  match upstream_code with
  | Some c =>
      if String.eqb c "context_length_exceeded" then "context_length_exceeded"
      else if one_of c ["rate_limit_exceeded"; "usage_limit_reached"] then "rate_limit_exceeded"
      else if String.eqb c "invalid_api_key" then "invalid_api_key"
      else if String.eqb c "model_not_found" then "model_not_found"
      else if String.eqb c "insufficient_quota" then "insufficient_quota"
      else if String.eqb c "invalid_request" then "invalid_request"
      else by_status
  | None => by_status
  end.

Definition failure_message (code : string) (parameter : option string) (status : StatusCode) : string :=
  let http := "(HTTP " +:+ pretty status +:+ "); the request was not replayed and " in
  if String.eqb code "context_length_exceeded" then
    "The request exceeded the model context window (HTTP " +:+ pretty status
    +:+ "); it was not replayed and the session is resumable."
  else if String.eqb code "rate_limit_exceeded" then
    "The Codex endpoint reported a rate limit " +:+ http +:+ "the session is resumable."
  else if String.eqb code "invalid_api_key" then
    "The Codex endpoint rejected authentication " +:+ http +:+ "login is required."
  else if String.eqb code "model_not_found" then
    "The requested Codex model was unavailable " +:+ http +:+ "the session is resumable."
  else if String.eqb code "insufficient_quota" then
    "The Codex endpoint reported insufficient quota " +:+ http +:+ "the session is resumable."
  else match parameter with
  | Some parameter =>
      "The Codex endpoint rejected request parameter '" +:+ parameter +:+ "' " +:+ http +:+ "the session is resumable."
  | None =>
      if is_client_error status
      then "The Codex endpoint rejected the request " +:+ http +:+ "the session is resumable."
      else "The Codex endpoint failed " +:+ http +:+ "the session is resumable."
  end.

Definition sanitize_upstream_failure (status : StatusCode) (body : option value) : SanitizedUpstreamFailure :=
  let error := default JNull (body ≫= vget "error") in
  let parameter := opt_filter safe_error_parameter (vget_str "param" error) in
  let code := failure_code status (vget_str "code" error) in
  {| code := code; message := failure_message code parameter status; parameter := parameter |}.

(** The body of a failure, read within its size and time limits. *)
Fixpoint read_failure_body (read : bytes) (body : list body_event) : option bytes :=
  match body with
  | [] => Some read
  | Data chunk :: body' =>
      if (MAX_UPSTREAM_ERROR_BYTES <? blen read + blen chunk)%N then None
      else read_failure_body (read ++ chunk) body'
  | Broken _ :: _ | Stalled :: _ => None
  end.
Definition inspect_upstream_failure (status : StatusCode) (body : list body_event) : SanitizedUpstreamFailure :=
  sanitize_upstream_failure status (read_failure_body [] body ≫= from_slice).

Definition upstream_failure_frame (request_model : option string) (failure : SanitizedUpstreamFailure) : bytes :=
  SseValidator.gateway_failure_frame clock request_model (code failure) (message failure) (parameter failure).

(** ** The Responses stream *)

Definition stream_event (ev : body_event) : SseValidator.upstream_event :=
  match ev with
  | Data chunk => SseValidator.Chunk chunk
  | Broken _ => SseValidator.Interrupted
  | Stalled => SseValidator.IdleTimeout
  end.
Definition validated_body (media_type : option string) (body : list body_event) : list bytes :=
  SseValidator.validated_stream clock SseValidator.MAX_EVENT_BYTES media_type (stream_event <$> body).

Definition proxy_sse_response (upstream : RawResponse) (request_model : option string) : Response :=
  if negb (is_success (raw_status upstream))
  then terminal_sse_stream (raw_headers upstream)
         [Data (upstream_failure_frame request_model
                  (inspect_upstream_failure (raw_status upstream) (raw_body upstream)))]
  else
    let media_type := safe_upstream_media_type (raw_headers upstream) in
    proxy_response 200 (header_insert "content-type" "text/event-stream" (raw_headers upstream))
      (Data <$> validated_body media_type (raw_body upstream)).

Definition FAST_UNAVAILABLE : string :=
  "Fast mode is unavailable for the selected model. Choose a Fast-capable model or restart without --fast; the session is resumable.".
Definition PRESTREAM_FAILURE : string :=
  "The Codex transport failed before streaming began; the request was not replayed and the session is resumable.".

Context (w : World) (b : Backend).

Definition responses (request_headers : HeaderMap) (payload : result StatusCode value) : option Response :=
  match extract_json payload with
  | Err response => Some response
  | Ok request =>
      match prepare_responses_request request with
      | Err message => Some (gateway_error 400 message "invalid_request")
      | Ok request =>
          let request_model := vget_str "model" request in
          outcome ← stream_responses w b request (upstream_request_headers request_headers);
          Some match outcome with
               | Ok upstream => proxy_sse_response upstream request_model
               | Err FastModeUnavailable =>
                   terminal_sse_response []
                     (SseValidator.gateway_failure_frame clock request_model "invalid_request" FAST_UNAVAILABLE None)
               | Err _ =>
                   terminal_sse_response []
                     (SseValidator.gateway_failure_frame clock request_model "invalid_request" PRESTREAM_FAILURE None)
               end
      end
  end.

(** ** Search and browser-open *)

(** The texts of one auxiliary service. *)
Record AuxiliaryTexts := {
  rejected_text : string;
  error_kind : string;
  invalid_text : string;
  unsupported_text : string;
  failed_text : string
}.
Definition auxiliary_answer (texts : AuxiliaryTexts) (outcome : res RawResponse) : Response :=
  match outcome with
  | Ok upstream => proxy_auxiliary_response upstream (rejected_text texts) (error_kind texts)
  | Err (InvalidRequest _) => gateway_error 400 (invalid_text texts) "invalid_request"
  | Err (ProviderUnsupported _) => gateway_error 501 (unsupported_text texts) "provider_unsupported"
  | Err _ => gateway_error 502 (failed_text texts) (error_kind texts)
  end.

Definition search_texts : AuxiliaryTexts :=
  {| rejected_text := "Codex search was rejected by the upstream endpoint.";
     error_kind := "codex_search_error";
     invalid_text := "The search request was invalid.";
     unsupported_text := "Web search is not available with the selected provider.";
     failed_text := "Codex search failed. The session is resumable." |}.
Definition browser_open_texts : AuxiliaryTexts :=
  {| rejected_text := "Codex browser-open was rejected by the upstream endpoint.";
     error_kind := "codex_browser_open_error";
     invalid_text := "The browser-open request was invalid.";
     unsupported_text := "Browser open is not available with the selected provider.";
     failed_text := "Codex browser-open failed. The session is resumable." |}.

Definition search (request_headers : HeaderMap) (payload : result StatusCode value) : option Response :=
  match extract_json payload with
  | Err response => Some response
  | Ok request =>
      auxiliary_answer search_texts <$> backend_search w b request (upstream_request_headers request_headers)
  end.
Definition browser_open (request_headers : HeaderMap) (payload : result StatusCode value) : option Response :=
  match extract_json payload with
  | Err response => Some response
  | Ok request =>
      auxiliary_answer browser_open_texts
        <$> backend_browser_open w b request (upstream_request_headers request_headers)
  end.

(** ** Routes *)

Definition bearer_matches (expected : string) (headers : HeaderMap) : bool :=
  match header_get "authorization" headers ≫= header_to_str with
  | None => false
  | Some value =>
      match strip_prefix "Bearer " value with
      | None => false
      | Some supplied => String.eqb expected supplied
      end
  end.

Definition unauthorized : Response :=
  let response := gateway_error UNAUTHORIZED "Missing or invalid private gateway bearer token." "unauthorized" in
  {| status := Gateway.status response;
     headers := header_insert "www-authenticate" (dq "Bearer realm='muse-codex-gateway'") (Gateway.headers response);
     response_body := response_body response |}.

Inductive Route : Type := Health | Models | Responses | Search | BrowserOpen | Feedback.
(** [Router::new()]; anything else is axum's own answer. *)
Definition route (method : Method) (path : string) : option Route :=
  match method with
  | GET => if String.eqb path "/healthz" then Some Health
           else if String.eqb path "/muse-code/models" then Some Models else None
  | POST => if String.eqb path "/responses" then Some Responses
            else if String.eqb path "/muse-code/search" then Some Search
            else if String.eqb path "/muse-code/browser_open" then Some BrowserOpen
            else if String.eqb path "/muse-code/feedback" then Some Feedback else None
  end.

Definition run_handler (r : Route) (request_headers : HeaderMap) (payload : result StatusCode value) : option Response :=
  match r with
  | Health => Some health
  | Models => Some models
  | Responses => responses request_headers payload
  | Search => search request_headers payload
  | BrowserOpen => browser_open request_headers payload
  | Feedback => Some feedback
  end.

(** A routed request: [require_authorization], then the handler. *)
Definition serve_route (token : string) (r : Route) (request_headers : HeaderMap) (payload : result StatusCode value)
  : option Response :=
  if negb (bearer_matches token request_headers) then Some unauthorized
  else run_handler r request_headers payload.

End Gateway.
