(* ===== verification/GatewayCorrect.v ===== *)
(** * The gateway is a safe and total boundary

    Properties of [Gateway.v] over both backends: who is served, that every accepted
    Responses request ends in exactly one terminal event, what an upstream failure and
    upstream headers let through, and that the Z.ai adapter's failure codes survive the
    gateway's sanitiser. *)

From S2P Require Import Prelude Utf8 Json Errors SseValidator ZaiRequest Responses Catalog Transport TransportCorrect Net Auth Zai.
From S2P Require Import Backend Gateway.
From S2P Require SseCorrect.
From stdpp Require Import options.

(** ** Every call of the backend returns *)

Section Total.
  Context {UP : Upstream} {UR : UrlParser} {SC : SearchCodec} {SJ : SerdeJson} {IC : ItemCodec}.
  Context (w : World) (b : Backend).

Lemma stream_responses_total body extra : exists r, stream_responses w b body extra = Some r.
Proof.
  destruct b as [t|t]; cbn [stream_responses]; [|by eexists]. unfold Transport.stream_responses.
  destruct (prepare_stream _ _ _ _ _) as [request|e]; [|by eexists].
  match goal with |- context [execute_with_401_recovery ?st ?ra ?send ?lock ?rec] =>
    destruct (execute_some st ra send lock rec) as (acts & r & ->) end.
  by eexists.
Qed.
Lemma send_search_total c t body extra : exists r, send_search c t body extra = Some r.
Proof.
  unfold send_search.
  match goal with |- context [execute_with_401_recovery ?st ?ra ?send ?lock ?rec] =>
    destruct (execute_some st ra send lock rec) as (acts & r & ->) end.
  by eexists.
Qed.
Lemma backend_search_total request extra : exists r, backend_search w b request extra = Some r.
Proof.
  destruct b as [t|t]; cbn [backend_search]; [|by eexists]. unfold search_muse_request, Backend.search.
  destruct (search_from_value request) as [q|e]; [|by eexists].
  destruct (to_upstream q) as [body|e]; [apply send_search_total|by eexists].
Qed.
Lemma backend_browser_open_total request extra : exists r, backend_browser_open w b request extra = Some r.
Proof.
  destruct b as [t|t]; cbn [backend_browser_open]; [|by eexists]. unfold browser_open_muse_request.
  destruct (browser_open_body _ _ _) as [body|e]; [apply send_search_total|by eexists].
Qed.
End Total.

(** ** Response headers *)

Definition own_headers : list string := ["content-type"; "cache-control"; "x-content-type-options"].
Definition allowed_header (kv : string * string) : bool :=
  one_of (fst kv) own_headers || is_forwarded_response_header (fst kv).

Lemma header_values_append k k' v h :
  header_values k (header_append k' v h) = header_values k h ++ (if String.eqb k k' then [v] else []).
Proof.
  unfold header_append. rewrite header_values_app. unfold header_values at 2. cbn. by destruct (String.eqb k k').
Qed.

(** The loop that copies the headers passing [p]. *)
Definition copy_headers (p : string -> bool) (init source : HeaderMap) : HeaderMap :=
  foldl (fun response kv => if p (fst kv) then header_append (fst kv) (snd kv) response else response) init source.

Lemma copy_headers_values p init source k :
  header_values k (copy_headers p init source)
  = header_values k init ++ (if p k then header_values k source else []).
Proof.
  unfold copy_headers. revert init. induction source as [|[x v] source IH]; intros init; cbn [foldl fst snd].
  { destruct (p k); by rewrite app_nil_r. }
  rewrite IH. unfold header_values at 4. cbn [List.filter fst].
  destruct (p x) eqn:Ex; [rewrite header_values_append|];
    (destruct (String.eqb_spec k x) as [->|Hne]; [rewrite Ex|destruct (p k)]);
    cbn [fmap list_fmap snd]; rewrite ?app_nil_r, <- ?app_assoc; done.
Qed.
Lemma copy_headers_allowed p init source :
  (forall k, p k = true -> is_forwarded_response_header k = true) ->
  forallb allowed_header init = true -> forallb allowed_header (copy_headers p init source) = true.
Proof.
  intros Hp. unfold copy_headers. revert init. induction source as [|[x v] source IH]; intros init Hi; cbn [foldl fst snd]; [done|].
  apply IH. destruct (p x) eqn:Ex; [|done]. unfold header_append. rewrite forallb_app, Hi. cbn.
  unfold allowed_header. cbn [fst]. by rewrite (Hp x Ex), orb_true_r.
Qed.

Lemma proxy_response_values status h body k :
  header_values k (headers (proxy_response status h body))
  = header_values k [("cache-control", "no-store"); ("x-content-type-options", "nosniff")]
    ++ (if is_forwarded_response_header k then header_values k h else []).
Proof. apply (copy_headers_values is_forwarded_response_header). Qed.

Section Answers.
  Context {UP : Upstream} {UR : UrlParser} {SC : SearchCodec} {SJ : SerdeJson} {IC : ItemCodec} (clock : N).

(** Every answer built here carries only allowed headers, is not cached, and shows of an
    upstream response nothing but the values of forwarded headers. *)
Definition safe_answer (h : HeaderMap) (r : Response) : Prop :=
  forallb allowed_header (headers r) = true
  /\ header_values "cache-control" (headers r) = ["no-store"]
  /\ header_values "x-content-type-options" (headers r) = ["nosniff"]
  /\ forall k, is_forwarded_response_header k = true -> k <> "content-type" ->
       header_values k (headers r) = header_values k h.

Lemma own_not_forwarded k :
  is_forwarded_response_header k = true -> k <> "content-type" -> ~ In k own_headers.
Proof. intros Hk Hne [<-|[<-|[<-|[]]]]; by vm_compute in Hk. Qed.

Lemma header_values_own k l :
  ~ In k own_headers -> forallb (fun kv => one_of (fst kv) own_headers) l = true -> header_values k l = [].
Proof.
  intros Hk. unfold header_values. induction l as [|[x v] l IH]; [done|]. cbn [forallb List.filter fst].
  intros [Hx Hl]%andb_prop. destruct (String.eqb_spec k x) as [->|]; [by apply one_of_spec in Hx|by apply IH].
Qed.

Lemma gateway_error_safe st m k : safe_answer [] (gateway_error st m k).
Proof.
  repeat split. intros x Hx Hne. by apply (header_values_own x), eq_refl; apply own_not_forwarded.
Qed.

Lemma proxy_response_safe st h body : safe_answer h (proxy_response st h body).
Proof.
  split; [by apply copy_headers_allowed|]. split; [rewrite proxy_response_values; by rewrite app_nil_r|].
  split; [rewrite proxy_response_values; by rewrite app_nil_r|]. intros k Hk Hne.
  rewrite proxy_response_values, Hk, (header_values_own k); [done|by apply own_not_forwarded|done].
Qed.

Lemma safe_answer_insert h v r : safe_answer (header_insert "content-type" v h) r -> safe_answer h r.
Proof.
  intros (H1 & H2 & H3 & H4). repeat split; try done. intros k Hk Hne. rewrite H4 by done.
  rewrite header_values_insert. by destruct (String.eqb_spec k "content-type").
Qed.

Lemma proxy_auxiliary_safe u m k : safe_answer (raw_headers u) (proxy_auxiliary_response u m k).
Proof.
  unfold proxy_auxiliary_response. destruct (is_success (raw_status u)); [apply proxy_response_safe|].
  set (p := fun n => negb (String.eqb n "content-type") && is_forwarded_response_header n).
  assert (Hv : forall n, header_values n (copy_headers p (headers (gateway_error (raw_status u) m k)) (raw_headers u))
            = header_values n (headers (gateway_error (raw_status u) m k)) ++ (if p n then header_values n (raw_headers u) else []))
    by (intros; apply copy_headers_values).
  destruct (gateway_error_safe (raw_status u) m k) as (G1 & G2 & G3 & G4). split_and!.
  - apply (copy_headers_allowed p); [|done]. by intros x [_ Hx]%andb_prop.
  - etransitivity; [apply Hv|]. rewrite G2. done.
  - etransitivity; [apply Hv|]. rewrite G3. done.
  - intros x Hx Hne. etransitivity; [apply Hv|]. rewrite G4 by done. unfold p. rewrite Hx.
    by destruct (String.eqb_spec x "content-type").
Qed.

Lemma proxy_sse_safe u m : safe_answer (raw_headers u) (proxy_sse_response clock u m).
Proof.
  unfold proxy_sse_response, terminal_sse_stream.
  destruct (is_success (raw_status u)); cbn [negb]; (eapply safe_answer_insert; apply proxy_response_safe).
Qed.
Lemma terminal_sse_safe h frame : safe_answer h (terminal_sse_response h frame).
Proof. eapply safe_answer_insert. apply proxy_response_safe. Qed.

(** ** Streams *)

(** Frames that end in exactly one terminal event: kept events that leave the stream
    open, then one that closes it. *)
Definition complete_stream (frames : list bytes) : Prop :=
  exists kept last, frames = kept ++ [last]
  /\ Forall (fun f => open_frame f = true /\ forwarded f = true) kept
  /\ closing_frame clock last.
Definition streams_to_end (r : Response) : Prop :=
  status r = 200%N /\ header_values "content-type" (headers r) = ["text/event-stream"]
  /\ exists frames, response_body r = Data <$> frames /\ complete_stream frames.

Lemma validated_complete media body : complete_stream (validated_body clock media body).
Proof.
  destruct (SseCorrect.validated_stream_closed clock SseValidator.MAX_EVENT_BYTES media (stream_event <$> body))
    as (frames & last & Hrun & Hopen & Hc).
  exists (List.filter forwarded frames), last. split; [exact Hrun|]. split.
  - apply List.Forall_forall. intros f [Hin Hf]%filter_In. rewrite List.Forall_forall in Hopen. auto.
  - destruct Hc as [(rest & ev & _ & H)|[_ H]]; [left; by exists ev|by right].
Qed.
Lemma failure_complete m c msg p : complete_stream [SseValidator.gateway_failure_frame clock m c msg p].
Proof.
  exists [], (SseValidator.gateway_failure_frame clock m c msg p). split; [done|]. split; [constructor|].
  right. by eexists _, _, _, _, _, _.
Qed.

Lemma sse_content_type st h body :
  header_values "content-type" (headers (proxy_response st (header_insert "content-type" "text/event-stream" h) body))
  = ["text/event-stream"].
Proof. rewrite proxy_response_values. cbn [app]. by rewrite header_values_insert. Qed.

Lemma terminal_sse_ends h m c msg p :
  streams_to_end (terminal_sse_response h (SseValidator.gateway_failure_frame clock m c msg p)).
Proof.
  split; [done|]. split; [apply sse_content_type|].
  eexists [_]. split; [reflexivity|]. apply failure_complete.
Qed.
Lemma proxy_sse_ends u m : streams_to_end (proxy_sse_response clock u m).
Proof.
  unfold proxy_sse_response. destruct (is_success (raw_status u)); cbn [negb].
  - split; [done|]. split; [apply sse_content_type|]. eexists. split; [reflexivity|]. apply validated_complete.
  - apply terminal_sse_ends.
Qed.
End Answers.

(** ** Who is served *)

Lemma header_to_str_some v s : header_to_str v = Some s <-> s = v /\ header_to_str v = Some v.
Proof. unfold header_to_str. destruct (str_forallb _ v); [|by split; [|intros [_ ?]]]. split; [intros [= ->]|intros [-> _]]; done. Qed.

Lemma bearer_matches_spec token hs :
  header_to_str token = Some token ->
  bearer_matches token hs = bool_decide (header_get "authorization" hs = Some ("Bearer " +:+ token)).
Proof.
  intros Ht. symmetry. unfold bearer_matches.
  destruct (header_get "authorization" hs) as [v|]; [|done]. cbn [mbind option_bind].
  destruct (strip_prefix "Bearer " v) as [s|] eqn:Es.
  - apply strip_prefix_app in Es as ->.
    destruct (header_to_str ("Bearer " +:+ s)) as [v|] eqn:Ev.
    + apply header_to_str_some in Ev as [-> _].
      assert (strip_prefix "Bearer " ("Bearer " +:+ s) = Some s) as -> by (by apply strip_prefix_app).
      destruct (String.eqb_spec token s) as [->|Hne]; [by apply bool_decide_eq_true|].
      apply bool_decide_eq_false. intros [= Heq]. by apply Hne.
    + apply bool_decide_eq_false. intros [= Heq]. change (s = token) in Heq. subst s.
      unfold header_to_str in Ht, Ev. change (str_forallb ?p ("Bearer " +:+ token)) with (str_forallb p token) in Ev.
      by destruct (str_forallb _ token).
  - assert (Hne : v <> "Bearer " +:+ token).
    { intros Hv. by rewrite (proj2 (strip_prefix_app _ _ _) Hv) in Es. }
    rewrite bool_decide_eq_false_2 by congruence.
    destruct (header_to_str v) as [v'|] eqn:Ev; [|done]. apply header_to_str_some in Ev as [-> _]. by rewrite Es.
Qed.

(** ** What a failure lets through *)

(** The two fields of a failure document the sanitiser reads. *)
Definition reported {SJ : SerdeJson} (body : list body_event) : option string * option string :=
  let error := default JNull ((read_failure_body [] body ≫= from_slice) ≫= vget "error") in
  (vget_str "code" error, vget_str "param" error).

Definition canonical_details {SJ : SerdeJson} (body : list body_event) : option value :=
  let body := default [] (ok (read_all body)) in
  if (blen body <=? MAX_ERROR_RESPONSE_BYTES)%N then from_slice body else None.

Section Failures.
  Context {SJ : SerdeJson}.

Lemma inspect_reported status body :
  inspect_upstream_failure status body
  = let '(c, p) := reported body in
    let parameter := opt_filter safe_error_parameter p in
    {| code := failure_code status c;
       message := failure_message (failure_code status c) parameter status; parameter := parameter |}.
Proof. unfold inspect_upstream_failure, reported. by destruct (read_failure_body [] body ≫= from_slice). Qed.

(** The code of a failure that reports none of the list. *)
Definition status_code (status : StatusCode) : string :=
  if (status =? 429)%N then "rate_limit_exceeded"
  else if (status =? 401)%N || (status =? 403)%N then "invalid_api_key" else "invalid_request".
Lemma status_code_allowed status : one_of (status_code status) SseCorrect.failure_codes = true.
Proof. unfold status_code. by repeat case_match. Qed.
Lemma failure_code_announced status c : failure_code status c = SseCorrect.announced (status_code status) c.
Proof.
  destruct c as [c|]; [|done]. unfold failure_code, SseCorrect.announced, one_of, SseCorrect.failure_codes. cbn [existsb].
  destruct (String.eqb_spec c "context_length_exceeded") as [->|]; [done|].
  destruct (String.eqb_spec c "rate_limit_exceeded") as [->|]; [done|].
  destruct (String.eqb_spec c "usage_limit_reached") as [->|]; [done|].
  destruct (String.eqb_spec c "invalid_api_key") as [->|]; [done|].
  destruct (String.eqb_spec c "model_not_found") as [->|]; [done|].
  destruct (String.eqb_spec c "insufficient_quota") as [->|]; [done|].
  by destruct (String.eqb_spec c "invalid_request") as [->|].
Qed.
Lemma inspect_announced status body :
  let code := SseCorrect.announced (status_code status) (fst (reported body)) in
  let parameter := opt_filter SseCorrect.plain_parameter (snd (reported body)) in
  inspect_upstream_failure status body = {| code := code; message := failure_message code parameter status; parameter := parameter |}.
Proof.
  rewrite inspect_reported. destruct (reported body) as [c p]. cbn [fst snd]. cbv zeta. rewrite failure_code_announced.
  assert (opt_filter safe_error_parameter p = opt_filter SseCorrect.plain_parameter p) as ->; [|done].
  apply SseCorrect.opt_filter_ext. intros q. unfold safe_error_parameter, SseCorrect.plain_parameter. by rewrite SseCorrect.nonempty_length.
Qed.

(** The code of a canonical Z.ai failure reads back as itself. *)
Lemma failure_code_canonical status c :
  one_of c SseCorrect.failure_codes = true -> failure_code status (Some c) = c.
Proof. intros H%one_of_spec. cbn in H. decompose sum H; by subst. Qed.

Lemma classify_failure_allowed status details :
  one_of (classify_failure status details) SseCorrect.failure_codes = true.
Proof. unfold classify_failure. repeat case_match; done. Qed.
End Failures.

(** ** Properties *)

Section Gateway.
  Context {UP : Upstream} {UR : UrlParser} {SC : SearchCodec} {SJ : SerdeJson} {IC : ItemCodec}.

(** C7: Only the holder of the private token is served. For a token in header characters,
    a routed request reaches its handler exactly when its first [Authorization] header is
    [Bearer] and the token, byte for byte; otherwise the answer is one fixed 401, which
    depends on neither the token, the backend, the clock, the route nor the body. *)
Theorem gateway_bearer_guard (clock : N) (w : World) (b : Backend) (token : string) (r : Route)
    (hs : HeaderMap) (payload : result StatusCode value) (Htoken : header_to_str token = Some token) :
  serve_route clock w b token r hs payload
  = (if decide (header_get "authorization" hs = Some ("Bearer " +:+ token))
     then run_handler clock w b r hs payload else Some unauthorized)
  /\ status unauthorized = 401%N.
Proof.
  split; [|done]. unfold serve_route. rewrite bearer_matches_spec by done.
  rewrite bool_decide_decide. by destruct (decide _).
Qed.

(** C37: Every Responses request is answered, whatever the backend and its network do. A
    body that is not a streaming JSON object is refused with a 4xx document before the
    backend is called; any other request gets status 200 and an event stream of validated
    events that leave the stream open, followed by exactly one that ends it: the
    upstream's own completed or incomplete event, or a failure built by the gateway. *)
Theorem responses_always_end (clock : N) (w : World) (b : Backend) (hs : HeaderMap) (payload : result StatusCode value) :
  match payload with
  | Err st => exists message, responses clock w b hs payload = Some (gateway_error st message "invalid_request")
  | Ok request =>
      match prepare_responses_request request with
      | Err message => responses clock w b hs payload = Some (gateway_error 400 message "invalid_request")
      | Ok _ => exists r, responses clock w b hs payload = Some r /\ streams_to_end clock r
      end
  end.
Proof.
  unfold responses. destruct payload as [request|st]; cbn [extract_json map_err]; [|by eexists].
  destruct (prepare_responses_request request) as [prepared|message]; [|done].
  destruct (stream_responses_total w b prepared (upstream_request_headers hs)) as [outcome ->].
  cbn [mbind option_bind]. eexists. split; [reflexivity|].
  destruct outcome as [u|e]; [apply proxy_sse_ends|]. destruct e; apply terminal_sse_ends.
Qed.

(** C17: A rejected upstream response shows nothing of its body but an error code from a
    list of six and a parameter of safe characters. (1) A Responses request is answered with
    status 200 and exactly one event, a failure frame built by the gateway: its code is the
    upstream's own when listed, else one that follows from the status; its message is a text
    of the gateway made of that code, that parameter and the status; its parameter is the
    upstream's only when it is at most 128 characters long and made of letters, digits and
    [_-.[]]. (2) So two failures of one status and headers that announce the same code and
    such parameter give the same answer. (3) The search and browser-open routes answer with
    the upstream's status and a fixed document, whatever the body. *)
Theorem upstream_failure_sanitized (clock : N) (st : StatusCode) (h : HeaderMap) (m : option string)
    (Hst : is_success st = false) :
  let failed body := {| raw_status := st; raw_headers := h; raw_body := body |} in
  let code_of body := SseCorrect.announced (status_code st) (fst (reported body)) in
  let parameter_of body := opt_filter SseCorrect.plain_parameter (snd (reported body)) in
  (forall body, let r := proxy_sse_response clock (failed body) m in
     status r = 200%N
     /\ response_body r = [Data (SseValidator.gateway_failure_frame clock m (code_of body)
                                  (failure_message (code_of body) (parameter_of body) st) (parameter_of body))]
     /\ one_of (code_of body) SseCorrect.failure_codes = true)
  /\ (forall body body', code_of body = code_of body' -> parameter_of body = parameter_of body' ->
        proxy_sse_response clock (failed body) m = proxy_sse_response clock (failed body') m)
  /\ (forall body msg k, let r := proxy_auxiliary_response (failed body) msg k in
        status r = st /\ response_body r = [Data (to_bytes (to_string (error_document msg k)))]
        /\ forall body', proxy_auxiliary_response (failed body') msg k = r).
Proof.
  intros failed code_of parameter_of.
  assert (Hr : forall body, proxy_sse_response clock (failed body) m
    = terminal_sse_stream h [Data (SseValidator.gateway_failure_frame clock m (code_of body)
                                     (failure_message (code_of body) (parameter_of body) st) (parameter_of body))]).
  { intros body. unfold proxy_sse_response, failed. cbn [raw_status raw_headers raw_body]. rewrite Hst, inspect_announced. done. }
  split_and!.
  - intros body r. unfold r. rewrite Hr. split; [done|]. split; [done|]. apply SseCorrect.announced_allowed, status_code_allowed.
  - intros body body' Hcode Hparam. by rewrite !Hr, Hcode, Hparam.
  - intros body msg k r. unfold r, proxy_auxiliary_response, failed. cbn [raw_status raw_headers]. by rewrite Hst.
Qed.

(** The headers of the upstream response a route forwards, none when there is none. *)
Definition forwarded_from (w : World) (b : Backend) (r : Route) (hs : HeaderMap) (h : HeaderMap) : Prop :=
  h = [] \/ exists request u, h = raw_headers u /\
    match r with
    | Responses => stream_responses w b request (upstream_request_headers hs) = Some (Ok u)
    | Search => backend_search w b request (upstream_request_headers hs) = Some (Ok u)
    | BrowserOpen => backend_browser_open w b request (upstream_request_headers hs) = Some (Ok u)
    | _ => False
    end.

Lemma allowed_absent k h :
  forallb allowed_header h = true -> allowed_header (k, EmptyString) = false -> header_values k h = [].
Proof.
  unfold header_values. induction h as [|[x v] h IH]; [done|]. cbn [forallb List.filter fst].
  intros [Hx Hh]%andb_prop Hk. destruct (String.eqb_spec k x) as [->|]; [|by apply IH].
  unfold allowed_header in *. cbn [fst] in *. congruence.
Qed.

Lemma auxiliary_safe texts outcome :
  safe_answer (match outcome with Ok u => raw_headers u | Err _ => [] end) (auxiliary_answer texts outcome).
Proof. destruct outcome as [u|e]; [apply proxy_auxiliary_safe|]. destruct e; apply gateway_error_safe. Qed.

Lemma responses_answer w b clock hs payload resp :
  responses clock w b hs payload = Some resp -> exists h, forwarded_from w b Responses hs h /\ safe_answer h resp.
Proof.
  unfold responses. destruct (extract_json payload) as [request|e] eqn:Ee.
  - destruct (prepare_responses_request request) as [prepared|msg].
    + destruct (stream_responses w b prepared _) as [outcome|] eqn:Es; [|done]. intros [= <-].
      destruct outcome as [u|e]; [|exists []; split; [by left|]; destruct e; apply terminal_sse_safe].
      exists (raw_headers u). split; [right; by exists prepared, u|apply proxy_sse_safe].
    + intros [= <-]. exists []. split; [by left|apply gateway_error_safe].
  - intros [= <-]. destruct payload as [|st]; [done|]. injection Ee as <-. exists [].
    split; [by left|apply gateway_error_safe].
Qed.
Lemma auxiliary_answer_from w b r hs texts payload call resp :
  (forall request u, call request = Some (Ok u) -> forwarded_from w b r hs (raw_headers u)) ->
  match extract_json payload with
  | Err response => Some response
  | Ok request => auxiliary_answer texts <$> call request
  end = Some resp -> exists h, forwarded_from w b r hs h /\ safe_answer h resp.
Proof.
  intros Hcall. destruct payload as [request|st]; cbn [extract_json map_err].
  - destruct (call request) as [outcome|] eqn:Ec; [|done]. intros [= <-]. eexists. split; [|apply auxiliary_safe].
    destruct outcome as [u|e]; [by eapply Hcall|by left].
  - intros [= <-]. exists []. split; [by left|apply gateway_error_safe].
Qed.

Definition provider_route (r : Route) : bool :=
  match r with Responses | Search | BrowserOpen => true | _ => false end.

(** Response headers pass an allow-list. Every answer of the routes that reach a
    provider is uncached, and carries, besides the gateway's own content type and
    protection headers, exactly the upstream's values of the forwarded names (rate
    limits, request ids, model and usage reports); a cookie, a credential or any other
    header of the upstream never reaches stock Muse. *)
Theorem response_headers_allowed (clock : N) (w : World) (b : Backend) (r : Route) (hs : HeaderMap)
    (payload : result StatusCode value) (resp : Response) (Hroute : provider_route r = true)
    (Hrun : run_handler clock w b r hs payload = Some resp) :
  (exists h, forwarded_from w b r hs h /\ safe_answer h resp)
  /\ Forall (fun k => header_values k (headers resp) = [])
       ["set-cookie"; "authorization"; "proxy-authenticate"; "x-api-key"; "location"; "server"; "www-authenticate"].
Proof.
  assert (H : exists h, forwarded_from w b r hs h /\ safe_answer h resp).
  { destruct r; try done; cbn [run_handler] in Hrun.
    - by apply (responses_answer w b clock hs payload).
    - eapply auxiliary_answer_from, Hrun. intros request u Hu. right. by exists request, u.
    - eapply auxiliary_answer_from, Hrun. intros request u Hu. right. by exists request, u. }
  split; [done|]. destruct H as (h & _ & Hs & _).
  repeat (constructor; [by apply allowed_absent|]). constructor.
Qed.

(** The Z.ai adapter and the gateway agree on failures. Whatever body Z.ai rejects a
    request with, the code its classifier chose is the code stock Muse receives, with no
    parameter, although it crosses the gateway's sanitiser as JSON text. *)
Theorem zai_failure_code_survives {SJL : SerdeJsonLaws SJ} (st : StatusCode) (body : list body_event)
    (Hsize : forall c, one_of c SseCorrect.failure_codes = true ->
       (blen (to_bytes (to_string (canonical_document c))) <= MAX_UPSTREAM_ERROR_BYTES)%N) :
  let rejected := canonical_failure st body in
  let failure := inspect_upstream_failure (raw_status rejected) (raw_body rejected) in
  raw_status rejected = st /\ parameter failure = None
  /\ code failure = classify_failure st (canonical_details body).
Proof.
  intros rejected failure. unfold failure, rejected, canonical_failure. cbn [raw_status raw_body].
  fold (canonical_details body).
  pose proof (classify_failure_allowed st (canonical_details body)) as Hc.
  set (c := classify_failure st (canonical_details body)) in *. specialize (Hsize c Hc).
  rewrite inspect_reported. unfold reported. cbn [read_failure_body app].
  replace (MAX_UPSTREAM_ERROR_BYTES <? blen [] + blen (to_bytes (to_string (canonical_document c))))%N with false
    by (symmetry; apply N.ltb_ge; exact Hsize).
  cbn [app mbind option_bind]. rewrite from_slice_to_string by exact_tac.
  unfold canonical_document. cbn [option_bind]. autorewrite with muse. cbn [last_get String.eqb Ascii.eqb Bool.eqb default from_option Datatypes.id].
  autorewrite with muse. cbn.
  split; [done|]. split; [done|]. by apply failure_code_canonical.
Qed.
End Gateway.

(** ** Witnesses *)

Section Witness.
Let up : Upstream := {|
  header_value := str_forallb (in_range 32 126);
  api_provider := fun _ _ => Err "";
  append_pair := fun k v url => url;
  get_codex_user_agent := "codex"; MUSE_CODEX_USER_AGENT := "muse-codex/1"; process_id := 7 |}.
Let url (s : string) : Url := {| url_str := s; scheme := "https"; host_str := Some "api.z.ai"; username := "";
  password := None; url_query := None; fragment := None |}.
Let urls : UrlParser := {| Url_parse := fun s => Ok (url s) |}.
Let searches : SearchCodec := {| search_from_value := fun _ => Err "missing field" |}.
Let codec : ItemCodec := {|
  ResponseItem := value; item_from_value := fun v => Ok v; item_to_value := fun v => Ok v;
  is_other := fun _ => false; has_unprefixed_id := fun _ => false; clear_id := fun v => v;
  sha256 := fun b => take 32 b |}.
Let zai : Backend := ZaiBackend {| zai_api_key := "key"; zai_base_url := url "https://api.z.ai/v4/" |}.
Let world (answer : RawResponse) : World := {|
  world_codex := {| stored_before := None; stored_at := fun _ => None;
                    codex_network := fun _ _ => Err read_timeout_error; codex_models := fun _ _ => Err read_timeout_error;
                    codex_refresh_lock := Ok tt; codex_recovery := [] |};
  world_zai := fun _ => Ok answer; world_status_text := fun s => pretty s; world_sequence := 1 |}.
Let failing (text : string) : list body_event :=
  [Data (to_bytes (to_string (json_obj [("error", json_obj [("code", JString "1302"); ("message", JString text)])])))].
Let answer (body : list body_event) : RawResponse :=
  {| raw_status := 429; raw_headers := [("set-cookie", "s"); ("x-request-id", "r1")]; raw_body := body |}.
Let request : value := json_obj [("model", JString "glm-4.7"); ("input", JString "hi")].
Let bearer : HeaderMap := [("authorization", "Bearer secret")].

Lemma gateway_bearer_guard_witness :
  header_to_str "secret" = Some "secret"
  /\ serve_route (UP:=up) (UR:=urls) (SC:=searches) (IC:=codec) 0 (world (answer [])) zai "secret" Search bearer (Ok request)
     = Some (gateway_error 501 "Web search is not available with the selected provider." "provider_unsupported")
  /\ serve_route (UP:=up) (UR:=urls) (SC:=searches) (IC:=codec) 0 (world (answer [])) zai "other" Search bearer (Ok request)
     = Some unauthorized.
Proof.
  assert (H1 : header_to_str "secret" = Some "secret") by reflexivity.
  assert (H2 : header_to_str "other" = Some "other") by reflexivity. split; [exact H1|].
  destruct (gateway_bearer_guard (UP:=up) (UR:=urls) (SC:=searches) (IC:=codec) 0 (world (answer [])) zai _ Search bearer (Ok request) H1)
    as [-> _].
  destruct (gateway_bearer_guard (UP:=up) (UR:=urls) (SC:=searches) (IC:=codec) 0 (world (answer [])) zai _ Search bearer (Ok request) H2)
    as [-> _].
  split; vm_compute; reflexivity.
Defined.

Lemma upstream_failure_witness :
  proxy_sse_response 0 (answer (failing "secret one")) None = proxy_sse_response 0 (answer (failing "another")) None
  /\ response_body (proxy_sse_response 0 (answer (failing "secret one")) None)
     = [Data (SseValidator.gateway_failure_frame 0 None "rate_limit_exceeded"
                "The Codex endpoint reported a rate limit (HTTP 429); the request was not replayed and the session is resumable." None)].
Proof.
  destruct (upstream_failure_sanitized 0 429 [("set-cookie", "s"); ("x-request-id", "r1")] None eq_refl) as (Hone & Hsame & _).
  split; [exact (Hsame (failing "secret one") (failing "another") ltac:(vm_compute; reflexivity) ltac:(vm_compute; reflexivity))|].
  destruct (Hone (failing "secret one")) as (_ & Hbody & _). etransitivity; [exact Hbody|]. vm_compute. reflexivity.
Defined.

Let aux : Response := auxiliary_answer browser_open_texts (Err (ProviderUnsupported "browser open")).
Lemma response_headers_witness :
  run_handler (UP:=up) (UR:=urls) (SC:=searches) (IC:=codec) 0 (world (answer [])) zai BrowserOpen bearer (Ok request) = Some aux
  /\ header_values "set-cookie" (headers aux) = [].
Proof.
  assert (H : run_handler (UP:=up) (UR:=urls) (SC:=searches) (IC:=codec) 0 (world (answer [])) zai BrowserOpen bearer (Ok request) = Some aux)
    by (vm_compute; reflexivity).
  split; [exact H|].
  destruct (response_headers_allowed (UP:=up) (UR:=urls) (SC:=searches) (IC:=codec) 0 (world (answer [])) zai BrowserOpen bearer (Ok request)
              aux eq_refl H) as [_ Hf].
  exact (Forall_inv Hf).
Defined.

Lemma zai_failure_code_witness :
  code (inspect_upstream_failure 500 (raw_body (canonical_failure 500 (failing "busy")))) = "rate_limit_exceeded".
Proof.
  assert (Hsize : forall c, one_of c SseCorrect.failure_codes = true ->
       (blen (to_bytes (to_string (canonical_document c))) <= MAX_UPSTREAM_ERROR_BYTES)%N).
  { intros c H%one_of_spec. cbn in H. decompose sum H; subst; try done; vm_compute; discriminate. }
  destruct (zai_failure_code_survives 500 (failing "busy") Hsize) as (_ & _ & Hc).
  transitivity (classify_failure 500 (canonical_details (failing "busy"))); [exact Hc|vm_compute; reflexivity].
Defined.
End Witness.
