(* ===== verification/GatewayMain.v ===== *)
(** * Starting the gateway

    Models [crates/muse-codex-gateway/src/main.rs] and the start of [run] in
    [server.rs]: the checks of the arguments, the choice of the backend, the catalog
    that must load before readiness, the readiness document, and the code a failed start
    is reported with. An [anyhow::Error] is the chain of its causes, outermost first.

    What runs from then on, the watchdog of the parent and the shutdown, is in
    [Lifetime.v]. *)

From S2P Require Import Prelude Utf8 Json Errors ZaiRequest Responses Catalog Transport Net Auth Zai Backend Gateway.
From stdpp Require Import options.

(** ** Errors *)

Inductive cause : Type :=
  | Elapsed
  | TransportError (e : Error)
  | Message (why : string).
Abbreviation anyhow := (list cause).

(** [.context(why)] *)
Definition context {A} (why : string) (r : result anyhow A) : result anyhow A := map_err (cons (Message why)) r.
(** [?] on a transport result. *)
Definition transport {A} (r : res A) : result anyhow A := map_err (fun e => [TransportError e]) r.
Definition bail {A} (why : string) : result anyhow A := Err [Message why].

Inductive StartupErrorCode : Type :=
  | AuthenticationRequired
  | AuthenticationFailed
  | CustomBaseUrlNeedsApiKey
  | BaseUrlInvalid
  | CredentialStoreUnavailable
  | CatalogRateLimited
  | CatalogRejected
  | CatalogInvalid
  | CatalogTimeout
  | NetworkUnavailable
  | ProviderOptionUnsupported
  | GatewayStartFailed.

(** [rename_all = "snake_case"] of the source's names. *)
Definition code_name (c : StartupErrorCode) : string :=
  match c with
  | AuthenticationRequired => "authentication_required"
  | AuthenticationFailed => "authentication_failed"
  | CustomBaseUrlNeedsApiKey => "custom_base_url_requires_api_key"
  | BaseUrlInvalid => "invalid_base_url"
  | CredentialStoreUnavailable => "credential_store_unavailable"
  | CatalogRateLimited => "catalog_rate_limited"
  | CatalogRejected => "catalog_rejected"
  | CatalogInvalid => "catalog_invalid"
  | CatalogTimeout => "catalog_timeout"
  | NetworkUnavailable => "network_unavailable"
  | ProviderOptionUnsupported => "provider_option_unsupported"
  | GatewayStartFailed => "gateway_start_failed"
  end.

(** The match on the first transport error of the chain. *)
Definition transport_error_code (e : Error) : StartupErrorCode :=
  match e with
  | NotAuthenticated => AuthenticationRequired
  | Authentication _ | UnsupportedAuthMode | EmptyApiKey | ApiKeyTooLong _ | ApiKeyNotUtf8
  | ApiKeyContainsWhitespace | ApiKeyContainsControlCharacters => AuthenticationFailed
  | CustomBaseUrlRequiresApiKey => CustomBaseUrlNeedsApiKey
  | InvalidBaseUrl => BaseUrlInvalid
  | DataDirectoryUnavailable | InvalidAuthHome _ | CredentialRefreshLock _ | Io _ => CredentialStoreUnavailable
  | Errors.Upstream status _ =>
      if (status =? UNAUTHORIZED)%N || (status =? FORBIDDEN)%N then AuthenticationFailed
      else if (status =? TOO_MANY_REQUESTS)%N then CatalogRateLimited
      else if is_client_error status then CatalogRejected
      else NetworkUnavailable
  | Http _ => NetworkUnavailable
  | InvalidUpstreamResponse _ => CatalogInvalid
  | ZaiNotAuthenticated => AuthenticationRequired
  | Keyring _ => CredentialStoreUnavailable
  | ProviderUnsupported _ => ProviderOptionUnsupported
  | InvalidRequest _ | FastModeUnavailable | InvalidHeader _ | Provider _ | HttpClient _ => GatewayStartFailed
  end.
Fixpoint first_transport_error (error : anyhow) : option Error :=
  match error with
  | [] => None
  | TransportError e :: _ => Some e
  | _ :: error' => first_transport_error error'
  end.
Definition is_elapsed (c : cause) : bool := match c with Elapsed => true | _ => false end.
Definition classify_startup_error (error : anyhow) : StartupErrorCode :=
  if existsb is_elapsed error then CatalogTimeout
  else match first_transport_error error with
       | Some e => transport_error_code e
       | None => GatewayStartFailed
       end.

(** ** Arguments *)

Inductive GatewayProvider : Type := ProviderCodex | ProviderZai.

(** An IPv4 or IPv6 socket address; an IPv6 one keeps its displayed text. *)
Inductive SocketAddr : Type :=
  | V4 (a b c d port : N)
  | V6 (loopback : bool) (shown : string).
Definition is_loopback (addr : SocketAddr) : bool :=
  match addr with V4 a _ _ _ _ => (a =? 127)%N | V6 loopback _ => loopback end.
Definition addr_text (addr : SocketAddr) : string :=
  match addr with
  | V4 a b c d port =>
      pretty a +:+ "." +:+ pretty b +:+ "." +:+ pretty c +:+ "." +:+ pretty d +:+ ":" +:+ pretty port
  | V6 _ shown => shown
  end.

Record ServeArgs := {
  bind : SocketAddr;
  parent_pid : N;
  api_key_stdin : bool;
  upstream_base_url : option Url;
  fast : bool;
  serve_provider : GatewayProvider
}.

(** What [kill(pid, 0)] answers for a process id. *)
Inductive KillOutcome : Type :=
  | Delivered
  | NotPermitted
  | NoSuchProcess
  | OtherKillError.
Definition i32_modulus : N := 2 ^ 31.
(** [pid_t::try_from] fails from 2^31 on. *)
Definition process_exists (kill_zero : N -> KillOutcome) (pid : N) : bool :=
  (pid <? i32_modulus)%N && match kill_zero pid with Delivered | NotPermitted => true | _ => false end.

(** What starting meets outside: the process table, whether the watchdog's thread starts,
    standard input, the isolated home, the HTTP client, the credential stores, the random token, whether the catalog's
    time limit runs out, and the listener. *)
Record Surroundings := {
  kill_zero : N -> KillOutcome;
  thread_spawned : result string unit;
  stdin : result string bytes;
  auth_config : res unit;
  client_headers : HeaderMap;
  build_client : ClientSettings -> result string unit;
  codex_stored : option CodexAuth;
  zai_loaded : res (option string);
  random : result string bytes;
  catalog_timed_out : bool;
  listen : SocketAddr -> result string SocketAddr
}.

(** [base64]'s [URL_SAFE_NO_PAD] encoder, and the decoders the launcher tries. *)
Class Base64 := {
  encode_url_safe : bytes -> string;
  decode_url_safe_no_pad : string -> option bytes;
  decode_url_safe : string -> option bytes
}.

Record ReadyFile := {
  ready_schema : N;
  ready_provider : string;
  ready_base_url : string;
  ready_token : string;
  ready_default_model : string;
  ready_models : list ModelInfo
}.

Section Start.
  Context {UP : Upstream} {UR : UrlParser} {SJ : SerdeJson} {CC : CatalogCodec} {B64 : Base64}.
  Context (env : Surroundings).

(** [start_parent_exit_watchdog], up to the thread. *)
Definition start_parent_exit_watchdog (parent_pid : N) : result anyhow unit :=
  reject (negb (process_exists (kill_zero env) parent_pid)) [Message "--parent-pid must name a live process"];;
  map_err (fun why => [Message "start launcher-liveness watchdog"; Message why]) (thread_spawned env).

Definition http_client : res unit := build_http_client (client_headers env) (build_client env).
(** [serve], up to the backend. *)
Definition serve_backend (args : ServeArgs) : result anyhow Backend :=
  reject (negb (is_loopback (bind args)))
         [Message "refusing to expose the private gateway on a non-loopback address"];;
  reject (parent_pid args =? 0)%N [Message "--parent-pid must be a live process id"];;
  start_parent_exit_watchdog (parent_pid args);;
  invocation_key ← (if api_key_stdin args
                    then Some <$> map_err (fun why => [Message why]) (read_secret_line (stdin env)) else Ok None);
  transport (auth_config env);;
  match serve_provider args with
  | ProviderCodex =>
      t ← context "initialize Codex transport"
            (transport (Transport_new (codex_stored env) http_client invocation_key
                          (upstream_base_url args) (fast args)));
      Ok (Codex t)
  | ProviderZai =>
      reject (fast args) [TransportError (ProviderUnsupported "OpenAI Fast mode")];;
      t ← context "initialize Z.ai transport"
            (transport (ZaiTransport_new (zai_loaded env) http_client invocation_key (upstream_base_url args)));
      Ok (ZaiBackend t)
  end.

Definition generate_token : result anyhow string :=
  encode_url_safe <$> map_err (fun why => [Message "generate loopback bearer token"; Message why]) (random env).

(** [tokio::time::timeout(.., backend.list_models())] *)
Definition load_catalog (w : World) (BUNDLED : bytes) (zai_skip : option string) (b : Backend)
  : option (result anyhow (list ModelInfo * Backend)) :=
  if catalog_timed_out env
  then Some (Err [Message "the upstream model catalog timed out before gateway readiness"; Elapsed])
  else transport <$> backend_list_models w b BUNDLED zai_skip.

(** [run], up to the readiness document. *)
Definition run (w : World) (BUNDLED : bytes) (zai_skip : option string) (addr : SocketAddr) (b : Backend)
  : option (result anyhow (ReadyFile * Backend)) :=
  match generate_token with
  | Err e => Some (Err e)
  | Ok token =>
      catalog ← load_catalog w BUNDLED zai_skip b;
      Some ('(models, b) ← catalog;
            default_model ← ok_or (model_id <$> Prelude.find is_default models)
                              [Message "the upstream model catalog has no default model"];
            address ← map_err (fun why => [Message ("bind private gateway to " +:+ addr_text addr); Message why])
                              (listen env addr);
            reject (negb (is_loopback address))
                   [Message "private gateway resolved to a non-loopback address"];;
            Ok ({| ready_schema := READY_SCHEMA_VERSION; ready_provider := provider b;
                   ready_base_url := "http://" +:+ addr_text address; ready_token := token;
                   ready_default_model := default_model; ready_models := models |}, b))
  end.

(** [serve_with_error_reporting], up to the file it publishes: readiness or a code. *)
Definition serve (w : World) (BUNDLED : bytes) (zai_skip : option string) (args : ServeArgs)
  : option (result StartupErrorCode (ReadyFile * Backend)) :=
  map_err classify_startup_error <$>
    match serve_backend args with
    | Err e => Some (Err e)
    | Ok b => run w BUNDLED zai_skip (bind args) b
    end.

End Start.
