(* ===== verification/CodexLogin.v ===== *)
(** * Signing in to Codex, and the gateway's [auth] command

    Models [AuthConfig::manager] and [server_options], [login], [login_with_prompt_handler],
    [logout], [set_api_key], [set_api_key_from_reader] and [status] of
    [crates/codex-transport/src/auth.rs], and [auth], [print_auth_status] and the arguments
    of the [auth] subcommand in [crates/muse-codex-gateway/src/main.rs].

    The [codex_login] crate is the class [CodexLogin]: each of its calls acts on a world
    [W], which holds the keyring, the browser and the sign-in service. A command is a
    computation over the world and the lines it has printed. *)

From S2P Require Import Prelude Utf8 Paths Json Errors ZaiRequest Auth GatewayMain.
From stdpp Require Import options.

(** ** The interface of [codex_login] *)

Inductive AuthCredentialsStoreMode : Type := FileStore | KeyringStoreMode | AutoStore | EphemeralStore.
(** The kinds of keyring backend and of outbound route; the source uses one of each. *)
Inductive AuthKeyringBackendKind : Type := Direct | OtherBackend (name : string).
Inductive AuthRouteConfig : Type := ReqwestDefault | OtherRoute (name : string).

(** The arguments of [AuthManager::shared]. *)
Record ManagerOptions := {
  manager_home : path;
  enable_codex_api_key_env : bool;
  manager_store : AuthCredentialsStoreMode;
  manager_workspace : option string;
  chatgpt_base_url : option string;
  manager_backend : AuthKeyringBackendKind;
  manager_route : AuthRouteConfig
}.
Record ServerOptions := {
  options_home : path;
  client_id : string;
  options_workspace : option string;
  options_store : AuthCredentialsStoreMode;
  options_backend : AuthKeyringBackendKind;
  options_route : AuthRouteConfig;
  open_browser : bool
}.
Record DeviceCode := { verification_url : string; user_code : string }.
(** The part of [CodexAuth] that [status] reads; the plan is what [serde_json] makes of it. *)
Record Account := {
  account_is_api_key : bool;
  account_is_chatgpt : bool;
  account_plan_type : option (result string value);
  get_account_email : option string
}.

Class CodexLogin (W : Type) := {
  CLIENT_ID : string;
  (** what [ServerOptions::new] sets *)
  opens_browser : bool;
  LoginServer : Type;
  auth_url : LoginServer -> string;
  run_login_server : ServerOptions -> W -> result string LoginServer * W;
  block_until_done : LoginServer -> W -> result string unit * W;
  run_device_code_login : ServerOptions -> W -> result string unit * W;
  request_device_code : ServerOptions -> W -> result string DeviceCode * W;
  complete_device_code_login : ServerOptions -> DeviceCode -> W -> result string unit * W;
  logout_with_revoke : path -> AuthCredentialsStoreMode -> AuthKeyringBackendKind -> AuthRouteConfig -> W -> result string bool * W;
  login_with_api_key : path -> string -> AuthCredentialsStoreMode -> AuthKeyringBackendKind -> W -> result string unit * W;
  (** [AuthManager::shared(..).await.auth().await] *)
  manager_auth : ManagerOptions -> W -> option Account * W
}.

(** ** Commands *)

(** A transport error, a [bail!], or [unreachable!]. *)
Inductive failure : Type :=
  | Fails (e : Error)
  | Bails (text : string)
  | Panics (text : string).

Record Console (W : Type) := { world : W; printed : list string }.
Arguments Build_Console {W} world printed.
Arguments world {W}.
Arguments printed {W}.

Inductive cmd (W A : Type) : Type := Cmd (run : Console W -> result failure A * Console W).
Arguments Cmd {W A} run.
Definition run_cmd {W A} (c : cmd W A) : Console W -> result failure A * Console W := let 'Cmd run := c in run.
#[export] Instance cmd_ret {W} : MRet (cmd W) := fun A a => Cmd (fun s => (Ok a, s)).
#[export] Instance cmd_bind {W} : MBind (cmd W) := fun A B f c =>
  Cmd (fun s => match run_cmd c s with
                | (Ok a, s) => run_cmd (f a) s
                | (Err e, s) => (Err e, s)
                end).
Definition yield_ {W A} (r : result failure A) : cmd W A := Cmd (fun s => (r, s)).
Definition println {W} (line : string) : cmd W unit := Cmd (fun s => (Ok tt, Build_Console (world s) (printed s ++ [line]))).
(** A call of the library. *)
Definition calls {W A} (f : W -> A * W) : cmd W A := Cmd (fun s => let '(a, w) := f (world s) in (Ok a, Build_Console w (printed s))).
(** [?] on its [io::Error] *)
Definition io_calls {W A} (f : W -> result string A * W) : cmd W A :=
  r ← calls f; yield_ (map_err (fun e => Fails (Io e)) r).

(** ** [auth.rs] *)

Inductive LoginMode : Type := Browser | Device.
Inductive LoginPrompt : Type :=
  | BrowserPrompt (auth_url : string)
  | DevicePrompt (verification_url user_code : string).
Inductive AuthStatus : Type :=
  | SignedOut
  | ApiKey
  | ChatGpt (email plan : option string)
  | ZaiKey.

Definition auth_route_config : AuthRouteConfig := ReqwestDefault.

Section Login.
  Context {W : Type} {CL : CodexLogin W} (home : path).

Definition manager_options : ManagerOptions :=
  {| manager_home := home; enable_codex_api_key_env := false; manager_store := KeyringStoreMode; manager_workspace := None;
     chatgpt_base_url := None; manager_backend := Direct; manager_route := auth_route_config |}.
Definition server_options : ServerOptions :=
  {| options_home := home; client_id := CLIENT_ID; options_workspace := None; options_store := KeyringStoreMode;
     options_backend := Direct; options_route := auth_route_config; open_browser := opens_browser |}.
(** [options.open_browser = false] *)
Definition without_browser (o : ServerOptions) : ServerOptions :=
  {| options_home := options_home o; client_id := client_id o; options_workspace := options_workspace o;
     options_store := options_store o; options_backend := options_backend o; options_route := options_route o;
     open_browser := false |}.

Definition account_status (auth : option Account) : result failure AuthStatus :=
  match auth with
  | None => Ok SignedOut
  | Some auth =>
      if account_is_api_key auth then Ok ApiKey
      else if negb (account_is_chatgpt auth) then Err (Fails UnsupportedAuthMode)
      else let plan := plan ← account_plan_type auth; v ← ok plan; as_str v in
           Ok (ChatGpt (get_account_email auth) plan)
  end.
Definition status : cmd W AuthStatus := auth ← calls (manager_auth manager_options); yield_ (account_status auth).

Definition login (mode : LoginMode) : cmd W AuthStatus :=
  _ ← match mode with
      | Browser => server ← io_calls (run_login_server server_options); io_calls (block_until_done server)
      | Device => io_calls (run_device_code_login server_options)
      end;
  status.

Definition login_with_prompt_handler (mode : LoginMode) (prompt_handler : LoginPrompt -> cmd W unit) : cmd W AuthStatus :=
  _ ← match mode with
      | Browser =>
          server ← io_calls (run_login_server (without_browser server_options));
          _ ← prompt_handler (BrowserPrompt (auth_url server));
          io_calls (block_until_done server)
      | Device =>
          device_code ← io_calls (request_device_code server_options);
          _ ← prompt_handler (DevicePrompt (verification_url device_code) (user_code device_code));
          io_calls (complete_device_code_login server_options device_code)
      end;
  status.

Definition logout : cmd W bool := io_calls (logout_with_revoke home KeyringStoreMode Direct auth_route_config).

Definition set_api_key (api_key : string) : cmd W unit :=
  _ ← yield_ (map_err Fails (validate_api_key api_key));
  io_calls (login_with_api_key home api_key KeyringStoreMode Direct).
Definition set_api_key_from_reader (reader : result string bytes) : cmd W unit :=
  api_key ← yield_ (map_err Fails (read_api_key reader));
  set_api_key api_key.

End Login.

(** ** The [auth] command *)

Definition auth_status_line (status : AuthStatus) : string :=
  match status with
  | SignedOut => "Not signed in."
  | ApiKey => "Signed in with an OpenAI API key."
  | ZaiKey => "Signed in with a Z.ai GLM Coding Plan API key."
  | ChatGpt email plan =>
      "Signed in with ChatGPT"
      +:+ match email with Some email => " as " +:+ email | None => "" end
      +:+ match plan with Some plan => " (" +:+ plan +:+ ")" | None => "" end
      +:+ "."
  end.
Definition print_auth_status {W} (status : AuthStatus) : cmd W unit := println (auth_status_line status).

Record AuthArgs := { auth_command : AuthCommand; auth_provider : GatewayProvider }.

Section Command.
  Context {CR : CredentialCodec} {HD : HomeDigest} {W : Type} {CL : CodexLogin W} {KS : KeyringStore W}.
  Context (error_text : Error -> string) (stdin : result string bytes).

(** The handler [auth] passes for a device login. *)
Definition device_prompt (prompt : LoginPrompt) : cmd W unit :=
  match prompt with
  | DevicePrompt verification_url user_code =>
      println ("Open " +:+ verification_url +:+ " and enter code " +:+ user_code)
  | BrowserPrompt _ => yield_ (Err (Panics "device login prompt"))
  end.

(** [zai_auth] of [Auth.v], which works on the keyring alone. *)
Definition zai_command (home : path) (command : AuthCommand) : cmd W unit :=
  Cmd (fun s => match zai_auth (store_key home) error_text stdin command (world s) with
                | Ok (line, w) => (Ok tt, Build_Console w (printed s ++ [line]))
                | Err text => (Err (Bails text), s)
                end).

Definition codex_command (home : path) (command : AuthCommand) : cmd W unit :=
  match command with
  | Login device_auth =>
      result ← (if device_auth : bool then login_with_prompt_handler home Device device_prompt else login home Browser);
      print_auth_status result
  | Logout =>
      removed ← logout home;
      println (if removed : bool then "Logged out and removed muse-codex credentials."
               else "No saved muse-codex credentials were found.")
  | SetApiKey =>
      _ ← set_api_key_from_reader home stdin;
      println "OpenAI API key saved in macOS Keychain."
  | Status => s ← status home; print_auth_status s
  end.

(** [config] is [AuthConfig::for_muse_codex()]. *)
Definition auth (config : res path) (args : AuthArgs) : cmd W unit :=
  home ← yield_ (map_err Fails config);
  match auth_provider args with
  | ProviderZai => zai_command home (auth_command args)
  | ProviderCodex => codex_command home (auth_command args)
  end.

End Command.
