(* ===== verification/CodexLoginCorrect.v ===== *)
(** * The [auth] command keeps to its own keyring record

    Properties of [CodexLogin.v]: what each command calls, prints and leaves behind.
    [codex_login] reads a credential in memory or in [CODEX_ACCESS_TOKEN] before the
    keyring, so that what [status] says of the record is stated where there is none; the
    launcher keeps the variable from its children ([LauncherCorrect.v]). *)

From S2P Require Import Prelude Utf8 Paths Json Errors ZaiRequest Auth AuthCorrect GatewayMain CodexLogin.
From stdpp Require Import options.

(** ** The fence *)

(** Access to the record of [home] in the keyring, and to nothing else: no [auth.json], no
    environment variable, no other home, backend or route. *)
Definition isolated_record (home p : path) (mode : AuthCredentialsStoreMode) (backend : AuthKeyringBackendKind) : bool :=
  String.eqb p home
  && match mode with KeyringStoreMode => true | _ => false end
  && match backend with Direct => true | _ => false end.
Definition default_route (r : AuthRouteConfig) : bool := match r with ReqwestDefault => true | _ => false end.
Definition unset {A} (o : option A) : bool := match o with Some _ => false | None => true end.
Definition isolated_manager (home : path) (o : ManagerOptions) : bool :=
  isolated_record home (manager_home o) (manager_store o) (manager_backend o)
  && negb (enable_codex_api_key_env o) && unset (manager_workspace o) && unset (chatgpt_base_url o) && default_route (manager_route o).
Definition isolated_server (home : path) (o : ServerOptions) : bool :=
  isolated_record home (options_home o) (options_store o) (options_backend o)
  && unset (options_workspace o) && default_route (options_route o).

(** The library behind a fence: what is not isolated is denied. *)
Definition fenced {W} (home : path) (L : CodexLogin W) : CodexLogin W := {|
  CLIENT_ID := CLIENT_ID;
  opens_browser := opens_browser;
  LoginServer := LoginServer;
  auth_url := auth_url;
  run_login_server o w := if isolated_server home o then run_login_server o w else (Err "denied", w);
  block_until_done := block_until_done;
  run_device_code_login o w := if isolated_server home o then run_device_code_login o w else (Err "denied", w);
  request_device_code o w := if isolated_server home o then request_device_code o w else (Err "denied", w);
  complete_device_code_login o c w := if isolated_server home o then complete_device_code_login o c w else (Err "denied", w);
  logout_with_revoke p m b r w :=
    if isolated_record home p m b && default_route r then logout_with_revoke p m b r w else (Err "denied", w);
  login_with_api_key p k m b w := if isolated_record home p m b then login_with_api_key p k m b w else (Err "denied", w);
  manager_auth o w := if isolated_manager home o then manager_auth o w else (None, w)
|}.

(** The documented behaviour of [codex_login] with a keyring: what the record of a home
    holds, whether it is an API key; and that a manager looks first for a credential that is
    not in the keyring, one held in memory or in [CODEX_ACCESS_TOKEN], which no option of
    this program turns off. Only without one is the account that of the record, if any. *)
Class CodexLoginLaws (W : Type) `{!CodexLogin W} := {
  record_is_key : path -> W -> option bool;
  overridden : path -> W -> bool;
  key_recorded home key w w' :
    login_with_api_key home key KeyringStoreMode Direct w = (Ok tt, w') ->
    record_is_key home w' = Some true /\ overridden home w' = overridden home w;
  record_deleted home w b w' :
    logout_with_revoke home KeyringStoreMode Direct ReqwestDefault w = (Ok b, w') ->
    record_is_key home w' = None /\ (overridden home w = false -> overridden home w' = false);
  record_read home w a w' :
    overridden home w = false -> manager_auth (manager_options home) w = (Some a, w') ->
    record_is_key home w = Some (account_is_api_key a)
}.

Lemma run_cmd_bind {W A B} (c : cmd W A) (f : A -> cmd W B) s :
  run_cmd (c ≫= f) s = match run_cmd c s with (Ok a, s) => run_cmd (f a) s | (Err e, s) => (Err e, s) end.
Proof. reflexivity. Qed.
Lemma run_io_calls {W A} (f : W -> result string A * W) s :
  run_cmd (io_calls f) s = (map_err (fun e => Fails (Io e)) (fst (f (world s))), Build_Console (snd (f (world s))) (printed s)).
Proof. unfold io_calls. rewrite run_cmd_bind. cbn. by destruct (f (world s)). Qed.

Section Auth.
  Context {CR : CredentialCodec} {HD : HomeDigest} {W : Type} {CL : CodexLogin W} {KS : KeyringStore W}.
  Context (error_text : Error -> string) (home : path).

(** A command over Codex, on some standard input. *)
Definition codex (stdin : result string bytes) (command : AuthCommand) : Console W -> result failure unit * Console W :=
  run_cmd (auth error_text stdin (Ok home) {| auth_command := command; auth_provider := ProviderCodex |}).

Lemma codex_run stdin command s : codex stdin command s = run_cmd (codex_command stdin home command) s.
Proof. reflexivity. Qed.

Lemma isolated_home m : isolated_record home home KeyringStoreMode Direct && m = m.
Proof. unfold isolated_record. by rewrite String.eqb_refl. Qed.

Lemma status_prints s :
  run_cmd (st ← status home; print_auth_status st) s
  = match account_status (fst (manager_auth (manager_options home) (world s))) with
    | Ok st => (Ok tt, Build_Console (snd (manager_auth (manager_options home) (world s))) (printed s ++ [auth_status_line st]))
    | Err e => (Err e, Build_Console (snd (manager_auth (manager_options home) (world s))) (printed s))
    end.
Proof.
  rewrite run_cmd_bind. unfold status. rewrite run_cmd_bind. cbn. destruct (manager_auth _ _) as [a w]. cbn.
  by destruct (account_status a).
Qed.
Lemma account_status_error a e : account_status a = Err e -> e = Fails UnsupportedAuthMode.
Proof. unfold account_status. destruct a as [a|]; [|done]. repeat case_match; congruence. Qed.

(** What [SetApiKey] does with its standard input. *)
Lemma set_key_run input s :
  codex (Ok input) SetApiKey s
  = match accepted_key input with
    | Some key =>
        let '(r, w) := login_with_api_key home key KeyringStoreMode Direct (world s) in
        match r with
        | Ok tt => (Ok tt, Build_Console w (printed s ++ ["OpenAI API key saved in macOS Keychain."]))
        | Err e => (Err (Fails (Io e)), Build_Console w (printed s))
        end
    | None => (match read_api_key (Ok input) with Err e => Err (Fails e) | Ok _ => Ok tt end, s)
    end.
Proof.
  rewrite codex_run. cbn [codex_command]. rewrite run_cmd_bind. unfold set_api_key_from_reader. rewrite run_cmd_bind.
  pose proof (read_api_key_accepted input) as Hk. cbn [run_cmd yield_]. destruct (read_api_key (Ok input)) as [key|e]; cbn in Hk; rewrite <- Hk; [|done].
  cbn [map_err]. unfold set_api_key. rewrite run_cmd_bind. cbn [run_cmd yield_].
  assert (validate_api_key key = Ok tt) as ->.
  { symmetry in Hk. destruct (accepted_parts _ _ Hk) as (Hg & Hl & _). pose proof (validate_good key) as Hv.
    apply N.leb_le in Hl. rewrite Hg, Hl in Hv. by destruct (validate_api_key key) as [[]|]. }
  cbn [map_err]. rewrite run_io_calls. destruct (login_with_api_key _ _ _ _ _) as [[[]|e] w]; done.
Qed.

Lemma device_run stdin s :
  let o := server_options home in
  codex stdin (Login true) s
  = match request_device_code o (world s) with
    | (Err e, w) => (Err (Fails (Io e)), Build_Console w (printed s))
    | (Ok code, w) =>
        let shown := printed s ++ ["Open " +:+ verification_url code +:+ " and enter code " +:+ user_code code] in
        match complete_device_code_login o code w with
        | (Err e, w) => (Err (Fails (Io e)), Build_Console w shown)
        | (Ok tt, w) => run_cmd (st ← status home; print_auth_status st) (Build_Console w shown)
        end
    end.
Proof.
  intros o. rewrite codex_run. cbn [codex_command]. unfold login_with_prompt_handler. rewrite !run_cmd_bind, run_io_calls.
  fold o. destruct (request_device_code o (world s)) as [[code|e] w]; [|done]. cbn [fst snd map_err].
  rewrite run_cmd_bind. cbn [run_cmd device_prompt println world printed]. rewrite run_io_calls. cbn [world printed].
  fold o. by destruct (complete_device_code_login o code w) as [[[]|e] w2].
Qed.
Lemma browser_run stdin s :
  codex stdin (Login false) s
  = match run_login_server (server_options home) (world s) with
    | (Err e, w) => (Err (Fails (Io e)), Build_Console w (printed s))
    | (Ok server, w) =>
        match block_until_done server w with
        | (Err e, w) => (Err (Fails (Io e)), Build_Console w (printed s))
        | (Ok tt, w) => run_cmd (st ← status home; print_auth_status st) (Build_Console w (printed s))
        end
    end.
Proof.
  rewrite codex_run. cbn [codex_command]. unfold login. rewrite !run_cmd_bind, run_io_calls.
  destruct (run_login_server _ (world s)) as [[server|e] w]; [|done]. cbn [fst snd map_err]. rewrite run_io_calls. cbn [world printed].
  by destruct (block_until_done server w) as [[[]|e] w2].
Qed.
Lemma logout_run stdin s :
  codex stdin Logout s
  = match logout_with_revoke home KeyringStoreMode Direct ReqwestDefault (world s) with
    | (Err e, w) => (Err (Fails (Io e)), Build_Console w (printed s))
    | (Ok removed, w) =>
        (Ok tt, Build_Console w (printed s ++ [if removed : bool then "Logged out and removed muse-codex credentials."
                                               else "No saved muse-codex credentials were found."]))
    end.
Proof.
  rewrite codex_run. cbn [codex_command]. unfold logout. rewrite run_cmd_bind, run_io_calls. unfold auth_route_config.
  by destruct (logout_with_revoke _ _ _ _ _) as [[removed|e] w].
Qed.
End Auth.

Section Contract.
  Context {CR : CredentialCodec} {HD : HomeDigest} {W : Type} {CL : CodexLogin W} {KS : KeyringStore W}.
  Context (error_text : Error -> string) (home : path).
  Abbreviation codex := (codex error_text home).

Lemma fenced_status (s : Console W) :
  run_cmd (st ← status (CL:=fenced home CL) home; print_auth_status st) s = run_cmd (st ← status home; print_auth_status st) s.
Proof. rewrite !status_prints. cbn. unfold isolated_manager, isolated_record. cbn. by rewrite String.eqb_refl. Qed.

(** The fence is never met. *)
Lemma fenced_command stdin args (s : Console W) :
  run_cmd (auth (CL:=fenced home CL) error_text stdin (Ok home) args) s = run_cmd (auth error_text stdin (Ok home) args) s.
Proof.
  destruct args as [command []]; [|done]. change (CodexLoginCorrect.codex (CL:=fenced home CL) error_text home stdin command s = codex stdin command s).
  assert (Hr : isolated_record home home KeyringStoreMode Direct = true) by (unfold isolated_record; by rewrite String.eqb_refl).
  assert (Hs : isolated_server home (server_options home) = true) by (unfold isolated_server; cbn; by rewrite Hr).
  destruct command as [[]| | |].
  - rewrite !device_run. cbn [request_device_code complete_device_code_login fenced]. change (server_options (CL:=fenced home CL) home) with (server_options home).
    rewrite Hs. destruct (request_device_code _ _) as [[code|e] w]; [|done]. cbn [verification_url user_code].
    destruct (complete_device_code_login _ _ _) as [[[]|e] w2]; [apply fenced_status|done].
  - rewrite !browser_run. cbn [run_login_server block_until_done fenced]. change (server_options (CL:=fenced home CL) home) with (server_options home).
    rewrite Hs. destruct (run_login_server _ _) as [[server|e] w]; [|done].
    destruct (block_until_done _ _) as [[[]|e] w2]; [apply fenced_status|done].
  - rewrite !logout_run. cbn [logout_with_revoke fenced]. by rewrite Hr.
  - destruct stdin as [input|why]; [|done]. rewrite !set_key_run. cbn [login_with_api_key fenced]. by rewrite Hr.
  - rewrite !codex_run. cbn [codex_command]. apply fenced_status.
Qed.

Lemma status_safe (s : Console W) :
  exists r lines, run_cmd (st ← status home; print_auth_status st) s
                  = (r, Build_Console (snd (manager_auth (manager_options home) (world s))) (printed s ++ lines))
    /\ length lines <= 1 /\ (forall why, r <> Err (Panics why)).
Proof.
  rewrite status_prints. destruct (account_status _) as [st|e] eqn:E.
  - exists (Ok tt), [auth_status_line st]. by split_and!.
  - exists (Err e), []. rewrite app_nil_r. split_and!; [done|cbn; lia|]. by rewrite (account_status_error _ _ E).
Qed.

(** C23: The [auth] command of the gateway. (1) Whatever it is asked to do, it reaches
    [codex_login] only for the record of its own home in the keyring, with no environment
    key enabled, no file, no other workspace or endpoint: run behind a fence that denies all
    else, it does the same. Over Z.ai it does not reach [codex_login] at all. (2) An API key is
    stored exactly when the readers accept the input, as read and nowhere else; otherwise
    nothing is called or printed; the key itself is never printed. (3) Where no credential outside the
    keyring takes precedence (the launcher, which starts this command, removes
    [CODEX_ACCESS_TOKEN] from its environment): after a key was stored [status] tells of an
    API key, or of nothing if the keyring then refuses; after a logout, of nothing. (4) A device login shows its prompt once, after the code was issued and
    before the sign-in is awaited, and shows nothing else before the status; no login meets
    the unreachable prompt. *)
Theorem auth_command_contract {LL : CodexLoginLaws W} (stdin : result string bytes) :
  (forall args s, run_cmd (auth (CL:=fenced home CL) error_text stdin (Ok home) args) s = run_cmd (auth error_text stdin (Ok home) args) s)
  /\ (forall (other : CodexLogin W) command s,
        run_cmd (auth (CL:=other) error_text stdin (Ok home) {| auth_command := command; auth_provider := ProviderZai |}) s
        = run_cmd (auth error_text stdin (Ok home) {| auth_command := command; auth_provider := ProviderZai |}) s)
  /\ (forall input s, stdin = Ok input ->
        match accepted_key input with
        | None => exists e, codex stdin SetApiKey s = (Err e, s)
        | Some key =>
            let '(r, w) := login_with_api_key home key KeyringStoreMode Direct (world s) in
            codex stdin SetApiKey s
            = match r with
              | Ok tt => (Ok tt, Build_Console w (printed s ++ ["OpenAI API key saved in macOS Keychain."]))
              | Err e => (Err (Fails (Io e)), Build_Console w (printed s))
              end
        end)
  /\ (forall s s' s'', overridden home (world s) = false ->
        codex stdin SetApiKey s = (Ok tt, s') -> codex stdin Status s' = (Ok tt, s'') ->
        printed s'' = printed s' ++ ["Signed in with an OpenAI API key."] \/ printed s'' = printed s' ++ ["Not signed in."])
  /\ (forall s s', overridden home (world s) = false -> codex stdin Logout s = (Ok tt, s') ->
        exists w, codex stdin Status s' = (Ok tt, Build_Console w (printed s' ++ ["Not signed in."])))
  /\ (forall s, exists r w lines,
        codex stdin (Login true) s = (r, Build_Console w (printed s ++ lines)) /\ (forall why, r <> Err (Panics why))
        /\ match request_device_code (server_options home) (world s) with
           | (Err e, _) => r = Err (Fails (Io e)) /\ lines = []
           | (Ok code, w1) => exists rest,
               lines = ("Open " +:+ verification_url code +:+ " and enter code " +:+ user_code code) :: rest /\ length rest <= 1
               /\ forall e, fst (complete_device_code_login (server_options home) code w1) = Err e -> r = Err (Fails (Io e)) /\ rest = []
           end).
Proof using Type.
  split_and!.
  - intros args s. apply fenced_command.
  - done.
  - intros input s ->. rewrite set_key_run. destruct (accepted_key input) as [key|] eqn:Hk.
    + destruct (login_with_api_key _ _ _ _ _) as [[[]|e] w]; done.
    + pose proof (read_api_key_accepted input) as Hr. rewrite Hk in Hr. destruct (read_api_key (Ok input)) as [|e]; [done|]. by exists (Fails e).
  - intros s s' s'' Hover Hset Hstatus. destruct stdin as [input|why]; [|done]. rewrite set_key_run in Hset.
    pose proof (read_api_key_accepted input) as Hr.
    destruct (accepted_key input) as [key|]; [|by destruct (read_api_key (Ok input))].
    destruct (login_with_api_key _ _ _ _ _) as [[[]|e] w] eqn:El; [|done]. injection Hset as <-.
    rewrite codex_run in Hstatus. cbn [codex_command] in Hstatus. rewrite status_prints in Hstatus. cbn [world printed] in Hstatus |- *.
    destruct (manager_auth (manager_options home) w) as [[a|] w'] eqn:Ea; cbn in Hstatus.
    + destruct (key_recorded _ _ _ _ El) as [Hrec Hover']. rewrite Hover in Hover'.
      rewrite (record_read _ _ _ _ Hover' Ea) in Hrec. injection Hrec as Hkey. rewrite Hkey in Hstatus.
      injection Hstatus as <-. by left.
    + injection Hstatus as <-. by right.
  - intros s s' Hover Hout. rewrite logout_run in Hout. destruct (logout_with_revoke _ _ _ _ _) as [[removed|e] w] eqn:El; [|done].
    injection Hout as <-. rewrite codex_run. cbn [codex_command]. rewrite status_prints. cbn [world printed].
    destruct (record_deleted _ _ _ _ El) as [Hrec Hover']. specialize (Hover' Hover).
    destruct (manager_auth (manager_options home) w) as [[a|] w'] eqn:Ea; [|cbn; by eexists].
    pose proof (record_read _ _ _ _ Hover' Ea) as Hread. by rewrite Hrec in Hread.
  - intros s. rewrite device_run. destruct (request_device_code _ _) as [[code|e] w1].
    + destruct (complete_device_code_login _ _ _) as [[[]|e] w2] eqn:Ec.
      * destruct (status_safe (Build_Console w2 (printed s ++ ["Open " +:+ verification_url code +:+ " and enter code " +:+ user_code code])))
          as (r & lines & Hr & Hl & Hp). cbn [world printed] in Hr. rewrite <- app_assoc in Hr. cbn [app] in Hr.
        eexists r, _, _. split; [exact Hr|]. split; [done|]. exists lines. by split_and!.
      * eexists _, _, _. split; [reflexivity|]. split; [done|]. exists []. split_and!; [done|cbn; lia|]. by intros e' [= ->].
    + eexists _, _, []. rewrite app_nil_r. split_and!; [reflexivity|done|done|done].
Qed.
End Contract.

(** ** A session of commands *)

Section Witness.
(** The record of the home, an API key or the email of an account; and [CODEX_ACCESS_TOKEN]. *)
Let keyring : Type := option (string + string) * option string.
Let by_email (email : string) : Account :=
  {| account_is_api_key := false; account_is_chatgpt := true; account_plan_type := Some (Ok (JString "plus")); get_account_email := Some email |}.
#[local] Instance toy : CodexLogin keyring := {|
  CLIENT_ID := "client";
  opens_browser := true;
  LoginServer := string;
  auth_url := fun s => s;
  run_login_server o w := (Ok "http://localhost:1455", w);
  block_until_done s w := (Ok tt, (Some (inr "a@b.c"), snd w));
  run_device_code_login o w := (Ok tt, (Some (inr "a@b.c"), snd w));
  request_device_code o w := (Ok {| verification_url := "https://x.y/device"; user_code := "AB-12" |}, w);
  complete_device_code_login o c w := (Ok tt, (Some (inr "a@b.c"), snd w));
  logout_with_revoke p m b r w := (Ok (bool_decide (is_Some (fst w))), (None, snd w));
  login_with_api_key p k m b w := (Ok tt, (Some (inl k), snd w));
  manager_auth o w :=
    (match snd w, fst w with
     | Some token, _ => Some (by_email token)
     | None, Some (inl _) =>
         Some {| account_is_api_key := true; account_is_chatgpt := false; account_plan_type := None; get_account_email := None |}
     | None, Some (inr email) => Some (by_email email)
     | None, None => None
     end, w)
|}.
#[local] Instance toy_laws : CodexLoginLaws keyring.
Proof.
  refine {| record_is_key home w := (fun r : string + string => match r with inl _ => true | inr _ => false end) <$> fst w;
            overridden home w := bool_decide (is_Some (snd w)) |}.
  - intros home key w w' [= <-]. done.
  - intros home w b w' [= _ <-]. done.
  - intros home [[[key|email]|] [token|]] a w'; cbn; try done; by intros _ [= <- <-].
Defined.
#[local] Instance toy_store : KeyringStore keyring := {|
  ks_save s a v st := Err "locked"; ks_load s a st := Err "locked"; ks_delete s a st := Err "locked" |}.
#[local] Instance toy_codec : CredentialCodec := {| credential_to_string r := Err ""; credential_from_str t := None |}.
#[local] Instance toy_digest : HomeDigest := {| canonicalize p := Some p; sha256_hex s := s |}.
Let text (e : Error) : string := Errors.error_text (fun s => pretty s) e.

Lemma auth_command_contract_witness :
  codex text "/h/muse-codex" (Ok (to_bytes ("sk-1" +:+ lf))) SetApiKey (Build_Console (None, None) [])
  = (Ok tt, Build_Console (Some (inl "sk-1"), None) ["OpenAI API key saved in macOS Keychain."])
  /\ exists w, codex text "/h/muse-codex" (Ok (to_bytes ("sk-1" +:+ lf))) Status (Build_Console (None, None) ["Logged out and removed muse-codex credentials."])
               = (Ok tt, Build_Console w ["Logged out and removed muse-codex credentials."; "Not signed in."]).
Proof.
  destruct (auth_command_contract text "/h/muse-codex" (Ok (to_bytes ("sk-1" +:+ lf)))) as (_ & _ & Hset & _ & Hout & _).
  split; [exact (Hset _ (Build_Console (None, None) []) eq_refl)|].
  exact (Hout (Build_Console (Some (inr "a@b.c"), None) []) _ eq_refl eq_refl).
Defined.
(** With [CODEX_ACCESS_TOKEN] set, [status] tells of that account, also after a logout. *)
Example token_outlives_logout :
  let '(_, s) := codex text "/h/muse-codex" (Ok []) Logout (Build_Console (Some (inl "sk-1"), Some "t@u.v") []) in
  printed (snd (codex text "/h/muse-codex" (Ok []) Status s))
  = ["Logged out and removed muse-codex credentials."; "Signed in with ChatGPT as t@u.v (plus)."].
Proof. vm_compute. reflexivity. Qed.
(** A device login, the prompt first. *)
Example device_login_lines :
  printed (snd (codex text "/h/muse-codex" (Ok []) (Login true) (Build_Console (None, None) [])))
  = ["Open https://x.y/device and enter code AB-12"; "Signed in with ChatGPT as a@b.c (plus)."].
Proof. vm_compute. reflexivity. Qed.
End Witness.
