(* ===== verification/Lifetime.v ===== *)
(** * The life of a gateway process

    Models what runs in a gateway from the start of its watchdog on
    ([crates/muse-codex-gateway/src/server.rs]: [start_parent_exit_watchdog], the end of
    [run], [shutdown_signal], [wait_for_parent_exit]; [main.rs]: [serve_with_error_reporting]
    and [main]): the main task and the watchdog's thread, which interleave in any order,
    and what comes from outside, requests, signals and the process table.

    A step is an [Action] of one of them; [step] is the executable step function, and gives
    [None] where the action cannot happen. Publishing a private file is two steps, staging
    and renaming, as [Publish.v] has it; the names are those of the private directory. *)

From S2P Require Import Prelude Errors GatewayMain.
From stdpp Require Import options.

(** The names the gateway makes in its private directory. *)
Inductive Entry : Type :=
  | ReadyEntry
  | ErrorEntry
  | StagedReady
  | StagedError.
#[export] Instance Entry_eq_dec : EqDecision Entry.
Proof. solve_decision. Defined.
#[export] Instance Entry_countable : Countable Entry.
Proof.
  refine (inj_countable' (fun e => match e with ReadyEntry => 0 | ErrorEntry => 1 | StagedReady => 2 | StagedError => 3 end)
                         (fun n => match n with 0 => ReadyEntry | 1 => ErrorEntry | 2 => StagedReady | _ => StagedError end) _).
  by intros [].
Defined.

(** The main task. *)
Inductive Main : Type :=
  | Starting              (** [serve] and [run] before [write_ready_file] *)
  | ReadyStaged           (** inside [write_ready_file] *)
  | Serving               (** [axum::serve] *)
  | Draining              (** its graceful shutdown *)
  | Served (ok : bool)    (** it has returned [result] *)
  | Failed                (** [serve] has returned an error *)
  | ErrorStaged           (** inside [write_startup_error_file] *)
  | Returning (status : N).
(** The watchdog's thread. *)
Inductive Watch : Type :=
  | Watching
  | Orphaned              (** it has seen that the parent is gone *)
  | ReadyRemoved
  | ErrorRemoved.

Record Running := {
  main : Main;
  watch : Watch;
  listening : bool;       (** tokio's handler of SIGINT is installed *)
  interrupted : bool;     (** and has run *)
  in_flight : N;          (** requests accepted and not yet answered to the end *)
  processes : N -> KillOutcome;
  disk : gset Entry
}.
Inductive End : Type :=
  | Exited (status : N)
  | Signalled.
Inductive State : Type :=
  | Run (r : Running)
  | Ended (e : End) (disk : gset Entry).

(** A call on the disk: [done] tells whether it succeeded. *)
Inductive Action : Type :=
  (* the main task *)
  | StartFails
  | StageReady (done : bool)
  | PublishReady (done dropped : bool)
  | Listen
  | PollParent
  | Interrupt
  | HandlerFails
  | ServerFails
  | Drained
  | RemoveReady (done : bool)
  | StageError (done : bool)
  | PublishError (done dropped : bool)
  | Return
  (* the watchdog *)
  | WatchPoll
  | WatchRemoveReady (done : bool)
  | WatchRemoveError (done : bool)
  | WatchExit
  (* outside *)
  | Request
  | Respond
  | Processes (kill_zero : N -> KillOutcome)
  | SigInt
  | SigKill.

Definition set_main (m : Main) (r : Running) : Running :=
  {| main := m; watch := watch r; listening := listening r; interrupted := interrupted r;
     in_flight := in_flight r; processes := processes r; disk := disk r |}.
Definition set_watch (w : Watch) (r : Running) : Running :=
  {| main := main r; watch := w; listening := listening r; interrupted := interrupted r;
     in_flight := in_flight r; processes := processes r; disk := disk r |}.
Definition set_listening (r : Running) : Running :=
  {| main := main r; watch := watch r; listening := true; interrupted := interrupted r;
     in_flight := in_flight r; processes := processes r; disk := disk r |}.
Definition set_interrupted (r : Running) : Running :=
  {| main := main r; watch := watch r; listening := listening r; interrupted := true;
     in_flight := in_flight r; processes := processes r; disk := disk r |}.
Definition set_in_flight (n : N) (r : Running) : Running :=
  {| main := main r; watch := watch r; listening := listening r; interrupted := interrupted r;
     in_flight := n; processes := processes r; disk := disk r |}.
Definition set_processes (f : N -> KillOutcome) (r : Running) : Running :=
  {| main := main r; watch := watch r; listening := listening r; interrupted := interrupted r;
     in_flight := in_flight r; processes := f; disk := disk r |}.
Definition set_disk (d : gset Entry) (r : Running) : Running :=
  {| main := main r; watch := watch r; listening := listening r; interrupted := interrupted r;
     in_flight := in_flight r; processes := processes r; disk := d |}.

(** [let _ = fs::remove_file(..)] *)
Definition remove_file (done : bool) (e : Entry) (r : Running) : Running :=
  if done then set_disk (disk r ∖ {[e]}) r else r.
(** The staged file is made. *)
Definition stage (e : Entry) (r : Running) : Running := set_disk (disk r ∪ {[e]}) r.
(** [fs::rename]; when it or a call before it fails, the staged file is unlinked. *)
Definition publish_as (done dropped : bool) (staged e : Entry) (r : Running) : Running :=
  if done then set_disk (disk r ∖ {[staged]} ∪ {[e]}) r else remove_file dropped staged r.

Section Life.
Context (parent_pid : N).

Definition parent_exists (r : Running) : bool := process_exists (processes r) parent_pid.

(** The main task: [run] after the catalog, and [serve_with_error_reporting]. *)
Definition main_step (a : Action) (r : Running) : option Running :=
  match a, main r with
  | StartFails, Starting => Some (set_main Failed r)
  | StageReady done, Starting =>
      Some (if done then set_main ReadyStaged (stage StagedReady r) else set_main Failed r)
  | PublishReady done dropped, ReadyStaged =>
      Some (set_main (if done then Serving else Failed) (publish_as done dropped StagedReady ReadyEntry r))
  | Listen, Serving => if listening r then None else Some (set_listening r)
  (* [shutdown_signal]: the handler, or a turn of [wait_for_parent_exit]; [select!] may
     poll the second before it has polled, and so installed, the first *)
  | HandlerFails, Serving => if listening r then None else Some (set_main Draining r)
  | Interrupt, Serving => if interrupted r then Some (set_main Draining r) else None
  | PollParent, Serving => Some (if parent_exists r then r else set_main Draining r)
  | ServerFails, (Serving | Draining) => Some (set_main (Served false) r)
  | Drained, Draining => if (in_flight r =? 0)%N then Some (set_main (Served true) r) else None
  | RemoveReady done, Served ok =>
      Some (set_main (if ok then Returning 0 else Failed) (remove_file done ReadyEntry r))
  | StageError done, Failed =>
      Some (if done then set_main ErrorStaged (stage StagedError r) else set_main (Returning 1) r)
  | PublishError done dropped, ErrorStaged =>
      Some (set_main (Returning 1) (publish_as done dropped StagedError ErrorEntry r))
  | _, _ => None
  end.

(** A turn of the watchdog's loop, and what it does once the parent is gone. *)
Definition watch_step (a : Action) (r : Running) : option Running :=
  match a, watch r with
  | WatchPoll, Watching => Some (if parent_exists r then r else set_watch Orphaned r)
  | WatchRemoveReady done, Orphaned => Some (set_watch ReadyRemoved (remove_file done ReadyEntry r))
  | WatchRemoveError done, ReadyRemoved => Some (set_watch ErrorRemoved (remove_file done ErrorEntry r))
  | _, _ => None
  end.

Definition step (a : Action) (s : State) : option State :=
  match s with
  | Ended _ _ => None
  | Run r =>
      match a with
      | WatchPoll | WatchRemoveReady _ | WatchRemoveError _ => Run <$> watch_step a r
      (* [std::process::exit(0)] ends every thread *)
      | WatchExit => match watch r with ErrorRemoved => Some (Ended (Exited 0) (disk r)) | _ => None end
      | Return => match main r with Returning status => Some (Ended (Exited status) (disk r)) | _ => None end
      | Request => match main r with Serving => Some (Run (set_in_flight (in_flight r + 1) r)) | _ => None end
      | Respond => if (0 <? in_flight r)%N then Some (Run (set_in_flight (in_flight r - 1) r)) else None
      | Processes f => Some (Run (set_processes f r))
      (* the default action of SIGINT ends the process *)
      | SigInt => Some (if listening r then Run (set_interrupted r) else Ended Signalled (disk r))
      | SigKill => Some (Ended Signalled (disk r))
      | _ => Run <$> main_step a r
      end
  end.

Fixpoint run (acts : list Action) (s : State) : option State :=
  match acts with
  | [] => Some s
  | a :: acts => s ← step a s; run acts s
  end.

(** A gateway whose watchdog has just been started, over an empty private directory. *)
Definition launched (table : N -> KillOutcome) : Running :=
  {| main := Starting; watch := Watching; listening := false; interrupted := false; in_flight := 0;
     processes := table; disk := ∅ |}.
Definition reachable (table : N -> KillOutcome) (s : State) : Prop := exists acts, run acts (Run (launched table)) = Some s.

End Life.
