(* ===== verification/LifetimeCorrect.v ===== *)
(** * An orphaned gateway ends, and one with a living parent goes on

    Properties of [Lifetime.v], by induction on the actions of a run. *)

From S2P Require Import Prelude Errors GatewayMain Lifetime.
From stdpp Require Import options.

(** Opens a step that led to a state: the action, then the phase it needs. *)
Ltac open_step H :=
  open_matches H;
  repeat match goal with
  | H : Some _ = Some _ |- _ => injection H as H; subst
  end.

Section Life.
Context (parent_pid : N).
Abbreviation step := (Lifetime.step parent_pid).
Abbreviation run := (Lifetime.run parent_pid).
Abbreviation parent_exists := (Lifetime.parent_exists parent_pid).

Lemma run_cons_inv a acts s s' : run (a :: acts) s = Some s' -> exists s1, step a s = Some s1 /\ run acts s1 = Some s'.
Proof. change (run (a :: acts) s) with (s1 ← step a s; run acts s1). intros (s1 & H1 & H2)%bind_Some. eauto. Qed.
Lemma run_app acts1 acts2 s : run (acts1 ++ acts2) s = (s' ← run acts1 s; run acts2 s').
Proof. revert s. induction acts1 as [|a acts1 IH]; intros s; [done|]. cbn. destruct (step a s); [apply IH|done]. Qed.
Lemma run_ended acts e d s : run acts (Ended e d) = Some s -> s = Ended e d /\ acts = [].
Proof. destruct acts as [|a acts]; cbn; [by intros [= <-]|done]. Qed.

(** An invariant of the running states, under what is known of every action, carries over
    a run; how a run can end follows from how it can end in a step. *)
Lemma run_invariant (good : Action -> Prop) (I : Running -> Prop) (Q : End -> gset Entry -> Prop)
    (Hstep : forall a r s, good a -> I r -> step a (Run r) = Some s ->
               match s with Run r' => I r' | Ended e d => Q e d end)
    acts r s (Hgood : Forall good acts) (Hr : I r) (Hrun : run acts (Run r) = Some s) :
  match s with Run r' => I r' | Ended e d => Q e d end.
Proof using Type.
  revert r Hr Hrun. induction Hgood as [|a acts Ha _ IH]; intros r Hr Hrun; [by injection Hrun as <-|].
  apply run_cons_inv in Hrun as (s1 & Hs & Hrun). pose proof (Hstep _ _ _ Ha Hr Hs) as H1.
  destruct s1 as [r1|e d]; [exact (IH _ H1 Hrun)|].
  by destruct (run_ended _ _ _ _ Hrun) as [-> _].
Qed.

(** ** The watchdog *)

Definition is_watch (a : Action) : bool :=
  match a with WatchPoll | WatchRemoveReady _ | WatchRemoveError _ | WatchExit => true | _ => false end.
(** The turns the watchdog has left once the parent is gone. *)
Definition turns_left (w : Watch) : nat :=
  match w with Watching => 4 | Orphaned => 3 | ReadyRemoved => 2 | ErrorRemoved => 1 end.
Definition last_turns (w : Watch) (ready error : bool) : list Action :=
  drop (4 - turns_left w) [WatchPoll; WatchRemoveReady ready; WatchRemoveError error; WatchExit].
(** The process table never shows the parent's pid again. *)
Definition stays_gone (a : Action) : Prop :=
  match a with Processes f => process_exists f parent_pid = false | _ => True end.

Lemma watch_counts a r s : stays_gone a -> parent_exists r = false -> step a (Run r) = Some s ->
  match s with
  | Run r' => parent_exists r' = false /\ turns_left (watch r) = turns_left (watch r') + (if is_watch a then 1 else 0)
  | Ended _ _ => True
  end.
Proof using Type.
  intros Ha Hp Hs. unfold Lifetime.parent_exists in *.
  destruct a; cbn in Hs; unfold Lifetime.parent_exists, publish_as, remove_file in Hs; try rewrite Hp in Hs; open_step Hs; cbn;
    try (split; [assumption|lia]); try done.
  all: split; [assumption|]; repeat match goal with H : watch _ = _ |- _ => rewrite H end; cbn; lia.
Qed.
Lemma watch_count acts : forall r s, Forall stays_gone acts -> parent_exists r = false -> run acts (Run r) = Some s ->
  match s with
  | Run r' => parent_exists r' = false /\ turns_left (watch r) = turns_left (watch r') + length (filter (fun a => is_watch a = true) acts)
  | Ended _ _ => True
  end.
Proof using Type.
  induction acts as [|a acts IH]; intros r s Hacts Hp Hrun; [injection Hrun as <-; cbn; split; [done|lia]|].
  apply Forall_cons in Hacts as [Ha Hacts].
  apply run_cons_inv in Hrun as (s1 & Hs & Hrun). pose proof (watch_counts _ _ _ Ha Hp Hs) as H1.
  destruct s1 as [r1|e d]; [|by destruct (run_ended _ _ _ _ Hrun) as [-> _]]. destruct H1 as [H1 Hc].
  pose proof (IH r1 s Hacts H1 Hrun) as H2. destruct s as [r'|]; [|done]. destruct H2 as [H2 H3]. split; [done|].
  rewrite filter_cons. destruct (decide (is_watch a = true)) as [Hw|Hw].
  - rewrite Hw in Hc. cbn [length]. lia.
  - apply not_true_is_false in Hw. rewrite Hw in Hc. lia.
Qed.
Lemma last_turns_end r ready error : parent_exists r = false ->
  exists d, run (last_turns (watch r) ready error) (Run r) = Some (Ended (Exited 0) d).
Proof using Type.
  intros Hp. destruct (watch r) eqn:Hw; cbn; rewrite ?Hw; cbn; rewrite ?Hp; cbn; eauto.
Qed.

(** ** A living parent *)

(** No signal arrives, the handler and the server work, and the parent lives. *)
Definition undisturbed (a : Action) : Prop :=
  match a with
  | Processes f => process_exists f parent_pid = true
  | SigInt | SigKill | HandlerFails | ServerFails => False
  | _ => True
  end.
Definition before_serving (m : Main) : bool := match m with Starting | ReadyStaged => true | _ => false end.
Definition start_failed (m : Main) : bool := match m with Failed | ErrorStaged | Returning 1 => true | _ => false end.
(** The readiness document is there exactly while the gateway serves. *)
Record steady (r : Running) : Prop := {
  steady_parent : parent_exists r = true;
  steady_watch : watch r = Watching;
  steady_interrupt : interrupted r = false;
  steady_main : (main r = Serving /\ ReadyEntry ∈ disk r)
                \/ ((before_serving (main r) || start_failed (main r)) = true /\ ReadyEntry ∉ disk r)
}.

Lemma steady_step a r s : undisturbed a -> steady r -> step a (Run r) = Some s ->
  match s with
  | Run r' => steady r' /\ (main r = Serving -> main r' = Serving)
  | Ended e d => e = Exited 1 /\ (ReadyEntry ∉ d) /\ main r <> Serving
  end.
Proof using Type.
  intros Ha [Hp Hw Hi Hm] Hs.
  destruct a; cbn in Hs; unfold Lifetime.parent_exists, publish_as, remove_file in *; try rewrite Hp in Hs; try rewrite Hw in Hs;
    try rewrite Hi in Hs; open_step Hs; try done; cbn.
  all: repeat match goal with H : main _ = _ |- _ => rewrite H in * end; cbn in Hm.
  all: try (destruct Hm as [[? ?]|[? ?]]; try discriminate).
  all: try (split_and!; done).
  all: try (split; [split; cbn; unfold Lifetime.parent_exists; cbn; try done|done]).
  all: try (left; split; [done|set_unfold; intuition congruence]).
  all: try (right; split; [done|set_unfold; intuition congruence]).
  all: try (destruct status as [|[]]; done).
Qed.

Lemma steady_launched table : process_exists table parent_pid = true -> steady (launched table).
Proof using Type. intros H. split; try done. right. split; [done|set_solver]. Qed.
Lemma steady_run acts r s : Forall undisturbed acts -> steady r -> run acts (Run r) = Some s ->
  match s with Run r' => steady r' | Ended e d => e = Exited 1 /\ ReadyEntry ∉ d end.
Proof using Type.
  apply run_invariant. intros a r0 s0 Ha Hr Hs. pose proof (steady_step _ _ _ Ha Hr Hs) as H. destruct s0; [by destruct H|].
  by destruct H as (? & ? & _).
Qed.
Lemma serving_run acts r s : Forall undisturbed acts -> steady r /\ main r = Serving -> run acts (Run r) = Some s ->
  match s with Run r' => steady r' /\ main r' = Serving | Ended _ _ => False end.
Proof using Type.
  apply (run_invariant undisturbed (fun r => steady r /\ main r = Serving) (fun _ _ => False)).
  intros a r0 s0 Ha [Hr Hm] Hs. pose proof (steady_step _ _ _ Ha Hr Hs) as H.
  destruct s0; [destruct H; auto|by destruct H as (_ & _ & [])].
Qed.

(** ** Answers *)

Definition drained (r : Running) : Prop := main r = Served true \/ main r = Returning 0 -> in_flight r = 0%N.
Definition exit_codes (r : Running) : Prop := forall n, main r = Returning n -> (n <= 1)%N.
Lemma drained_step a r s : True -> drained r /\ exit_codes r -> step a (Run r) = Some s ->
  match s with Run r' => drained r' /\ exit_codes r' | Ended (Exited n) _ => (n <= 1)%N | Ended Signalled _ => True end.
Proof using Type.
  intros _ [Hd He] Hs. unfold drained, exit_codes in *.
  destruct a; cbn in Hs; unfold publish_as, remove_file in Hs; open_step Hs; cbn.
  all: repeat match goal with H : main _ = _ |- _ => rewrite H in *; clear H end.
  all: repeat match goal with H : (_ <? _)%N = true |- _ => apply N.ltb_lt in H | H : (_ =? _)%N = true |- _ => apply N.eqb_eq in H end.
  all: try lia; try done.
  all: try (split; [intuition (try discriminate; try lia)|intros n Hn; try injection Hn as <-; try discriminate; try lia; eauto]).
  all: eauto.
Qed.

(** ** The token's file *)

Definition watch_removed (w : Watch) : bool := match w with ReadyRemoved | ErrorRemoved => true | _ => false end.
Definition main_removed (m : Main) : bool :=
  match m with Starting | ReadyStaged | Failed | ErrorStaged | Returning _ => true | _ => false end.
(** Every removal of the readiness document succeeds. *)
Definition removes (a : Action) : Prop := match a with RemoveReady false | WatchRemoveReady false => False | _ => True end.
(** The main task publishes after the watchdog has removed: the two are not ordered. *)
Fixpoint raced (removed : bool) (acts : list Action) : bool :=
  match acts with
  | [] => false
  | WatchRemoveReady _ :: acts => raced true acts
  | PublishReady true _ :: acts => removed || raced removed acts
  | _ :: acts => raced removed acts
  end.
Definition cleared (r : Running) : Prop := watch_removed (watch r) || main_removed (main r) = true -> ReadyEntry ∉ disk r.

Lemma cleared_run acts : forall r s, Forall removes acts -> raced (watch_removed (watch r)) acts = false -> cleared r ->
  run acts (Run r) = Some s -> match s with Ended (Exited _) d => ReadyEntry ∉ d | _ => True end.
Proof using Type.
  induction acts as [|a acts IH]; intros r s Hacts Hrace Hr Hrun; [by injection Hrun as <-|].
  apply Forall_cons in Hacts as [Ha Hacts]. apply run_cons_inv in Hrun as (s1 & Hs & Hrun). unfold cleared in Hr.
  destruct a; cbn in Hs; unfold publish_as, remove_file in Hs; open_step Hs; cbn in Hrace.
  all: try (destruct (run_ended _ _ _ _ Hrun) as [-> ->]; try done; apply Hr;
            repeat match goal with H : watch _ = _ |- _ => rewrite H | H : main _ = _ |- _ => rewrite H end; rewrite ?orb_true_r; done).
  all: try (apply orb_false_elim in Hrace as [Hr0 Hrace]).
  all: refine (IH _ _ Hacts _ _ Hrun); cbn;
    repeat match goal with H : watch _ = _ |- _ => rewrite H in *; clear H | H : main _ = _ |- _ => rewrite H in *; clear H end; try done.
  all: unfold cleared; cbn; repeat match goal with H : watch _ = _ |- _ => rewrite H in *; clear H | H : main _ = _ |- _ => rewrite H in *; clear H end.
  all: cbn in *; try done; try (rewrite Hr0; done); try (set_unfold; intuition congruence).
Qed.

(** What an end of the process says: a code of [main], or a signal. *)
Lemma reachable_running table r : reachable parent_pid table (Run r) -> drained r /\ exit_codes r.
Proof using Type.
  intros [acts Hrun].
  refine (run_invariant (fun _ => True) (fun r => drained r /\ exit_codes r)
            (fun e _ => match e with Exited n => (n <= 1)%N | Signalled => True end) drained_step acts _ _ _ _ Hrun).
  - apply Forall_true. done.
  - split; [intros [|]; discriminate|intros n; discriminate].
Qed.

(** C9: A gateway whose watchdog was started lives exactly as long as it should, however the
    main task, the watchdog, requests and signals interleave. (1) Once its parent's pid is
    gone for good, the process ends after at most four turns of the watchdog, which are
    always possible, whatever the main task is doing and whatever requests are in flight.
    (2) While the parent lives and nothing disturbs it, a serving gateway stays serving; the
    readiness document is on the disk exactly while it serves; it ends only when its start
    has failed, with status 1. (3) [main] returns success only when every accepted request
    has been answered to the end. (4) When removals succeed and the watchdog's removal does
    not come before the publication, an end by either of them leaves no token on the disk. *)
Theorem gateway_lifetime (env : Surroundings)
    (Hstart : start_parent_exit_watchdog env parent_pid = Ok tt) :
  let table := kill_zero env in
  (forall r acts s, parent_exists r = false -> Forall stays_gone acts ->
     run acts (Run r) = Some s ->
     match s with
     | Ended _ _ => True
     | Run r' => forall ready error, let turns := last_turns (watch r') ready error in
         length turns + length (filter (fun a => is_watch a = true) acts) <= 4
         /\ exists d, run turns (Run r') = Some (Ended (Exited 0) d)
     end)
  /\ (forall acts s, Forall undisturbed acts -> run acts (Run (launched table)) = Some s ->
       match s with
       | Run r => (main r = Serving <-> ReadyEntry ∈ disk r)
                  /\ (main r = Serving -> forall more s', Forall undisturbed more -> run more s = Some s' ->
                        exists r', s' = Run r' /\ main r' = Serving)
       | Ended e d => e = Exited 1 /\ ReadyEntry ∉ d
       end)
  /\ (forall r e d, reachable parent_pid table (Run r) -> step Return (Run r) = Some (Ended e d) ->
       e = Exited 1 \/ (e = Exited 0 /\ in_flight r = 0%N))
  /\ (forall acts n d, Forall removes acts -> raced false acts = false ->
       run acts (Run (launched table)) = Some (Ended (Exited n) d) -> ReadyEntry ∉ d).
Proof using Type.
  intros table. unfold start_parent_exit_watchdog in Hstart.
  destruct (process_exists (kill_zero env) parent_pid) eqn:Hp; [clear Hstart|discriminate]. split_and!.
  - intros r acts s Hgone Hacts Hrun. pose proof (watch_count acts r s Hacts Hgone Hrun) as H. destruct s as [r'|]; [|done].
    destruct H as [Hp' Hc]. intros ready error turns. split; [|by apply last_turns_end].
    subst turns. unfold last_turns. rewrite length_drop. cbn. destruct (watch r), (watch r'); cbn in *; lia.
  - intros acts s Hacts Hrun. pose proof (steady_run _ _ _ Hacts (steady_launched _ Hp) Hrun) as H. destruct s as [r|e d]; [|done].
    split.
    + destruct (steady_main _ H) as [[Hm Hd]|[Hm Hd]]; [done|]. split; [intros E; by rewrite E in Hm|done].
    + intros Hm more s' Hmore Hrun'. pose proof (serving_run more r s' Hmore (conj H Hm) Hrun') as H'.
      destruct s' as [r'|]; [|done]. exists r'. by destruct H'.
  - intros r e d Hr Hs. destruct (reachable_running _ _ Hr) as [Hd He]. cbn in Hs. destruct (main r) eqn:Hm; try discriminate Hs.
    injection Hs as <- _. pose proof (He _ Hm). assert (Hn : (status = 0 \/ status = 1)%N) by lia. destruct Hn as [Hn|Hn]; subst status; [right|by left].
    split; [done|]. apply Hd. by right.
  - intros acts n d Hacts Hrace Hrun. refine (cleared_run acts (launched table) _ Hacts Hrace _ Hrun). intros _. cbn. set_solver.
Qed.
End Life.

(** ** Runs *)

Section Runs.
Let alive : N -> KillOutcome := fun _ => Delivered.
Let gone : N -> KillOutcome := fun _ => NoSuchProcess.
Let start : list Action := [StageReady true; PublishReady true true; Listen; Request].

(** The race that (4) excludes: the watchdog has removed the document when the main task
    renames the staged one into place, and then exits. The token stays on the disk. *)
Example orphan_leaves_token :
  exists d, run 12 [StageReady true; Processes gone; WatchPoll; WatchRemoveReady true; PublishReady true true;
                    WatchRemoveError true; WatchExit] (Run (launched alive)) = Some (Ended (Exited 0) d) /\ ReadyEntry ∈ d.
Proof. exists {[ReadyEntry]}. split; [vm_compute; reflexivity|set_solver]. Qed.
(** Graceful shutdown alone would wait for the stream in flight. *)
Example shutdown_waits :
  run 12 (start ++ [Processes gone; PollParent; Drained]) (Run (launched alive)) = None
  /\ is_Some (run 12 (start ++ [Processes gone; PollParent; Respond; Drained; RemoveReady true; Return]) (Run (launched alive))).
Proof. split; vm_compute; [reflexivity|eauto]. Qed.

Let env : Surroundings := {|
  kill_zero := alive; thread_spawned := Ok tt; stdin := Ok []; auth_config := Ok tt; client_headers := []; build_client := fun _ => Ok tt;
  codex_stored := None; zai_loaded := Ok None; random := Err ""; catalog_timed_out := false; listen := fun _ => Err "" |}.
(** Serving with a stream in flight, its shutdown begun, when the parent is gone. *)
Let orphan : Running := {|
  main := Draining; watch := Watching; listening := true; interrupted := false; in_flight := 1;
  processes := gone; disk := {[ReadyEntry]} |}.

Lemma gateway_lifetime_witness :
  reachable 12 alive (Run orphan)
  /\ exists d, run 12 [WatchPoll; WatchRemoveReady true; WatchRemoveError false; WatchExit] (Run orphan) = Some (Ended (Exited 0) d).
Proof.
  assert (Hreach : reachable 12 alive (Run orphan)).
  { exists (start ++ [Processes gone; PollParent]). vm_compute. reflexivity. }
  split; [exact Hreach|].
  destruct (gateway_lifetime 12 env eq_refl) as [Horphan _].
  exact (proj2 (Horphan orphan [] (Run orphan) eq_refl (List.Forall_nil _) eq_refl true false)).
Defined.
End Runs.
