(* ===== verification/LauncherReady.v ===== *)
(** * The launcher's side of readiness

    Models the readiness contract of [crates/muse-codex/src/lib.rs]: [GatewayReady] and
    its validation, the startup failure messages, and the loop that waits for one or the
    other. Reading the private files gives [Ok None] (absent), a parsed document, or an
    error; the loop sees a script of such observations, one per turn. *)

From S2P Require Import Prelude Utf8 Json Errors Catalog GatewayMain.
From stdpp Require Import options.

Definition GATEWAY_READY_SCHEMA_VERSION : N := 4.
Definition MAX_GATEWAY_MODELS : nat := N.to_nat 4096.
Definition i64_max : N := 2 ^ 63 - 1.

Inductive PublicProvider : Type := PublicCodex | PublicZai.
#[export] Instance PublicProvider_eq_dec : EqDecision PublicProvider.
Proof. solve_decision. Defined.
Definition provider_str (p : PublicProvider) : string :=
  match p with PublicCodex => "codex" | PublicZai => "zai" end.

Record GatewayModel := {
  id : string;
  display_name : option string;
  description : option string;
  context_window : option N;
  max_output_tokens : option N;
  supported_reasoning_efforts : list string;
  default_reasoning_effort : option string;
  is_visible : bool;
  is_default : bool
}.
Record GatewayReady := {
  schema_version : N;
  provider : string;
  base_url : string;
  token : string;
  default_model : string;
  models : list GatewayModel
}.

(** ** Validation *)

Definition validate_loopback_base_url (value : string) : result string unit :=
  port ← ok_or (strip_prefix "http://127.0.0.1:" value) "gateway returned a non-loopback base_url";
  reject (is_empty port || negb (str_forallb (fun c => negb (char_in "/?#@" c)) port))
         "gateway returned an invalid loopback base_url";;
  port ← ok_or (parse_uint 65536 port) "gateway returned an invalid loopback port";
  reject (port =? 0)%N "gateway returned loopback port zero".

Definition validate_gateway_token {B64 : Base64} (token : string) : result string unit :=
  decoded ← ok_or (or_else (decode_url_safe_no_pad token) (decode_url_safe token))
              "gateway returned a malformed bearer token";
  reject (negb (blen decoded =? 32)%N) "gateway bearer token is not 256 bits".

Definition validate_gateway_model (model : string) : result string unit :=
  reject (is_empty model || (256 <? slen model)%N || starts_with "-" model
          || any_char (fun c => is_control c || is_whitespace c) model)
         "gateway returned an invalid default model id".

Definition bad_label (label : string) : bool :=
  is_empty label || (512 <? slen label)%N || any_char is_control label.
Definition bad_description (description : string) : bool :=
  (16 * 1024 <? slen description)%N || negb (str_forallb (fun c => negb (Ascii.eqb c NUL)) description).
Definition bad_limit (limit : N) : bool := (limit =? 0)%N || (i64_max <? limit)%N.
(** One turn of the loop over the effort variants, with those already seen. *)
Definition check_effort (seen : list string) (effort : string) : result string (list string) :=
  reject (is_empty effort || (64 <? slen effort)%N
          || any_char (fun c => is_control c || is_whitespace c) effort || one_of effort seen)
         "gateway returned an invalid reasoning effort variant";;
  Ok (effort :: seen).

(** One turn of the loop over the models: the ids seen, the visible models and the
    defaults counted so far. *)
Definition check_model (default_model : string) (st : list string * nat * nat) (model : GatewayModel)
  : result string (list string * nat * nat) :=
  let '(ids, visible, matching_default) := st in
  validate_gateway_model (id model);;
  reject (one_of (id model) ids) "gateway returned duplicate model ids";;
  reject (is_some_and bad_label (display_name model)) "gateway returned an invalid model display name";;
  reject (is_some_and bad_description (description model)) "gateway returned an invalid model description";;
  reject (is_some_and bad_limit (context_window model) || is_some_and bad_limit (max_output_tokens model))
         "gateway returned an invalid model limit";;
  reject (32 <? length (supported_reasoning_efforts model)) "gateway returned too many reasoning effort variants";;
  fold_res check_effort [] (supported_reasoning_efforts model);;
  reject (is_some_and (fun effort => negb (existsb (fun supported => String.eqb supported effort)
                                                   (supported_reasoning_efforts model)))
                      (default_reasoning_effort model))
         "gateway returned an unsupported default reasoning effort";;
  let visible := if is_visible model then S visible else visible in
  reject (is_default model && (negb (is_visible model) || negb (String.eqb (id model) default_model)))
         "gateway default model metadata is inconsistent";;
  Ok (id model :: ids, visible, if is_default model then S matching_default else matching_default).

Definition validate_gateway_models (models : list GatewayModel) (default_model : string) : result string unit :=
  reject ((length models =? 0) || (MAX_GATEWAY_MODELS <? length models)) "gateway returned an invalid model count";;
  '(_, visible, matching_default) ← fold_res (check_model default_model) ([], 0, 0) models;
  reject ((visible =? 0) || negb (matching_default =? 1)) "gateway returned no unique visible default model".

Definition validate {B64 : Base64} (ready : GatewayReady) (selected : PublicProvider) : result string GatewayReady :=
  reject (negb (schema_version ready =? GATEWAY_READY_SCHEMA_VERSION)%N)
         ("unsupported gateway readiness schema " +:+ pretty (schema_version ready) +:+ "; expected "
          +:+ pretty GATEWAY_READY_SCHEMA_VERSION);;
  reject (negb (String.eqb (provider ready) (provider_str selected)))
         ("gateway served provider '" +:+ provider ready +:+ "' but '" +:+ provider_str selected +:+ "' was selected");;
  validate_loopback_base_url (base_url ready);;
  validate_gateway_token (token ready);;
  validate_gateway_model (default_model ready);;
  validate_gateway_models (models ready) (default_model ready);;
  Ok ready.

(** ** Startup failures *)

Record StartupFailure := { failure_schema : N; failure_code : string }.

Definition startup_message (zai : bool) (code : string) : string :=
  if String.eqb code "authentication_required" then
    (if zai then "No Z.ai credentials are saved. Run `muse-codex auth set --provider zai --api-key-stdin`."
     else "No Codex credentials are saved. Run `muse-codex login` or `muse-codex auth set --provider codex --api-key-stdin`.")
  else if String.eqb code "authentication_failed" then
    (if zai then "Z.ai rejected the stored key. Store a current key with `muse-codex auth set --provider zai --api-key-stdin`."
     else "Codex authentication was rejected. Run `muse-codex login` to sign in again.")
  else if String.eqb code "provider_option_unsupported" then
    "An option was selected that the chosen provider does not support. Restart without it."
  else if String.eqb code "custom_base_url_requires_api_key" then
    "A custom base URL is allowed only with API-key authentication. Remove --base-url/OPENAI_BASE_URL to use your ChatGPT subscription."
  else if String.eqb code "invalid_base_url" then
    "The custom API base URL must use HTTPS and contain no credentials, query, or fragment."
  else if String.eqb code "credential_store_unavailable" then
    "The isolated credential store could not be opened. Check macOS Keychain access and run `muse-codex auth status`."
  else if String.eqb code "catalog_rate_limited" then
    "Codex model discovery is rate limited. Wait for the account limit to reset and retry."
  else if String.eqb code "catalog_rejected" then
    "The provider rejected model discovery. Check account access with `muse-codex auth status`."
  else if String.eqb code "catalog_invalid" then
    "The provider returned an incompatible model catalog. Update muse-codex before retrying."
  else if String.eqb code "catalog_timeout" then
    "Codex model discovery timed out. Check your connection and any pending macOS Keychain prompt, then retry."
  else if String.eqb code "network_unavailable" then
    "Could not reach the Codex provider. Check your connection and retry."
  else "The private gateway could not start. Check the installed launcher/gateway pair and retry.".

(** [read_gateway_startup_failure]: [file] is the private error file, once opened, parsed. *)
Definition read_gateway_startup_failure (file : result string (option StartupFailure)) (selected : PublicProvider)
  : result string (option string) :=
  file ← file;
  match file with
  | None => Ok None
  | Some failure =>
      reject (negb (failure_schema failure =? 1)%N) "unsupported gateway startup error schema";;
      Ok (Some (startup_message (bool_decide (selected = PublicZai)) (failure_code failure)))
  end.

(** ** Waiting *)

(** One turn of the loop: the exit status of the child, the error file, the readiness
    file, and whether the deadline has passed at the end of the turn. *)
Record Turn := {
  try_wait : result string (option string);
  error_file : result string (option StartupFailure);
  ready_file : result string (option GatewayReady);
  deadline_passed : bool
}.

Definition exited_message (status : string) : string :=
  "gateway could not initialize authentication or load the upstream model catalog (" +:+ status
  +:+ "); run `muse-codex auth status`".
Definition TIMED_OUT : string :=
  "the upstream model catalog did not load before the gateway startup timeout; check your connection and retry".

(** A turn that ends the wait, or the parse error to remember. The error file is read
    again on the way out; the script gives both reads of a turn the same content. *)
Definition wait_turn {B64 : Base64} (selected : PublicProvider) (last_parse_error : option string) (t : Turn)
  : result string GatewayReady + option string :=
  match try_wait t with
  | Err e => inl (Err e)
  | Ok status =>
      match read_gateway_startup_failure (error_file t) selected with
      | Err e => inl (Err e)
      | Ok (Some message) => inl (Err message)
      | Ok None =>
          match status with
          | Some status => inl (Err (exited_message status))
          | None =>
              match ready_file t with
              | Ok (Some ready) => inl (validate ready selected)
              | other =>
                  let last_parse_error := match other with Err e => Some e | Ok _ => last_parse_error end in
                  if deadline_passed t
                  then inl (Err match last_parse_error with
                                | Some _ => "gateway readiness file never became valid"
                                | None => TIMED_OUT
                                end)
                  else inr last_parse_error
              end
          end
      end
  end.

(** [None]: the script ended before the loop did. *)
Fixpoint wait_loop {B64 : Base64} (selected : PublicProvider) (last_parse_error : option string) (script : list Turn)
  : option (result string GatewayReady) :=
  match script with
  | [] => None
  | t :: script' =>
      match wait_turn selected last_parse_error t with
      | inl outcome => Some outcome
      | inr last_parse_error => wait_loop selected last_parse_error script'
      end
  end.
Definition wait_for_gateway_ready {B64 : Base64} (selected : PublicProvider) (script : list Turn)
  : option (result string GatewayReady) := wait_loop selected None script.

(** [gateway_ready_timeout], in milliseconds; [value] is the environment variable. *)
Definition DEFAULT_GATEWAY_READY_TIMEOUT : N := 100 * 1000.
Definition gateway_ready_timeout (value : option string) : N :=
  default DEFAULT_GATEWAY_READY_TIMEOUT (opt_filter (fun ms => negb (ms =? 0)%N) (value ≫= parse_uint u64_modulus)).

(** ** The documents the gateway publishes, as the launcher reads them

    Both sides derive their [serde] implementation from the same field names; the
    launcher ignores nothing the gateway writes. *)
Definition read_model (m : ModelInfo) : GatewayModel :=
  {| id := Catalog.model_id m; display_name := Catalog.display_name m; description := Catalog.description m;
     context_window := Catalog.context_window m; max_output_tokens := Catalog.max_output_tokens m;
     supported_reasoning_efforts := Catalog.supported_reasoning_efforts m;
     default_reasoning_effort := Catalog.default_reasoning_effort m;
     is_visible := Catalog.is_visible m; is_default := Catalog.is_default m |}.
Definition read_ready (r : ReadyFile) : GatewayReady :=
  {| schema_version := ready_schema r; provider := ready_provider r; base_url := ready_base_url r;
     token := ready_token r; default_model := ready_default_model r; models := read_model <$> ready_models r |}.
Definition read_failure (c : StartupErrorCode) : StartupFailure := {| failure_schema := 1; failure_code := code_name c |}.
