(* ===== verification/ReadyCorrect.v ===== *)
(** * What the gateway publishes, the launcher accepts

    The readiness contract between the two programs: every catalog the gateway can serve
    is presentable by the launcher's rules, every readiness document validates, every
    startup code is explained, and the waiting loop ends with the first of them. *)

From S2P Require Import Prelude Utf8 Json Errors Responses Catalog CatalogCorrect Transport Net Auth Zai Backend.
From S2P Require Import TransportCorrect Gateway GatewayMain LauncherReady.
From stdpp Require Import options.

(** ** Presentable catalogs *)

(** The rules of [validate_gateway_models] for one model, but for its id. *)
Definition presentable (m : ModelInfo) : bool :=
  negb (is_some_and bad_label (Catalog.display_name m))
  && negb (is_some_and bad_description (Catalog.description m))
  && negb (is_some_and bad_limit (Catalog.context_window m) || is_some_and bad_limit (Catalog.max_output_tokens m))
  && bool_decide (NoDup (Catalog.supported_reasoning_efforts m))
  && forallb is_reasoning_effort (Catalog.supported_reasoning_efforts m)
  && negb (is_some_and (fun effort => negb (existsb (fun s => String.eqb s effort) (Catalog.supported_reasoning_efforts m)))
                       (Catalog.default_reasoning_effort m)).
(** What a served catalog is. *)
Definition served_catalog (models : list ModelInfo) : Prop :=
  Forall (fun m => presentable m = true) models
  /\ Forall (fun m => validate_model_id (model_id m) = Ok tt) models
  /\ NoDup (model_id <$> models) /\ length models <= MAX_MODELS /\ first_visible_default models.

Lemma presentable_set d m : presentable (set_default d m) = presentable m.
Proof. done. Qed.
Lemma presentable_visible v m : presentable (set_visible v m) = presentable m.
Proof. done. Qed.

(** The widths of the decoded limits: the fields are [Option<i64>]. *)
Definition i64_limits (u : Upstream.Model) : Prop :=
  forall z, Upstream.context_window u = Some z \/ Upstream.max_output_tokens u = Some z -> (z <= Z.of_N i64_max)%Z.

Lemma label_ok v t : normalize_catalog_text v 512 false = Ok (Some t) -> bad_label t = false.
Proof.
  unfold normalize_catalog_text, bad_label. destruct v as [v|]; [|done].
  destruct (is_empty (trim v)) eqn:E; [done|].
  destruct ((512 <? slen v)%N || any_char (catalog_control false) v) eqn:Eb; [done|]. intros [= ->].
  apply orb_false_elim in Eb as [-> Hc]. rewrite orb_false_r. apply orb_false_intro.
  - by destruct t.
  - unfold any_char in *. rewrite <- Hc. clear. induction (chars t) as [|c l IH]; [done|].
    cbn [existsb]. rewrite IH. unfold catalog_control at 2. by rewrite andb_true_r.
Qed.
Lemma description_ok v t : normalize_catalog_text v (16 * 1024) true = Ok (Some t) -> bad_description t = false.
Proof.
  unfold normalize_catalog_text, bad_description. destruct v as [v|]; [|done].
  destruct (is_empty (trim v)) eqn:E; [done|].
  destruct ((16 * 1024 <? slen v)%N || any_char (catalog_control true) v) eqn:Eb; [done|]. intros [= ->].
  apply orb_false_elim in Eb as [-> Hc]. cbn [orb]. by rewrite (any_char_ascii (catalog_control true) NUL t).
Qed.
Lemma limit_ok v n :
  (forall z, v = Some z -> (z <= Z.of_N i64_max)%Z) -> normalize_model_limit v = Ok (Some n) -> bad_limit n = false.
Proof.
  intros Hz [Hn Hv]%model_limit. specialize (Hz _ Hv). unfold bad_limit. apply orb_false_intro.
  - apply N.eqb_neq. lia.
  - apply N.ltb_ge. lia.
Qed.

Lemma normalize_model_presentable u m : i64_limits u -> normalize_model u = Ok m -> presentable m = true.
Proof.
  intros Hz Hm. pose proof (normalize_model_sound _ _ Hm) as Hs. unfold normalize_model in Hm.
  revert Hm. intros (listed & _ & (newer & _ & (ms & _ & (dn & Hdn & (de & Hde & (cw & Hcw & (mo & Hmo & [= <-])
    %bind_ok)%bind_ok)%bind_ok)%bind_ok)%bind_ok)%bind_ok)%bind_ok.
  destruct Hs as [_ _ [Hnd Hef] Hdef _ _ _ _ _]. cbn in Hnd, Hef, Hdef.
  unfold presentable. cbn [Catalog.display_name Catalog.description Catalog.context_window Catalog.max_output_tokens
    Catalog.supported_reasoning_efforts Catalog.default_reasoning_effort].
  rewrite !andb_true_iff, !negb_true_iff. split_and!.
  - destruct dn as [t|]; [|done]. by eapply label_ok.
  - destruct de as [t|]; [|done]. by eapply description_ok.
  - apply orb_false_intro; [destruct cw as [n|]|destruct mo as [n|]]; try done;
      (eapply limit_ok; [|done]); intros z Hv; apply Hz; auto.
  - by apply bool_decide_eq_true.
  - apply forallb_forall. intros e He. by apply list_elem_of_In, Hef in He as [_ ?].
  - destruct (opt_filter _ _) as [e|] eqn:E; [|done]. cbn [is_some_and]. apply negb_false_iff.
    apply existsb_exists. exists e. rewrite String.eqb_refl. split; [|done].
    apply list_elem_of_In. by apply Hdef.
Qed.

(** The fields of a decoded response fit their types. *)
Definition i64_codec {CC : CatalogCodec} : Prop :=
  forall body up u, decode_models body = Ok up -> In u (Upstream.models up ++ Upstream.data up) -> i64_limits u.

Section Catalogs.
  Context {CC : CatalogCodec} (Hcodec : i64_codec).

Lemma upstream_member up us u :
  upstream_models up = Ok us -> In u us -> In u (Upstream.models up ++ Upstream.data up).
Proof.
  intros (_ & _ & _ & ->)%upstream_models_ok Hu. apply in_or_app.
  destruct (nonempty (Upstream.models up)); [left|by right].
  by apply (Permutation_in _ (sort_by_key_perm Upstream.priority _)).
Qed.

Lemma Forall2_in_r {A B} (P : A -> B -> Prop) (Q : B -> Prop) l l' :
  Forall2 P l l' -> (forall a b, In a l -> P a b -> Q b) -> Forall Q l'.
Proof.
  induction 1 as [|a b l l' Hab _ IH]; intros H; constructor.
  - apply (H a); [by left|done].
  - apply IH. intros x y Hx. apply H. by right.
Qed.

Lemma normalize_models_served body models : normalize_models body = Ok models -> served_catalog models.
Proof using Hcodec.
  intros Hrun. pose proof (catalog_sound _ _ Hrun) as (up' & us' & Hd' & Hus' & Hn & Hv & Hs & Hf).
  apply normalize_models_inv in Hrun as (up & us & infos & Hd & Hus & _ & _ & Hi & Hc).
  assert (up' = up) as -> by congruence. assert (us' = us) as -> by congruence.
  assert (Hp : Forall (fun m => presentable m = true) infos).
  { eapply Forall2_in_r; [exact Hi|]. intros u m Hu Hm. apply (normalize_model_presentable u); [|done].
    apply (Hcodec _ _ _ Hd). by eapply upstream_member. }
  assert (Hdef : Forall (fun m => Catalog.is_default m = false) infos).
  { eapply Forall2_in_r; [exact Hi|]. intros u m _. apply normalize_model_not_default. }
  destruct (choose_default_first _ _ Hdef Hc) as [_ Heq]. repeat split.
  - eapply Forall2_in_r; [exact Heq|]. rewrite List.Forall_forall in Hp. intros i m Hin [->| ->]; [auto|].
    rewrite presentable_set. auto.
  - eapply Forall2_in_r; [exact Hs|]. rewrite List.Forall_forall in Hv. intros u m Hu Hm.
    rewrite (sm_id _ _ Hm). by apply Hv.
  - by rewrite (catalog_ids _ _ Hs).
  - apply upstream_models_ok in Hus as (_ & _ & Hlen & _). by rewrite <- (Forall2_length _ _ _ Hs).
  - done.
Qed.

Lemma NoDup_fmap_filter {A B} (f : A -> B) (p : A -> bool) l : NoDup (f <$> l) -> NoDup (f <$> List.filter p l).
Proof.
  induction l as [|a l IH]; [done|]. rewrite fmap_cons. intros [Ha Hl]%NoDup_cons. cbn [List.filter].
  destruct (p a); [|by apply IH]. rewrite fmap_cons. apply NoDup_cons. split; [|by apply IH].
  intros (b & Heq & Hb)%list_elem_of_fmap. apply Ha. apply list_elem_of_fmap. exists b. split; [done|].
  apply list_elem_of_In in Hb. apply filter_In in Hb as [Hb _]. by apply list_elem_of_In.
Qed.

Lemma merged_served bundled_body body models :
  normalize_api_models_with_bundled_metadata bundled_body body = Ok models -> served_catalog models.
Proof using Hcodec.
  intros (available & bundled & _ & Hb & Hall & Hf)%merged_catalog_inv.
  apply normalize_models_served in Hb as (Hp & Hv & Hn & Hlen & _).
  rewrite List.Forall_forall in Hp, Hv.
  assert (Hm : forall P : ModelInfo -> Prop,
            (forall b v d, In b bundled -> P (set_default d (set_visible v b)) /\ P (set_default true (set_default d (set_visible v b)))) -> Forall P models).
  { intros P HP. eapply Forall2_in_r; [exact Hall|].
    intros b m [Hin _]%filter_In (m' & (a & _ & _ & ->) & [->| ->]); by eapply HP. }
  assert (Hids : model_id <$> models = model_id <$> List.filter (fun b => supported_in_api b && in_account available b) bundled).
  { clear -Hall. induction Hall as [|b m bs ms (m' & (a & _ & _ & ->) & [->| ->]) _ IH]; [done|..]; by rewrite !fmap_cons, IH. }
  repeat split.
  - apply Hm. intros b v d Hin. rewrite !presentable_set, presentable_visible. auto.
  - apply Hm. intros b v d Hin. cbn. auto.
  - rewrite Hids. by apply NoDup_fmap_filter.
  - rewrite <- (length_fmap model_id), Hids, length_fmap. etransitivity; [|exact Hlen]. apply List.filter_length_le.
  - done.
Qed.
End Catalogs.

Lemma pinned_served : served_catalog pinned_models.
Proof.
  repeat split.
  - apply List.Forall_forall, forallb_forall. 
    vm_compute. reflexivity.
  - repeat (constructor; [vm_compute; reflexivity|]). constructor.
  - apply (bool_decide_unpack (NoDup (model_id <$> pinned_models))). vm_compute. exact I.
  - apply Nat.leb_le. vm_compute. reflexivity.
  - eexists [], _, _. split; [reflexivity|]. repeat split; [constructor|].
    repeat (constructor; [reflexivity|]). constructor.
Qed.

(** ** The launcher's validation *)

Lemma model_id_accepted s : validate_model_id s = Ok tt -> validate_gateway_model s = Ok tt.
Proof.
  unfold validate_model_id, validate_gateway_model. intros ([] & H1%reject_ok & H2%reject_ok)%bind_ok.
  apply reject_ok. change (256 <? slen s)%N with (MAX_MODEL_ID_BYTES <? slen s)%N. rewrite H1. cbn [orb].
  apply orb_false_elim in H2 as [Hw Hc]. unfold any_char in *. revert Hw Hc. clear.
  induction (chars s) as [|c l IH]; [done|]. cbn [existsb].
  intros [-> Hw]%orb_false_elim [-> Hc]%orb_false_elim. by apply IH.
Qed.

Definition known_effort_words : list string := ["none"; "minimal"; "low"; "medium"; "high"; "xhigh"; "max"; "ultra"].
Lemma efforts_accepted efforts seen :
  NoDup (efforts ++ seen) -> forallb is_reasoning_effort efforts = true ->
  is_ok (fold_res check_effort seen efforts) = true.
Proof.
  revert seen. induction efforts as [|e efforts IH]; intros seen Hn; [done|]. cbn [forallb fold_res].
  intros [He Hes]%andb_prop.
  assert (Hword : is_empty e || (64 <? slen e)%N || any_char (fun c => is_control c || is_whitespace c) e = false).
  { apply one_of_spec in He. cbn in He. decompose sum He; subst; try done; vm_compute; reflexivity. }
  assert (Hseen : one_of e seen = false).
  { destruct (one_of e seen) eqn:E; [|done]. apply one_of_spec in E. cbn in Hn. apply NoDup_cons in Hn as [Hn _].
    exfalso. apply Hn, elem_of_app. right. by apply list_elem_of_In. }
  assert (check_effort seen e = Ok (e :: seen)) as -> by (unfold check_effort; by rewrite Hword, Hseen).
  cbn [mbind result_bind].
  apply IH; [|done]. by rewrite (Permutation_app_comm efforts (e :: seen)), <- app_comm_cons, (Permutation_app_comm seen).
Qed.
Lemma efforts_few efforts :
  NoDup efforts -> forallb is_reasoning_effort efforts = true -> length efforts <= 8.
Proof.
  intros Hn Hk. change 8 with (length known_effort_words). apply NoDup_incl_length; [by apply NoDup_ListNoDup|].
  intros e He. rewrite forallb_forall in Hk. by apply one_of_spec, Hk.
Qed.

(** What one accepted model adds to the counts. *)
Definition count_if (b : bool) (n : nat) : nat := if b then S n else n.
Lemma check_model_accepts d ids v n m :
  presentable m = true -> validate_model_id (model_id m) = Ok tt -> ~ In (model_id m) ids ->
  (Catalog.is_default m = true -> Catalog.is_visible m = true /\ model_id m = d) ->
  check_model d (ids, v, n) (read_model m)
  = Ok (model_id m :: ids, count_if (Catalog.is_visible m) v, count_if (Catalog.is_default m) n).
Proof.
  intros Hp Hid Hnew Hd. unfold check_model, read_model.
  cbn [id display_name description context_window max_output_tokens supported_reasoning_efforts
       default_reasoning_effort is_visible is_default].
  rewrite (model_id_accepted _ Hid). cbn [mbind result_bind].
  destruct (one_of (model_id m) ids) eqn:Eids; [by apply one_of_spec in Eids|]. cbn [reject mbind result_bind].
  unfold presentable in Hp. rewrite !andb_true_iff, !negb_true_iff in Hp. destruct Hp as (((((Hl & Hde) & Hlim) & Hn) & Hk) & Hdef).
  apply bool_decide_eq_true in Hn. rewrite Hl, Hde, Hlim. cbn [reject mbind result_bind].
  replace (32 <? length (Catalog.supported_reasoning_efforts m)) with false
    by (symmetry; apply Nat.ltb_ge; pose proof (efforts_few _ Hn Hk); lia).
  cbn [reject mbind result_bind].
  pose proof (efforts_accepted (Catalog.supported_reasoning_efforts m) []) as He.
  rewrite app_nil_r in He. specialize (He Hn Hk).
  destruct (fold_res check_effort [] _) as [seen|]; [|done]. cbn [mbind result_bind]. rewrite Hdef. cbn [reject mbind result_bind].
  destruct (Catalog.is_default m) eqn:Em; cbn [andb]; [|done].
  destruct (Hd eq_refl) as [-> ->]. by rewrite String.eqb_refl.
Qed.

Lemma check_models_accepts d models ids v n :
  Forall (fun m => presentable m = true) models ->
  Forall (fun m => validate_model_id (model_id m) = Ok tt) models ->
  NoDup ((model_id <$> models) ++ ids) ->
  Forall (fun m => Catalog.is_default m = true -> Catalog.is_visible m = true /\ model_id m = d) models ->
  exists ids', fold_res (check_model d) (ids, v, n) (read_model <$> models)
  = Ok (ids', length (List.filter Catalog.is_visible models) + v, length (List.filter Catalog.is_default models) + n).
Proof.
  revert ids v n. induction models as [|m models IH]; intros ids v n Hp Hid Hn Hd; [by exists ids|].
  apply Forall_cons in Hp as [Hm Hp], Hid as [Hmid Hid], Hd as [Hmd Hd].
  rewrite fmap_cons in *. cbn [fold_res app] in *. apply NoDup_cons in Hn as [Hnew Hn].
  rewrite check_model_accepts; try done.
  2: { intros Hin. apply Hnew, elem_of_app. right. by apply list_elem_of_In. }
  cbn [mbind result_bind].
  destruct (IH (model_id m :: ids) (count_if (Catalog.is_visible m) v) (count_if (Catalog.is_default m) n)) as [ids' Hrun];
    try done.
  { rewrite (Permutation_app_comm (model_id <$> models)). cbn. apply NoDup_cons.
    by rewrite (Permutation_app_comm ids (model_id <$> models)). }
  exists ids'. rewrite Hrun. cbn [List.filter]. unfold count_if.
  by destruct (Catalog.is_visible m), (Catalog.is_default m); cbn [length]; rewrite ?Nat.add_succ_r.
Qed.

Lemma first_default models :
  first_visible_default models ->
  exists m, Prelude.find Catalog.is_default models = Some m /\ In m models /\ Catalog.is_visible m = true
    /\ Forall (fun m' => Catalog.is_default m' = true -> m' = m) models
    /\ length (List.filter Catalog.is_default models) = 1
    /\ 0 < length (List.filter Catalog.is_visible models).
Proof.
  intros (pre & m & post & -> & Hv & Hd & Hpre & Hpost). exists m.
  assert (Hfp : List.filter Catalog.is_default pre = []).
  { clear -Hpre. induction Hpre as [|x l [_ Hx] _ IH]; [done|]. cbn [List.filter]. by rewrite Hx. }
  assert (Hfq : List.filter Catalog.is_default post = []).
  { clear -Hpost. induction Hpost as [|x l Hx _ IH]; [done|]. cbn [List.filter]. by rewrite Hx. }
  split_and!; try done.
  - clear -Hpre Hd. induction Hpre as [|x l [_ Hx] _ IH]; cbn [app Prelude.find]; [by rewrite Hd|by rewrite Hx].
  - apply in_or_app. right. by left.
  - apply Forall_app. split; [|constructor; [done|]]; (eapply Forall_impl; [eassumption|]).
    + intros x [_ Hx]. congruence.
    + intros x Hx. cbn in Hx. congruence.
  - rewrite List.filter_app. cbn [List.filter]. rewrite Hd, Hfp, Hfq. done.
  - rewrite List.filter_app, length_app. cbn [List.filter]. rewrite Hv. cbn [length]. lia.
Qed.

Lemma served_catalog_validates models :
  served_catalog models ->
  exists m, Prelude.find Catalog.is_default models = Some m
    /\ validate_gateway_model (model_id m) = Ok tt
    /\ validate_gateway_models (read_model <$> models) (model_id m) = Ok tt.
Proof.
  intros (Hp & Hid & Hn & Hlen & Hf). destruct (first_default _ Hf) as (m & Hfind & Hin & Hv & Hall & H1 & H2).
  exists m. split; [done|]. split.
  { apply model_id_accepted. rewrite List.Forall_forall in Hid. by apply Hid. }
  unfold validate_gateway_models. rewrite length_fmap.
  destruct (check_models_accepts (model_id m) models [] 0 0) as [ids' Hrun]; try done.
  { by rewrite app_nil_r. }
  { eapply Forall_impl; [exact Hall|]. intros x Hx Hd. by rewrite (Hx Hd). }
  rewrite Hrun. replace ((length models =? 0) || (MAX_GATEWAY_MODELS <? length models)) with false.
  2: { symmetry. apply orb_false_intro; [apply Nat.eqb_neq; by destruct models|]. by apply Nat.ltb_ge. }
  cbn [reject mbind result_bind]. rewrite H1, !Nat.add_0_r.
  destruct (length (List.filter Catalog.is_visible models)); [lia|done].
Qed.

(** ** The readiness document *)

Lemma loopback_accepted port :
  (0 < port < 65536)%N ->
  validate_loopback_base_url ("http://" +:+ addr_text (V4 127 0 0 1 port)) = Ok tt.
Proof.
  intros Hport. unfold validate_loopback_base_url.
  assert (strip_prefix "http://127.0.0.1:" ("http://" +:+ addr_text (V4 127 0 0 1 port)) = Some (pretty port)) as ->.
  { apply strip_prefix_app. unfold addr_text.
    by replace (pretty 127%N) with "127" by reflexivity; replace (pretty 0%N) with "0" by reflexivity;
      replace (pretty 1%N) with "1" by reflexivity. }
  cbn [ok_or mbind result_bind]. pose proof (parse_uint_pretty 65536 port ltac:(lia)) as Hparse. rewrite Hparse.
  assert (is_empty (pretty port) = false) as ->.
  { destruct (pretty port) eqn:E; [|done]. by cbn in Hparse. }
  assert (str_forallb (fun c => negb (char_in "/?#@" c)) (pretty port) = true) as ->.
  { pose proof (pretty_digits port) as Hd. clear -Hd. induction (pretty port) as [|c s IH]; [done|]. cbn [str_forallb] in *.
    apply andb_prop in Hd as [Hc Hs]. rewrite IH, andb_true_r by done.
    unfold char_in. cbn [str_forallb].
    destruct (Ascii.eqb_spec "/"%char c) as [<-|]; [done|]. destruct (Ascii.eqb_spec "?"%char c) as [<-|]; [done|].
    destruct (Ascii.eqb_spec "#"%char c) as [<-|]; [done|]. by destruct (Ascii.eqb_spec "@"%char c) as [<-|]. }
  cbn [ok_or negb orb reject mbind result_bind]. apply reject_ok, N.eqb_neq. lia.
Qed.

Section Start.
  Context {UP : Upstream} {UR : UrlParser} {SJ : SerdeJson} {CC : CatalogCodec} {B64 : Base64} (env : Surroundings).
  Context (Hcodec : i64_codec) (Hb64 : forall b, decode_url_safe_no_pad (encode_url_safe b) = Some b).
  Context (Hrandom : forall b, random env = Ok b -> blen b = 32%N).
  Context (Hlisten : forall addr a, listen env addr = Ok a -> exists port, (0 < port < 65536)%N /\ a = V4 127 0 0 1 port).

Lemma codex_list_served c t BUNDLED models t' :
  codex_list_models c t BUNDLED = Some (Ok (models, t')) -> served_catalog models.
Proof using Hcodec.
  unfold codex_list_models. destruct (uses_bundled_metadata t (stored_before c)); [|done].
  destruct (execute_with_401_recovery _ _ _ _ _) as [[acts outcome]|]; [|done]. cbn [mbind option_bind].
  intros [= (response & _ & H)%bind_ok]. unfold Transport.list_models in H.
  apply bind_ok in H as (bundled & _ & H). destruct (negb (is_success (raw_status response))); [done|].
  apply bind_ok in H as (body & _ & H). apply bind_ok in H as (ms & Hms & [= <- _]).
  destruct bundled; [by eapply merged_served|by eapply normalize_models_served].
Qed.
Lemma backend_list_served w b BUNDLED skip models b' :
  backend_list_models w b BUNDLED skip = Some (Ok (models, b')) -> served_catalog models /\ Backend.provider b' = Backend.provider b.
Proof using Hcodec.
  destruct b as [t|t]; cbn [backend_list_models].
  - destruct (codex_list_models (world_codex w) t BUNDLED) as [outcome|] eqn:E; [|done]. cbn [mbind option_bind].
    intros [= ([ms t'] & Ho & [= <- <-])%bind_ok]. split; [|done]. rewrite Ho in E. by eapply codex_list_served.
  - intros [= (ms & Hms & [= <- <-])%bind_ok]. split; [|done]. unfold Zai.list_models in Hms.
    apply bind_ok in Hms as (_ & _ & [= <-]). apply pinned_served.
Qed.
Lemma codex_list_total c t BUNDLED : exists r, codex_list_models c t BUNDLED = Some r.
Proof.
  unfold codex_list_models. destruct (uses_bundled_metadata t (stored_before c)); [|by eexists].
  match goal with |- context [execute_with_401_recovery ?st ?ra ?send ?lock ?rec] =>
    destruct (TransportCorrect.execute_some st ra send lock rec) as (acts & r & ->) end.
  by eexists.
Qed.
Lemma backend_list_total w b BUNDLED skip : exists r, backend_list_models w b BUNDLED skip = Some r.
Proof.
  destruct b as [t|t]; cbn [backend_list_models]; [|by eexists].
  destruct (codex_list_total (world_codex w) t BUNDLED) as [r ->]. by eexists.
Qed.

Lemma run_validates w BUNDLED skip addr b ready b' p :
  run env w BUNDLED skip addr b = Some (Ok (ready, b')) -> provider_str p = Backend.provider b ->
  validate (read_ready ready) p = Ok (read_ready ready).
Proof using Hcodec Hb64 Hrandom Hlisten.
  unfold run. intros Hrun Hp. destruct (generate_token env) as [tok|] eqn:Et; [|done].
  unfold load_catalog in Hrun. destruct (catalog_timed_out env).
  { by cbn in Hrun. }
  destruct (backend_list_models w b BUNDLED skip) as [[[catalog b1]|e]|] eqn:Eb; [|done|done].
  apply backend_list_served in Eb as [Hserved Hprov].
  destruct (served_catalog_validates _ Hserved) as (m & Hfind & Hm & Hms).
  cbn [fmap option_fmap option_map transport map_err mbind option_bind result_bind] in Hrun. rewrite Hfind in Hrun.
  cbn [fmap option_fmap option_map ok_or mbind result_bind] in Hrun.
  destruct (listen env addr) as [a|] eqn:El; [|done]. cbn [map_err mbind result_bind] in Hrun.
  destruct (Hlisten _ _ El) as (port & Hport & ->). injection Hrun as <- <-.
  unfold validate, read_ready.
  cbn [schema_version provider base_url token default_model models ready_schema ready_provider ready_base_url
       ready_token ready_default_model ready_models].
  rewrite Hprov, <- Hp, String.eqb_refl. cbn [negb reject mbind result_bind N.eqb]. change (READY_SCHEMA_VERSION =? GATEWAY_READY_SCHEMA_VERSION)%N with true.
  cbn [negb reject mbind result_bind]. pose proof (loopback_accepted port Hport) as Hurl. unfold addr_text in Hurl. rewrite Hurl. cbn [mbind result_bind].
  unfold generate_token in Et. destruct (random env) as [rnd|] eqn:Er; [|done]. injection Et as <-.
  unfold validate_gateway_token. rewrite Hb64. cbn [or_else ok_or mbind result_bind].
  rewrite (Hrandom _ eq_refl). cbn [N.eqb Pos.eqb negb reject mbind result_bind].
  rewrite Hm. cbn [mbind result_bind]. by rewrite Hms.
Qed.

Lemma run_total w BUNDLED skip addr b : exists r, run env w BUNDLED skip addr b = Some r.
Proof.
  unfold run. destruct (generate_token env); [|by eexists]. unfold load_catalog.
  destruct (catalog_timed_out env); [by eexists|].
  destruct (backend_list_total w b BUNDLED skip) as [r ->]. by eexists.
Qed.
(** Starting ends, and what it publishes for the provider selected passes the launcher's checks. *)
Lemma serve_outcome (w : World) (BUNDLED : bytes) (zai_skip : option string) (args : ServeArgs) (selected : PublicProvider)
    (Hselected : serve_provider args = match selected with PublicCodex => ProviderCodex | PublicZai => ProviderZai end) :
  exists outcome, serve env w BUNDLED zai_skip args = Some outcome /\
    forall ready b', outcome = Ok (ready, b') -> validate (read_ready ready) selected = Ok (read_ready ready).
Proof using Hcodec Hb64 Hrandom Hlisten.
  unfold serve. destruct (serve_backend env args) as [b|e] eqn:Eb; [|by eexists].
  destruct (run_total w BUNDLED zai_skip (bind args) b) as [r Hr]. rewrite Hr. eexists. split; [reflexivity|].
  intros ready b' Heq. destruct r as [[r1 b1]|]; [|done]. injection Heq as -> ->.
  eapply run_validates; [exact Hr|].
  assert (Hb : match serve_provider args with ProviderCodex => exists t, b = Codex t | ProviderZai => exists t, b = ZaiBackend t end).
  { clear -Eb. revert Eb. unfold serve_backend. intros (_ & _ & (_ & _ & (_ & _ & (key & _ & (_ & _ & H)%bind_ok)%bind_ok)%bind_ok)%bind_ok)%bind_ok.
    destruct (serve_provider args).
    - apply bind_ok in H as (t & _ & [= <-]). by exists t.
    - apply bind_ok in H as (_ & _ & H). apply bind_ok in H as (t & _ & [= <-]). by exists t. }
  rewrite Hselected in Hb. destruct selected; destruct Hb as [t ->]; done.
Qed.

End Start.

(** ** Waiting *)

(** A turn that shows nothing yet: the child runs, no failure, no readiness (absent or
    not yet valid), time left. *)
Definition quiet (t : Turn) : Prop :=
  try_wait t = Ok None /\ error_file t = Ok None /\ (forall r, ready_file t <> Ok (Some r)) /\ deadline_passed t = false.

Lemma quiet_turn {B64 : Base64} selected e t : quiet t <-> exists e', wait_turn selected e t = inr e'.
Proof.
  unfold quiet, wait_turn. split.
  - intros (-> & -> & Hr & ->). cbn. destruct (ready_file t) as [[r|]|]; [by destruct (Hr r)|by eexists..].
  - intros [e' H]. destruct (try_wait t) as [status|]; [|done].
    destruct (error_file t) as [[f|]|]; cbn [read_gateway_startup_failure mbind result_bind] in H; [|destruct status; [done|]|done].
    + by destruct (reject _ _); cbn in H.
    + split; [done|]. split; [done|].
      destruct (ready_file t) as [[r|]|]; [done|destruct (deadline_passed t); by split..].
Qed.

Lemma wait_loop_quiet {B64 : Base64} selected pre t post e :
  Forall quiet pre -> exists e', wait_loop selected e (pre ++ t :: post) = wait_loop selected e' (t :: post).
Proof.
  intros Hpre. revert e. induction Hpre as [|q pre Hq _ IH]; intros e; [by exists e|]. cbn [app wait_loop].
  destruct (proj1 (quiet_turn selected e q) Hq) as [e' ->]. apply IH.
Qed.

(** The turn at which the launcher can read what the gateway published. *)
Definition shows (outcome : result StartupErrorCode (ReadyFile * Backend)) (t : Turn) : Prop :=
  match outcome with
  | Ok (ready, _) => try_wait t = Ok None /\ error_file t = Ok None /\ ready_file t = Ok (Some (read_ready ready))
  | Err c => is_ok (try_wait t) = true /\ error_file t = Ok (Some (read_failure c))
  end.

(** The generic message is kept for failures that have no better one. *)
Definition generic_message : string := startup_message false "".

Lemma code_explained zai c : startup_message zai (code_name c) = generic_message <-> c = GatewayStartFailed.
Proof. split; [by destruct c, zai|by intros ->]. Qed.

Section Handshake.
  Context {UP : Upstream} {UR : UrlParser} {SJ : SerdeJson} {CC : CatalogCodec} {B64 : Base64} (env : Surroundings).

(** The launcher and the gateway agree at start-up. The gateway's start always ends,
    in a readiness document or an error code; and whatever the earlier turns of the
    launcher's loop saw, the turn that can read it ends the wait with exactly that
    outcome: the readiness document, which passes every check of the launcher (schema,
    provider, loopback URL, 256-bit token, model catalog), or the message of the code,
    generic only for the failures that have no code of their own. *)
Theorem startup_handshake (w : World) (BUNDLED : bytes) (zai_skip : option string) (args : ServeArgs)
    (selected : PublicProvider) (pre post : list Turn)
    (Hcodec : i64_codec) (Hb64 : forall b, decode_url_safe_no_pad (encode_url_safe b) = Some b)
    (Hrandom : forall b, random env = Ok b -> blen b = 32%N)
    (Hlisten : forall addr a, listen env addr = Ok a -> exists port, (0 < port < 65536)%N /\ a = V4 127 0 0 1 port)
    (Hselected : serve_provider args = match selected with PublicCodex => ProviderCodex | PublicZai => ProviderZai end)
    (Hpre : Forall quiet pre) :
  exists outcome, serve env w BUNDLED zai_skip args = Some outcome /\
    forall t, shows outcome t ->
    wait_for_gateway_ready selected (pre ++ t :: post)
    = Some (match outcome with
            | Ok (ready, _) => Ok (read_ready ready)
            | Err c => Err (startup_message (bool_decide (selected = PublicZai)) (code_name c))
            end)
    /\ (forall c, outcome = Err c ->
          startup_message (bool_decide (selected = PublicZai)) (code_name c) = generic_message <-> c = GatewayStartFailed).
Proof.
  destruct (serve_outcome env Hcodec Hb64 Hrandom Hlisten w BUNDLED zai_skip args selected Hselected) as (outcome & Hserve & Hvalid).
 exists outcome. split; [done|]. intros t Hshows.
  split; [|intros c _; apply code_explained].
  unfold wait_for_gateway_ready. destruct (wait_loop_quiet selected pre t post None Hpre) as [e' ->].
  cbn [wait_loop]. unfold wait_turn. destruct outcome as [[ready b']|c]; cbn [shows] in Hshows.
  - destruct Hshows as (-> & -> & ->). cbn. by rewrite (Hvalid _ _ eq_refl).
  - destruct Hshows as [Htry ->]. destruct (try_wait t); [|done]. done.
Qed.

Lemma wait_loop_decided (selected : PublicProvider) (script : list Turn) (r : GatewayReady) (e : option string) :
  (wait_loop selected e script = Some (Ok r) <->
   exists pre t post, script = pre ++ t :: post /\ Forall quiet pre
     /\ try_wait t = Ok None /\ error_file t = Ok None /\ ready_file t = Ok (Some r) /\ validate r selected = Ok r)
  /\ (is_Some (wait_loop selected e script) <-> Exists (fun t => ~ quiet t) script).
Proof.
  revert e. induction script as [|t script IH]; intros e.
  { split; [split; [done|by intros ([|] & ? & ? & ? & _)]|split; [by intros [? ?]|by inversion 1]]. }
  cbn [wait_loop]. destruct (wait_turn selected e t) as [outcome|e'] eqn:Et.
  - assert (Hq : ~ quiet t) by (intros Hq; destruct (proj1 (quiet_turn selected e t) Hq); congruence).
    split; [|split; [intros _; by left|by eexists]]. split.
    + intros [= ->]. exists [], t, script. split; [done|]. split; [constructor|]. unfold wait_turn in Et.
      destruct (try_wait t) as [status|]; [|done].
      destruct (error_file t) as [[f|]|]; cbn [read_gateway_startup_failure mbind result_bind] in Et; [|destruct status; [done|]|done].
      * by destruct (reject _ _); cbn in Et.
      * destruct (ready_file t) as [[r'|]|]; [|destruct (deadline_passed t); done..]. injection Et as Hv.
        assert (r' = r) as Heq.
        { clear -Hv. unfold validate in Hv.
          by repeat match goal with H : mbind _ _ = Ok _ |- _ => apply bind_ok in H as (? & _ & H) end; injection Hv. }
        subst r'. by split_and!.
    + intros (pre & t' & post & Hs & Hpre & Htry & Herr & Hready & Hv). destruct pre as [|q pre].
      * injection Hs as -> ->. unfold wait_turn in Et. rewrite Htry, Herr, Hready in Et. cbn in Et. rewrite Hv in Et. congruence.
      * injection Hs as -> ->. by apply Forall_cons in Hpre as [? _].
  - assert (Hq : quiet t) by (apply (quiet_turn selected e); by eexists). destruct (IH e') as [IH1 IH2]. split.
    + rewrite IH1. split.
      * intros (pre & t' & post & -> & Hpre & H). exists (t :: pre), t', post. split; [done|]. split; [by constructor|done].
      * intros (pre & t' & post & Hs & Hpre & Htry & Herr & Hready & Hv). destruct pre as [|q pre].
        -- injection Hs as -> ->. destruct Hq as (_ & _ & Hn & _). by destruct (Hn r).
        -- injection Hs as -> ->. apply Forall_cons in Hpre as [_ Hpre]. exists pre, t', post. by split_and!.
    + rewrite IH2. split; [by right|]. inversion 1; [done|done].
Qed.

(** The wait is decided by its first turn that shows something, and only a gateway
    that is alive, has reported no failure and whose document passes validation is ever
    used; a deadline always ends the wait. *)
Theorem wait_decided (selected : PublicProvider) (script : list Turn) (r : GatewayReady) :
  (wait_for_gateway_ready selected script = Some (Ok r) <->
   exists pre t post, script = pre ++ t :: post /\ Forall quiet pre
     /\ try_wait t = Ok None /\ error_file t = Ok None /\ ready_file t = Ok (Some r) /\ validate r selected = Ok r)
  /\ (is_Some (wait_for_gateway_ready selected script) <-> Exists (fun t => ~ quiet t) script).
Proof. apply wait_loop_decided. Qed.
End Handshake.

(** ** Witness *)

Section Witness.
Let up : Upstream := {|
  header_value := str_forallb (in_range 32 126); api_provider := fun _ _ => Err ""; append_pair := fun k v url => url;
  get_codex_user_agent := "codex"; MUSE_CODEX_USER_AGENT := "muse-codex/1"; process_id := 7 |}.
Let urls : UrlParser := {| Url_parse := fun s => Ok {|
  url_str := s; scheme := "https"; host_str := Some "api.z.ai"; username := ""; password := None; url_query := None;
  fragment := None |} |}.
Let codec : CatalogCodec := {| decode_models := fun _ => Err "empty" |}.
Let base64 : Base64 := {| encode_url_safe := of_bytes; decode_url_safe_no_pad := fun s => Some (to_bytes s);
                          decode_url_safe := fun _ => None |}.
Let env : Surroundings := {|
  kill_zero := fun _ => Delivered; thread_spawned := Ok tt; stdin := Ok (to_bytes ("key" +:+ lf)); auth_config := Ok tt; client_headers := []; build_client := fun _ => Ok tt;
  codex_stored := None; zai_loaded := Ok None; random := Ok (repeat "A"%char 32); catalog_timed_out := false;
  listen := fun _ => Ok (V4 127 0 0 1 4242) |}.
Let world : World := {|
  world_codex := {| stored_before := None; stored_at := fun _ => None;
                    codex_network := fun _ _ => Err read_timeout_error; codex_models := fun _ _ => Err read_timeout_error;
                    codex_refresh_lock := Ok tt; codex_recovery := [] |};
  world_zai := fun _ => Err read_timeout_error; world_status_text := fun s => pretty s; world_sequence := 1 |}.
Let args : ServeArgs := {| bind := V4 127 0 0 1 0; parent_pid := 12; api_key_stdin := true; upstream_base_url := None;
                           fast := false; serve_provider := ProviderZai |}.
Let early : Turn := {| try_wait := Ok None; error_file := Ok None; ready_file := Ok None; deadline_passed := false |}.
Let started : option (result StartupErrorCode (ReadyFile * Backend)) :=
  serve (UP:=up) (UR:=urls) (CC:=codec) (B64:=base64) env world [] (Some "1") args.
Let published : ReadyFile :=
  match started with Some (Ok (r, _)) => r | _ =>
    {| ready_schema := 0; ready_provider := ""; ready_base_url := ""; ready_token := ""; ready_default_model := "";
       ready_models := [] |} end.

Lemma startup_handshake_witness :
  ready_base_url published = "http://127.0.0.1:4242" /\ ready_default_model published = "glm-5.3" /\
  wait_for_gateway_ready (B64:=base64) PublicZai
    [early; {| try_wait := Ok None; error_file := Ok None; ready_file := Ok (Some (read_ready published)); deadline_passed := true |}]
  = Some (Ok (read_ready published)).
Proof.
  split; [vm_compute; reflexivity|]. split; [vm_compute; reflexivity|].
  assert (Hcodec : @i64_codec codec) by (intros body u0 u H; discriminate H).
  assert (Hb64 : forall b, @decode_url_safe_no_pad base64 (@encode_url_safe base64 b) = Some b).
  { intros b. cbn. by rewrite to_of_bytes. }
  assert (Hrandom : forall b, random env = Ok b -> blen b = 32%N) by (intros b [= <-]; vm_compute; reflexivity).
  assert (Hlisten : forall addr a, listen env addr = Ok a -> exists port, (0 < port < 65536)%N /\ a = V4 127 0 0 1 port).
  { intros addr a [= <-]. exists 4242%N. split; [lia|reflexivity]. }
  assert (Hpre : Forall quiet [early]) by (repeat constructor; intros r; discriminate).
  destruct (startup_handshake (UP:=up) (UR:=urls) (CC:=codec) (B64:=base64) env world [] (Some "1") args PublicZai [early] []
              Hcodec Hb64 Hrandom Hlisten eq_refl Hpre) as (outcome & Hserve & Hall).
  assert (Hs : exists b, serve (UP:=up) (UR:=urls) (CC:=codec) (B64:=base64) env world [] (Some "1") args = Some (Ok (published, b))).
  { eexists. vm_compute. reflexivity. }
  destruct Hs as [b Hs]. rewrite Hs in Hserve. injection Hserve as <-.
  refine (proj1 (Hall {| try_wait := Ok None; error_file := Ok None; ready_file := Ok (Some (read_ready published));
                         deadline_passed := true |} _)).
  repeat split.
Defined.
End Witness.
