(* ===== verification/Publish.v ===== *)
(** * The private files between the gateway and the launcher

    Models the publication of readiness and of startup errors by the gateway
    ([write_private_json] and its callers in [crates/muse-codex-gateway/src/server.rs],
    [serve_with_error_reporting] of [main.rs]) and their reading by the launcher
    ([open_private_gateway_file], [read_gateway_ready], [read_gateway_startup_failure] of
    [crates/muse-codex/src/lib.rs]).

    The gateway runs in the monad of system calls; the launcher only reads, and each of
    its calls sees some state of the disk, later ones a later state. *)

From S2P Require Import Prelude Utf8 Paths Posix Json Errors Catalog GatewayMain LauncherReady.
From stdpp Require Import options.

(** The derived [serde] implementations of the two documents, on both sides. *)
Class DocumentCodec := {
  ready_to_vec : ReadyFile -> result string bytes;
  startup_error_to_vec : StartupErrorCode -> result string bytes;
  ready_from_slice : bytes -> option GatewayReady;
  startup_failure_from_slice : bytes -> option StartupFailure
}.

(** ** The gateway *)

Section Gateway.
  Context {PR : Process} {DC : DocumentCodec}.

(** [.context(why)] on a call. *)
Definition io_context {A} (why : string) (c : io Errno A) : io anyhow A :=
  io_map_err (fun e => [Message why; Message (strerror e)]) c.

Definition temporary_name (p : path) : string :=
  "." +:+ default "ready" (opt_filter (fun name => utf8_valid (to_bytes name)) (file_name p)) +:+ "." +:+ pretty pid +:+ ".tmp".
(** The closure of [write_private_json]. *)
Definition stage_and_rename (temporary p : path) (data : bytes) : io anyhow unit :=
  file ← io_context "create private JSON file" (call (open_new temporary 384));
  _ ← io_context "write private JSON file" (write_all file data);
  _ ← io_context "sync private JSON file" (sync_all file);
  io_context "publish private JSON file" (call (rename temporary p)).
Definition write_private_json (p : path) (encoded : result string bytes) : io anyhow unit :=
  parent ← lift (ok_or (parent p) [Message "private JSON file has no parent directory"]);
  exists_ ← holds (fun fs => Ok (path_exists parent fs));
  _ ← (if exists_ : bool then mret tt else
       _ ← io_context "create ready-file directory" (create_dir_all parent);
       io_context "secure ready-file directory" (call (chmod parent 448)));
  let temporary := path_join parent (temporary_name p) in
  data ← lift (map_err (fun why => [Message "encode private JSON file"; Message why]) encoded);
  outcome ← attempt (stage_and_rename temporary p data);
  match outcome with
  | Ok tt => mret tt
  | Err error => _ ← attempt (E:=Errno) (call (unlink temporary)); lift (Err error)
  end.

Definition startup_error_path (ready_file : path) : path := ready_file +:+ ".error".
Definition write_ready_file (p : path) (ready : ReadyFile) : io anyhow unit := write_private_json p (ready_to_vec ready).
Definition write_startup_error_file (ready_file : path) (code : StartupErrorCode) : io anyhow path :=
  let p := startup_error_path ready_file in
  _ ← write_private_json p (startup_error_to_vec code); mret p.

(** [serve_with_error_reporting] up to the accept loop: [outcome] is what starting came
    to; the answer tells whether the gateway goes on to serve. *)
Definition publish {B} (ready_file : path) (outcome : result StartupErrorCode (ReadyFile * B))
  : io anyhow (result StartupErrorCode B) :=
  started ← match outcome with
            | Ok (ready, b) =>
                written ← attempt (write_ready_file ready_file ready);
                mret match written with Ok tt => Ok b | Err error => Err (classify_startup_error error) end
            | Err code => mret (Err code)
            end;
  match started with
  | Ok b => mret (Ok b)
  | Err code => _ ← attempt (write_startup_error_file ready_file code); mret (Err code)
  end.

End Gateway.

(** ** The launcher *)

(** The states its three calls on a file see. *)
Record View := { at_open : Fs; at_metadata : Fs; at_read : Fs }.

Section Launcher.
  Context {PR : Process} {DC : DocumentCodec}.

Definition MAX_GATEWAY_READY_BYTES : N := 10 * 1024 * 1024.
Definition open_private_gateway_file (v : View) (p : path) (limit : N) : result string (option N) :=
  match open_existing false p (at_open v) with
  | Err NotFound => Ok None
  | Err e => Err (strerror e)
  | Ok file =>
      metadata ← ok_or (inodes (at_metadata v) !! file) (strerror NotFound);
      reject (negb (is_file metadata)) "gateway readiness path is not a regular file";;
      reject (limit <? blen (file_content metadata))%N "gateway readiness file exceeds the size limit";;
      reject (negb (permissions metadata =? 384)%N) "gateway readiness file permissions are not 0600";;
      reject (negb (nlink (at_metadata v) file =? 1)) "gateway readiness file has an unexpected link count";;
      reject (negb (uid metadata =? geteuid)%N) "gateway readiness file is not owned by the current user";;
      Ok (Some file)
  end.
(** What reading up to [n] bytes of an open file gives. *)
Definition read_open (v : View) (file : N) (n : N) : bytes :=
  take (N.to_nat n) (default [] (file_content <$> (inodes (at_read v) !! file))).

Definition read_gateway_ready (v : View) (p : path) : result string (option GatewayReady) :=
  file ← open_private_gateway_file v p MAX_GATEWAY_READY_BYTES;
  match file with
  | None => Ok None
  | Some file =>
      let data := read_open v file (MAX_GATEWAY_READY_BYTES + 1) in
      reject (MAX_GATEWAY_READY_BYTES <? blen data)%N "gateway readiness file exceeds the size limit";;
      match data with
      | [] => Ok None
      | _ => Some <$> ok_or (ready_from_slice data) "invalid gateway readiness JSON"
      end
  end.
(** The file part of [read_gateway_startup_failure]. *)
Definition read_startup_failure_file (v : View) (ready_file : path) : result string (option StartupFailure) :=
  file ← open_private_gateway_file v (ready_file +:+ ".error") 4096;
  match file with
  | None => Ok None
  | Some file =>
      Some <$> ok_or (startup_failure_from_slice (read_open v file 4097)) "invalid private gateway startup error"
  end.

(** A turn of the launcher's loop at the states its calls see. *)
Definition turn_at (ready_file : path) (status : result string (option string)) (error_view ready_view : View)
    (deadline_passed : bool) : Turn :=
  {| try_wait := status;
     error_file := read_startup_failure_file error_view ready_file;
     LauncherReady.ready_file := read_gateway_ready ready_view ready_file;
     LauncherReady.deadline_passed := deadline_passed |}.

End Launcher.
