(* ===== verification/PublishCorrect.v ===== *)
(** * Publication is atomic, and the launcher ends with what the gateway published

    Properties of [Publish.v]: whatever calls fail or are cut short, at every moment the
    launcher finds either nothing or one complete document. *)

From S2P Require Import Prelude Utf8 Paths Posix Json Errors Catalog Zai Backend GatewayMain LauncherReady Publish PosixCorrect.
From stdpp Require Import options.

(** ** The states of one publication *)

Section Stage.
  Context {PR : Process}.

Definition private_file (content : bytes) : Inode :=
  {| file_type := Regular content; mode := 384; uid := geteuid |}.
(** [fs] with the staged file at [place], or unlinked. *)
Definition staged (fs : Fs) (place : list string) (content : bytes) : Fs := fresh_at fs place (private_file content).
Definition dropped (fs : Fs) (content : bytes) : Fs := fresh_only fs (private_file content).

Lemma entry_staged fs (Hwf : well_formed fs) place content q :
  entry (staged fs place content) q = if decide (q = place) then Some (private_file content) else entry fs q.
Proof. by apply entry_fresh. Qed.
Lemma entry_dropped fs (Hwf : well_formed fs) content q : entry (dropped fs content) q = entry fs q.
Proof. by apply entry_fresh_only. Qed.

Lemma staged_grows fs (Hwf : well_formed fs) place content : names fs !! place = None -> grows fs (staged fs place content).
Proof.
  intros Ha. split; intros q inode; rewrite entry_staged by done; destruct (decide (q = place)) as [->|]; try done.
  - by rewrite entry_absent.
  - by intros _ [= <-].
  - by intros ->.
Qed.
Lemma dropped_grows fs (Hwf : well_formed fs) content : grows fs (dropped fs content).
Proof. split; intros q inode; rewrite entry_dropped by done; [done|by intros ->]. Qed.

Lemma staged_well_formed fs (Hwf : well_formed fs) place content : well_formed (staged fs place content).
Proof.
  intros q i. cbn. destruct (decide (q = place)) as [->|Hne].
  - rewrite lookup_insert_eq. intros [= <-]. rewrite lookup_insert_eq. eauto.
  - rewrite lookup_insert_ne by done. intros (inode & Hi)%Hwf. rewrite lookup_insert_is_Some. destruct (decide (fresh_inode fs = i)); eauto.
Qed.
Lemma dropped_well_formed fs (Hwf : well_formed fs) content : well_formed (dropped fs content).
Proof.
  intros q i. cbn. intros (inode & Hi)%Hwf. rewrite lookup_insert_is_Some. destruct (decide (fresh_inode fs = i)); eauto.
Qed.

Lemma append_staged fs place a b :
  update_inode (fresh_inode fs) (append_content b) (staged fs place a) = staged fs place (a ++ b).
Proof.
  unfold update_inode, staged, fresh_at. cbn. f_equal. by rewrite alter_insert_eq.
Qed.

Lemma write_loop_goes fs place : forall fuel data content s, length data <= fuel -> disk s = staged fs place content ->
  exists r s' through content', goes (write_loop fuel (fresh_inode fs) data) s r s' through
    /\ Forall (fun st => exists d, st = staged fs place d) through
    /\ disk s' = staged fs place content' /\ (r = Ok tt -> content' = content ++ data).
Proof.
  induction fuel as [|fuel IH]; intros data content s Hlen Hs.
  { destruct data; [|cbn in Hlen; lia]. exists (Ok tt), s, [], content. split_and!; [apply goes_ret|done|done|]. by rewrite app_nil_r. }
  destruct data as [|b data]; [exists (Ok tt), s, [], content; split_and!; [apply goes_ret|done|done|by rewrite app_nil_r]|].
  destruct (next_answer s) as [w s1] eqn:Hn. destruct (next_answer_same _ _ _ Hn) as [Hd Hh].
  set (all := b :: data) in *.
  set (n := match w with Short n => Nat.max 1 (Nat.min n (length all)) | _ => length all end).
  destruct w as [|m|e]; [| |exists (Err e), s1, [], content; split_and!; [split; [cbn; by rewrite Hn|done|by rewrite Hd]|done|by rewrite Hd|done]].
  all: set (s2 := become (update_inode (fresh_inode fs) (append_content (take n all)) (disk s1)) s1).
  all: destruct (IH (drop n all) (content ++ take n all) s2) as (r & s' & through & content' & Hg & Hall & Hdisk & Hc).
  all: try (rewrite length_drop; cbn in Hlen |- *; subst n; cbn; lia).
  all: try (cbn; rewrite Hd, Hs; apply append_staged).
  all: exists r, s', (through ++ [disk s2]), content'; split_and!; [|apply Forall_app_2; [done|constructor; [|done]]|done|].
  all: try (intros Hr; rewrite (Hc Hr), <- app_assoc, take_drop; done).
  all: try (exists (content ++ take n all); cbn; rewrite Hd, Hs; apply append_staged).
  all: destruct Hg as [H1 H2 H3]; split; [cbn; rewrite Hn; exact H1|rewrite H2; cbn; by rewrite Hh, <- app_assoc|].
  all: rewrite H3; by destruct through.
Qed.

(** ** One publication *)

Lemma add_entry_staged (Humask : N.land 384 umask = 0%N) fs place :
  add_entry place (Regular []) 384 fs = (fresh_inode fs, staged fs place []).
Proof. unfold add_entry, staged, fresh_at, private_file. by rewrite ldiff_disjoint. Qed.

(** The places of [p] and of its temporary file: two free names of an existing directory. *)
Record publishable (fs : Fs) (p : path) (dir : path) (place temporary : list string) : Prop := {
  pub_well_formed : well_formed fs;
  pub_parent : parent p = Some dir;
  pub_exists : path_exists dir fs = true;
  pub_place : locate false fs p = Ok place;
  pub_temporary : locate false fs (path_join dir (temporary_name p)) = Ok temporary;
  pub_files : names_directory p = false /\ names_directory (path_join dir (temporary_name p)) = false;
  pub_free : names fs !! place = None /\ names fs !! temporary = None;
  pub_distinct : place <> temporary
}.

(** A state before the document is in place. *)
Inductive unpublished (fs : Fs) (temporary : list string) : Fs -> Prop :=
  | before_staging : unpublished fs temporary fs
  | while_staged content : unpublished fs temporary (staged fs temporary content)
  | once_dropped content : unpublished fs temporary (dropped fs content).

Lemma lookup_staged fs place data : lookup_at (staged fs place data) place = Ok (fresh_inode fs, private_file data).
Proof. apply lookup_fresh. Qed.

Lemma rename_staged fs p dir place temporary (Hp : publishable fs p dir place temporary) data :
  rename (path_join dir (temporary_name p)) p (staged fs temporary data) = Ok (tt, staged fs place data).
Proof.
  destruct Hp as [Hwf _ _ Hplace Htmp [Hd1 Hd2] [Hf1 Hf2] Hne].
  pose proof (staged_grows fs Hwf temporary data Hf2) as Hg.
  unfold rename. rewrite (locate_grows _ _ Hg _ _ _ Hd2 Htmp). cbn [mbind result_bind].
  rewrite lookup_staged. cbn [mbind result_bind].
  rewrite (locate_grows _ _ Hg _ _ _ Hd1 Hplace). cbn [mbind result_bind].
  rewrite entry_staged by done. rewrite decide_False by done. rewrite entry_absent by done. cbn.
  rewrite lookup_insert_ne by done. rewrite Hf1. rewrite (bool_decide_eq_false_2 (None = _)) by done.
  unfold staged, fresh_at. cbn [names inodes]. by rewrite delete_insert_id.
Qed.
Lemma unlink_staged fs p dir place temporary (Hp : publishable fs p dir place temporary) data :
  unlink (path_join dir (temporary_name p)) (staged fs temporary data) = Ok (tt, dropped fs data).
Proof.
  destruct Hp as [Hwf _ _ Hplace Htmp [Hd1 Hd2] [Hf1 Hf2] Hne].
  pose proof (staged_grows fs Hwf temporary data Hf2) as Hg.
  unfold unlink. rewrite (locate_grows _ _ Hg _ _ _ Hd2 Htmp). cbn [mbind result_bind].
  rewrite lookup_staged. cbn. unfold dropped, fresh_only. by rewrite delete_insert_id.
Qed.
Lemma unlink_absent fs p dir place temporary (Hp : publishable fs p dir place temporary) :
  exists e, unlink (path_join dir (temporary_name p)) fs = Err e.
Proof.
  destruct Hp as [Hwf _ _ Hplace Htmp [Hd1 Hd2] [Hf1 Hf2] Hne].
  unfold unlink. rewrite Htmp. cbn [mbind result_bind]. unfold lookup_at. rewrite Hf2. cbn. eauto.
Qed.

(** An error made of messages only. *)
Definition plain (error : anyhow) : Prop := Forall (fun c => exists why, c = Message why) error.
Lemma plain_context why e : plain [Message why; Message (strerror e)].
Proof. repeat constructor; eauto. Qed.
Lemma classify_plain error : plain error -> classify_startup_error error = GatewayStartFailed.
Proof.
  intros Hp. unfold classify_startup_error.
  assert (existsb is_elapsed error = false /\ first_transport_error error = None) as [-> ->]; [|done].
  induction Hp as [|c error [why ->] _ [IH1 IH2]]; [done|]. cbn. by rewrite IH1, IH2.
Qed.

(** The staged file, with what has been written so far. *)
Definition is_staged (fs : Fs) (temporary : list string) (st : Fs) : Prop := exists content, st = staged fs temporary content.
(** The states one publication of [data] goes through, the latest first, and whether it
    succeeds: the file is staged, or not even that; then it is in place, or unlinked, or
    left where it is. *)
Inductive publication (fs : Fs) (place temporary : list string) (data : bytes) : bool -> list Fs -> Prop :=
  | never_staged : publication fs place temporary data false []
  | left_staged l : l <> [] -> Forall (is_staged fs temporary) l -> publication fs place temporary data false l
  | unlinked l content : l <> [] -> Forall (is_staged fs temporary) l -> publication fs place temporary data false (dropped fs content :: l)
  | in_place l : l <> [] -> Forall (is_staged fs temporary) l -> publication fs place temporary data true (staged fs place data :: l).

Lemma staged_unpublished fs temporary l : Forall (is_staged fs temporary) l -> Forall (unpublished fs temporary) l.
Proof. intros Hl. eapply Forall_impl; [exact Hl|]. intros st [content ->]. constructor. Qed.
Lemma publication_states fs place temporary data through done : publication fs place temporary data done through ->
  if done then exists pre, through = staged fs place data :: pre /\ Forall (unpublished fs temporary) pre
  else Forall (unpublished fs temporary) through.
Proof.
  intros [|l Hne Hl|l content Hne Hl|l Hne Hl]; [constructor|by apply staged_unpublished| |].
  - constructor; [constructor|by apply staged_unpublished].
  - exists l. split; [done|by apply staged_unpublished].
Qed.

(** What the closure does: it fails with the file still staged (or never made), or puts
    the whole document in place. *)
Lemma stage_and_rename_goes (Humask : N.land 384 umask = 0%N) fs p dir place temporary
    (Hp : publishable fs p dir place temporary) data s (Hs : disk s = fs) :
  exists r s' through, goes (stage_and_rename (path_join dir (temporary_name p)) p data) s r s' through /\
    ((r = Ok tt /\ publication fs place temporary data true through)
     \/ (exists e, r = Err e /\ plain e /\ Forall (is_staged fs temporary) through)).
Proof.
  unfold stage_and_rename. pose proof Hp as [Hwf _ _ Hplace Htmp [Hd1 Hd2] [Hf1 Hf2] Hne].
  destruct (call_goes (open_new (path_join dir (temporary_name p)) 384) s) as [(e & s1 & Hg)|(i & fs1 & s1 & Hf & Hg)].
  { eexists _, s1, []. split; [eapply goes_bind_err, (goes_map_err _ _ _ _ _ _ Hg)|right].
    eexists. split_and!; [done|apply plain_context|constructor]. }
  revert Hf. unfold open_new, create. rewrite Hs, Htmp. cbn [mbind result_bind]. rewrite Hf2. cbn [reject mbind result_bind bool_decide].
  rewrite bool_decide_eq_false_2 by (by intros [? ?]). cbn [reject mbind result_bind]. rewrite (add_entry_staged Humask). intros [= <- <-].
  pose proof (goes_disk _ _ _ _ _ Hg) as Hs1. cbn in Hs1.
  destruct (write_loop_goes fs temporary (length data) data [] s1 (le_n _) Hs1) as (r & s2 & t2 & c & Hw & Hst & Hs2 & Hc).
  assert (Hst' : Forall (is_staged fs temporary) (t2 ++ [staged fs temporary []])).
  { apply Forall_app_2; [exact Hst|repeat constructor; by eexists]. }
  destruct r as [[]|e].
  2: { eexists _, s2, (t2 ++ [staged fs temporary []]). split.
       - eapply goes_bind; [exact (goes_map_err _ _ _ _ _ _ Hg)|]. eapply goes_bind_err, (goes_map_err _ _ _ _ _ _ Hw).
       - right. eexists. split_and!; [done|apply plain_context|done]. }
  rewrite (Hc eq_refl) in Hs2. cbn [app] in Hs2.
  destruct (query_goes (fun _ => Ok tt) s2) as (r & s3 & Hq & _). pose proof (goes_disk _ _ _ _ _ Hq) as Hs3. cbn in Hs3. rewrite Hs2 in Hs3.
  destruct r as [[]|e].
  2: { eexists _, s3, (([] ++ t2) ++ [staged fs temporary []]). split.
       - eapply goes_bind; [exact (goes_map_err _ _ _ _ _ _ Hg)|]. eapply goes_bind; [exact (goes_map_err _ _ _ _ _ _ Hw)|].
         eapply goes_bind_err, (goes_map_err _ _ _ _ _ _ Hq).
       - right. eexists. split_and!; [done|apply plain_context|done]. }
  destruct (call_goes (rename (path_join dir (temporary_name p)) p) s3) as [(e & s4 & Hr)|([] & fs4 & s4 & Hf & Hr)].
  - eexists _, s4, ((([] ++ []) ++ t2) ++ [staged fs temporary []]). split.
    + eapply goes_bind; [exact (goes_map_err _ _ _ _ _ _ Hg)|]. eapply goes_bind; [exact (goes_map_err _ _ _ _ _ _ Hw)|].
      eapply goes_bind; [exact (goes_map_err _ _ _ _ _ _ Hq)|exact (goes_map_err _ _ _ _ _ _ Hr)].
    + right. eexists. split_and!; [done|apply plain_context|done].
  - rewrite Hs3, (rename_staged _ _ _ _ _ Hp) in Hf. injection Hf as <-.
    eexists _, s4, ((([staged fs place data] ++ []) ++ t2) ++ [staged fs temporary []]). split.
    + eapply goes_bind; [exact (goes_map_err _ _ _ _ _ _ Hg)|]. eapply goes_bind; [exact (goes_map_err _ _ _ _ _ _ Hw)|].
      eapply goes_bind; [exact (goes_map_err _ _ _ _ _ _ Hq)|exact (goes_map_err _ _ _ _ _ _ Hr)].
    + left. split; [done|]. apply (in_place _ _ _ _ (t2 ++ [_])); [by destruct t2|done].
Qed.

(** A publication, and what comes of it; [data] is the document when it could be encoded. *)
Lemma write_private_json_goes (Humask : N.land 384 umask = 0%N) fs p dir place temporary
    (Hp : publishable fs p dir place temporary) encoded s (Hs : disk s = fs) :
  exists r s' through done data, goes (write_private_json p encoded) s r s' through /\
    publication fs place temporary data done through /\
    if done : bool then encoded = Ok data /\ r = Ok tt else exists e, r = Err e /\ plain e.
Proof.
  unfold write_private_json. rewrite (pub_parent _ _ _ _ _ Hp).
  enough (exists r s' through done data,
    goes (data ← lift (map_err (fun why => [Message "encode private JSON file"; Message why]) encoded);
          outcome ← attempt (stage_and_rename (path_join dir (temporary_name p)) p data);
          match outcome with
          | Ok tt => mret tt
          | Err error => _ ← attempt (E:=Errno) (call (unlink (path_join dir (temporary_name p)))); lift (Err error)
          end) s r s' through /\
    publication fs place temporary data done through /\
    if done : bool then encoded = Ok data /\ r = Ok tt else exists e, r = Err e /\ plain e) as (r & s' & through & done & data & Hg & Hr).
  { exists r, s', (((through ++ []) ++ []) ++ []), done, data. rewrite !app_nil_r. split; [|exact Hr]. cbn [ok_or].
    rewrite <- (app_nil_r through), <- (app_nil_r (through ++ [])), <- (app_nil_r ((through ++ []) ++ [])).
    eapply goes_bind; [apply goes_lift|]. eapply goes_bind; [apply goes_holds|].
    rewrite Hs, (pub_exists _ _ _ _ _ Hp). cbn [default ok]. eapply goes_bind; [apply goes_ret|exact Hg]. }
  destruct encoded as [data|why].
  2: { eexists _, s, [], false, []. split; [eapply goes_bind_err, goes_lift|]. split; [constructor|]. eexists. split; [done|repeat constructor; eauto]. }
  destruct (stage_and_rename_goes Humask fs p dir place temporary Hp data s Hs) as (r & s1 & t1 & Hg & [[-> Hpub]|(e & -> & He & Ht)]).
  - eexists _, s1, (([] ++ t1) ++ []), true, data. rewrite app_nil_r. split; [|split; [exact Hpub|done]].
    rewrite <- (app_nil_r ([] ++ t1)). eapply goes_bind; [apply goes_lift|]. eapply goes_bind; [apply goes_attempt, Hg|apply goes_ret].
  - pose proof (goes_disk _ _ _ _ _ Hg) as Hd. rewrite Hs in Hd.
    destruct (call_goes (unlink (path_join dir (temporary_name p))) s1) as [(e1 & s2 & Hu)|([] & fs2 & s2 & Hf & Hu)].
    + eexists _, s2, ((([] ++ []) ++ t1) ++ []), false, data. split.
      * eapply goes_bind; [apply goes_lift|]. eapply goes_bind; [apply goes_attempt, Hg|]. eapply goes_bind; [apply goes_attempt, Hu|apply goes_lift].
      * rewrite app_nil_r. split; [|by exists e]. destruct t1; [constructor|by apply left_staged].
    + destruct t1 as [|st t1].
      { cbn in Hd. rewrite Hd in Hf. destruct (unlink_absent _ _ _ _ _ Hp) as [? Hno]. by rewrite Hno in Hf. }
      cbn in Hd. destruct (Forall_inv Ht) as [c Hc]. rewrite Hd, Hc, (unlink_staged _ _ _ _ _ Hp) in Hf. injection Hf as <-.
      eexists _, s2, ((([] ++ [dropped fs c]) ++ st :: t1) ++ []), false, data. split.
      * eapply goes_bind; [apply goes_lift|]. eapply goes_bind; [apply goes_attempt, Hg|]. eapply goes_bind; [apply goes_attempt, Hu|apply goes_lift].
      * rewrite app_nil_r. split; [by apply (unlinked _ _ _ _ (st :: t1))|by exists e].
Qed.

(** ** Two documents *)

Lemma unpublished_grows fs temporary fs' : well_formed fs -> names fs !! temporary = None -> unpublished fs temporary fs' -> grows fs fs'.
Proof.
  intros Hwf Hf [|content|content].
  - apply grows_refl.
  - by apply staged_grows.
  - by apply dropped_grows.
Qed.
Lemma unpublished_well_formed fs temporary fs' : well_formed fs -> unpublished fs temporary fs' -> well_formed fs'.
Proof. intros Hwf [|content|content]; [done|by apply staged_well_formed|by apply dropped_well_formed]. Qed.
Lemma unpublished_names fs temporary fs' q : unpublished fs temporary fs' -> q <> temporary -> names fs' !! q = names fs !! q.
Proof. intros [|content|content] Hne; cbn; [done|by rewrite lookup_insert_ne|done]. Qed.

Lemma publishable_later fs p dir place temporary other fs' :
  publishable fs p dir place temporary -> names fs !! other = None -> unpublished fs other fs' ->
  place <> other -> temporary <> other -> publishable fs' p dir place temporary.
Proof.
  intros [Hwf Hpar Hex Hplace Htmp [Hd1 Hd2] [Hf1 Hf2] Hne] Hfree Hun Hn1 Hn2.
  pose proof (unpublished_grows _ _ _ Hwf Hfree Hun) as Hg. split.
  - exact (unpublished_well_formed _ _ _ Hwf Hun).
  - exact Hpar.
  - unfold path_exists in *. destruct (stat true dir fs) as [[i inode]|] eqn:Hst; [|discriminate Hex].
    destruct (stat_grows _ _ _ _ _ _ Hg Hst) as [j ->]. reflexivity.
  - exact (locate_grows _ _ Hg _ _ _ Hd1 Hplace).
  - exact (locate_grows _ _ Hg _ _ _ Hd2 Htmp).
  - exact (conj Hd1 Hd2).
  - rewrite (unpublished_names _ _ _ _ Hun Hn1), (unpublished_names _ _ _ _ Hun Hn2). exact (conj Hf1 Hf2).
  - exact Hne.
Qed.

Lemma filter_none {A} (P : A -> Prop) `{forall x, Decision (P x)} (l : list A) : (forall x, x ∈ l -> ~ P x) -> filter P l = [].
Proof.
  induction l as [|x l IH]; intros Hno; [done|].
  rewrite filter_cons_False by (apply Hno; left). apply IH. intros y Hy. apply Hno. by right.
Qed.
Lemma nlink_staged fs place data : well_formed fs -> names fs !! place = None -> nlink (staged fs place data) (fresh_inode fs) = 1.
Proof.
  intros Hwf Hf. unfold nlink, staged, fresh_at. cbn [names].
  assert (Hone : forall l, l ≡ₚ (place, fresh_inode fs) :: map_to_list (names fs) ->
                   length (filter (fun kv : list string * N => kv.2 = fresh_inode fs) l) = 1).
  { intros l Hl. rewrite Hl. rewrite filter_cons_True by done.
    rewrite filter_none; [done|]. intros [q i] Hq%elem_of_map_to_list Hi. cbn in Hi. subst i. by apply (fresh_unnamed fs Hwf q). }
  apply Hone. by apply map_to_list_insert.
Qed.

(** In a history (the latest state first): the place is free throughout; or it is free at
    first and then, for good, the only name of a private file with the whole document. *)
Definition free_in (place : list string) (st : Fs) : Prop := names st !! place = None.
Definition shown (place : list string) (data : bytes) (i : N) (st : Fs) : Prop :=
  names st !! place = Some i /\ inodes st !! i = Some (private_file data) /\ nlink st i = 1.
Definition appears (place : list string) (data : bytes) (h : list Fs) : Prop :=
  exists i post pre, h = post ++ pre /\ post <> [] /\ Forall (shown place data i) post /\ Forall (free_in place) pre.

Lemma staged_shown fs place data : well_formed fs -> names fs !! place = None ->
  shown place data (fresh_inode fs) (staged fs place data).
Proof. intros Hwf Hf. split_and!; [by apply lookup_insert_eq|by apply lookup_insert_eq|by apply nlink_staged]. Qed.
Lemma unpublished_free fs temporary st place : unpublished fs temporary st -> place <> temporary ->
  free_in place fs -> free_in place st.
Proof. unfold free_in. intros Hu Hne Hf. by rewrite (unpublished_names _ _ _ _ Hu Hne). Qed.
Lemma staged_free fs place data other : free_in other fs -> other <> place -> free_in other (staged fs place data).
Proof. unfold free_in. cbn. intros Hf Hne. by rewrite lookup_insert_ne. Qed.
Lemma unpublished_frees fs temporary l place : Forall (unpublished fs temporary) l -> place <> temporary ->
  free_in place fs -> Forall (free_in place) l.
Proof. intros Hl Hne Hf. eapply Forall_impl; [exact Hl|]. intros st Hst. by eapply unpublished_free. Qed.

Lemma unpublished_all_grow fs temporary l : well_formed fs -> free_in temporary fs -> Forall (unpublished fs temporary) l -> Forall (grows fs) l.
Proof. intros Hwf Hf Hl. eapply Forall_impl; [exact Hl|]. intros st Hst. by eapply unpublished_grows. Qed.

(** The disk a run leaves is one of the states it went through, or the first one. *)
Lemma goes_left {E A} (P : Fs -> Prop) (c : io E A) s r s' through :
  goes c s r s' through -> Forall P through -> P (disk s) -> P (disk s').
Proof. intros [_ _ ->] Ht Hs. destruct Ht; done. Qed.

End Stage.

(** ** The gateway's part of the protocol *)

Section Protocol.
  Context {PR : Process} {DC : DocumentCodec} (Humask : N.land 384 umask = 0%N).
  Context {B : Type} (rf dir : path) (fs : Fs) (R TR E TE : list string).
  Context (Hready : publishable fs rf dir R TR) (Herror : publishable fs (startup_error_path rf) dir E TE).
  Context (Hdistinct : NoDup [R; TR; E; TE]).

Lemma places_distinct : (R <> E /\ R <> TR /\ R <> TE) /\ (E <> TR /\ E <> TE /\ TE <> TR).
Proof using Hdistinct. pose proof Hdistinct as Hd. rewrite !NoDup_cons, !not_elem_of_cons in Hd. intuition congruence. Qed.

(** Reporting a failure, whatever the first publication left. *)
Lemma report_history code s0 : unpublished fs TR (disk s0) -> Forall (free_in R) (history s0) -> Forall (free_in E) (history s0) ->
  Forall (grows fs) (history s0) -> current s0 ->
  exists s, run_io (_ ← attempt (F:=anyhow) (write_startup_error_file rf code); mret (Err code : result StartupErrorCode B)) s0
            = (Ok (Err code), s)
  /\ current s /\ Forall (grows fs) (history s) /\ Forall (free_in R) (history s)
  /\ (Forall (free_in E) (history s)
      \/ exists data, startup_error_to_vec code = Ok data /\ appears E data (history s) /\ exists i, shown E data i (disk s)).
Proof using Hready Herror Hdistinct Humask.
  destruct places_distinct as [(H1 & H2 & H3) (H4 & H5 & H6)]. intros Hd HR HE Hgr Hcur.
  pose proof (proj1 (pub_free _ _ _ _ _ Hready)) as HfR. pose proof (proj2 (pub_free _ _ _ _ _ Hready)) as HfTR.
  pose proof (proj1 (pub_free _ _ _ _ _ Herror)) as HfE.
  pose proof (publishable_later _ _ _ _ _ _ _ Herror HfTR Hd H4 H6) as Hlater.
  pose proof (unpublished_free _ _ _ _ Hd H2 HfR) as HfR'. pose proof (proj1 (pub_free _ _ _ _ _ Hlater)) as HfE'.
  destruct (write_private_json_goes Humask _ _ _ _ _ Hlater (startup_error_to_vec code) s0 eq_refl) as (r & s & through & done & data & Hg & Hpub & Hr).
  apply publication_states in Hpub.
  pose proof (goes_current _ _ _ _ _ Hg Hcur) as Hcur'. destruct Hg as [Hg1 Hg2 Hg3].
  assert (Hstep : forall st, grows (disk s0) st -> grows fs st).
  { intros st. apply grows_trans. exact (unpublished_grows _ _ _ (pub_well_formed _ _ _ _ _ Hready) HfTR Hd). }
  pose proof (pub_well_formed _ _ _ _ _ Hlater) as Hwf'. pose proof (proj2 (pub_free _ _ _ _ _ Hlater)) as HfTE.
  exists s. split.
  { rewrite run_bind, run_attempt. unfold write_startup_error_file. rewrite run_bind, Hg1. by destruct r. }
  split; [done|]. rewrite Hg2. destruct done; [destruct Hr as [He ->], Hpub as (pre & -> & Hpre)|destruct Hr as (e & -> & _); rename Hpub into Ht].
  - split_and!; [|apply Forall_app_2; [constructor; [by apply staged_free|by eapply unpublished_frees]|done]|right].
    { apply Forall_app_2; [|done]. eapply Forall_impl; [|exact Hstep].
      constructor; [by apply staged_grows|by eapply unpublished_all_grow]. }
    exists data. split_and!; [exact He| |eexists; rewrite Hg3; by apply staged_shown].
    eexists _, [_], (pre ++ history s0). split_and!; [done|done|constructor; [by apply staged_shown|done]|].
    apply Forall_app_2; [by eapply unpublished_frees|done].
  - split_and!; [|apply Forall_app_2; [by eapply unpublished_frees|done]|left; apply Forall_app_2; [by eapply unpublished_frees|done]].
    apply Forall_app_2; [|done]. eapply Forall_impl; [by eapply unpublished_all_grow|exact Hstep].
Qed.

(** The answer given to the caller, and what of the two documents the history shows. *)
Lemma publish_history (outcome : result StartupErrorCode (ReadyFile * B)) (script : list answer) :
  let '(r, s) := run_io (publish rf outcome) (boot fs script) in
  current s /\ Forall (grows fs) (history s) /\
  match r with
  | Ok (Ok b) => exists ready data, outcome = Ok (ready, b) /\ ready_to_vec ready = Ok data
      /\ appears R data (history s) /\ (exists i, shown R data i (disk s)) /\ Forall (free_in E) (history s)
  | Ok (Err code) =>
      code = match outcome with Err c => c | Ok _ => GatewayStartFailed end
      /\ Forall (free_in R) (history s)
      /\ (Forall (free_in E) (history s)
          \/ exists data, startup_error_to_vec code = Ok data /\ appears E data (history s) /\ exists i, shown E data i (disk s))
  | Err _ => False
  end.
Proof using Hready Herror Hdistinct Humask.
  destruct places_distinct as [(H1 & H2 & H3) (H4 & H5 & H6)].
  pose proof (proj1 (pub_free _ _ _ _ _ Hready)) as HfR. pose proof (proj1 (pub_free _ _ _ _ _ Herror)) as HfE.
  pose proof (pub_well_formed _ _ _ _ _ Hready) as Hwf.
  unfold publish. destruct outcome as [[ready b]|code].
  2: { rewrite run_bind. destruct (report_history code (boot fs script)) as (s & Hs & Hc & Hg & HR & HE); [constructor|by repeat constructor..|repeat constructor; apply grows_refl|done|].
       cbn [run_io mret io_ret]. rewrite Hs. auto. }
  destruct (write_private_json_goes Humask _ _ _ _ _ Hready (ready_to_vec ready) (boot fs script) eq_refl) as (r & s1 & through & done & data & Hgo & Hpub & Hr).
  apply publication_states in Hpub.
  pose proof (goes_current _ _ _ _ _ Hgo eq_refl) as Hcur. destruct Hgo as [Hg1 Hg2 Hg3].
  rewrite !run_bind, run_attempt. unfold write_ready_file. rewrite Hg1. cbn [fst snd].
  destruct done; [destruct Hr as [He ->], Hpub as (pre & -> & Hpre)|destruct Hr as (e & -> & He); rename Hpub into Ht].
  - cbn [run_io mret io_ret]. split; [done|]. split.
    { rewrite Hg2. apply Forall_app_2; [|repeat constructor; apply grows_refl].
      constructor; [by apply staged_grows|eapply (unpublished_all_grow fs TR); [done|apply (pub_free _ _ _ _ _ Hready)|done]]. }
    exists ready, data. split_and!; [done|done| | |].
    + rewrite Hg2. eexists _, [_], (pre ++ [fs]). split_and!; [done|done|constructor; [by apply staged_shown|done]|].
      apply Forall_app_2; [by eapply unpublished_frees|by repeat constructor].
    + eexists. rewrite Hg3. by apply staged_shown.
    + rewrite Hg2. apply Forall_app_2; [constructor; [by apply staged_free|by eapply unpublished_frees]|by repeat constructor].
  - cbn [run_io mret io_ret]. rewrite (classify_plain _ He).
    destruct (report_history GatewayStartFailed s1) as (s & Hs & Hc & Hg & HR & HE).
    + rewrite Hg3. destruct Ht; [constructor|done].
    + rewrite Hg2. apply Forall_app_2; [by eapply unpublished_frees|by repeat constructor].
    + rewrite Hg2. apply Forall_app_2; [by eapply unpublished_frees|by repeat constructor].
    + rewrite Hg2. apply Forall_app_2; [|repeat constructor; apply grows_refl].
      eapply (unpublished_all_grow fs TR); [done|apply (pub_free _ _ _ _ _ Hready)|done].
    + done.
    + rewrite Hs. auto.
Qed.

End Protocol.
