(* ===== verification/PublishSteps.v ===== *)
(** * Publication, call by call, takes the steps of a gateway's life

    [Publish.v] has the two private documents written by calls on a disk, [Lifetime.v] has
    each publication as two steps on the names of the private directory. Whatever calls fail
    or are cut short, a run of the former is a run of the latter: the names a reader can see
    change in the same order, and the main task comes to the same phase. *)

From S2P Require Import Prelude Utf8 Paths Posix Json Errors GatewayMain LauncherReady Publish PosixCorrect PublishCorrect Lifetime LifetimeCorrect.
From stdpp Require Import options.

(** ** Sequences of changes *)

(** [l] without what repeats its neighbour. *)
Fixpoint collapse (l : list (gset Entry)) : list (gset Entry) :=
  match l with
  | [] => []
  | x :: l => if decide (head l = Some x) then collapse l else x :: collapse l
  end.
Lemma collapse_same x l : head l = Some x -> collapse (x :: l) = collapse l.
Proof. intros H. cbn [collapse]. by rewrite decide_True. Qed.
Lemma collapse_change x l : head l <> Some x -> collapse (x :: l) = x :: collapse l.
Proof. intros H. cbn [collapse]. by rewrite decide_False. Qed.
#[local] Arguments collapse : simpl never.
(** A state that lasts counts once. *)
Lemma collapse_lasting x l rest : l <> [] -> Forall (fun y => y = x) l -> head rest <> Some x ->
  collapse (l ++ rest) = x :: collapse rest.
Proof.
  intros Hne Hl Hr. induction Hl as [|y l -> Hl IH]; [done|]. destruct l as [|z l]; [by apply collapse_change|].
  rewrite <- IH by done. apply Forall_cons in Hl as [-> _]. by apply collapse_same.
Qed.
Lemma collapse_both x l l' : head l <> Some x -> head l' <> Some x -> collapse l = collapse l' -> collapse (x :: l) = collapse (x :: l').
Proof. intros H1 H2 H. by rewrite !collapse_change, H. Qed.

Lemma added_removed (D : gset Entry) x : x ∉ D -> (D ∪ {[x]}) ∖ {[x]} = D.
Proof. intros H. apply set_eq. intros y. destruct (decide (y = x)) as [->|Hne]; set_unfold; intuition congruence. Qed.
Lemma added_changes (D : gset Entry) x : x ∉ D -> D ∪ {[x]} <> D.
Proof. intros H E. apply H. rewrite <- E. apply elem_of_union_r, elem_of_singleton_2. done. Qed.
Lemma added_differ (D : gset Entry) x y : x ∉ D -> x <> y -> D ∪ {[x]} <> D ∪ {[y]}.
Proof.
  intros H Hne E. assert (Hx : x ∈ D ∪ {[y]}) by (rewrite <- E; apply elem_of_union_r, elem_of_singleton_2; done).
  set_unfold. intuition congruence.
Qed.

(** ** The two documents *)

Inductive Document : Type := Readiness | Report.
Definition entry_of (d : Document) : Entry := match d with Readiness => ReadyEntry | Report => ErrorEntry end.
Definition staged_of (d : Document) : Entry := match d with Readiness => StagedReady | Report => StagedError end.
(** The phases of the main task around a publication, and its two steps. *)
Definition before (d : Document) : Main := match d with Readiness => Starting | Report => Failed end.
Definition between (d : Document) : Main := match d with Readiness => ReadyStaged | Report => ErrorStaged end.
Definition after (d : Document) (done : bool) : Main :=
  match d with Readiness => if done then Serving else Failed | Report => Returning 1 end.
Definition staging (d : Document) : bool -> Action := match d with Readiness => StageReady | Report => StageError end.
Definition placing (d : Document) : bool -> bool -> Action := match d with Readiness => PublishReady | Report => PublishError end.

Section Steps.
Context (parent_pid : N).

(** A run, with the names on the disk after each of its steps, the latest first. *)
Fixpoint trail (acts : list Action) (s : State) (past : list (gset Entry)) : option (State * list (gset Entry)) :=
  match acts with
  | [] => Some (s, past)
  | a :: acts => s ← step parent_pid a s; trail acts s (match s with Run r => Lifetime.disk r | Ended _ d => d end :: past)
  end.
Lemma trail_run acts : forall s past s' past', trail acts s past = Some (s', past') -> run parent_pid acts s = Some s'.
Proof using Type.
  induction acts as [|a acts IH]; intros s past s' past'; [by intros [= <- _]|].
  cbn. intros (s1 & -> & H)%bind_Some. by apply IH in H.
Qed.
Lemma trail_app acts1 acts2 s past s1 past1 : trail acts1 s past = Some (s1, past1) ->
  trail (acts1 ++ acts2) s past = trail acts2 s1 past1.
Proof using Type.
  revert s past. induction acts1 as [|a acts1 IH]; intros s past; [by intros [= -> ->]|].
  cbn. intros (s2 & -> & H)%bind_Some. exact (IH _ _ H).
Qed.

Lemma step_staging d done r : main r = before d ->
  step parent_pid (staging d done) (Run r)
  = Some (Run (if done then set_main (between d) (stage (staged_of d) r) else set_main (after d false) r)).
Proof using Type. intros Hm. destruct d; cbn; rewrite Hm; by destruct done. Qed.
Lemma step_placing d done dropped r : main r = between d ->
  step parent_pid (placing d done dropped) (Run r)
  = Some (Run (set_main (after d done) (publish_as done dropped (staged_of d) (entry_of d) r))).
Proof using Type. intros Hm. destruct d; cbn; by rewrite Hm. Qed.

(** Staging, and what comes of it. *)
Lemma trail_two d r past (Hmain : main r = before d) done dropped :
  trail [staging d true; placing d done dropped] (Run r) past
  = Some (Run (set_main (after d done) (publish_as done dropped (staged_of d) (entry_of d) (set_main (between d) (stage (staged_of d) r)))),
          Lifetime.disk (publish_as done dropped (staged_of d) (entry_of d) (stage (staged_of d) r))
          :: (Lifetime.disk r ∪ {[staged_of d]}) :: past).
Proof using Type.
  cbn [trail]. rewrite step_staging by done. cbn [mbind option_bind]. rewrite step_placing by done. by destruct done, dropped.
Qed.

End Steps.

(** ** The names on the disk *)

Section Names.
Context {PR : Process} (parent_pid : N).
Context (place_of : Entry -> list string) {Hplaces : Inj (=) (=) place_of}.

Definition seen (st : Fs) : gset Entry :=
  list_to_set (filter (fun e => is_Some (names st !! place_of e)) [ReadyEntry; ErrorEntry; StagedReady; StagedError]).
#[local] Arguments seen : simpl never.
Lemma elem_of_seen e st : e ∈ seen st <-> is_Some (names st !! place_of e).
Proof using Type.
  unfold seen. rewrite elem_of_list_to_set, list_elem_of_filter. split; [tauto|]. intros H. split; [done|]. clear H. destruct e; repeat constructor.
Qed.
Lemma seen_staged st e content : seen (staged st (place_of e) content) = seen st ∪ {[e]}.
Proof using Hplaces.
  apply set_eq. intros x. rewrite elem_of_union, elem_of_singleton, !elem_of_seen. cbn. rewrite lookup_insert_is_Some.
  split; [intros [H|[_ H]]|intros [H|H]].
  - right. apply Hplaces in H. by subst.
  - by left.
  - destruct (decide (place_of e = place_of x)); [by left|by right].
  - left. by subst.
Qed.
Lemma seen_dropped st content : seen (dropped st content) = seen st.
Proof using Type. done. Qed.
Lemma seen_all_staged st e l : Forall (is_staged st (place_of e)) l -> Forall (fun y => y = seen st ∪ {[e]}) (seen <$> l).
Proof using Hplaces. intros H. apply Forall_fmap. eapply Forall_impl; [exact H|]. intros y [content ->]. apply seen_staged. Qed.

Lemma free_unseen e st : names st !! place_of e = None -> e ∉ seen st.
Proof using Type. intros Hf [x Hx]%elem_of_seen. by rewrite Hf in Hx. Qed.

(** [past] is what a run to [r] has shown, and what a run of calls to [s] has. *)
Record mirrors (s : Sys) (r : Running) (past : list (gset Entry)) : Prop := {
  mirrors_current : current s;
  mirrors_disk : Lifetime.disk r = seen (Posix.disk s);
  mirrors_past : head past = Some (Lifetime.disk r);
  mirrors_seen : collapse past = collapse (seen <$> history s)
}.
Lemma mirrors_step s r r' past : mirrors s r past -> Lifetime.disk r' = Lifetime.disk r -> mirrors s r' (Lifetime.disk r' :: past).
Proof using Type. intros [Hc Hd Hp Hs] E. split; [exact Hc|by rewrite E|done|]. by rewrite E, collapse_same. Qed.

(** A publication is one or two steps of the main task, on the same names. *)
Lemma publication_steps {E A} (c : io E A) d s answer s' data done through r past
    (Hgo : goes c s answer s' through)
    (Hpub : publication (Posix.disk s) (place_of (entry_of d)) (place_of (staged_of d)) data done through)
    (Hf1 : names (Posix.disk s) !! place_of (entry_of d) = None) (Hf2 : names (Posix.disk s) !! place_of (staged_of d) = None)
    (Hmain : main r = before d) (Hmirrors : mirrors s r past) :
  exists acts r' past', trail parent_pid acts (Run r) past = Some (Run r', past') /\ main r' = after d done /\ mirrors s' r' past'.
Proof using Hplaces.
  destruct Hmirrors as [Hcur Hdisk Hpast Hsame]. pose proof (goes_current _ _ _ _ _ Hgo Hcur) as Hcur'.
  apply free_unseen in Hf1, Hf2. destruct Hgo as [_ Hhist Hleft]. rewrite Hdisk in Hpast.
  set (fs := Posix.disk s) in *. set (h := history s) in *.
  assert (Hhs : head (seen <$> h) = Some (seen fs)) by (unfold current in Hcur; fold h in Hcur; destruct h; [done|by injection Hcur as ->]).
  assert (Hgrown : seen fs ∪ {[staged_of d]} <> seen fs) by (by apply added_changes).
  assert (Hmid : forall l, l <> [] -> Forall (is_staged fs (place_of (staged_of d))) l ->
                 collapse (seen <$> (l ++ h)) = (seen fs ∪ {[staged_of d]}) :: collapse past
                 /\ head (seen <$> (l ++ h)) = Some (seen fs ∪ {[staged_of d]})).
  { intros l Hne Hl. apply seen_all_staged in Hl. rewrite fmap_app, Hsame. split.
    - apply collapse_lasting; [by destruct l|done|]. rewrite Hhs. congruence.
    - destruct l; [done|]. apply Forall_cons in Hl as [Hx _]. cbn. f_equal. exact Hx. }
  assert (Hfirst : collapse ((seen fs ∪ {[staged_of d]}) :: past) = (seen fs ∪ {[staged_of d]}) :: collapse past).
  { apply collapse_change. rewrite Hpast. congruence. }
  pose proof (trail_two parent_pid d r past Hmain) as Htwo. rewrite Hdisk in Htwo.
  destruct Hpub as [|l Hne Hl|l content Hne Hl|l Hne Hl]; cbn [head default] in Hleft.
  - exists [staging d false], (set_main (after d false) r), (Lifetime.disk r :: past).
    split; [cbn [trail]; by rewrite step_staging|]. split; [done|].
    refine (mirrors_step s' r (set_main (after d false) r) past _ eq_refl). split; rewrite ?Hleft, ?Hhist; try done. by rewrite Hdisk.
  - exists [staging d true; placing d false false]. eexists _, _. split; [apply Htwo|]. split; [done|].
    destruct (Hmid l Hne Hl) as [Hc Hh]. split; [done| |done|]; cbn; rewrite Hdisk.
    + rewrite Hleft. destruct l; [done|]. cbn in Hh |- *. by injection Hh as ->.
    + rewrite Hhist, Hc, <- Hfirst. by apply collapse_same.
  - exists [staging d true; placing d false true]. eexists _, _. split; [apply Htwo|]. split; [done|].
    destruct (Hmid l Hne Hl) as [Hc Hh]. split; [done| |done|]; cbn; rewrite Hdisk, added_removed by done; [by rewrite Hleft|].
    rewrite Hhist. cbn. apply collapse_both; [by intros [= ?]|rewrite Hh; by intros [= ?]|by rewrite Hc].
  - exists [staging d true; placing d true true]. eexists _, _. split; [apply Htwo|]. split; [done|].
    assert (seen fs ∪ {[entry_of d]} <> seen fs ∪ {[staged_of d]}) by (by apply added_differ; [done|by destruct d]).
    destruct (Hmid l Hne Hl) as [Hc Hh]. split; [done| |done|]; cbn; rewrite Hdisk, added_removed by done; [rewrite Hleft; symmetry; apply seen_staged|].
    rewrite Hhist. cbn. rewrite (seen_staged fs (entry_of d) data). apply collapse_both; [by intros [= ?]|rewrite Hh; by intros [= ?]|by rewrite Hc].
Qed.
End Names.
#[local] Arguments seen : simpl never.

(** ** The refinement *)

(** Where the names of the private directory are. *)
Definition places (R TR E TE : list string) (e : Entry) : list string :=
  match e with ReadyEntry => R | ErrorEntry => E | StagedReady => TR | StagedError => TE end.
Lemma places_inj R TR E TE : NoDup [R; TR; E; TE] -> Inj (=) (=) (places R TR E TE).
Proof. rewrite !NoDup_cons, !not_elem_of_cons. intros H [] [] Heq; cbn in Heq; try done; intuition congruence. Qed.

Section Refinement.
Context {PR : Process} {DC : DocumentCodec} (Humask : N.land 384 umask = 0%N).
Context {B : Type} (parent_pid : N) (rf dir : path) (fs : Fs) (R TR E TE : list string).
Context (Hready : publishable fs rf dir R TR) (Herror : publishable fs (startup_error_path rf) dir E TE).
Context (Hdistinct : NoDup [R; TR; E; TE]).
Abbreviation trail := (trail parent_pid).
Abbreviation mirrors := (mirrors (places R TR E TE)).
Abbreviation seen := (seen (places R TR E TE)).

(** Reporting a failure, whatever the first publication left. *)
Lemma report_steps code s0 r past : publishable (Posix.disk s0) (startup_error_path rf) dir E TE ->
  main r = Failed -> mirrors s0 r past ->
  exists s acts r' past', run_io (_ ← attempt (F:=anyhow) (write_startup_error_file rf code); mret (Err code : result StartupErrorCode B)) s0
                          = (Ok (Err code), s)
    /\ trail acts (Run r) past = Some (Run r', past') /\ main r' = Returning 1 /\ mirrors s r' past'.
Proof using Hdistinct Humask.
  intros Hlater Hmain Hm. pose proof (places_inj _ _ _ _ Hdistinct) as Hinj. destruct (pub_free _ _ _ _ _ Hlater) as [Hf1 Hf2].
  destruct (write_private_json_goes Humask _ _ _ _ _ Hlater (startup_error_to_vec code) s0 eq_refl) as (a & s & through & done & data & Hg & Hpub & _).
  destruct (publication_steps parent_pid _ _ Report _ _ _ _ _ _ _ _ Hg Hpub Hf1 Hf2 Hmain Hm) as (acts & r' & past' & Ht & Hr & Hm').
  exists s, acts, r', past'. split; [|done]. destruct Hg as [Hg _ _].
  rewrite run_bind, run_attempt. unfold write_startup_error_file. rewrite run_bind, Hg. by destruct a.
Qed.

(** C15: Publication, call by call on a disk that may fail anywhere, refines the life of a
    gateway in which each document takes two steps. For every script of failing and
    shortened calls there is a run of the main task's steps from the start of the watchdog
    which shows the same names in the private directory, in the same order (what repeats its
    neighbour counting once: a write that grows a file changes no name), and ends with the
    same names and in the phase the answer says: serving, or about to return status 1. So
    what holds of every run of [Lifetime] holds of the directory a launcher watches. *)
Theorem publication_refines_lifetime (table : N -> KillOutcome) (outcome : result StartupErrorCode (ReadyFile * B)) (script : list answer) :
  let '(answer, s) := run_io (publish rf outcome) (boot fs script) in
  exists acts r past,
    trail acts (Run (launched table)) [∅] = Some (Run r, past)
    /\ main r = match answer with Ok (Ok _) => Serving | _ => Returning 1 end
    /\ Lifetime.disk r = seen (Posix.disk s)
    /\ collapse past = collapse (seen <$> history s).
Proof using Hready Herror Hdistinct Humask.
  pose proof (places_inj _ _ _ _ Hdistinct) as Hinj. destruct (places_distinct R TR E TE Hdistinct) as [_ (H4 & H5 & H6)].
  destruct (pub_free _ _ _ _ _ Hready) as [Hf1 Hf2]. destruct (pub_free _ _ _ _ _ Herror) as [Hf3 Hf4].
  assert (Hempty : seen fs = ∅).
  { apply set_eq. intros e. rewrite elem_of_empty, elem_of_seen. split; [|done]. intros [x Hx].
    destruct e; cbn in Hx; congruence. }
  assert (Hm0 : mirrors (boot fs script) (launched table) [∅]) by (split; cbn; rewrite ?Hempty; reflexivity).
  unfold publish. rewrite !run_bind. destruct outcome as [[ready b]|code].
  2: { destruct (report_steps code (boot fs script) (set_main Failed (launched table)) [∅; ∅]) as (s & acts & r & past & Hs & Ht & Hr & [_ Hd _ Hc]); [done|done| |].
       { exact (mirrors_step _ _ _ (set_main Failed (launched table)) _ Hm0 eq_refl). }
       cbn [run_io mret io_ret]. rewrite Hs. exists (StartFails :: acts), r, past. split; [exact Ht|done]. }
  destruct (write_private_json_goes Humask _ _ _ _ _ Hready (ready_to_vec ready) (boot fs script) eq_refl) as (a & s1 & through & done & data & Hg & Hpub & Ha).
  destruct (publication_steps parent_pid _ _ Readiness _ _ _ _ _ _ (launched table) _ Hg Hpub Hf1 Hf2 eq_refl Hm0) as (acts & r & past & Ht & Hr & Hm).
  apply publication_states in Hpub. destruct Hg as [Hg _ Hleft].
  rewrite run_bind, run_attempt. unfold write_ready_file. rewrite Hg. cbn [fst snd run_io mret io_ret].
  destruct done; [destruct Ha as [_ ->]|destruct Ha as (e & -> & _)].
  - destruct Hm as [_ Hd _ Hc]. exists acts, r, past. done.
  - destruct (report_steps (classify_startup_error e) s1 r past) as (s & more & r' & past' & Hs & Ht' & Hr' & [_ Hd _ Hc]); [|done|done|].
    { refine (publishable_later _ _ _ _ _ _ _ Herror Hf2 _ H4 H6). rewrite Hleft. destruct Hpub; [constructor|done]. }
    rewrite Hs. exists (acts ++ more), r', past'. split; [by rewrite (trail_app _ _ _ _ _ _ _ Ht)|done].
Qed.
End Refinement.

(** ** Witness *)

Section Witness.
Let process : Process := {| geteuid := 501; umask := 18; working_directory := ["home"]; pid := 77; strerror := fun _ => "" |}.
Let documents : DocumentCodec := {|
  ready_to_vec := fun ready => Ok (to_bytes (ready_token ready));
  startup_error_to_vec := fun c => Ok (to_bytes (code_name c));
  ready_from_slice := fun _ => None;
  startup_failure_from_slice := fun _ => None |}.
Let folder : Inode := {| file_type := Directory; mode := 448; uid := 501 |}.
Let disk0 : Fs := {| names := list_to_map [([], 0%N); (["tmp"], 1%N); (["tmp"; "g"], 2%N)];
                     inodes := list_to_map [(0%N, folder); (1%N, folder); (2%N, folder)] |}.
Let place (name : string) : list string := ["tmp"; "g"; name].
Let ready : ReadyFile := {| ready_schema := 1; ready_provider := "zai"; ready_base_url := "http://127.0.0.1:4242"; ready_token := "token";
                            ready_default_model := "glm"; ready_models := [] |}.
(** The document is written in two pieces, cannot be renamed and cannot be unlinked. *)
Let script : list answer := [Proceed; Short 3; Proceed; Proceed; Fault AlreadyExists; Fault NotFound].

Lemma publication_refines_lifetime_witness :
  exists s acts r past,
    run_io (publish (PR:=process) (DC:=documents) "/tmp/g/ready.json" (Ok (ready, tt))) (boot disk0 script) = (Ok (Err GatewayStartFailed), s)
    /\ trail 12 acts (Run (launched (fun _ => Delivered))) [∅] = Some (Run r, past)
    /\ main r = Returning 1
    /\ collapse past = [{[StagedReady; ErrorEntry]}; {[StagedReady; StagedError]}; {[StagedReady]}; ∅].
Proof.
  assert (Hwf : well_formed disk0) by (apply well_formed_decided; vm_compute; reflexivity).
  assert (Hready : publishable (PR:=process) disk0 "/tmp/g/ready.json" "/tmp/g" (place "ready.json") (place ".ready.json.77.tmp")).
  { split; [exact Hwf|vm_compute; reflexivity..|split; vm_compute; reflexivity|split; vm_compute; reflexivity|discriminate]. }
  assert (Herror : publishable (PR:=process) disk0 (startup_error_path "/tmp/g/ready.json") "/tmp/g" (place "ready.json.error") (place ".ready.json.error.77.tmp")).
  { split; [exact Hwf|vm_compute; reflexivity..|split; vm_compute; reflexivity|split; vm_compute; reflexivity|discriminate]. }
  assert (Hdistinct : NoDup [place "ready.json"; place ".ready.json.77.tmp"; place "ready.json.error"; place ".ready.json.error.77.tmp"])
    by (apply (proj1 (bool_decide_eq_true _)); vm_compute; reflexivity).
  pose proof (publication_refines_lifetime (PR:=process) (DC:=documents) (B:=unit) eq_refl 12 "/tmp/g/ready.json" "/tmp/g" disk0 _ _ _ _ Hready Herror Hdistinct
                (fun _ => Delivered) (Ok (ready, tt)) script) as H.
  set (ran := run_io _ _) in H.
  assert (Hran : ran = (Ok (Err GatewayStartFailed), ran.2)) by (vm_compute; reflexivity).
  assert (Hseen : collapse (seen (places (place "ready.json") (place ".ready.json.77.tmp") (place "ready.json.error") (place ".ready.json.error.77.tmp"))
                    <$> history ran.2)
                  = [{[StagedReady; ErrorEntry]}; {[StagedReady; StagedError]}; {[StagedReady]}; ∅]) by (vm_compute; reflexivity).
  rewrite Hran in H. destruct H as (acts & r & past & Ht & Hr & _ & Hc).
  exists ran.2, acts, r, past. split; [exact Hran|]. split; [exact Ht|]. split; [exact Hr|]. rewrite Hc. exact Hseen.
Defined.
End Witness.
