(* ===== verification/ProtocolCorrect.v ===== *)
(** * The start-up protocol over the file system

    The gateway publishes through a disk whose calls fail at any point; the launcher polls
    at any moments. Together they end with one outcome, the one the gateway came to. *)

From S2P Require Import Prelude Utf8 Paths Posix Json Errors Catalog CatalogCorrect Transport Net Auth Zai Backend.
From S2P Require Import GatewayMain LauncherReady ReadyCorrect Publish PosixCorrect PublishCorrect.
From stdpp Require Import options.

(** The calls of a reader see states of a history (the latest first), later ones later. *)
Definition sees (h : list Fs) (v : View) : Prop :=
  exists a b c, h !! a = Some (at_read v) /\ h !! b = Some (at_metadata v) /\ h !! c = Some (at_open v) /\ a <= b <= c.

Lemma appears_seen {PG : Process} place data h v : appears (PR:=PG) place data h -> sees h v ->
  free_in place (at_open v)
  \/ exists i, shown (PR:=PG) place data i (at_open v) /\ shown (PR:=PG) place data i (at_metadata v)
             /\ shown (PR:=PG) place data i (at_read v).
Proof.
  intros (i & post & pre & -> & _ & Hpost & Hpre) (a & b & c & Ha & Hb & Hc & Hab & Hbc).
  destruct (decide (c < length post)) as [Hlt|Hge].
  - right. exists i. rewrite lookup_app_l in Ha by lia. rewrite lookup_app_l in Hb by lia. rewrite lookup_app_l in Hc by lia.
    rewrite Forall_lookup in Hpost. split_and!; [exact (Hpost _ _ Hc)|exact (Hpost _ _ Hb)|exact (Hpost _ _ Ha)].
  - left. rewrite lookup_app_r in Hc by lia. rewrite Forall_lookup in Hpre. exact (Hpre _ _ Hc).
Qed.

Section Reading.
  Context {PG PL : Process} {DC : DocumentCodec} (Heuid : @geteuid PL = @geteuid PG).

Lemma open_free v p place limit :
  locate (H:=PL) false (at_open v) p = Ok place -> free_in place (at_open v) ->
  open_private_gateway_file (PR:=PL) v p limit = Ok None.
Proof using .
  intros Hl Hf. unfold open_private_gateway_file, open_existing, stat. rewrite Hl. cbn [mbind result_bind].
  unfold lookup_at. by rewrite Hf.
Qed.
Lemma open_shown v p place data i limit :
  locate (H:=PL) false (at_open v) p = Ok place -> (blen data <= limit)%N ->
  shown (PR:=PG) place data i (at_open v) -> shown (PR:=PG) place data i (at_metadata v) ->
  open_private_gateway_file (PR:=PL) v p limit = Ok (Some i).
Proof using Heuid.
  intros Hl Hlim (Hn & Hi & _) (_ & Hm & Hlink). unfold open_private_gateway_file, open_existing, stat.
  rewrite Hl. cbn [mbind result_bind]. unfold lookup_at. rewrite Hn. cbn [ok_or mbind result_bind]. rewrite Hi.
  cbn. rewrite Hm. cbn. assert ((limit <? blen data)%N = false) as -> by (by apply N.ltb_ge).
  rewrite Hlink. cbn. by rewrite Heuid, N.eqb_refl.
Qed.

Lemma read_whole v i data n place : shown (PR:=PG) place data i (at_read v) -> (blen data <= n)%N -> read_open v i n = data.
Proof using .
  intros (_ & Hi & _) Hn. unfold read_open. rewrite Hi. cbn. apply take_ge. unfold blen in Hn. clear -Hn. lia.
Qed.

Lemma read_ready_seen h v rf R data doc :
  appears (PR:=PG) R data h -> sees h v -> locate (H:=PL) false (at_open v) rf = Ok R ->
  ready_from_slice data = Some doc -> data <> [] -> (blen data <= MAX_GATEWAY_READY_BYTES)%N ->
  (free_in R (at_open v) /\ read_gateway_ready (PR:=PL) v rf = Ok None)
  \/ read_gateway_ready (PR:=PL) v rf = Ok (Some doc).
Proof using Heuid.
  intros Ha Hs Hl Hdoc Hne Hsize. unfold read_gateway_ready. destruct (appears_seen _ _ _ _ Ha Hs) as [Hf|(i & H1 & H2 & H3)].
  - left. split; [done|]. by rewrite (open_free _ _ _ _ Hl Hf).
  - right. rewrite (open_shown _ _ _ _ _ _ Hl Hsize H1 H2). cbn [mbind result_bind].
    rewrite (read_whole _ _ _ _ _ H3) by lia.
    assert ((MAX_GATEWAY_READY_BYTES <? blen data)%N = false) as -> by (by apply N.ltb_ge).
    cbn [reject mbind result_bind]. destruct data; [done|]. by rewrite Hdoc.
Qed.
Lemma read_failure_seen h v rf E data doc :
  appears (PR:=PG) E data h -> sees h v -> locate (H:=PL) false (at_open v) (startup_error_path rf) = Ok E ->
  startup_failure_from_slice data = Some doc -> (blen data <= 4096)%N ->
  (free_in E (at_open v) /\ read_startup_failure_file (PR:=PL) v rf = Ok None)
  \/ read_startup_failure_file (PR:=PL) v rf = Ok (Some doc).
Proof using Heuid.
  intros Ha Hs Hl Hdoc Hsize. unfold read_startup_failure_file. change (rf +:+ ".error") with (startup_error_path rf).
  destruct (appears_seen _ _ _ _ Ha Hs) as [Hf|(i & H1 & H2 & H3)].
  - left. split; [done|]. by rewrite (open_free _ _ _ _ Hl Hf).
  - right. rewrite (open_shown _ _ _ _ _ _ Hl Hsize H1 H2). cbn [mbind result_bind].
    rewrite (read_whole _ _ _ _ _ H3) by lia. by rewrite Hdoc.
Qed.

End Reading.

(** What both sides rely on of their derived codecs. *)
Class DocumentLaws (DC : DocumentCodec) : Prop := {
  ready_reads_back r d : ready_to_vec r = Ok d -> ready_from_slice d = Some (read_ready r) /\ d <> [];
  failure_reads_back c d : startup_error_to_vec c = Ok d ->
    startup_failure_from_slice d = Some (read_failure c) /\ (blen d <= 4096)%N
}.

(** ** One turn, and the wait *)

Section Protocol.
  Context {UP : Upstream} {UR : UrlParser} {SJ : SerdeJson} {CC : CatalogCodec} {B64 : Base64} (env : Surroundings).
  Context {PG PL : Process} {DC : DocumentCodec} {DL : DocumentLaws DC}.

(** A turn of the launcher's loop, with a live gateway and time left, somewhere in a history. *)
Definition turn_in (h : list Fs) (rf : path) (t : Turn) : Prop :=
  exists error_view ready_view, sees h error_view /\ sees h ready_view
    /\ t = turn_at (PR:=PL) rf (Ok None) error_view ready_view false.

(** What the launcher ends with. *)
Definition answer_of {B} (selected : PublicProvider) (outcome : result StartupErrorCode (ReadyFile * B)) (answer : result StartupErrorCode B)
  : result string GatewayReady :=
  match answer, outcome with
  | Ok _, Ok (ready, _) => Ok (read_ready ready)
  | Ok _, Err c | Err c, _ => Err (startup_message (bool_decide (selected = PublicZai)) (code_name c))
  end.

Lemma wait_turns (selected : PublicProvider) (a : result string GatewayReady) turns :
  Forall (fun t => quiet t \/ forall e, wait_turn selected e t = inl a) turns ->
  forall e, wait_loop selected e turns = None \/ wait_loop selected e turns = Some a.
Proof.
  induction 1 as [|t turns Ht _ IH]; intros e; [by left|]. cbn [wait_loop]. destruct Ht as [Hq|Hd].
  - destruct (proj1 (quiet_turn selected e t) Hq) as [e' ->]. apply IH.
  - rewrite Hd. by right.
Qed.
Lemma wait_turns_end (selected : PublicProvider) (a : result string GatewayReady) turns t :
  Forall (fun t => quiet t \/ forall e, wait_turn selected e t = inl a) turns -> (forall e, wait_turn selected e t = inl a) ->
  forall e, wait_loop selected e (turns ++ [t]) = Some a.
Proof.
  induction 1 as [|t' turns Ht _ IH]; intros Hd e; cbn [wait_loop app]; [by rewrite Hd|]. destruct Ht as [Hq|Hd'].
  - destruct (proj1 (quiet_turn selected e t') Hq) as [e' ->]. by apply IH.
  - by rewrite Hd'.
Qed.

Lemma turn_ready selected rf error_view ready_view ready :
  read_startup_failure_file (PR:=PL) error_view rf = Ok None -> validate (read_ready ready) selected = Ok (read_ready ready) ->
  read_gateway_ready (PR:=PL) ready_view rf = Ok (Some (read_ready ready)) ->
  forall e, wait_turn selected e (turn_at (PR:=PL) rf (Ok None) error_view ready_view false) = inl (Ok (read_ready ready)).
Proof. intros He Hv Hr e. unfold wait_turn, turn_at. cbn [try_wait error_file ready_file]. rewrite He. cbn. by rewrite Hr, Hv. Qed.
Lemma turn_failed selected rf error_view ready_view c :
  read_startup_failure_file (PR:=PL) error_view rf = Ok (Some (read_failure c)) ->
  forall e, wait_turn selected e (turn_at (PR:=PL) rf (Ok None) error_view ready_view false)
            = inl (Err (startup_message (bool_decide (selected = PublicZai)) (code_name c))).
Proof. intros He e. unfold wait_turn, turn_at. cbn [try_wait error_file]. by rewrite He. Qed.
Lemma turn_quiet rf error_view ready_view :
  read_startup_failure_file (PR:=PL) error_view rf = Ok None -> read_gateway_ready (PR:=PL) ready_view rf = Ok None ->
  quiet (turn_at (PR:=PL) rf (Ok None) error_view ready_view false).
Proof. intros He Hr. unfold quiet, turn_at. cbn. by rewrite He, Hr. Qed.

Lemma sees_free {h place v} : Forall (free_in place) h -> sees h v -> free_in place (at_open v).
Proof. rewrite Forall_lookup. intros Hf (a & b & c & _ & _ & Hc & _). exact (Hf _ _ Hc). Qed.
Lemma sees_grows {fs h v} : Forall (grows fs) h -> sees h v -> grows fs (at_open v).
Proof. rewrite Forall_lookup. intros Hf (a & b & c & _ & _ & Hc & _). exact (Hf _ _ Hc). Qed.

(** A view of one state. *)
Definition view_of (fs : Fs) : View := {| at_open := fs; at_metadata := fs; at_read := fs |}.

Lemma is_absolute_app p q : is_absolute p = true -> is_absolute (p +:+ q) = true.
Proof.
  unfold is_absolute, has_root, starts_with. rewrite !bool_decide_eq_true. intros [r Hr%strip_prefix_app].
  exists (r +:+ q). apply strip_prefix_app. by rewrite Hr, append_assoc.
Qed.

(** What each turn in the history of a publication tells the launcher. *)
Lemma turns_decided {B} (rf dir : path) (fs : Fs) (R TR E TE : list string) (script : list answer)
    (selected : PublicProvider) (outcome : result StartupErrorCode (ReadyFile * B))
    (Humask : N.land 384 (@umask PG) = 0%N) (Heuid : @geteuid PL = @geteuid PG) (Habs : is_absolute rf = true)
    (Hready : publishable (PR:=PG) fs rf dir R TR) (Herror : publishable (PR:=PG) fs (startup_error_path rf) dir E TE)
    (Hdistinct : NoDup [R; TR; E; TE])
    (Hsize : forall ready b d, outcome = Ok (ready, b) -> ready_to_vec ready = Ok d -> (blen d <= MAX_GATEWAY_READY_BYTES)%N)
    (Hvalid : forall ready b, outcome = Ok (ready, b) -> validate (read_ready ready) selected = Ok (read_ready ready)) :
  exists answer s, run_io (publish (PR:=PG) rf outcome) (boot fs script) = (Ok answer, s)
    /\ answer = match outcome, answer with Ok (_, b), Ok _ => Ok b | Err c, _ => Err c | _, Err _ => Err GatewayStartFailed end
    /\ sees (history s) (view_of (disk s))
    /\ forall ve vr, sees (history s) ve -> sees (history s) vr ->
       let a := answer_of selected outcome answer in
       let t := turn_at (PR:=PL) rf (Ok None) ve vr false in
       (quiet t \/ forall e, wait_turn selected e t = inl a)
       /\ (ve = view_of (disk s) -> vr = view_of (disk s) ->
           is_ok answer || is_ok (stat (PR:=PL) false (startup_error_path rf) (disk s)) = true -> forall e, wait_turn selected e t = inl a).
Proof using DL.
  pose proof (publish_history (PR:=PG) Humask rf dir fs R TR E TE Hready Herror Hdistinct outcome script) as Hrun.
  destruct (run_io (publish rf outcome) (boot fs script)) as [[answer|e] s]; [|by destruct Hrun as (_ & _ & [])].
  destruct Hrun as (Hcur & Hgrow & Hrun). exists answer, s. split; [reflexivity|].
  assert (HlR : forall st, grows fs st -> locate (H:=PL) false st rf = Ok R).
  { intros st Hst. rewrite (locate_absolute PL PG false st _ Habs).
    exact (locate_grows _ _ Hst _ _ _ (proj1 (pub_files _ _ _ _ _ Hready)) (pub_place _ _ _ _ _ Hready)). }
  assert (Habs' : is_absolute (startup_error_path rf) = true) by exact (is_absolute_app rf ".error" Habs).
  assert (HlE : forall st, grows fs st -> locate (H:=PL) false st (startup_error_path rf) = Ok E).
  { intros st Hst. rewrite (locate_absolute PL PG false st _ Habs').
    exact (locate_grows _ _ Hst _ _ _ (proj1 (pub_files _ _ _ _ _ Herror)) (pub_place _ _ _ _ _ Herror)). }
  assert (Hnone : forall v p place limit, Forall (free_in place) (history s) -> sees (history s) v ->
            (forall st, grows fs st -> locate (H:=PL) false st p = Ok place) -> open_private_gateway_file (PR:=PL) v p limit = Ok None).
  { intros v p place limit Hf Hv Hl. exact (open_free _ _ _ _ (Hl _ (sees_grows Hgrow Hv)) (sees_free Hf Hv)). }
  assert (Hlast : sees (history s) (view_of (disk s))) by (exists 0, 0, 0; unfold current in Hcur; rewrite head_lookup in Hcur; done).
  destruct answer as [b|code].
  - destruct Hrun as (ready & data & Ho & Hdata & Happ & (i & Hshown) & HfE). rewrite Ho in *. split; [done|].
    split; [done|]. intros ve vr Hve Hvr a t. destruct (ready_reads_back _ _ Hdata) as [Hback Hne].
    assert (HvE : read_startup_failure_file (PR:=PL) ve rf = Ok None).
    { unfold read_startup_failure_file. rewrite (Hnone _ _ _ _ HfE Hve HlE). reflexivity. }
    destruct (read_ready_seen Heuid _ _ rf _ _ _ Happ Hvr (HlR _ (sees_grows Hgrow Hvr)) Hback Hne (Hsize _ _ _ eq_refl Hdata))
      as [[Hfree Hr]|Hr].
    + split; [left; by apply turn_quiet|]. intros -> ->. destruct Hshown as [Hn _]. unfold free_in in Hfree. cbn in Hfree. rewrite Hfree in Hn. discriminate Hn.
    + pose proof (turn_ready selected _ _ _ _ HvE (Hvalid _ _ eq_refl) Hr) as Hd. split; [right; exact Hd|intros _ _ _; exact Hd].
  - destruct Hrun as (Hcode & HfR & Hrep). split; [by destruct outcome as [[]|]; rewrite Hcode|].
    split; [done|]. intros ve vr Hve Hvr a t.
    assert (HvR : read_gateway_ready (PR:=PL) vr rf = Ok None).
    { unfold read_gateway_ready. rewrite (Hnone _ _ _ _ HfR Hvr HlR). reflexivity. }
    destruct Hrep as [HfE|(data & Hdata & Happ & (i & Hshown))].
    + assert (HvE : read_startup_failure_file (PR:=PL) ve rf = Ok None).
      { unfold read_startup_failure_file. rewrite (Hnone _ _ _ _ HfE Hve HlE). reflexivity. }
      split; [left; by apply turn_quiet|]. intros -> -> Hex. cbn [is_ok orb] in Hex. unfold stat in Hex.
      pose proof (HlE _ (sees_grows Hgrow Hve)) as Hl. cbn [at_open view_of] in Hl. rewrite Hl in Hex. cbn [mbind result_bind] in Hex. unfold lookup_at in Hex.
      pose proof (sees_free HfE Hve) as Hn. unfold free_in in Hn. cbn [at_open view_of] in Hn. rewrite Hn in Hex. discriminate Hex.
    + destruct (failure_reads_back _ _ Hdata) as [Hback Hsz].
      destruct (read_failure_seen Heuid _ _ rf _ _ _ Happ Hve (HlE _ (sees_grows Hgrow Hve)) Hback Hsz) as [[Hfree He]|He].
      * split; [left; by apply turn_quiet|]. intros -> -> _. destruct Hshown as [Hn _]. unfold free_in in Hfree. cbn in Hfree. rewrite Hfree in Hn. discriminate Hn.
      * pose proof (turn_failed selected rf ve vr code He) as Hd. split; [right; exact Hd|intros _ _ _; exact Hd].
Qed.

(** C5: The start-up protocol holds over a disk that may fail at any call. Starting the
    gateway always ends, in readiness or in an error code, and it publishes one private
    document through a staged file; whatever calls fail or are cut short, and at whatever
    moments a launcher's turns open, inspect and read the two files, they see nothing or
    that whole document: the wait goes on, or ends with the outcome the gateway came to,
    never with another and never with a parse error. Once the document is on the disk the
    next turn ends the wait. *)
Theorem startup_protocol (w : World) (BUNDLED : bytes) (zai_skip : option string) (args : ServeArgs)
    (selected : PublicProvider) (rf dir : path) (fs : Fs) (R TR E TE : list string) (script : list answer)
    (Hcodec : i64_codec) (Hb64 : forall b, decode_url_safe_no_pad (encode_url_safe b) = Some b)
    (Hrandom : forall b, random env = Ok b -> blen b = 32%N)
    (Hlisten : forall addr a, listen env addr = Ok a -> exists port, (0 < port < 65536)%N /\ a = V4 127 0 0 1 port)
    (Hselected : serve_provider args = match selected with PublicCodex => ProviderCodex | PublicZai => ProviderZai end)
    (Humask : N.land 384 (@umask PG) = 0%N) (Heuid : @geteuid PL = @geteuid PG) (Habs : is_absolute rf = true)
    (Hready : publishable (PR:=PG) fs rf dir R TR) (Herror : publishable (PR:=PG) fs (startup_error_path rf) dir E TE)
    (Hdistinct : NoDup [R; TR; E; TE])
    (Hsize : forall ready b d, serve env w BUNDLED zai_skip args = Some (Ok (ready, b)) -> ready_to_vec ready = Ok d ->
               (blen d <= MAX_GATEWAY_READY_BYTES)%N) :
  exists outcome answer s,
    serve env w BUNDLED zai_skip args = Some outcome
    /\ run_io (publish (PR:=PG) rf outcome) (boot fs script) = (Ok answer, s)
    /\ answer = match outcome, answer with Ok (_, b), Ok _ => Ok b | Err c, _ => Err c | _, Err _ => Err GatewayStartFailed end
    /\ forall turns, Forall (turn_in (history s) rf) turns ->
       let a := answer_of selected outcome answer in
       (wait_for_gateway_ready selected turns = None \/ wait_for_gateway_ready selected turns = Some a)
       /\ (is_ok answer || is_ok (stat (PR:=PL) false (startup_error_path rf) (disk s)) = true ->
           wait_for_gateway_ready selected
             (turns ++ [turn_at (PR:=PL) rf (Ok None) (view_of (disk s)) (view_of (disk s)) false]) = Some a).
Proof using DL.
  destruct (serve_outcome env Hcodec Hb64 Hrandom Hlisten w BUNDLED zai_skip args selected Hselected) as (outcome & Hserve & Hvalid).
  destruct (turns_decided rf dir fs R TR E TE script selected outcome Humask Heuid Habs Hready Herror Hdistinct)
    as (answer & s & Hrun & Hanswer & Hlast & Hturns); [|exact Hvalid|].
  { intros ready b d ->. by apply (Hsize ready b). }
  exists outcome, answer, s. split_and!; [exact Hserve|exact Hrun|exact Hanswer|]. intros turns Hin a.
  assert (Hall : Forall (fun t => quiet t \/ forall e, wait_turn selected e t = inl a) turns).
  { eapply Forall_impl; [exact Hin|]. intros t (ve & vr & Hve & Hvr & ->). apply (Hturns ve vr Hve Hvr). }
  split; [exact (wait_turns selected a turns Hall None)|]. intros Hdisk.
  exact (wait_turns_end selected a turns _ Hall (proj2 (Hturns _ _ Hlast Hlast) eq_refl eq_refl Hdisk) None).
Qed.

End Protocol.

(** ** Witness *)

Section Witness.
Let up : Upstream := {|
  header_value := str_forallb (in_range 32 126); api_provider := fun _ _ => Err ""; append_pair := fun k v url => url;
  get_codex_user_agent := "codex"; MUSE_CODEX_USER_AGENT := "muse-codex/1"; process_id := 7 |}.
Let urls : UrlParser := {| Url_parse := fun s => Ok {|
  url_str := s; scheme := "https"; host_str := Some "api.z.ai"; username := ""; password := None; url_query := None;
  fragment := None |} |}.
Let codec : CatalogCodec := {| decode_models := fun _ => Err "empty" |}.
Let base64 : Base64 := {| encode_url_safe := of_bytes; decode_url_safe_no_pad := fun s => Some (to_bytes s);
                          decode_url_safe := fun _ => None |}.
(** A gateway without a key for the provider: its start fails. *)
Let env : Surroundings := {|
  kill_zero := fun _ => Delivered; thread_spawned := Ok tt; stdin := Ok []; auth_config := Ok tt; client_headers := []; build_client := fun _ => Ok tt;
  codex_stored := None; zai_loaded := Ok None; random := Ok (repeat "A"%char 32); catalog_timed_out := false;
  listen := fun _ => Ok (V4 127 0 0 1 4242) |}.
Let world : World := {|
  world_codex := {| stored_before := None; stored_at := fun _ => None;
                    codex_network := fun _ _ => Err read_timeout_error; codex_models := fun _ _ => Err read_timeout_error;
                    codex_refresh_lock := Ok tt; codex_recovery := [] |};
  world_zai := fun _ => Err read_timeout_error; world_status_text := fun s => pretty s; world_sequence := 1 |}.
Let args : ServeArgs := {| bind := V4 127 0 0 1 0; parent_pid := 12; api_key_stdin := false; upstream_base_url := None;
                           fast := false; serve_provider := ProviderZai |}.
Let process : Process := {| geteuid := 501; umask := 18; working_directory := ["home"]; pid := 77; strerror := fun _ => "" |}.
Let documents : DocumentCodec := {|
  ready_to_vec := fun _ => Err "";
  startup_error_to_vec := fun c => Ok (to_bytes (code_name c));
  ready_from_slice := fun _ => None;
  startup_failure_from_slice := fun d => Some {| failure_schema := 1; failure_code := of_bytes d |} |}.
Let folder : Inode := {| file_type := Directory; mode := 448; uid := 501 |}.
Let disk0 : Fs := {| names := list_to_map [([], 0%N); (["tmp"], 1%N); (["tmp"; "g"], 2%N)];
                     inodes := list_to_map [(0%N, folder); (1%N, folder); (2%N, folder)] |}.
Let rf : path := "/tmp/g/ready.json".
Let place (name : string) : list string := ["tmp"; "g"; name].

Lemma startup_protocol_witness :
  exists s, run_io (publish (PR:=process) (DC:=documents) rf (Err AuthenticationRequired : result _ (ReadyFile * Backend)))
              (boot disk0 [Proceed; Short 3; Short 5]) = (Ok (Err AuthenticationRequired), s)
    /\ wait_for_gateway_ready (B64:=base64) PublicZai
         [turn_at (PR:=process) (DC:=documents) rf (Ok None) (view_of disk0) (view_of disk0) false;
          turn_at (PR:=process) (DC:=documents) rf (Ok None) (view_of (disk s)) (view_of (disk s)) false]
       = Some (Err "No Z.ai credentials are saved. Run `muse-codex auth set --provider zai --api-key-stdin`.").
Proof.
  assert (Hlaws : DocumentLaws documents).
  { split; [discriminate|]. intros c d [= <-]. split; [|destruct c; vm_compute; discriminate].
    cbn. rewrite of_to_bytes. reflexivity. }
  assert (Hcodec : @i64_codec codec) by (intros body u0 u H; discriminate H).
  assert (Hb64 : forall b, @decode_url_safe_no_pad base64 (@encode_url_safe base64 b) = Some b).
  { intros b. cbn. by rewrite to_of_bytes. }
  assert (Hrandom : forall b, random env = Ok b -> blen b = 32%N) by (intros b [= <-]; vm_compute; reflexivity).
  assert (Hlisten : forall addr a, listen env addr = Ok a -> exists port, (0 < port < 65536)%N /\ a = V4 127 0 0 1 port).
  { intros addr a [= <-]. exists 4242%N. split; [lia|reflexivity]. }
  assert (Hwf : well_formed disk0) by (apply well_formed_decided; vm_compute; reflexivity).
  assert (Hready : publishable (PR:=process) disk0 rf "/tmp/g" (place "ready.json") (place ".ready.json.77.tmp")).
  { split; [exact Hwf|vm_compute; reflexivity..|split; vm_compute; reflexivity|split; vm_compute; reflexivity|discriminate]. }
  assert (Herror : publishable (PR:=process) disk0 (startup_error_path rf) "/tmp/g" (place "ready.json.error") (place ".ready.json.error.77.tmp")).
  { split; [exact Hwf|vm_compute; reflexivity..|split; vm_compute; reflexivity|split; vm_compute; reflexivity|discriminate]. }
  assert (Hdistinct : NoDup [place "ready.json"; place ".ready.json.77.tmp"; place "ready.json.error"; place ".ready.json.error.77.tmp"])
    by (apply (proj1 (bool_decide_eq_true _)); vm_compute; reflexivity).
  assert (Hfails : serve (UP:=up) (UR:=urls) (CC:=codec) (B64:=base64) env world [] (Some "1") args = Some (Err AuthenticationRequired))
    by (vm_compute; reflexivity).
  destruct (startup_protocol (UP:=up) (UR:=urls) (CC:=codec) (B64:=base64) (PG:=process) (PL:=process) (DC:=documents) (DL:=Hlaws) env world [] (Some "1") args PublicZai
              rf "/tmp/g" disk0 _ _ _ _ [Proceed; Short 3; Short 5] Hcodec Hb64 Hrandom Hlisten eq_refl eq_refl eq_refl eq_refl
              Hready Herror Hdistinct) as (outcome & answer & s & Hserve & Hrun & Hanswer & Hturns).
  { intros ready b d _. discriminate. }
  rewrite Hfails in Hserve. injection Hserve as <-. subst answer.
  exists s. split; [exact Hrun|].
  refine (proj2 (Hturns [_] _) _).
  - constructor; [|constructor]. exists (view_of disk0), (view_of disk0).
    assert (Hs : s = (run_io (publish (PR:=process) (DC:=documents) rf (Err AuthenticationRequired : result _ (ReadyFile * Backend)))
                     (boot disk0 [Proceed; Short 3; Short 5])).2) by (rewrite Hrun; reflexivity).
    assert (Hsee : sees (history s) (view_of disk0)).
    { exists 5, 5, 5. rewrite Hs. split_and!; [vm_compute; reflexivity..|lia|lia]. }
    split_and!; [exact Hsee|exact Hsee|reflexivity].
  - assert (Hs : s = (run_io (publish (PR:=process) (DC:=documents) rf (Err AuthenticationRequired : result _ (ReadyFile * Backend)))
                     (boot disk0 [Proceed; Short 3; Short 5])).2) by (rewrite Hrun; reflexivity).
    rewrite Hs. vm_compute. reflexivity.
Defined.
End Witness.
