(* ===== verification/TurnCorrect.v ===== *)
(** * A turn of stock Muse over Z.ai, end to end

    Composes the gateway, the Z.ai backend, the stream synthesizer and the validator:
    from a request of stock Muse and the bytes Z.ai sends to the events stock Muse gets. *)

From S2P Require Import Prelude Utf8 Json Errors SseValidator SseFrame SseCorrect ZaiRequest ZaiStream ZaiContract ZaiMoves ZaiStreamCorrect.
From S2P Require Import Responses Catalog Transport Net Zai Backend Gateway.
From stdpp Require Import options.

Section Turn.
  Context {UP : Upstream} {UR : UrlParser} {SC : SearchCodec} {SJ : SerdeJson} {SJL : SerdeJsonLaws SJ} {IC : ItemCodec}.

(** What the synthesizer hears of a body that does not stall. *)
Definition heard (body : list body_event) : list ZaiStream.stream_event := fst (until_stall body).
Definition stalls (body : list body_event) : bool := snd (until_stall body).
Lemma synthesized_heard status_text model key names body : stalls body = false ->
  synthesized_body status_text model key names body = Data <$> responses_stream status_text model key names (heard body).
Proof. unfold synthesized_body, heard, stalls. destruct (until_stall body) as [l b]. cbn. by intros ->. Qed.

Lemma heard_data_only frames : stream_event <$> (Data <$> frames) = map SseValidator.Chunk frames.
Proof. rewrite <- list_fmap_compose. done. Qed.

Lemma number_after_length n evs : number_after (N.of_nat n mod u64_modulus) evs = (N.of_nat (n + length evs) mod u64_modulus)%N.
Proof.
  revert n. induction evs as [|e evs IH]; intros n; cbn [number_after length]; [by rewrite Nat.add_0_r|].
  unfold u64_add. rewrite N.Div0.add_mod_idemp_l, N.add_1_r, <- Nat2N.inj_succ, IH. by rewrite Nat.add_succ_r.
Qed.

(** C2: A turn over Z.ai, end to end. For a request of stock Muse that the gateway and the
    translation accept, when Z.ai answers with success and does not stall, and no event
    exceeds the validator's limit: stock Muse gets status 200 and an event stream whose
    events are, in order and numbered from zero, those of one sequence that the contract
    of a Responses stream accepts to its end: all forwarded unchanged, up to the last,
    which is unchanged too if it completes the response; an [error] event is replaced by
    one failure built by the gateway. This holds whatever Z.ai sends and however its
    bytes are cut. *)
Theorem zai_turn (clock : N) (w : World) (t : ZaiTransport) (hs : HeaderMap) (request prepared : value)
    (model : string) (names : ToolNames) (http : HttpRequest) (upstream : RawResponse)
    (Hprepared : prepare_responses_request request = Ok prepared)
    (Hchat : chat_request t prepared = Ok (model, names, http))
    (Hnetwork : world_zai w http = Ok upstream) (Hsuccess : is_success (raw_status upstream) = true)
    (Hheard : stalls (raw_body upstream) = false)
    (Hsize : Forall (fun frame => (blen frame <= SseValidator.MAX_EVENT_BYTES)%N)
               (responses_stream (world_status_text w) model ("process:" +:+ pretty process_id +:+ ":" +:+ pretty (world_sequence w))
                  names (heard (raw_body upstream)))) :
  exists answer events kind body ph last,
    responses clock w (ZaiBackend t) hs (Ok request) = Some answer
    /\ Gateway.status answer = 200%N /\ header_get "content-type" (Gateway.headers answer) = Some "text/event-stream"
    /\ accept phase_new (events ++ [(kind, body)]) = Some ph /\ ended ph = true
    /\ response_body answer
       = Data <$> (imap (fun i e => event_frame (fst e) (snd e) (N.of_nat i mod u64_modulus)) events ++ [last])
    /\ if String.eqb kind "error"
       then exists id m seq code msg param, last = failure_frame clock id m seq code msg param
       else In kind completion_kinds /\ last = event_frame kind body (N.of_nat (length events) mod u64_modulus).
Proof using SJL.
  destruct (synthesized_events_validated (SJL:=SJL) (world_status_text w) model ("process:" +:+ pretty process_id +:+ ":" +:+ pretty (world_sequence w))
              names (heard (raw_body upstream)) clock SseValidator.MAX_EVENT_BYTES (Some "text/event-stream") _ Hsize eq_refl)
    as (events & kind & body & ph & last & Ha & He & Hrun & Hv & Hlast).
  eexists _, events, kind, body, ph, last. split.
  { unfold responses. cbn [extract_json map_err]. rewrite Hprepared. cbn [stream_responses].
    unfold Zai.stream_responses. rewrite Hchat. cbn [mbind result_bind option_bind]. rewrite Hnetwork. cbn [map_err mbind result_bind].
    rewrite Hsuccess. cbn [negb]. rewrite synthesized_heard by done. reflexivity. }
  unfold proxy_sse_response. cbn [raw_status raw_headers raw_body].
  split; [reflexivity|]. split; [vm_compute; reflexivity|]. split; [done|]. split; [done|].
  unfold validated_body. assert (safe_upstream_media_type [("content-type", "text/event-stream")] = Some "text/event-stream") as ->
    by (vm_compute; reflexivity).
  rewrite heard_data_only, Hv. rewrite (number_after_length 0) in Hlast. rewrite <- (number_after_imap 0). split; [reflexivity|exact Hlast].
Qed.
End Turn.

(** ** A turn *)

Section Witness.
Let up : Upstream := {|
  header_value := str_forallb (in_range 32 126); api_provider := fun _ _ => Err ""; append_pair := fun k v url => url;
  get_codex_user_agent := "codex"; MUSE_CODEX_USER_AGENT := "muse-codex/1"; process_id := 7 |}.
Let url (s : string) : Url := {| url_str := s; scheme := "https"; host_str := Some "api.z.ai"; username := "";
  password := None; url_query := None; fragment := None |}.
Let urls : UrlParser := {| Url_parse := fun s => Ok (url s) |}.
Let codec : ItemCodec := {|
  ResponseItem := value; item_from_value := fun v => Ok v; item_to_value := fun v => Ok v;
  is_other := fun _ => false; has_unprefixed_id := fun _ => false; clear_id := fun v => v; sha256 := fun b => take 32 b |}.
Let zai : ZaiTransport := {| zai_api_key := "key"; zai_base_url := url "https://api.z.ai/v4/" |}.
Let answer : RawResponse := {| raw_status := 200; raw_headers := [];
  raw_body := [ Data (sample_frame (sample_chunk [("delta", json_obj [("content", JString "hi")])]));
                Data (sample_frame (sample_chunk [("finish_reason", JString "stop")])) ] |}.
Let world : World := {|
  world_codex := {| stored_before := None; stored_at := fun _ => None;
                    codex_network := fun _ _ => Err read_timeout_error; codex_models := fun _ _ => Err read_timeout_error;
                    codex_refresh_lock := Ok tt; codex_recovery := [] |};
  world_zai := fun _ => Ok answer; world_status_text := fun s => pretty s; world_sequence := 1 |}.
Let input : value := JArray [json_obj [("type", JString "message"); ("role", JString "user");
  ("content", JArray [json_obj [("type", JString "input_text"); ("text", JString "hi")]])]].
Let request : value := json_obj [("model", JString "glm-4.7"); ("input", input)].
Let prepared : value := json_obj [("input", input); ("model", JString "glm-4.7"); ("store", JBool false); ("stream", JBool true)].

Lemma zai_turn_witness :
  exists turn, responses (UP:=up) (UR:=urls) (IC:=codec) 0 world (ZaiBackend zai) [] (Ok request) = Some turn
    /\ Gateway.status turn = 200%N.
Proof.
  assert (Hprepared : prepare_responses_request request = Ok prepared) by (vm_compute; reflexivity).
  assert (Hchat : exists model names http, chat_request (UP:=up) (UR:=urls) zai prepared = Ok (model, names, http))
    by (vm_compute; do 3 eexists; reflexivity).
  destruct Hchat as (model & names & http & Hchat).
  assert (Hnames : model = "glm-4.7" /\ names = ToolNames_default) by (revert Hchat; vm_compute; by intros [= <- <- _]).
  destruct Hnames as [-> ->].
  assert (Hall : forallb (fun frame => (blen frame <=? SseValidator.MAX_EVENT_BYTES)%N)
                   (responses_stream (fun s => pretty s) "glm-4.7" "process:7:1" ToolNames_default (heard (raw_body answer))) = true)
    by (vm_compute; reflexivity).
  destruct (zai_turn (UP:=up) (UR:=urls) (IC:=codec) 0 world zai [] request prepared "glm-4.7" ToolNames_default http answer Hprepared Hchat
              eq_refl eq_refl eq_refl) as (turn & _ & _ & _ & _ & _ & Hturn & Hstatus & _).
  - apply List.Forall_forall. intros f Hf. apply N.leb_le. exact (proj1 (forallb_forall _ _) Hall f Hf).
  - exists turn. split; [exact Hturn|exact Hstatus].
Defined.
End Witness.
