(* ===== verification/CodexTurnCorrect.v ===== *)
(** * A turn of stock Muse over Codex, end to end

    Composes the gateway, the Codex transport and its recovery of a stale credential, and
    the validator: from a request of stock Muse to the events it gets. *)

From S2P Require Import Prelude Utf8 Json Errors ZaiRequest Responses Catalog Transport TransportCorrect Net Auth Zai Backend Gateway GatewayCorrect.
From S2P Require SseValidator Recovery RecoveryCorrect.
From stdpp Require Import options.

Section Turn.
  Context {UP : Upstream} {UR : UrlParser} {SJ : SerdeJson} {IC : ItemCodec}.

(** The request of attempt [n], built from the credential stored then. *)
Definition attempt_request (c : CodexWorld) (t : Transport) (extra : HeaderMap) (r : StreamRequest) (n : nat) : res (string * HeaderMap * value) :=
  send_json_once t (stored_at c n) "responses" (sr_body r) extra "text/event-stream" (sr_use_responses_lite r) (sr_routing_hint r).
Definition attempt_outcome (c : CodexWorld) (t : Transport) (extra : HeaderMap) (r : StreamRequest) (n : nat) : res RawResponse :=
  request ← attempt_request c t extra r n; map_err Http (codex_network c n request).
(** The loop of this request. *)
Definition the_loop (c : CodexWorld) (t : Transport) (extra : HeaderMap) (r : StreamRequest) : option (list action * res RawResponse) :=
  execute_with_401_recovery raw_status raw_retry_after (attempt_outcome c t extra r) (refresh_lock c t) (recovery c t).

Lemma codex_responses clock w t hs request prepared r :
  prepare_responses_request request = Ok prepared ->
  prepare_stream t (stored_before (world_codex w)) prepared (upstream_request_headers hs) (world_sequence w) = Ok r ->
  responses clock w (Codex t) hs (Ok request)
  = '(_, outcome) ← the_loop (world_codex w) t (upstream_request_headers hs) r;
    Some match outcome with
         | Ok upstream => proxy_sse_response clock upstream (vget_str "model" prepared)
         | Err FastModeUnavailable => terminal_sse_response []
             (SseValidator.gateway_failure_frame clock (vget_str "model" prepared) "invalid_request" FAST_UNAVAILABLE None)
         | Err _ => terminal_sse_response []
             (SseValidator.gateway_failure_frame clock (vget_str "model" prepared) "invalid_request" PRESTREAM_FAILURE None)
         end.
Proof.
  intros Hp Hs. unfold responses. cbn [extract_json map_err]. rewrite Hp. cbn [stream_responses]. unfold Transport.stream_responses.
  rewrite Hs. unfold the_loop, attempt_outcome, attempt_request. by destruct (execute_with_401_recovery _ _ _ _ _) as [[acts outcome]|].
Qed.

Lemma sent_token t stored p body extra accept lite hint url h b auth :
  send_json_once t stored p body extra accept lite hint = Ok (url, h, b) -> resolve_auth t stored = Ok auth ->
  exists token, get_token auth = Some token.
Proof.
  unfold send_json_once. intros ([url' h'] & Hp & _)%bind_ok Hauth. apply prepare_request_inv in Hp as (auth' & provider & h1 & Ha & _ & _ & Hh & _).
  rewrite Hauth in Ha. injection Ha as <-. unfold attach_auth_headers in Hh. apply bind_ok in Hh as (token & Ht%ok_or_ok & _). eauto.
Qed.

(** One refresh heals a stale credential. *)
Lemma loop_heals c t extra r u0 u1 rest :
  attempt_outcome c t extra r 0 = Ok u0 -> raw_status u0 = UNAUTHORIZED ->
  has_auth_manager t = true -> codex_refresh_lock c = Ok tt -> codex_recovery c = Ok tt :: rest ->
  attempt_outcome c t extra r 1 = Ok u1 -> is_success (raw_status u1) = true ->
  the_loop c t extra r = Some ([Sent 0; Locked; Refreshed; Sent 1], Ok u1).
Proof.
  intros H0 Hu Hm Hl Hr H1 Hok. unfold the_loop, execute_with_401_recovery, recovery, refresh_lock. rewrite Hm, Hl, Hr.
  assert (is_server_error (raw_status u1) = false /\ negb (raw_status u1 =? UNAUTHORIZED)%N = true) as [Hse Hne].
  { unfold is_success, is_server_error, UNAUTHORIZED in *. apply andb_prop in Hok as [_ Hlt%N.ltb_lt].
    split; [apply andb_false_intro1, N.leb_gt; lia|apply negb_true_iff, N.eqb_neq; lia]. }
  unfold attempt_fuel, MAX_PRESTREAM_ATTEMPTS. cbn [default from_option Datatypes.id length fmap list_fmap Nat.add CodexRecovery_next map_err].
  cbn [attempt]. rewrite H0, Hu. cbn [is_server_error]. cbn. rewrite H1, Hse. cbn [andb]. rewrite Hne. done.
Qed.

(** Calls of such transports keep to [Recovery.v]: with no lock they never recover. *)
Lemma transport_guarded c t send refresh :
  RecoveryCorrect.guarded (T:=RawResponse) (C:=CodexAuth)
    {| Recovery.send := send; Recovery.refresh_lock := refresh_lock c t; Recovery.recovery := recovery c t; Recovery.refresh := refresh |}.
Proof. unfold RecoveryCorrect.guarded, refresh_lock, recovery. cbn. destruct (has_auth_manager t); [eauto|done]. Qed.

(** C3: A turn over Codex, end to end. For a request of stock Muse that the gateway and the
    transport accept there is always one answer, of status 200 and with a complete event
    stream. It is that of the last attempt: its request was built from the credential
    stored at that moment, with that credential's token alone, whatever headers stock Muse
    sent, and with the body of every other attempt; a successful answer is passed through
    the validator, any other becomes one sanitized failure, a 401 only when every recovery
    step is spent. No more than the retry and the recovery steps are tried, a refresh only
    under the lock, and none at all with an invocation-only key. Above all, when the stored
    credential is stale and one refresh heals it, stock Muse gets the stream of the second
    attempt and nothing of the first. *)
Theorem codex_turn (clock : N) (w : World) (t : Transport) (hs : HeaderMap) (request prepared : value) (r : StreamRequest)
    (Hprepared : prepare_responses_request request = Ok prepared)
    (Hstream : prepare_stream t (stored_before (world_codex w)) prepared (upstream_request_headers hs) (world_sequence w) = Ok r) :
  let c := world_codex w in
  let extra := upstream_request_headers hs in
  let steps := if has_auth_manager t then length (codex_recovery c) else 0 in
  exists answer acts outcome,
    responses clock w (Codex t) hs (Ok request) = Some answer
    /\ the_loop c t extra r = Some (acts, outcome)
    /\ streams_to_end clock answer
    /\ count is_sent acts <= MAX_PRESTREAM_ATTEMPTS + steps /\ count is_refreshed acts <= steps
    /\ locked_first (refresh_lock c t) false acts = true
    /\ match outcome with
       | Ok upstream =>
           (exists n auth token url headers,
              n = count is_sent acts - 1
              /\ resolve_auth t (stored_at c n) = Ok auth /\ get_token auth = Some token
              /\ attempt_request c t extra r n = Ok (url, headers, sr_body r)
              /\ codex_network c n (url, headers, sr_body r) = Ok upstream
              /\ header_values "authorization" headers = ["Bearer " +:+ token])
           /\ (raw_status upstream = UNAUTHORIZED -> count is_refreshed acts = steps)
           /\ response_body answer
              = Data <$> if is_success (raw_status upstream)
                         then validated_body clock (safe_upstream_media_type (raw_headers upstream)) (raw_body upstream)
                         else [upstream_failure_frame clock (vget_str "model" prepared)
                                 (inspect_upstream_failure (raw_status upstream) (raw_body upstream))]
       | Err _ => exists message, response_body answer
                  = [Data (SseValidator.gateway_failure_frame clock (vget_str "model" prepared) "invalid_request" message None)]
       end
    /\ forall u0 u1 rest,
         attempt_outcome c t extra r 0 = Ok u0 -> raw_status u0 = UNAUTHORIZED ->
         has_auth_manager t = true -> codex_refresh_lock c = Ok tt -> codex_recovery c = Ok tt :: rest ->
         attempt_outcome c t extra r 1 = Ok u1 -> is_success (raw_status u1) = true ->
         acts = [Sent 0; Locked; Refreshed; Sent 1] /\ outcome = Ok u1.
Proof.
  intros c extra steps.
  destruct (execute_promise raw_status raw_retry_after (attempt_outcome c t extra r) (refresh_lock c t) (recovery c t))
    as (acts & outcome & Hloop & [Rn Rs Rt Rr Rp Rl Rx]).
  assert (Hsteps : length (default [] (recovery c t)) = steps).
  { unfold recovery, steps. destruct (has_auth_manager t); [cbn; by rewrite length_fmap|done]. }
  rewrite Hsteps in *. change (the_loop c t extra r = Some (acts, outcome)) in Hloop.
  eexists _, acts, outcome. split; [rewrite (codex_responses _ _ _ _ _ _ _ Hprepared Hstream); fold c extra; rewrite Hloop; reflexivity|].
  split; [exact Hloop|]. split_and!; [| |done|done| |].
  - destruct outcome as [upstream|[]]; (apply proxy_sse_ends || apply terminal_sse_ends).
  - unfold MAX_PRESTREAM_ATTEMPTS in *. lia.
  - destruct outcome as [upstream|e].
    + destruct (Rx upstream eq_refl) as (Hsend & Hspent & _ & Hlt). split_and!; [|done|].
      * unfold attempt_outcome in Hsend. cbn [Nat.add] in Hsend. apply bind_ok in Hsend as ([[url headers] body] & Hreq & Hnet).
        pose proof Hreq as Hheaders. unfold attempt_request in Hheaders. apply sent_headers in Hheaders as (-> & auth & provider & Hauth & _ & _ & Hk).
        destruct (sent_token _ _ _ _ _ _ _ _ _ _ _ _ Hreq Hauth) as [token Htoken].
        assert (Ha : header_values "authorization" headers = (fun token => "Bearer " +:+ token) <$> option_list (get_token auth))
          by exact (Hk "authorization").
        rewrite Htoken in Ha. destruct (codex_network _ _ _) as [u|] eqn:En; [|done]. injection Hnet as ->.
        by exists (count is_sent acts - 1), auth, token, url, headers.
      * unfold proxy_sse_response. by destruct (is_success (raw_status upstream)).
    + destruct e; by eexists.
  - intros u0 u1 rest H0 Hu Hm Hl Hr H1 Hok. pose proof (loop_heals c t extra r u0 u1 rest H0 Hu Hm Hl Hr H1 Hok) as Hheal.
    rewrite Hheal in Hloop. by injection Hloop as <- <-.
Qed.
End Turn.

(** ** A turn with a stale credential *)

Section Witness.
Let up : Upstream := {|
  header_value := str_forallb (in_range 32 126);
  api_provider := fun base auth => Ok {| provider_headers := [("originator", "muse")]; url_for_path := fun path => Ok ("https://host/" +:+ path) |};
  append_pair := fun k v url => url; get_codex_user_agent := "codex"; MUSE_CODEX_USER_AGENT := "muse-codex/1"; process_id := 7 |}.
Let urls : UrlParser := {| Url_parse := fun s => Err "" |}.
Let codec : ItemCodec := {|
  ResponseItem := value; item_from_value := fun v => Ok v; item_to_value := fun v => Ok v;
  is_other := fun _ => false; has_unprefixed_id := fun _ => false; clear_id := fun v => v; sha256 := fun b => take 32 b |}.
Let printer : SerdeJson := {| from_str := fun _ => Ok JNull; to_string := fun _ => "" |}.
Let account (token : string) : CodexAuth := {| is_api_key_auth := false; is_chatgpt_auth := true; get_token := Some token;
                                               get_account_id := None; is_fedramp_account := false |}.
Let t : Transport := {| api_key_override := None; api_key_base_url := None; fast_mode := false;
  model_capabilities := {["gpt" := {| cap_is_visible := true; cap_use_responses_lite := false; cap_tool_mode := None;
                                      cap_input_modalities := []; cap_supported_reasoning_efforts := []; cap_supports_fast_mode := false |}]} |}.
Let answered (status : StatusCode) : RawResponse := {| raw_status := status; raw_headers := []; raw_body := [] |}.
(** The network knows the new token only. *)
Let world : World := {|
  world_codex := {| stored_before := Some (account "old"); stored_at := fun n => Some (account (if n =? 0 then "old" else "new"));
                    codex_network := fun n q => Ok (answered (if bool_decide (header_get "authorization" q.1.2 = Some "Bearer new") then 200 else 401)%N);
                    codex_models := fun _ _ => Err read_timeout_error; codex_refresh_lock := Ok tt; codex_recovery := [Ok tt] |};
  world_zai := fun _ => Err read_timeout_error; world_status_text := fun s => pretty s; world_sequence := 1 |}.
Let input : value := JArray [json_obj [("type", JString "message"); ("role", JString "user");
  ("content", JArray [json_obj [("type", JString "input_text"); ("text", JString "hi")]])]].
Let request : value := json_obj [("model", JString "gpt"); ("input", input)].
Let prepared : value := json_obj [("input", input); ("model", JString "gpt"); ("store", JBool false); ("stream", JBool true)].

Lemma codex_turn_witness :
  exists answer r, responses (UP:=up) (UR:=urls) (SJ:=printer) (IC:=codec) 0 world (Codex t) [("authorization", "Bearer mine")] (Ok request) = Some answer
    /\ the_loop (UP:=up) (world_codex world) t [] r = Some ([Sent 0; Locked; Refreshed; Sent 1], Ok (answered 200))
    /\ streams_to_end (SJ:=printer) 0 answer.
Proof.
  assert (Hprepared : prepare_responses_request request = Ok prepared) by (vm_compute; reflexivity).
  assert (Hstream : exists r, prepare_stream (UP:=up) (SJ:=printer) (IC:=codec) t (stored_before (world_codex world)) prepared
                                (upstream_request_headers [("authorization", "Bearer mine")]) 1 = Ok r) by (eexists; vm_compute; reflexivity).
  destruct Hstream as [r Hstream].
  destruct (codex_turn (UP:=up) (UR:=urls) (SJ:=printer) (IC:=codec) 0 world t [("authorization", "Bearer mine")] request prepared r Hprepared Hstream)
    as (answer & acts & outcome & Hanswer & Hloop & Hends & _ & _ & _ & _ & Hheal).
  exists answer, r. split; [exact Hanswer|].
  assert (H0 : attempt_outcome (UP:=up) (world_codex world) t [] r 0 = Ok (answered 401)) by (revert Hstream; vm_compute; by intros [= <-]).
  assert (H1 : attempt_outcome (UP:=up) (world_codex world) t [] r 1 = Ok (answered 200)) by (revert Hstream; vm_compute; by intros [= <-]).
  destruct (Hheal (answered 401) (answered 200) [] H0 eq_refl eq_refl eq_refl eq_refl H1 eq_refl) as [-> ->].
  split; [exact Hloop|exact Hends].
Defined.
End Witness.
