(* ===== verification/LauncherArgs.v ===== *)
(** * The launcher's command line

    Models the argument handling of [crates/muse-codex/src/lib.rs]: the provider choice,
    the options that belong to the wrapper, and the command line stock Muse receives. An
    [OsString] is its bytes; [to_str] reads it when they are UTF-8. *)

From S2P Require Import Prelude Utf8 LauncherReady.
From stdpp Require Import options.

Abbreviation OsString := string.

(** [OsStr::to_str] *)
Definition to_str (arg : OsString) : option string := if utf8_valid (to_bytes arg) then Some arg else None.

Definition starts_with_os (arg : OsString) (prefix : string) : bool := is_some_and (starts_with prefix) (to_str arg).
Definition is_option_like (arg : OsString) : bool := is_some_and (starts_with "-") (to_str arg).

Definition options_with_values : list string :=
  [ "--provider"; "--base-url"; "--agents"; "--preset"; "--model"; "--reasoning-effort"; "--image"; "--workspace";
    "--worktree-base"; "--worktree-existing"; "--approval-mode"; "--permission-profile"; "--approval-judge";
    "--echo-delay-ms"; "--sandbox-network"; "--prompt-file"; "--context-compaction-strategy";
    "--context-compaction-soft-threshold"; "--context-compaction-hard-threshold"; "--max-model-steps";
    "--max-tool-output-bytes"; "--session-id"; "--out"; "--format" ].
Definition option_takes_value (arg : OsString) : bool := one_of arg options_with_values.

(** ** Provider *)

Definition merge_provider_selection (slot : option PublicProvider) (provider : PublicProvider)
  : result string (option PublicProvider) :=
  reject (is_some_and (fun existing => negb (bool_decide (existing = provider))) slot)
         ("conflicting providers: --provider " +:+ default "" (provider_str <$> slot) +:+ " and --provider "
          +:+ provider_str provider);;
  Ok (Some provider).

Definition parse_public_provider (value : OsString) : result string PublicProvider :=
  if String.eqb value "codex" then Ok PublicCodex
  else if String.eqb value "zai" then Ok PublicZai
  else Err ("unsupported provider '" +:+ to_string_lossy value
            +:+ "'; muse-codex accepts '--provider codex' or '--provider zai'").

Definition NEEDS_PROVIDER : string := "--provider requires the value 'codex' or 'zai'".

(** The loop over the arguments, from [selected] on; the rest it keeps. *)
Fixpoint remove_provider (selected : option PublicProvider) (args : list OsString)
  : result string (option PublicProvider * list OsString) :=
  let keep kept r := '(selected, remaining) ← r; Ok (selected, kept ++ remaining) in
  match args with
  | [] => Ok (selected, [])
  | arg :: rest =>
      if String.eqb arg "--" then Ok (selected, args)
      else if String.eqb arg "--provider" then
        match rest with
        | [] => Err NEEDS_PROVIDER
        | value :: rest' =>
            reject (is_option_like value) NEEDS_PROVIDER;;
            provider ← parse_public_provider value;
            selected ← merge_provider_selection selected provider;
            remove_provider selected rest'
        end
      else
        match to_str arg ≫= strip_prefix "--provider=" with
        | Some value =>
            provider ← parse_public_provider value;
            selected ← merge_provider_selection selected provider;
            remove_provider selected rest
        | None =>
            match rest with
            | value :: rest' =>
                if option_takes_value arg then keep [arg; value] (remove_provider selected rest')
                else keep [arg] (remove_provider selected rest)
            | [] => keep [arg] (remove_provider selected rest)
            end
        end
  end.
Definition validate_and_remove_provider (args : list OsString)
  : result string (option PublicProvider * list OsString) := remove_provider None args.

Definition validate_provider_selection (args : list OsString) : result string unit :=
  _ ← validate_and_remove_provider args; Ok tt.
Definition selected_provider (args : list OsString) : result string PublicProvider :=
  '(provider, _) ← validate_and_remove_provider args; Ok (default PublicCodex provider).
Definition strip_public_provider_args (args : list OsString) : result string (list OsString) :=
  '(_, remaining) ← validate_and_remove_provider args; Ok remaining.

(** ** Subcommands *)

Definition stock_subcommands : list string :=
  [ "config"; "export"; "trace"; "skills"; "sandbox"; "schema"; "session-message"; "init"; "exec"; "serve"; "resume";
    "auth"; "login"; "logout" ].

(** The loop, from [index] on. *)
Fixpoint subcommand_from (index : nat) (args : list OsString) : option nat :=
  match args with
  | [] => None
  | arg :: rest =>
      if String.eqb arg "--" then None
      else if option_takes_value arg then
        match rest with
        | [] => None
        | _ :: rest' => subcommand_from (index + 2) rest'
        end
      else if String.eqb arg "-w" || String.eqb arg "--worktree" then
        match rest with
        | value :: rest' =>
            if one_of value ["off"; "create"; "existing"] then subcommand_from (index + 2) rest'
            else subcommand_from (index + 1) rest
        | [] => None
        end
      else if negb (is_option_like arg) then
        (if is_some_and (fun a => one_of a stock_subcommands) (to_str arg) then Some index else None)
      else subcommand_from (index + 1) rest
  end.
Definition stock_subcommand_index (args : list OsString) : option nat := subcommand_from 0 args.
Definition subcommand (args : list OsString) : option OsString := stock_subcommand_index args ≫= fun i => args !! i.

(** ** Options of the wrapper *)

(** The flag [name] taken out of the options; values and what follows [--] are kept. *)
Fixpoint take_flag (name : string) (args : list OsString) : bool * list OsString :=
  match args with
  | [] => (false, [])
  | arg :: rest =>
      if String.eqb arg "--" then (false, args)
      else if String.eqb arg name then (true, snd (take_flag name rest))
      else match rest with
           | value :: rest' =>
               if option_takes_value arg
               then let '(selected, remaining) := take_flag name rest' in (selected, arg :: value :: remaining)
               else let '(selected, remaining) := take_flag name rest in (selected, arg :: remaining)
           | [] => (false, [arg])
           end
  end.
Definition take_exec_api_key_stdin (args : list OsString) : bool * list OsString :=
  if bool_decide (subcommand args = Some "exec") then take_flag "--api-key-stdin" args else (false, args).
Definition take_fast_mode (args : list OsString) : bool * list OsString := take_flag "--fast" args.

(** Whether an option satisfies [p], values skipped, up to [--]. *)
Fixpoint any_option (p : OsString -> bool) (args : list OsString) : bool :=
  match args with
  | [] => false
  | arg :: rest =>
      if String.eqb arg "--" then false
      else if p arg then true
      else if option_takes_value arg then match rest with [] => false | _ :: rest' => any_option p rest' end
      else any_option p rest
  end.
Definition is_informational_invocation (args : list OsString) : bool :=
  any_option (fun arg => one_of arg ["-h"; "--help"; "-V"; "--version"]) args.
Definition has_option (args : list OsString) (name : string) : bool := any_option (fun arg => String.eqb arg name) args.

Definition is_local_invocation (args : list OsString) : bool :=
  is_some_and (fun s => one_of s ["config"; "export"; "trace"; "skills"; "sandbox"; "schema"; "session-message"; "init"])
              (subcommand args ≫= to_str).

Definition validate_msp_options (args : list OsString) : result string unit :=
  reject (bool_decide (subcommand args = Some "serve") && has_option args "--no-session-log")
    "Muse 1.0.3 cannot deliver MSP turn events with --no-session-log. Run `muse-codex serve` without that flag; sessions stay in the isolated Muse Codex profile.".

Definition reject_unsupported_provider_options (provider : PublicProvider) (fast_mode : bool) : result string unit :=
  reject (fast_mode && bool_decide (provider = PublicZai))
    "--fast requests OpenAI Fast mode, which the Z.ai GLM Coding Plan has no equivalent for; re-run without --fast".

(** ** Routing *)

(** The loop of [rewrite_muse_args] that drops the caller's routing. *)
Fixpoint drop_routing (args : list OsString) : list OsString :=
  match args with
  | [] => []
  | arg :: rest =>
      if String.eqb arg "--" then args
      else
        let dropped := starts_with_os arg "--provider=" || starts_with_os arg "--base-url=" in
        match rest with
        | value :: rest' =>
            if one_of arg ["--provider"; "--base-url"] && negb (is_option_like value) then drop_routing rest'
            else if dropped then drop_routing rest
            else if option_takes_value arg then arg :: value :: drop_routing rest'
            else arg :: drop_routing rest
        | [] => if dropped then [] else [arg]
        end
  end.

Definition routing_flags (base_url : string) : list OsString := ["--provider"; "meta"; "--base-url"; base_url].
Definition rewrite_muse_args (args : list OsString) (base_url : string) : list OsString :=
  let rewritten := drop_routing args in
  match stock_subcommand_index rewritten with
  | Some index =>
      let subcommand := default "" (rewritten !! index) in
      let others := take index rewritten ++ drop (S index) rewritten in
      if one_of subcommand ["exec"; "resume"] then subcommand :: routing_flags base_url ++ others
      else subcommand :: others
  | None => routing_flags base_url ++ rewritten
  end.

(** ** The custom upstream *)

Definition merge_cli_base_url (slot : option OsString) (value : OsString) : result string (option OsString) :=
  match slot with
  | Some existing =>
      reject (negb (String.eqb existing value)) "conflicting --base-url values were provided";; Ok slot
  | None => Ok (Some value)
  end.

Fixpoint cli_base_url (slot : option OsString) (args : list OsString) : result string (option OsString) :=
  match args with
  | [] => Ok slot
  | arg :: rest =>
      if String.eqb arg "--" then Ok slot
      else if String.eqb arg "--base-url" then
        match rest with
        | [] => Err "--base-url requires a value"
        | value :: rest' =>
            reject (is_empty value || is_option_like value) "--base-url requires a non-empty value";;
            slot ← merge_cli_base_url slot value;
            cli_base_url slot rest'
        end
      else
        slot ← match to_str arg ≫= strip_prefix "--base-url=" with
               | Some value =>
                   reject (is_empty value) "--base-url requires a non-empty value";;
                   merge_cli_base_url slot value
               | None => Ok slot
               end;
        if option_takes_value arg then match rest with [] => Ok slot | _ :: rest' => cli_base_url slot rest' end
        else cli_base_url slot rest
  end.
Definition resolve_upstream_base_url (args : list OsString) (environment_value : option OsString)
    (environment_variable : string) : result string (option OsString) :=
  cli_value ← cli_base_url None args;
  let environment_value := opt_filter (fun v => negb (is_empty v)) environment_value in
  match cli_value, environment_value with
  | Some cli, Some environment =>
      reject (negb (String.eqb cli environment))
        ("conflicting upstream base URLs: --base-url and " +:+ environment_variable +:+ " differ");;
      Ok (Some cli)
  | Some cli, None => Ok (Some cli)
  | None, environment => Ok environment
  end.

(** ** The kind of invocation *)

Inductive Invocation : Type :=
  | GatewayAuth (args : list OsString)
  | SelfTest
  | Muse (args : list OsString)
  | Output (text : string) (code : Z).

(** What the [clap] parser built by [classify_auth_invocation] makes of the arguments. *)
Inductive AuthCommandLine : Type :=
  | CommandLogin (device_auth : bool)
  | CommandLogout
  | CommandStatus
  | CommandSet.
Class AuthParser := { parse_auth : list OsString -> AuthCommandLine + string * Z }.

Definition classify_auth_invocation {AP : AuthParser} (args : list OsString) (provider : PublicProvider) : Invocation :=
  match parse_auth args with
  | inr (text, code) => Output text code
  | inl command =>
      let name := match command with
                  | CommandLogin _ => "login" | CommandLogout => "logout" | CommandStatus => "status"
                  | CommandSet => "set-api-key"
                  end in
      let device := match command with CommandLogin true => ["--device-auth"] | _ => [] end in
      GatewayAuth (["auth"; name] ++ device ++ ["--provider"; provider_str provider])
  end.

Definition AUTH_OPTIONS : string :=
  "muse-codex: authentication commands accept --provider codex or --provider zai but no other startup options" +:+ lf.
Definition classify_invocation {AP : AuthParser} (args : list OsString) : result string Invocation :=
  '(provider, without_provider) ← validate_and_remove_provider args;
  let provider := default PublicCodex provider in
  Ok (if bool_decide (without_provider = ["self-test"]) then SelfTest
      else match stock_subcommand_index without_provider with
           | Some index =>
               if is_some_and (fun s => one_of s ["auth"; "login"; "logout"]) (without_provider !! index ≫= to_str)
               then if negb (index =? 0) then Output AUTH_OPTIONS 2
                    else classify_auth_invocation without_provider provider
               else Muse args
           | None => Muse args
           end).
