(* ===== verification/LauncherArgsCorrect.v ===== *)
(** * The command line stock Muse receives

    Arguments are read as units (an option with its value, or one argument) up to the
    first [--], after which everything is opaque. The loops of the launcher are filters on
    units, so what they drop, keep and add can be said exactly. *)

From S2P Require Import Prelude Utf8 LauncherReady LauncherArgs.
From stdpp Require Import options.

(** ** Units *)

Abbreviation unit_of := (OsString * option OsString)%type.
Fixpoint units (args : list OsString) : list unit_of :=
  match args with
  | [] => []
  | arg :: rest =>
      if String.eqb arg "--" then []
      else match rest with
           | value :: rest' =>
               if option_takes_value arg then (arg, Some value) :: units rest' else (arg, None) :: units rest
           | [] => [(arg, None)]
           end
  end.
(** What follows the options: [--] and everything after it. *)
Fixpoint opaque (args : list OsString) : list OsString :=
  match args with
  | [] => []
  | arg :: rest =>
      if String.eqb arg "--" then args
      else match rest with
           | value :: rest' => if option_takes_value arg then opaque rest' else opaque rest
           | [] => []
           end
  end.
Definition words (u : unit_of) : list OsString := fst u :: match snd u with Some v => [v] | None => [] end.

Definition takes (arg : OsString) : Prop := option_takes_value arg = true.
Lemma takes_not_dashes arg : option_takes_value arg = true -> arg <> "--".
Proof. by intros H ->. Qed.

(** The loops all walk the arguments this way. *)
Lemma args_ind (P : list OsString -> Prop) :
  P [] ->
  (forall rest, P ("--" :: rest)) ->
  (forall arg value rest, arg <> "--" -> option_takes_value arg = true -> P rest -> P (arg :: value :: rest)) ->
  (forall arg rest, arg <> "--" -> (option_takes_value arg = true -> rest = []) -> P rest -> P (arg :: rest)) ->
  forall args, P args.
Proof.
  intros Hnil Hdash Hpair Hone args. induction args as [args IH] using (induction_ltof1 _ length); unfold ltof in IH.
  destruct args as [|arg rest]; [done|]. destruct (decide (arg = "--")) as [->|Hne]; [apply Hdash|].
  destruct (option_takes_value arg) eqn:Et.
  - destruct rest as [|value rest]; [apply Hone; [done|done|apply Hnil]|]. apply Hpair; [done..|]. apply IH. cbn. lia.
  - apply Hone; [done|congruence|]. apply IH. cbn. lia.
Qed.

Lemma eqb_dashes arg : arg <> "--" -> String.eqb arg "--" = false.
Proof. apply String.eqb_neq. Qed.

Lemma units_pair arg value rest :
  arg <> "--" -> option_takes_value arg = true -> units (arg :: value :: rest) = (arg, Some value) :: units rest.
Proof. intros Hne Ht. cbn [units]. by rewrite (eqb_dashes _ Hne), Ht. Qed.
Lemma units_one arg rest :
  arg <> "--" -> (option_takes_value arg = true -> rest = []) -> units (arg :: rest) = (arg, None) :: units rest.
Proof.
  intros Hne Ht. cbn [units]. rewrite (eqb_dashes _ Hne). destruct rest as [|value rest]; [done|].
  destruct (option_takes_value arg) eqn:E; [by specialize (Ht eq_refl)|done].
Qed.
Lemma opaque_pair arg value rest :
  arg <> "--" -> option_takes_value arg = true -> opaque (arg :: value :: rest) = opaque rest.
Proof. intros Hne Ht. cbn [opaque]. by rewrite (eqb_dashes _ Hne), Ht. Qed.
Lemma opaque_one arg rest :
  arg <> "--" -> (option_takes_value arg = true -> rest = []) -> opaque (arg :: rest) = opaque rest.
Proof.
  intros Hne Ht. cbn [opaque]. rewrite (eqb_dashes _ Hne). destruct rest as [|value rest]; [done|].
  destruct (option_takes_value arg) eqn:E; [by specialize (Ht eq_refl)|done].
Qed.

(** Units and the opaque rest hold every argument, in order. *)
Lemma units_words args : flat_map words (units args) ++ opaque args = args.
Proof.
  induction args as [|rest|arg value rest Hne Ht IH|arg rest Hne Ht IH] using args_ind; [done|done| |].
  - rewrite units_pair, opaque_pair by done. cbn. by rewrite IH.
  - rewrite units_one, opaque_one by done. cbn. by rewrite IH.
Qed.

(** Units that stay units wherever they stand. *)
Definition whole (u : unit_of) : bool :=
  negb (String.eqb (fst u) "--") && Bool.eqb (option_takes_value (fst u)) (bool_decide (is_Some (snd u))).
Lemma units_of_words us rest :
  forallb whole us = true -> units (flat_map words us ++ rest) = us ++ units rest
                             /\ opaque (flat_map words us ++ rest) = opaque rest.
Proof.
  induction us as [|[arg v] us IH]; [done|]. cbn [forallb]. intros [Hu Hus]%andb_prop.
  destruct (IH Hus) as [IH1 IH2]. unfold whole in Hu. cbn [fst snd] in Hu.
  apply andb_prop in Hu as [Hne%negb_true_iff%String.eqb_neq Ht%Bool.eqb_prop].
  destruct v as [v|]; cbn [flat_map words fst snd app].
  - rewrite units_pair, opaque_pair, IH1, IH2 by done. done.
  - assert (Hno : option_takes_value arg = true -> flat_map words us ++ rest = []) by (rewrite Ht; done).
    rewrite units_one, opaque_one, IH1, IH2 by done. done.
Qed.
(** All units but a last option without its value are whole. *)
Lemma units_whole args : forall pre u post, units args = pre ++ u :: post -> post <> [] \/ whole u = true -> forallb whole (pre ++ [u]) = true.
Proof.
  assert (H : forall us, (exists args, us = units args) ->
            forall pre u post, us = pre ++ u :: post -> post <> [] \/ whole u = true -> forallb whole (pre ++ [u]) = true).
  { intros us [args0 ->]. clear args. induction args0 as [|rest|arg value rest Hne Ht IH|arg rest Hne Ht IH] using args_ind;
      intros pre u post Hus; [by destruct pre|by destruct pre| |].
    - rewrite units_pair in Hus by done. destruct pre as [|x pre].
      + injection Hus as <- <-. intros _. cbn [app forallb]. unfold whole. cbn [fst snd]. rewrite (eqb_dashes _ Hne), Ht. done.
      + injection Hus as <- Hus. intros Hw. cbn [app forallb]. rewrite (IH _ _ _ Hus Hw), andb_true_r.
        unfold whole. cbn [fst snd]. rewrite (eqb_dashes _ Hne), Ht. done.
    - rewrite units_one in Hus by done.
      assert (Hw1 : units rest <> [] -> whole (arg, None) = true).
      { intros Hr. unfold whole. cbn [fst snd]. rewrite (eqb_dashes _ Hne). destruct (option_takes_value arg); [|done].
        by rewrite (Ht eq_refl) in Hr. }
      destruct pre as [|x pre].
      + injection Hus as <- <-. intros Hw. cbn [app forallb]. rewrite andb_true_r. destruct Hw as [Hw|Hw]; [by apply Hw1|done].
      + injection Hus as <- Hus. intros Hw. cbn [app forallb]. rewrite (IH _ _ _ Hus Hw), andb_true_r.
        apply Hw1. rewrite Hus. by destruct pre. }
  eauto.
Qed.

(** ** The loops are filters *)

(** The arguments with some units left out. *)
Definition keep (p : unit_of -> bool) (args : list OsString) : list OsString :=
  flat_map words (List.filter p (units args)) ++ opaque args.

Lemma keep_pair p arg value rest :
  arg <> "--" -> option_takes_value arg = true ->
  keep p (arg :: value :: rest) = (if p (arg, Some value) then [arg; value] else []) ++ keep p rest.
Proof.
  intros Hne Ht. unfold keep. rewrite units_pair, opaque_pair by done. cbn [List.filter]. by destruct (p _).
Qed.
Lemma keep_one p arg rest :
  arg <> "--" -> (option_takes_value arg = true -> rest = []) ->
  keep p (arg :: rest) = (if p (arg, None) then [arg] else []) ++ keep p rest.
Proof.
  intros Hne Ht. unfold keep. rewrite units_one, opaque_one by done. cbn [List.filter]. by destruct (p _).
Qed.
Lemma keep_dashes p rest : keep p ("--" :: rest) = "--" :: rest.
Proof. done. Qed.

(** Units survive a filter. *)
Lemma units_keep p args :
  units (keep p args) = List.filter p (units args) /\ opaque (keep p args) = opaque args.
Proof.
  induction args as [|rest|arg value rest Hne Ht [IH1 IH2]|arg rest Hne Ht [IH1 IH2]] using args_ind; [done|done| |].
  - rewrite keep_pair, units_pair, (opaque_pair arg value rest) by done. cbn [List.filter].
    destruct (p _); [|done]. cbn [app]. rewrite units_pair, opaque_pair by done. by rewrite IH1, IH2.
  - rewrite keep_one, units_one, (opaque_one arg rest) by done. cbn [List.filter].
    destruct (p _); [|done]. cbn [app]. rewrite units_one, opaque_one; [by rewrite IH1, IH2|done| |done|];
      intros Hv; by rewrite (Ht Hv).
Qed.

Lemma keep_idem p args : keep p (keep p args) = keep p args.
Proof.
  unfold keep at 1. destruct (units_keep p args) as [-> ->]. unfold keep. f_equal. f_equal.
  induction (units args) as [|u us IH]; [done|]. cbn [List.filter].
  destruct (p u) eqn:E; [|done]. cbn [List.filter]. rewrite E. by f_equal.
Qed.

(** [take_flag] *)
Lemma take_flag_keep name args :
  name <> "--" -> option_takes_value name = false ->
  take_flag name args
  = (existsb (fun u => String.eqb (fst u) name) (units args), keep (fun u => negb (String.eqb (fst u) name)) args).
Proof.
  intros Hname Hval.
  induction args as [|rest|arg value rest Hne Ht IH|arg rest Hne Ht IH] using args_ind; [done|done| |].
  - rewrite keep_pair, units_pair by done. cbn [take_flag existsb fst]. rewrite (eqb_dashes _ Hne).
    assert (String.eqb arg name = false) as -> by (apply String.eqb_neq; congruence).
    rewrite Ht, IH. done.
  - rewrite keep_one, units_one by done. cbn [take_flag existsb fst]. rewrite (eqb_dashes _ Hne).
    destruct (String.eqb arg name) eqn:En; [by rewrite IH|]. cbn [negb app orb].
    destruct rest as [|value rest]; [done|].
    destruct (option_takes_value arg) eqn:E; [by specialize (Ht eq_refl)|]. by rewrite IH.
Qed.

(** [validate_and_remove_provider] *)

(** The provider a unit names: [None] for other units, [Some None] when it names none. *)
Definition provider_named (u : unit_of) : option (option PublicProvider) :=
  if String.eqb (fst u) "--provider"
  then Some (snd u ≫= fun v => if is_option_like v then None else ok (parse_public_provider v))
  else match to_str (fst u) ≫= strip_prefix "--provider=" with
       | Some v => Some (ok (parse_public_provider v))
       | None => None
       end.
Definition names_provider (u : unit_of) : bool := bool_decide (is_Some (provider_named u)).

Definition agree {A} (s sel : option A) (named : list (option A)) : Prop :=
  Forall (fun n => n = sel /\ is_Some sel) named /\ (is_Some s -> sel = s) /\ (named = [] -> sel = s).

Lemma agree_cons {A} (s sel : option A) p named :
  agree s sel (Some p :: named) <-> (s = None \/ s = Some p) /\ agree (Some p) sel named.
Proof.
  unfold agree. rewrite Forall_cons. split.
  - intros (((Hp & _) & Hn) & Hs & _). subst sel. split.
    + destruct s as [q|]; [|by left]. right. symmetry. by apply Hs.
    + split_and!; done.
  - intros (Hs & Hn & Hp & _). rewrite (Hp ltac:(by eexists)) in *. split_and!; try done.
    destruct Hs as [->| ->]; [by intros [? ?]|done].
Qed.
Lemma merge_ok s p s' : merge_provider_selection s p = Ok s' <-> (s = None \/ s = Some p) /\ s' = Some p.
Proof.
  unfold merge_provider_selection. destruct s as [q|]; cbn [is_some_and].
  - destruct (decide (q = p)) as [->|Hne].
    + rewrite bool_decide_eq_true_2 by done. cbn. split; [intros [= <-]; auto|by intros [_ ->]].
    + rewrite bool_decide_eq_false_2 by done. cbn. split; [done|]. intros [[|[=]] _]; done.
  - cbn. split; [intros [= <-]; auto|by intros [_ ->]].
Qed.

Lemma agree_bad {A} (s sel : option A) named : ~ agree s sel (None :: named).
Proof. intros (H & _). apply Forall_cons in H as [[<- [? ?]] _]. done. Qed.

(** A unit that names a provider, then the rest of the loop. *)
Lemma remove_step v tail kept s sel rest :
  (forall s, remove_provider s tail = Ok (sel, rest) <-> agree s sel (omap provider_named (units tail)) /\ rest = kept) ->
  (provider ← parse_public_provider v; s ← merge_provider_selection s provider; remove_provider s tail) = Ok (sel, rest)
  <-> agree s sel (ok (parse_public_provider v) :: omap provider_named (units tail)) /\ rest = kept.
Proof.
  intros IH. destruct (parse_public_provider v) as [p|]; cbn [mbind result_bind ok].
  - rewrite bind_ok, agree_cons. split.
    + intros (s' & [Hs ->]%merge_ok & H%IH). tauto.
    + intros ((Hs & Ha) & ->). exists (Some p). rewrite merge_ok, IH. done.
  - split; [done|]. by intros [[]%agree_bad _].
Qed.
Lemma keep_step kept r (sel : option PublicProvider) rest :
  ('(selected, remaining) ← r; Ok (selected, kept ++ remaining) : result string (option PublicProvider * list OsString)) = Ok (sel, rest)
  <-> exists rest', r = Ok (sel, rest') /\ rest = kept ++ rest'.
Proof.
  rewrite bind_ok. split.
  - intros ([s' r'] & -> & [= -> <-]). by exists r'.
  - intros (rest' & -> & ->). by eexists (_, _).
Qed.

Lemma agree_nil tail (s sel : option PublicProvider) (rest : list OsString) :
  Ok (s, tail) = Ok (sel, rest) :> result string _ <-> agree s sel [] /\ rest = tail.
Proof.
  unfold agree. split.
  - intros [= <- <-]. repeat split; done.
  - intros ((_ & _ & Hs) & ->). by rewrite Hs.
Qed.
(** Options with a separate value have no [=]. *)
Lemma takes_no_prefix arg p :
  In p ["--provider="; "--base-url="] -> option_takes_value arg = true -> to_str arg ≫= strip_prefix p = None.
Proof.
  intros Hp Harg. unfold option_takes_value in Harg. apply one_of_spec in Harg. cbn in Harg.
  decompose sum Harg; subst; destruct Hp as [<-|[<-|[]]]; vm_compute; reflexivity.
Qed.

Lemma remove_provider_spec args s sel rest :
  remove_provider s args = Ok (sel, rest) <->
  agree s sel (omap provider_named (units args)) /\ rest = keep (fun u => negb (names_provider u)) args.
Proof.
  revert rest s.
  induction args as [|tail|arg value tail Hne Ht IH|arg tail Hne Ht IH] using args_ind; intros rest s.
  - apply agree_nil.
  - apply agree_nil.
  - rewrite units_pair, keep_pair by done. cbn [remove_provider omap list_omap]. rewrite (eqb_dashes _ Hne), Ht.
    assert (Hn : provider_named (arg, Some value)
                 = if String.eqb arg "--provider"
                   then Some (if is_option_like value then None else ok (parse_public_provider value)) else None).
    { unfold provider_named. cbn [fst snd]. rewrite takes_no_prefix by (done || by left). done. }
    unfold names_provider at 1. rewrite Hn. destruct (String.eqb_spec arg "--provider") as [->|Hp].
    + destruct (is_option_like value); cbn [reject mbind result_bind].
      * split; [done|]. by intros [[]%agree_bad _].
      * apply remove_step. intros s'. apply IH.
    + rewrite takes_no_prefix, keep_step by (done || by left). split.
      * intros (rest' & [Ha ->]%IH & ->). by split.
      * intros [Ha ->]. exists (keep (fun u => negb (names_provider u)) tail). split; [by apply IH|done].
  - rewrite units_one, keep_one by done. cbn [remove_provider omap list_omap]. rewrite (eqb_dashes _ Hne).
    destruct (String.eqb_spec arg "--provider") as [->|Hp].
    { rewrite (Ht eq_refl) in *. split; [done|]. by intros [[]%agree_bad _]. }
    assert (Hn : provider_named (arg, None) = (fun v => ok (parse_public_provider v)) <$> (to_str arg ≫= strip_prefix "--provider=")).
    { unfold provider_named. cbn [fst snd]. apply String.eqb_neq in Hp as ->. by destruct (to_str arg ≫= _). }
    unfold names_provider at 1. rewrite Hn. destruct (to_str arg ≫= strip_prefix "--provider=") as [v|].
    + apply remove_step. intros s'. apply IH.
    + assert (Hsame : match tail with
                      | [] => '(selected, remaining) ← remove_provider s tail; Ok (selected, [arg] ++ remaining)
                      | value :: rest' =>
                          if option_takes_value arg
                          then '(selected, remaining) ← remove_provider s rest'; Ok (selected, [arg; value] ++ remaining)
                          else '(selected, remaining) ← remove_provider s tail; Ok (selected, [arg] ++ remaining)
                      end = ('(selected, remaining) ← remove_provider s tail; Ok (selected, [arg] ++ remaining) : result string _)).
      { destruct tail as [|value tail]; [done|]. destruct (option_takes_value arg) eqn:E; [by specialize (Ht eq_refl)|done]. }
      rewrite Hsame, keep_step. split.
      * intros (rest' & [Ha ->]%IH & ->). by split.
      * intros [Ha ->]. exists (keep (fun u => negb (names_provider u)) tail). split; [by apply IH|done].
Qed.

(** [resolve_upstream_base_url] *)

(** The base URL a unit names. *)
Definition base_named (u : unit_of) : option (option OsString) :=
  if String.eqb (fst u) "--base-url"
  then Some (snd u ≫= fun v => if is_empty v || is_option_like v then None else Some v)
  else match to_str (fst u) ≫= strip_prefix "--base-url=" with
       | Some v => Some (if is_empty v then None else Some v)
       | None => None
       end.

Lemma merge_base_ok s v s' : merge_cli_base_url s v = Ok s' <-> (s = None \/ s = Some v) /\ s' = Some v.
Proof.
  unfold merge_cli_base_url. destruct s as [q|]; [|split; [intros [= <-]; auto|by intros [_ ->]]].
  destruct (String.eqb_spec q v) as [->|Hne]; cbn; [split; [intros [= <-]; auto|by intros [_ ->]]|].
  split; [done|]. intros [[|[=]] _]; done.
Qed.
Lemma base_step bad v tail s r :
  (forall s, cli_base_url s tail = Ok r <-> agree s r (omap base_named (units tail))) ->
  (reject bad "--base-url requires a non-empty value";; s ← merge_cli_base_url s v; cli_base_url s tail) = Ok r
  <-> agree s r ((if bad then None else Some v) :: omap base_named (units tail)).
Proof.
  intros IH. destruct bad; cbn [reject mbind result_bind].
  - split; [done|]. by intros []%agree_bad.
  - rewrite bind_ok, agree_cons. split.
    + intros (s' & [Hs ->]%merge_base_ok & H%IH). tauto.
    + intros (Hs & Ha). exists (Some v). rewrite merge_base_ok, IH. done.
Qed.

Lemma cli_base_url_spec args s r : cli_base_url s args = Ok r <-> agree s r (omap base_named (units args)).
Proof.
  assert (Hnil : forall s, Ok s = Ok r :> result string _ <-> agree s r []).
  { intros s0. unfold agree. split; [intros [= <-]; by repeat split|]. intros (_ & _ & H). by rewrite H. }
  revert s.
  induction args as [|tail|arg value tail Hne Ht IH|arg tail Hne Ht IH] using args_ind; intros s; [apply Hnil..| |].
  - rewrite units_pair by done. cbn [cli_base_url omap list_omap]. rewrite (eqb_dashes _ Hne), Ht.
    rewrite takes_no_prefix by (done || by right; left).
    assert (Hn : base_named (arg, Some value)
                 = if String.eqb arg "--base-url" then Some (if is_empty value || is_option_like value then None else Some value) else None).
    { unfold base_named. cbn [fst snd]. by rewrite takes_no_prefix by (done || by right; left). }
    rewrite Hn. destruct (String.eqb_spec arg "--base-url") as [->|Hb]; [by apply base_step|apply IH].
  - rewrite units_one by done. cbn [cli_base_url omap list_omap]. rewrite (eqb_dashes _ Hne).
    destruct (String.eqb_spec arg "--base-url") as [->|Hb].
    { rewrite (Ht eq_refl) in *. split; [done|]. by intros []%agree_bad. }
    assert (Hn : base_named (arg, None)
                 = (fun v => if is_empty v then None else Some v) <$> (to_str arg ≫= strip_prefix "--base-url=")).
    { unfold base_named. cbn [fst snd]. apply String.eqb_neq in Hb as ->. by destruct (to_str arg ≫= _). }
    assert (Htail : forall s0, (if option_takes_value arg then match tail with [] => Ok s0 | _ :: rest' => cli_base_url s0 rest' end
                            else cli_base_url s0 tail) = cli_base_url s0 tail).
    { intros s0. destruct (option_takes_value arg) eqn:E; [|done]. by rewrite (Ht eq_refl). }
    rewrite Hn. destruct (to_str arg ≫= strip_prefix "--base-url=") as [v|]; cbn [fmap option_fmap option_map].
    + rewrite <- (base_step (is_empty v) v tail s r IH). destruct (reject (is_empty v) _) as [[]|]; cbn [mbind result_bind]; [|done].
      destruct (merge_cli_base_url s v) as [s1|]; cbn [mbind result_bind]; [|done]. by rewrite Htail.
    + cbn [mbind result_bind]. rewrite Htail. apply IH.
Qed.

(** [drop_routing] *)

Definition routing (u : unit_of) : bool :=
  one_of (fst u) ["--provider"; "--base-url"] || starts_with_os (fst u) "--provider=" || starts_with_os (fst u) "--base-url=".
Definition valued (u : unit_of) : bool :=
  negb (one_of (fst u) ["--provider"; "--base-url"]) || is_some_and (fun v => negb (is_option_like v)) (snd u).

Lemma starts_with_os_spec arg p : starts_with_os arg p = bool_decide (is_Some (to_str arg ≫= strip_prefix p)).
Proof. unfold starts_with_os, starts_with. by destruct (to_str arg). Qed.
Lemma takes_routing arg v :
  option_takes_value arg = true -> routing (arg, v) = one_of arg ["--provider"; "--base-url"].
Proof.
  intros Ht. unfold routing. cbn [fst]. rewrite !starts_with_os_spec, !takes_no_prefix by (done || cbn; auto).
  cbn. by rewrite !orb_false_r.
Qed.

Lemma drop_routing_keep args :
  forallb valued (units args) = true -> drop_routing args = keep (fun u => negb (routing u)) args.
Proof.
  induction args as [|tail|arg value tail Hne Ht IH|arg tail Hne Ht IH] using args_ind; [done|done| |].
  - rewrite units_pair, keep_pair by done. cbn [forallb drop_routing]. intros [Hv Hall]%andb_prop. specialize (IH Hall).
    rewrite (eqb_dashes _ Hne), Ht, takes_routing by done. unfold valued in Hv. cbn [fst snd is_some_and] in Hv.
    rewrite !starts_with_os_spec, !takes_no_prefix by (done || cbn; auto). cbn [bool_decide orb is_Some_dec].
    destruct (one_of arg _) eqn:Er; cbn [negb orb andb] in *; [rewrite Hv; exact IH|].
    by rewrite IH.
  - rewrite units_one, keep_one by done. cbn [forallb drop_routing]. intros [Hv Hall]%andb_prop. specialize (IH Hall).
    rewrite (eqb_dashes _ Hne). unfold valued in Hv. cbn [fst snd is_some_and] in Hv. rewrite orb_false_r in Hv.
    apply negb_true_iff in Hv. unfold routing. cbn [fst]. rewrite Hv. cbn [orb].
    destruct tail as [|value tail]; [by destruct (_ || _)|]. cbn [andb].
    destruct (option_takes_value arg) eqn:E; [by specialize (Ht eq_refl)|].
    rewrite IH. by destruct (_ || _).
Qed.

(** ** Subcommands *)

Lemma subcommand_from_spec args k i :
  subcommand_from k args = Some i ->
  exists us s post, args = flat_map words us ++ s :: post /\ i = k + length (flat_map words us)
    /\ forallb whole us = true /\ s <> "--" /\ option_takes_value s = false /\ one_of s stock_subcommands = true.
Proof.
  revert k. induction args as [args IH] using (induction_ltof1 _ length); unfold ltof in IH. intros k.
  destruct args as [|arg rest]; [done|]. cbn [subcommand_from].
  destruct (String.eqb_spec arg "--") as [->|Hne]; [done|].
  assert (Hmore : forall u rest', arg :: rest = words u ++ rest' -> whole u = true ->
    subcommand_from (k + length (words u)) rest' = Some i ->
    exists us s post, arg :: rest = flat_map words us ++ s :: post /\ i = k + length (flat_map words us)
    /\ forallb whole us = true /\ s <> "--" /\ option_takes_value s = false /\ one_of s stock_subcommands = true).
  { intros u rest' Hargs Hu Hsub. destruct (IH rest') with (k := k + length (words u)) as (us & s & post & -> & -> & Hus & Hs); [|done|].
    - apply (f_equal length) in Hargs. rewrite length_app in Hargs. unfold words in Hargs. cbn in *. lia.
    - exists (u :: us), s, post. cbn [flat_map forallb]. rewrite Hargs, <- app_assoc, length_app, Hu, Hus. split_and!; try done; try lia; apply Hs. }
  destruct (option_takes_value arg) eqn:Et.
  { destruct rest as [|value rest]; [done|]. intros H. apply (Hmore (arg, Some value) rest); [done| |exact H].
    unfold whole. cbn [fst snd]. by rewrite (eqb_dashes _ Hne), Et. }
  assert (Hone : whole (arg, None) = true) by (unfold whole; cbn [fst snd]; by rewrite (eqb_dashes _ Hne), Et).
  destruct (String.eqb arg "-w" || String.eqb arg "--worktree") eqn:Ew.
  { destruct rest as [|value rest]; [done|]. destruct (one_of value ["off"; "create"; "existing"]) eqn:Ev.
    - intros H. assert (Hv : whole (value, None) = true).
      { apply one_of_spec in Ev. cbn in Ev. decompose sum Ev; subst; try done; vm_compute; reflexivity. }
      destruct (IH rest) with (k := k + 2) as (us & s & post & -> & -> & Hus & Hs); [cbn; lia|done|].
      exists ((arg, None) :: (value, None) :: us), s, post. cbn [flat_map forallb words fst snd app length].
      rewrite Hone, Hv, Hus. split_and!; try done; try lia; apply Hs.
    - by apply (Hmore (arg, None) (value :: rest)). }
  destruct (negb (is_option_like arg)).
  - destruct (to_str arg) as [a|] eqn:Ea; [|done]. cbn [is_some_and].
    assert (a = arg) as -> by (unfold to_str in Ea; destruct (utf8_valid _); congruence).
    destruct (one_of arg stock_subcommands) eqn:Es; [|done]. intros [= <-].
    exists [], arg, rest. cbn. split_and!; try done; lia.
  - by apply (Hmore (arg, None) rest).
Qed.

Lemma subcommand_index_spec args i :
  stock_subcommand_index args = Some i ->
  exists us s post, args = flat_map words us ++ s :: post /\ i = length (flat_map words us)
    /\ forallb whole us = true /\ s <> "--" /\ option_takes_value s = false /\ one_of s stock_subcommands = true
    /\ subcommand args = Some s.
Proof.
  intros H. destruct (subcommand_from_spec _ _ _ H) as (us & s & post & Ha & Hi & Hw & Hs). exists us, s, post.
  cbn [Nat.add] in Hi. split_and!; try done; try apply Hs. unfold subcommand. rewrite H. cbn [mbind option_bind].
  rewrite Ha, Hi. by apply list_lookup_middle.
Qed.

(** ** Properties *)

(** One provider per launch. The provider arguments are accepted exactly when every
    one of them names the same known provider; then that is the provider of the launch
    (the default when there is none), the arguments kept are the others in their order,
    and nothing after [--], and no value of another option, is read as a provider. *)
Theorem provider_selection (args : list OsString) (sel : option PublicProvider) (rest : list OsString) :
  (validate_and_remove_provider args = Ok (sel, rest) <->
   agree None sel (omap provider_named (units args)) /\ rest = keep (fun u => negb (names_provider u)) args)
  /\ (validate_and_remove_provider args = Ok (sel, rest) ->
      units rest = List.filter (fun u => negb (names_provider u)) (units args) /\ opaque rest = opaque args
      /\ validate_and_remove_provider rest = Ok (None, rest)).
Proof.
  split; [apply remove_provider_spec|].
  intros [_ ->]%remove_provider_spec. destruct (units_keep (fun u => negb (names_provider u)) args) as [Hu Ho].
  split; [done|]. split; [done|]. apply remove_provider_spec.
  assert (Hnone : omap provider_named (units (keep (fun u => negb (names_provider u)) args)) = []).
  { rewrite Hu. clear. induction (units args) as [|u us IH]; [done|]. cbn [List.filter]. unfold names_provider at 1.
    destruct (provider_named u) as [n|] eqn:E; [exact IH|]. cbn. rewrite E. exact IH. }
  rewrite Hnone. split; [by repeat split|]. symmetry. apply keep_idem.
Qed.
