(* ===== verification/Launcher.v ===== *)
(** * A launch

    Models the decisions of [run_stock_muse], [run_stock_information] and
    [GatewayProcess::start] in [crates/muse-codex/src/lib.rs]: what follows from the
    command line and the environment, and the command lines and environments of the
    gateway and of stock Muse. A command's environment starts as the launcher's and is
    changed by the calls on the builder, in order. [Session.v] runs them. *)

From S2P Require Import Prelude Utf8 Paths Json Auth LauncherReady LauncherArgs.
From stdpp Require Import options.

Abbreviation Environment := (gmap string OsString).

Definition SECRET_ENVIRONMENT : list string :=
  [ "OPENAI_API_KEY"; "CODEX_API_KEY"; "CODEX_ACCESS_TOKEN"; "CODEX_HOME"; "CODEX_INTERNAL_ORIGINATOR_OVERRIDE";
    "META_API_KEY"; "OPENAI_BASE_URL"; "OPENAI_ORGANIZATION"; "OPENAI_PROJECT"; "TBH_AUTH_BASE_URL";
    "TBH_MINT_BASE_URL"; "MUSE_CUSTOM_HEADERS"; "OTEL_EXPORTER_OTLP_ENDPOINT"; "ZAI_API_KEY"; "Z_AI_API_KEY";
    "ZHIPUAI_API_KEY"; "ZAI_BASE_URL"; "ANTHROPIC_API_KEY"; "ANTHROPIC_AUTH_TOKEN"; "ANTHROPIC_BASE_URL" ].
Definition ULTRA_REASONING_GATE : string := "MUSE_EXPERIMENTAL_ULTRA_REASONING_EFFORT".

Definition scrub_secret_environment (env : Environment) : Environment :=
  <["TBH_DISABLE_TELEMETRY" := "1"]> (foldl (fun env variable => base.delete variable env) env SECRET_ENVIRONMENT).
Definition enable_ultra_reasoning (env : Environment) : Environment := <[ULTRA_REASONING_GATE := "1"]> env.

(** ** Decisions *)

Record LaunchPlan := {
  plan_provider : PublicProvider;
  plan_fast : bool;
  plan_key_on_stdin : bool;
  plan_upstream : option OsString;
  plan_arguments : list OsString
}.
Definition base_url_variable (p : PublicProvider) : string :=
  match p with PublicCodex => "OPENAI_BASE_URL" | PublicZai => "ZAI_BASE_URL" end.
Definition api_key_variable (p : PublicProvider) : string :=
  match p with PublicCodex => "OPENAI_API_KEY" | PublicZai => "ZAI_API_KEY" end.

(** [run_stock_muse] up to the key. *)
Definition plan_launch (arguments : list OsString) (env : Environment) : result string LaunchPlan :=
  validate_msp_options arguments;;
  provider ← selected_provider arguments;
  let '(api_key_stdin, arguments) := take_exec_api_key_stdin arguments in
  let '(fast_mode, arguments) := take_fast_mode arguments in
  reject_unsupported_provider_options provider fast_mode;;
  upstream_base_url ← resolve_upstream_base_url arguments (env !! base_url_variable provider) (base_url_variable provider);
  Ok {| plan_provider := provider; plan_fast := fast_mode; plan_key_on_stdin := api_key_stdin;
        plan_upstream := upstream_base_url; plan_arguments := arguments |}.

(** The key of the launch: from standard input or from the provider's variable. *)
Definition plan_key (plan : LaunchPlan) (stdin : result string bytes) (env : Environment) : result string (option bytes) :=
  if plan_key_on_stdin plan then Some <$> SecretInput_from_reader stdin
  else SecretInput_from_environment (to_bytes <$> (env !! api_key_variable (plan_provider plan))).

(** ** The gateway *)

Record Child := { child_args : list OsString; child_env : Environment; child_stdin : option bytes }.

(** [GatewayProcess::start]: [None] for a null standard input. *)
Definition gateway_command (plan : LaunchPlan) (ready_file : OsString) (pid : N) (api_key : option bytes) (env : Environment)
  : Child :=
  {| child_args :=
       ["serve"; "--bind"; "127.0.0.1:0"; "--ready-file"; ready_file; "--parent-pid"; pretty pid;
        "--provider"; provider_str (plan_provider plan)]
       ++ match plan_upstream plan with Some url => ["--upstream-base-url"; url] | None => [] end
       ++ (if plan_fast plan then ["--fast"] else [])
       ++ match api_key with Some _ => ["--api-key-stdin"] | None => [] end;
     child_env := scrub_secret_environment env;
     child_stdin := gateway_stdin <$> api_key |}.

(** ** Stock Muse *)

Record StockDirectories := { app_home : path; config_home : path; data_home : path }.
Definition auth_path (directories : StockDirectories) : path :=
  path_join (path_join (config_home directories) "muse") "auth.json".

Definition profile_environment (directories : StockDirectories) (env : Environment) : Environment :=
  <["MUSE_AUTH_PATH" := auth_path directories]> (<["XDG_DATA_HOME" := data_home directories]>
    (<["XDG_CONFIG_HOME" := config_home directories]> (<["MUSE_NO_AUTO_UPDATE" := "1"]> env))).

(** [run_stock_muse] once the gateway is ready; standard input is inherited. *)
Definition muse_command (plan : LaunchPlan) (directories : StockDirectories) (ready : GatewayReady) (env : Environment)
  : list OsString * Environment :=
  (rewrite_muse_args (plan_arguments plan) (base_url ready),
   <["META_API_KEY" := token ready]> (enable_ultra_reasoning (scrub_secret_environment
     (<["META_API_KEY" := token ready]> (profile_environment directories env))))).

(** The MSP relay is started for [serve]. *)
Definition is_msp (arguments : list OsString) : bool := bool_decide (head arguments = Some "serve").

(** [run_stock_information] *)
Definition information_command (arguments : list OsString) (directories : StockDirectories) (env : Environment)
  : list OsString * Environment :=
  let arguments := snd (take_fast_mode arguments) in
  let arguments := match stock_subcommand_index arguments with
                   | Some index => default "" (arguments !! index) :: take index arguments ++ drop (S index) arguments
                   | None => arguments
                   end in
  (arguments, scrub_secret_environment (profile_environment directories env)).
