(* ===== verification/LauncherCorrect.v ===== *)
(** * A launch routes once and leaks nothing

    Properties of [Launcher.v]: the command line of stock Muse carries the launcher's
    routing and the user's other arguments, exactly; the children see no inherited
    credential. *)

From S2P Require Import Prelude Utf8 Json Auth LauncherReady LauncherArgs LauncherArgsCorrect Launcher.
From stdpp Require Import options.

(** ** The plan *)

(** The units of the command line that belong to the wrapper. *)
Definition wrapper_flag (exec : bool) (u : unit_of) : bool :=
  String.eqb (fst u) "--fast" || (exec && String.eqb (fst u) "--api-key-stdin").

Lemma filter_filter {A} (p q : A -> bool) l :
  List.filter p (List.filter q l) = List.filter (fun a => q a && p a) l.
Proof.
  induction l as [|a l IH]; [done|]. cbn [List.filter]. destruct (q a); cbn [List.filter andb]; [|done].
  by rewrite IH.
Qed.
Lemma keep_keep p q args : keep p (keep q args) = keep (fun u => q u && p u) args.
Proof.
  unfold keep at 1. destruct (units_keep q args) as [-> ->]. unfold keep. by rewrite filter_filter.
Qed.
Lemma keep_ext p q args : (forall u, In u (units args) -> p u = q u) -> keep p args = keep q args.
Proof. intros H. unfold keep. by rewrite (List.filter_ext_in p q). Qed.
Lemma keep_all args : keep (fun _ => true) args = args.
Proof.
  unfold keep. rewrite <- (units_words args) at 3. f_equal. f_equal.
  by induction (units args) as [|u us IH]; [|cbn; rewrite IH].
Qed.

Definition is_exec (args : list OsString) : bool := bool_decide (subcommand args = Some "exec").

Lemma plan_arguments_keep args env plan :
  plan_launch args env = Ok plan ->
  plan_arguments plan = keep (fun u => negb (wrapper_flag (is_exec args) u)) args
  /\ selected_provider args = Ok (plan_provider plan)
  /\ plan_fast plan = existsb (fun u => String.eqb (fst u) "--fast") (units args)
  /\ plan_key_on_stdin plan = is_exec args && existsb (fun u => String.eqb (fst u) "--api-key-stdin") (units args)
  /\ resolve_upstream_base_url (plan_arguments plan) (env !! base_url_variable (plan_provider plan))
       (base_url_variable (plan_provider plan)) = Ok (plan_upstream plan)
  /\ (plan_fast plan = true -> plan_provider plan = PublicCodex).
Proof.
  unfold plan_launch. intros ([] & _ & (p & Hp & H)%bind_ok)%bind_ok.
  assert (Htake : take_exec_api_key_stdin args
    = (is_exec args && existsb (fun u => String.eqb (fst u) "--api-key-stdin") (units args),
       keep (fun u => negb (is_exec args && String.eqb (fst u) "--api-key-stdin")) args)).
  { unfold take_exec_api_key_stdin, is_exec. destruct (bool_decide _); cbn [andb].
    - by apply take_flag_keep.
    - by rewrite keep_all. }
  rewrite Htake in H. unfold take_fast_mode in H. rewrite take_flag_keep, keep_keep in H by done.
  destruct (units_keep (fun u => negb (is_exec args && String.eqb (fst u) "--api-key-stdin")) args) as [Hu _].
  rewrite Hu in H. apply bind_ok in H as ([] & Hfast%reject_ok & H). apply bind_ok in H as (url & Hurl & [= <-]).
  cbn [plan_arguments plan_provider plan_fast plan_key_on_stdin plan_upstream].
  assert (Hex : existsb (fun u => String.eqb (fst u) "--fast")
                  (List.filter (fun u => negb (is_exec args && String.eqb (fst u) "--api-key-stdin")) (units args))
                = existsb (fun u => String.eqb (fst u) "--fast") (units args)).
  { clear. induction (units args) as [|u us IH]; [done|]. cbn [List.filter existsb].
    destruct (is_exec args && String.eqb (fst u) "--api-key-stdin") eqn:E; cbn [negb existsb]; rewrite IH; [|done].
    apply andb_prop in E as [_ ->%String.eqb_eq]. done. }
  split_and!.
  - apply keep_ext. intros u _. unfold wrapper_flag. rewrite <- negb_orb. by rewrite orb_comm.
  - done.
  - exact Hex.
  - done.
  - exact Hurl.
  - intros Hf. rewrite Hf in Hfast. cbn in Hfast. apply bool_decide_eq_false in Hfast. by destruct p.
Qed.

(** ** Routing *)

Lemma agree_named {A} (s sel : option A) named : agree s sel named -> Forall is_Some named.
Proof. intros (H & _). eapply Forall_impl; [exact H|]. by intros n [-> ?]. Qed.
Lemma in_omap {A B} (f : A -> option B) l a b : In a l -> f a = Some b -> In b (omap f l).
Proof.
  intros Ha Hf. apply list_elem_of_In. apply list_elem_of_omap. exists a. by rewrite list_elem_of_In.
Qed.

Lemma plan_valued args env plan :
  plan_launch args env = Ok plan -> forallb valued (units (plan_arguments plan)) = true.
Proof.
  intros Hplan. destruct (plan_arguments_keep _ _ _ Hplan) as (Hargs & Hprov & _ & _ & Hurl & _).
  unfold selected_provider in Hprov. apply bind_ok in Hprov as ([sel rest] & Hv & _).
  apply remove_provider_spec in Hv as [Hprov _]. apply agree_named in Hprov. rewrite List.Forall_forall in Hprov.
  unfold resolve_upstream_base_url in Hurl. apply bind_ok in Hurl as (cli & Hcli & _).
  apply cli_base_url_spec, agree_named in Hcli. rewrite List.Forall_forall in Hcli.
  apply forallb_forall. intros [arg v] Hu. unfold valued. cbn [fst snd].
  destruct (one_of arg ["--provider"; "--base-url"]) eqn:E; [|done]. apply one_of_spec in E. cbn in E. cbn [negb orb].
  destruct E as [<-|[<-|[]]].
  - assert (Hin : In ("--provider", v) (units args)).
    { rewrite Hargs in Hu. destruct (units_keep (fun u => negb (wrapper_flag (is_exec args) u)) args) as [Heq _].
      rewrite Heq in Hu. by apply filter_In in Hu as [? _]. }
    destruct (Hprov _ (in_omap provider_named _ _ _ Hin eq_refl)) as [p Hp]. cbn in Hp.
    destruct v as [v|]; [|done]. cbn in *. by destruct (is_option_like v).
  - destruct (Hcli _ (in_omap base_named _ _ _ Hu eq_refl)) as [p Hp]. cbn in Hp.
    destruct v as [v|]; [|done]. cbn in *. destruct (is_option_like v); [|done]. by rewrite orb_true_r in Hp.
Qed.

Definition routing_units (url : string) : list unit_of := [("--provider", Some "meta"); ("--base-url", Some url)].
Lemma routing_flags_units url rest :
  units (routing_flags url ++ rest) = routing_units url ++ units rest /\ opaque (routing_flags url ++ rest) = opaque rest.
Proof. apply (units_of_words (routing_units url) rest). reflexivity. Qed.

(** C8: Stock Muse is routed once, through the gateway. In the command line built for it,
    the provider and the base URL are the launcher's, exactly one of each before every
    other option (none for [serve] and the other subcommands that take none); every
    routing argument of the user and every option of the wrapper is gone, every other
    one is there in its order, but for the subcommand, which comes first; and whatever
    followed [--] is untouched. *)
Theorem launch_routes_once (args : list OsString) (env : Environment) (plan : LaunchPlan) (url : string)
    (Hplan : plan_launch args env = Ok plan) :
  let rewritten := rewrite_muse_args (plan_arguments plan) url in
  let users := List.filter (fun u => negb (wrapper_flag (is_exec args) u) && negb (routing u)) (units args) in
  opaque rewritten = opaque args /\
  match subcommand (drop_routing (plan_arguments plan)) with
  | None => units rewritten = routing_units url ++ users
  | Some s =>
      exists pre post, users = pre ++ (s, None) :: post /\ head rewritten = Some s /\
        units rewritten = (s, None) :: (if one_of s ["exec"; "resume"] then routing_units url else []) ++ pre ++ post
  end.
Proof.
  intros rewritten users. unfold rewritten, rewrite_muse_args.
  rewrite drop_routing_keep by (by eapply plan_valued).
  destruct (plan_arguments_keep _ _ _ Hplan) as (-> & _). rewrite keep_keep.
  destruct (units_keep (fun u => negb (wrapper_flag (is_exec args) u) && negb (routing u)) args) as [Hu Ho].
  fold users in Hu. set (kept := keep _ args) in *.
  destruct (stock_subcommand_index kept) as [i|] eqn:Ei.
  - destruct (subcommand_index_spec _ _ Ei) as (us & s & post & Hkept & -> & Hw & Hs & Ht & _ & ->).
    assert (Hone : forall rest, units (s :: rest) = (s, None) :: units rest /\ opaque (s :: rest) = opaque rest).
    { intros rest. split; [apply units_one|apply opaque_one]; (done || congruence). }
    rewrite Hkept in Hu, Ho |- *. rewrite list_lookup_middle by done. cbn [default from_option Datatypes.id].
    rewrite take_app_length, <- Nat.add_1_r, <- drop_drop, drop_app_length. change (drop 1 (s :: post)) with post.
    destruct (units_of_words us (s :: post) Hw) as [Hu1 Ho1], (units_of_words us post Hw) as [Hu2 Ho2].
    rewrite (proj1 (Hone post)) in Hu1. rewrite (proj2 (Hone post)) in Ho1.
    rewrite Hu1 in Hu. rewrite Ho1 in Ho.
    destruct (one_of s ["exec"; "resume"]).
    + split.
      * rewrite (proj2 (Hone _)), (proj2 (routing_flags_units _ _)), Ho2. exact Ho.
      * exists us, (units post). split; [by rewrite <- Hu|]. split; [done|].
        by rewrite (proj1 (Hone _)), (proj1 (routing_flags_units _ _)), Hu2.
    + split; [rewrite (proj2 (Hone _)), Ho2; exact Ho|].
      exists us, (units post). split; [by rewrite <- Hu|]. split; [done|]. by rewrite (proj1 (Hone _)), Hu2.
  - unfold subcommand. rewrite Ei. cbn [mbind option_bind].
    rewrite (proj1 (routing_flags_units _ _)), (proj2 (routing_flags_units _ _)), Hu. by split.
Qed.

(** ** Environments *)

Lemma scrub_lookup k env :
  scrub_secret_environment env !! k
  = if String.eqb k "TBH_DISABLE_TELEMETRY" then Some "1"
    else if one_of k SECRET_ENVIRONMENT then None else env !! k.
Proof.
  unfold scrub_secret_environment. destruct (String.eqb_spec k "TBH_DISABLE_TELEMETRY") as [->|Hne]; [by rewrite lookup_insert_eq|].
  rewrite lookup_insert_ne by done. generalize SECRET_ENVIRONMENT as l. intros l. revert env.
  induction l as [|v l IH]; intros env; [done|]. cbn [foldl]. rewrite IH. unfold one_of. cbn [existsb].
  destruct (String.eqb_spec k v) as [->|Hv]; cbn [orb].
  - rewrite lookup_delete_eq. by destruct (existsb _ l).
  - rewrite lookup_delete_ne by done. done.
Qed.

(** A variable that the launcher keeps from its children. *)
Lemma secret_names k : one_of k SECRET_ENVIRONMENT = true -> String.eqb k "TBH_DISABLE_TELEMETRY" = false /\ k <> ULTRA_REASONING_GATE.
Proof. intros Hk%one_of_spec. cbn in Hk. decompose sum Hk; subst; try done; by split. Qed.
Lemma scrub_secret k env : one_of k SECRET_ENVIRONMENT = true -> scrub_secret_environment env !! k = None.
Proof. intros Hk. rewrite scrub_lookup. destruct (secret_names k Hk) as [-> _]. by rewrite Hk. Qed.
Lemma muse_secret plan directories ready env k : one_of k SECRET_ENVIRONMENT = true ->
  snd (muse_command plan directories ready env) !! k = if String.eqb k "META_API_KEY" then Some (token ready) else None.
Proof.
  intros Hk. destruct (secret_names k Hk) as [_ Hne]. unfold muse_command, enable_ultra_reasoning. cbn [snd].
  destruct (String.eqb_spec k "META_API_KEY") as [->|Hm]; [by rewrite lookup_insert_eq|].
  rewrite !lookup_insert_ne by congruence. by apply scrub_secret.
Qed.

(** C24: No inherited credential or endpoint reaches a child. The gateway and stock Muse
    get none of the launcher's secret variables, except that Muse gets the private
    gateway's token in place of its provider key; the user's key travels to the gateway
    on standard input only, the custom base URL only as the gateway's argument; and every
    variable that is not a secret, nor one the launcher sets, is inherited unchanged. *)
Theorem children_environment (plan : LaunchPlan) (ready_file : OsString) (pid : N) (api_key : option bytes)
    (directories : StockDirectories) (ready : GatewayReady) (env : Environment) (k : string) :
  let gateway := gateway_command plan ready_file pid api_key env in
  let '(_, muse) := muse_command plan directories ready env in
  (one_of k SECRET_ENVIRONMENT = true ->
     child_env gateway !! k = None /\ muse !! k = (if String.eqb k "META_API_KEY" then Some (token ready) else None))
  /\ (one_of k ("TBH_DISABLE_TELEMETRY" :: ULTRA_REASONING_GATE :: "MUSE_NO_AUTO_UPDATE" :: "XDG_CONFIG_HOME"
                :: "XDG_DATA_HOME" :: "MUSE_AUTH_PATH" :: SECRET_ENVIRONMENT) = false ->
     child_env gateway !! k = env !! k /\ muse !! k = env !! k)
  /\ child_stdin gateway = gateway_stdin <$> api_key
  /\ child_args gateway
     = (["serve"; "--bind"; "127.0.0.1:0"; "--ready-file"; ready_file; "--parent-pid"; pretty pid;
         "--provider"; provider_str (plan_provider plan)]
        ++ from_option (fun url => ["--upstream-base-url"; url]) [] (plan_upstream plan)
        ++ (if plan_fast plan then ["--fast"] else []) ++ (if bool_decide (is_Some api_key) then ["--api-key-stdin"] else []))
  /\ muse !! "MUSE_AUTH_PATH" = Some (auth_path directories).
Proof.
  cbn [muse_command gateway_command child_env child_stdin child_args]. unfold muse_command, enable_ultra_reasoning.
  assert (Hset : forall k' v (e : Environment), k' <> k -> <[k' := v]> e !! k = e !! k)
    by (intros; by apply lookup_insert_ne).
  split_and!.
  - intros Hk. split; [by apply scrub_secret|]. exact (muse_secret plan directories ready env k Hk).
  - intros Hk. unfold one_of in Hk. cbn [existsb] in Hk.
    do 6 (apply orb_false_elim in Hk as [?%String.eqb_neq Hk]). fold (one_of k SECRET_ENVIRONMENT) in Hk.
    assert (k <> "META_API_KEY") by (by intros ->). unfold profile_environment.
    assert (String.eqb k "TBH_DISABLE_TELEMETRY" = false) as Ht by (by apply String.eqb_neq).
    rewrite !Hset, !scrub_lookup, Ht, Hk by congruence. by rewrite !Hset by congruence.
  - done.
  - by destruct api_key, (plan_upstream plan).
  - rewrite !lookup_insert_ne by done. rewrite scrub_lookup. cbn. rewrite lookup_insert_ne by done.
    unfold profile_environment. by rewrite lookup_insert_eq.
Qed.

(** ** Witness *)

Section Witness.
Let args : list OsString := ["--fast"; "--model"; "m"; "exec"; "--provider=codex"; "hello"; "--"; "--provider"; "x"].
Let plan : LaunchPlan := {|
  plan_provider := PublicCodex; plan_fast := true; plan_key_on_stdin := false; plan_upstream := None;
  plan_arguments := ["--model"; "m"; "exec"; "--provider=codex"; "hello"; "--"; "--provider"; "x"] |}.

Lemma launch_routes_once_witness :
  plan_launch args ∅ = Ok plan
  /\ opaque (rewrite_muse_args (plan_arguments plan) "http://127.0.0.1:1") = ["--"; "--provider"; "x"]
  /\ rewrite_muse_args (plan_arguments plan) "http://127.0.0.1:1"
     = ["exec"; "--provider"; "meta"; "--base-url"; "http://127.0.0.1:1"; "--model"; "m"; "hello"; "--"; "--provider"; "x"].
Proof.
  assert (H : plan_launch args ∅ = Ok plan) by (vm_compute; reflexivity). split; [exact H|].
  destruct (launch_routes_once args ∅ plan "http://127.0.0.1:1" H) as [Ho _].
  split; [exact Ho|vm_compute; reflexivity].
Defined.

Lemma children_environment_witness :
  one_of "OPENAI_API_KEY" SECRET_ENVIRONMENT = true
  /\ child_env (gateway_command plan "ready.json" 7 None {["OPENAI_API_KEY" := "sk"]}) !! "OPENAI_API_KEY" = None.
Proof.
  assert (H : one_of "OPENAI_API_KEY" SECRET_ENVIRONMENT = true) by (vm_compute; reflexivity). split; [exact H|].
  destruct (children_environment plan "ready.json" 7 None {| app_home := ""; config_home := ""; data_home := "" |}
    {| schema_version := 4; provider := ""; base_url := ""; token := ""; default_model := ""; models := [] |}
    {["OPENAI_API_KEY" := "sk"]} "OPENAI_API_KEY") as [Hs _].
  exact (proj1 (Hs H)).
Defined.
End Witness.
