(* ===== verification/Profile.v ===== *)
(** * The isolated profile of stock Muse

    Models the part of [crates/muse-codex/src/lib.rs] that owns directories and files:
    [StockDirectories], the private directory checks, and the two files seeded for stock
    Muse, its settings and its model catalog. Errors are the outermost [anyhow] message.
    The [tempfile] crate chooses the names of temporary files; what it does with them is
    its documented behaviour: exclusive creation with mode 0600, a rename to persist, and
    removal when dropped. *)

From S2P Require Import Prelude Utf8 Paths Posix Json LauncherReady LauncherArgs Launcher AuthHome.
From stdpp Require Import options.

Class TempFiles := { temporary_file_name : Fs -> string }.
(** [serde_json::to_vec_pretty] *)
Class SerdePretty := { to_vec_pretty : value -> bytes }.

(** ** Locations *)

(** The two Unix builds of [default_app_home]. *)
Inductive Platform : Type := MacOs | OtherUnix.
Definition default_app_home (platform : Platform) (env : Environment) : result string path :=
  match platform with
  | MacOs =>
      home ← ok_or (env !! "HOME") "HOME is not set";
      Ok (path_join (path_join (path_join home "Library") "Application Support") "muse-codex")
  | OtherUnix =>
      match env !! "XDG_DATA_HOME" with
      | Some data_home => Ok (path_join data_home "muse-codex")
      | None =>
          home ← ok_or (env !! "HOME") "HOME is not set";
          Ok (path_join (path_join (path_join home ".local") "share") "muse-codex")
      end
  end.
Definition discover_for (platform : Platform) (env : Environment) (provider : PublicProvider) : result string StockDirectories :=
  app_home ← match env !! "MUSE_CODEX_HOME" with
             | Some p => Ok p
             | None => default_app_home platform env
             end;
  let '(config, data) := match provider with
                         | PublicCodex => ("stock-config", "stock-data")
                         | PublicZai => ("stock-config-zai", "stock-data-zai")
                         end in
  Ok {| app_home := app_home; config_home := path_join app_home config; data_home := path_join app_home data |}.

(** ** Private directories *)

Section Directories.
  Context {PR : Process}.

Definition os_error {A} (c : io Errno A) : io string A := io_map_err strerror c.
Definition why {A} (text : string) (c : io Errno A) : io string A := io_map_err (fun _ => text) c.

Definition validate_private_directory (p : path) (metadata : Inode) : result string unit :=
  reject (is_symlink metadata || negb (is_dir metadata)) ("private path " +:+ display p +:+ " is not a regular directory");;
  reject (negb (permissions metadata =? 448)%N)
    ("private directory " +:+ display p +:+ " must already have mode 0700 (found " +:+ octal_mode (permissions metadata) +:+ ")");;
  reject (negb (uid metadata =? geteuid)%N) ("private directory " +:+ display p +:+ " is not owned by the current user").

Definition is_directory (p : path) (fs : Fs) : result Errno bool := '(_, i) ← stat true p fs; Ok (is_dir i).
Definition create_private_dir (p : path) : io string unit :=
  found ← attempt (symlink_metadata p);
  match found with
  | Ok inode => lift (validate_private_directory p inode)
  | Err NotFound =>
      parent ← lift (ok_or (parent p) ("private directory " +:+ display p +:+ " has no parent"));
      d ← holds (is_directory parent);
      _ ← lift (reject (negb d) ("parent directory " +:+ display parent +:+ " must already exist"));
      made ← attempt (call (mkdir p 448));
      match made with
      | Ok _ | Err AlreadyExists => inode ← os_error (symlink_metadata p); lift (validate_private_directory p inode)
      | Err e => lift (Err (strerror e))
      end
  | Err e => lift (Err (strerror e))
  end.

Definition validate_app_home_location (p : path) (env : Environment) : io string unit :=
  _ ← lift (reject (negb (is_absolute p)) "MUSE_CODEX_HOME must be an absolute path");
  _ ← lift (reject (existsb dotted (components p)) "MUSE_CODEX_HOME must not contain `.` or `..` components");
  _ ← lift (reject (negb (bool_decide (file_name p = Some "muse-codex"))) "MUSE_CODEX_HOME must end in `muse-codex`");
  parent ← lift (ok_or (parent p) "MUSE_CODEX_HOME has no parent directory");
  canonical_parent ← why ("MUSE_CODEX_HOME parent " +:+ display parent +:+ " must already exist") (query (canonicalize parent));
  match env !! "HOME" with
  | None => mret tt
  | Some user_home =>
      _ ← lift (reject (path_eq p user_home) "MUSE_CODEX_HOME cannot be the user home directory");
      let stock_codex_home := path_join user_home ".codex" in
      inside ← (if path_starts_with p stock_codex_home then mret true else
                canonical ← attempt (query (canonicalize stock_codex_home));
                mret (path_starts_with canonical_parent (default stock_codex_home (ok canonical))));
      lift (reject inside "MUSE_CODEX_HOME cannot be inside the stock Codex home")
  end.

(** [StockDirectories::create_private] *)
Definition create_private (directories : StockDirectories) (env : Environment) : io string unit :=
  _ ← validate_app_home_location (app_home directories) env;
  _ ← create_private_dir (app_home directories);
  canonical ← why ("failed to canonicalize Muse Codex home " +:+ display (app_home directories))
                (query (canonicalize (app_home directories)));
  parent ← lift (ok_or (parent (app_home directories)) "Muse Codex home has no parent directory");
  canonical_parent ← os_error (query (canonicalize parent));
  _ ← lift (reject (negb (path_eq canonical (path_join canonical_parent "muse-codex")))
              "Muse Codex home changed while it was being validated");
  _ ← create_private_dir (config_home directories);
  create_private_dir (data_home directories).

(** The directories of the catalog need only be owned and writable by nobody else. The
    call after a lost race is the second one; [fuel] bounds such races. *)
Fixpoint ensure_owned_catalog_directory (fuel : nat) (p : path) : io string unit :=
  found ← attempt (symlink_metadata p);
  match found with
  | Ok inode =>
      _ ← lift (reject (is_symlink inode || negb (is_dir inode)) ("model catalog path " +:+ display p +:+ " is not a directory"));
      lift (reject (negb (uid inode =? geteuid)%N || negb (N.land (mode inode) 18 =? 0)%N)
              ("model catalog directory " +:+ display p +:+ " is not privately owned"))
  | Err NotFound =>
      made ← attempt (call (mkdir p 448));
      match made, fuel with
      | Ok _, _ => mret tt
      | Err AlreadyExists, S fuel => ensure_owned_catalog_directory fuel p
      | Err e, _ => lift (Err (strerror e))
      end
  | Err e => lift (Err (strerror e))
  end.

Definition reject_symlink_or_non_file (p : path) : io string unit :=
  inode ← why ("failed to inspect " +:+ display p) (symlink_metadata p);
  lift (reject (is_symlink inode || negb (is_file inode)) ("refusing to use non-regular file " +:+ display p)).

(** [fs::read] *)
Definition read_file (p : path) : io Errno bytes :=
  query (fun fs => i ← open_existing true p fs;
                   inode ← ok_or (inodes fs !! i) NotFound;
                   if is_file inode then Ok (file_content inode) else Err IsADirectory).

(** ** Replacing a file as a whole *)

Context {TF : TempFiles}.

(** [NamedTempFile::new_in] *)
Definition named_temp_file (dir : path) : io Errno (N * path) :=
  name ← query (fun fs => Ok (temporary_file_name fs));
  let p := path_join dir name in
  file ← call (open_new p 384);
  mret (file, p).
Definition protect_file (file : N) : io Errno unit := call (fun fs => Ok (tt, update_inode file (set_mode 384) fs)).
Definition set_file_mode_0600 (p : path) : io Errno unit := call (chmod p 384).

(** The common tail of both seeds. A temporary file that is not persisted is dropped. *)
Definition install (dir p : path) (stage_text install_text : string) (data : bytes) : io string unit :=
  '(file, temporary) ← why stage_text (named_temp_file dir);
  outcome ← attempt (F:=string)
    (_ ← os_error (protect_file file);
     _ ← os_error (write_all file data);
     _ ← os_error (sync_all file);
     why install_text (call (rename temporary p)));
  match outcome with
  | Ok tt => os_error (set_file_mode_0600 p)
  | Err e => _ ← attempt (F:=string) (call (unlink temporary)); lift (Err e)
  end.

(** ** Settings *)

Context {SJ : SerdeJson} {SP : SerdePretty}.

(** [root.entry(k).or_insert_with(..)] *)
Definition entry_or (k : string) (v : value) (m : obj) : obj :=
  if obj_contains_key k m then m else obj_insert k v m.
Definition pin_settings (base_url : string) (root : obj) : obj :=
  let root := obj_insert "schema_version" (jnum 1) root in
  let root := obj_insert "endpoint_transport" (json_obj [("base_url", JString base_url); ("auth", JString "bearer")]) root in
  let root := entry_or "provider_retry" (JObject []) root in
  let root := obj_alter (fun retry =>
                let retry := default [] (as_object retry) in
                JObject (obj_insert "max_retries" (jnum 0) (obj_remove "max_attempts" retry))) "provider_retry" root in
  match obj_get "telemetry" root with
  | Some (JObject telemetry) => obj_insert "telemetry" (JObject (obj_insert "enabled" (JBool false) telemetry)) root
  | _ => obj_insert "telemetry" (json_obj [("enabled", JBool false)]) root
  end.

Definition pretty_document (v : value) : bytes := to_vec_pretty v ++ [LF].

(** The settings that are there, if any. *)
Definition settings_root (p : path) (present : bool) : io string obj :=
  if present then
    _ ← reject_symlink_or_non_file p;
    data ← why ("failed to read isolated settings at " +:+ display p) (read_file p);
    v ← lift (ok_or (from_slice data)
          ("isolated settings at " +:+ display p +:+ " are not valid JSON; refusing to overwrite them"));
    lift (ok_or (as_object v) ("isolated settings at " +:+ display p +:+ " must contain a JSON object"))
  else mret [].
Definition seed_stock_settings (config_home : path) (base_url : string) : io string path :=
  let muse_config := path_join config_home "muse" in
  _ ← create_private_dir config_home;
  _ ← create_private_dir muse_config;
  let p := path_join muse_config "settings.json" in
  present ← holds (fun fs => Ok (path_exists p fs));
  root ← settings_root p present;
  _ ← install muse_config p ("failed to stage settings in " +:+ display muse_config)
        ("failed to install isolated settings at " +:+ display p) (pretty_document (JObject (pin_settings base_url root)));
  mret p.

(** ** The model catalog *)

Definition STOCK_MODEL_CATALOG_FILE : string := "6d657461__p746268.json".

Definition reasoning_effort_variants (model : GatewayModel) : value :=
  match supported_reasoning_efforts model with
  | [] => JNull
  | efforts => JArray ((fun effort => json_obj [("tier", JString effort); ("description", JNull)]) <$> efforts)
  end.
Definition catalog_row (index : nat) (model : GatewayModel) : value :=
  json_obj [ ("model_id", JString (id model));
             ("display_label", JString (default (id model) (display_name model)));
             ("provider_id", JString "meta");
             ("profile_id", JString "tbh");
             ("visibility", JString (if is_visible model then "visible" else "hidden"));
             ("release_date", JNull);
             ("display_order", jnum (N.of_nat index));
             ("is_current", JBool (is_default model));
             ("is_default", JBool (is_default model));
             ("roles", JArray []);
             ("context_limit", jopt_num (context_window model));
             ("output_limit", jopt_num (max_output_tokens model));
             ("description", jopt_str (description model));
             ("cost", JNull);
             ("reasoning_effort_variants", reasoning_effort_variants model) ].
Definition catalog_document (models : list GatewayModel) : value :=
  json_obj [ ("schema_version", jnum 1); ("provider_id", JString "meta"); ("profile_id", JString "tbh");
             ("source", JString "provider_catalog"); ("rows", JArray (imap catalog_row models)) ].

Definition seed_stock_model_catalog (races : nat) (data_home : path) (models : list GatewayModel) (default_model : string)
  : io string path :=
  _ ← lift (validate_gateway_models models default_model);
  let muse_data := path_join data_home "muse" in
  let catalog_directory := path_join muse_data "model-catalog" in
  _ ← ensure_owned_catalog_directory races muse_data;
  _ ← ensure_owned_catalog_directory races catalog_directory;
  let p := path_join catalog_directory STOCK_MODEL_CATALOG_FILE in
  present ← holds (fun fs => Ok (path_exists p fs));
  _ ← (if present : bool then reject_symlink_or_non_file p else mret tt);
  _ ← install catalog_directory p ("failed to stage model catalog in " +:+ display catalog_directory)
        ("failed to install isolated model catalog at " +:+ display p) (pretty_document (catalog_document models));
  mret p.

End Directories.
