(* ===== verification/ProfileCorrect.v ===== *)
(** * The profile of stock Muse is private, and its settings are pinned

    Properties of [Profile.v]. *)

From S2P Require Import Prelude Utf8 Paths Posix PosixCorrect Json AuthHome LauncherReady LauncherArgs Launcher PublishCorrect Profile.
From stdpp Require Import options.

(** ** The directories *)

Section Directories.
  Context {PR : Process}.

Lemma tidy_create_private_dir p : tidy (create_private_dir p).
Proof. unfold create_private_dir, symlink_metadata, os_error. tidy. Qed.
Lemma tidy_validate_location p env : tidy (validate_app_home_location p env).
Proof. unfold validate_app_home_location, why. tidy. Qed.
Lemma tidy_create_private d env : tidy (create_private d env).
Proof. pose proof tidy_create_private_dir. pose proof tidy_validate_location. unfold create_private, why, os_error. tidy. Qed.

Lemma dir_validated_private p inode : validate_private_directory p inode = Ok tt ->
  is_dir inode = true /\ permissions inode = 448%N /\ uid inode = geteuid.
Proof.
  unfold validate_private_directory.
  intros (_ & [_ Hd]%reject_ok%orb_false_iff & (_ & Hm%reject_ok & Hu%reject_ok)%bind_ok)%bind_ok.
  apply negb_false_iff in Hd, Hu, Hm. by apply N.eqb_eq in Hu, Hm.
Qed.
Lemma dir_metadata_private p s s' inode : run_io (symlink_metadata p) s = (Ok inode, s') ->
  validate_private_directory p inode = Ok tt -> private_at p (disk s').
Proof.
  unfold symlink_metadata. intros [Hs ->]%run_query_ok Hv.
  destruct (stat false p (disk s)) as [[i n]|] eqn:Hst; [|done]. cbn in Hs. injection Hs as <-.
  exists i, n. split; [done|]. by apply (dir_validated_private p).
Qed.
Lemma create_private_dir_ok p s s' : run_io (create_private_dir p) s = (Ok tt, s') -> private_at p (disk s').
Proof.
  unfold create_private_dir. intros ([inode|[]] & s1 & Hf%run_attempt_ok & Hrun)%run_bind_ok.
  all: try (by apply run_lift_ok in Hrun as [? _]).
  - apply run_lift_ok in Hrun as [Hv ->]. by eapply dir_metadata_private.
  - apply run_bind_ok in Hrun as (q & ? & _ & Hrun). apply run_bind_ok in Hrun as (d & ? & _ & Hrun).
    apply run_bind_ok in Hrun as (? & ? & _ & Hrun). apply run_bind_ok in Hrun as (made & s2 & _ & Hrun).
    assert (Hdone : run_io (inode ← os_error (symlink_metadata p); lift (validate_private_directory p inode)) s2 = (Ok tt, s'))
      by (destruct made as [|[]]; [exact Hrun|try exact Hrun; by apply run_lift_ok in Hrun as [? _]..]).
    apply run_bind_ok in Hdone as (inode & s3 & Hm%run_map_err_ok & [Hv ->]%run_lift_ok). by eapply dir_metadata_private.
Qed.

(** What was accepted of the place of the home. *)
Lemma location_ok p env s u s' : run_io (validate_app_home_location p env) s = (Ok u, s') ->
  disk s' = disk s /\ is_absolute p = true /\ existsb dotted (components p) = false /\ file_name p = Some "muse-codex"
  /\ exists above canonical_above, parent p = Some above /\ canonicalize above (disk s) = Ok canonical_above
     /\ (forall user_home, env !! "HOME" = Some user_home ->
          path_eq p user_home = false /\ path_starts_with p (path_join user_home ".codex") = false
          /\ (answers s = [] -> path_starts_with canonical_above
                (default (path_join user_home ".codex") (ok (canonicalize (path_join user_home ".codex") (disk s)))) = false)).
Proof.
  unfold validate_app_home_location. intros (_ & ? & [Ha%reject_ok%negb_false_iff ->]%run_lift_ok & Hrun)%run_bind_ok.
  apply run_bind_ok in Hrun as (_ & ? & [Hd%reject_ok ->]%run_lift_ok & Hrun).
  apply run_bind_ok in Hrun as (_ & ? & [Hn%reject_ok%negb_false_iff%bool_decide_eq_true ->]%run_lift_ok & Hrun).
  apply run_bind_ok in Hrun as (above & ? & [Hp%ok_or_ok ->]%run_lift_ok & Hrun).
  apply run_bind_ok in Hrun as (canonical & s1 & Hc%run_map_err_ok & Hrun).
  assert (Hquiet : answers s = [] -> answers s1 = []).
  { intros Hs. rewrite run_query_quiet in Hc by done. by injection Hc as _ <-. }
  apply run_query_ok in Hc as [Hc Hd1].
  enough (disk s' = disk s1 /\ forall user_home, env !! "HOME" = Some user_home ->
          path_eq p user_home = false /\ path_starts_with p (path_join user_home ".codex") = false
          /\ (answers s1 = [] -> path_starts_with canonical
                (default (path_join user_home ".codex") (ok (canonicalize (path_join user_home ".codex") (disk s1)))) = false)) as [-> Hhome].
  { rewrite Hd1 in *. split_and!; try done. exists above, canonical. split_and!; try done.
    intros h Hh. destruct (Hhome h Hh) as (? & ? & ?). auto. }
  destruct (env !! "HOME") as [user_home|]; [|apply run_ret_ok in Hrun as [-> ->]; split; [done|]; done].
  apply run_bind_ok in Hrun as (_ & ? & [Hne%reject_ok ->]%run_lift_ok & Hrun). cbv zeta in Hrun.
  apply run_bind_ok in Hrun as (inside & s2 & Hin & [Hout%reject_ok ->]%run_lift_ok). subst inside.
  destruct (path_starts_with p (path_join user_home ".codex")) eqn:Hunder; [by apply run_ret_ok in Hin as [? _]|].
  apply run_bind_ok in Hin as (found & s3 & Hq%run_attempt_ok & [Hout ->]%run_ret_ok). symmetry in Hout. split.
  - destruct (query_goes (canonicalize (path_join user_home ".codex")) s1) as (r & ? & [Hr _ Hdq] & _).
    rewrite Hr in Hq. by injection Hq as -> ->.
  - intros h [= <-]. split_and!; [done..|]. intros Hs. rewrite run_query_quiet in Hq by done. by injection Hq as <- <-.
Qed.

(** C21: The profile is private. When the directories of stock Muse are accepted, the home
    is an absolute path named [muse-codex] without [..], which the disk resolves to
    [muse-codex] in the canonical form of its parent; it is neither the user's home nor
    in the standard Codex home, by its text and, when no call fails, by the canonical
    form of its parent; and the home and the two directories for stock Muse are
    directories of mode 0700 owned by the user, and not links. Whatever the outcome and
    whatever calls fail, no existing entry of the disk is changed, and all that is added
    are empty private directories. *)
Theorem profile_private (d : StockDirectories) (env : Environment) (s : Sys) (Hwf : well_formed (disk s)) :
  let '(r, s') := run_io (create_private d env) s in
  makes_dirs (disk s) (disk s') /\
  (r = Ok tt ->
    is_absolute (app_home d) = true /\ existsb dotted (components (app_home d)) = false
    /\ (exists above canonical_above canonical,
         parent (app_home d) = Some above /\ canonicalize above (disk s') = Ok canonical_above
         /\ canonicalize (app_home d) (disk s') = Ok canonical
         /\ path_eq canonical (path_join canonical_above "muse-codex") = true
         /\ forall user_home, env !! "HOME" = Some user_home ->
              path_eq (app_home d) user_home = false
              /\ path_starts_with (app_home d) (path_join user_home ".codex") = false
              /\ (answers s = [] -> path_starts_with canonical_above
                    (default (path_join user_home ".codex") (ok (canonicalize (path_join user_home ".codex") (disk s)))) = false))
    /\ private_at (app_home d) (disk s') /\ private_at (config_home d) (disk s') /\ private_at (data_home d) (disk s')).
Proof.
  destruct (run_io (create_private d env) s) as [r s'] eqn:Hrun.
  split; [pose proof (tidy_create_private d env s Hwf) as Ht; by rewrite Hrun in Ht|]. intros ->. unfold create_private in Hrun.
  apply run_bind_ok in Hrun as (u & s1 & Hl%location_ok & Hrun).
  destruct Hl as (Hd1 & Habs & Hdots & _ & above & canonical_above & Hp & Hc & Hhome).
  assert (Hwf1 : well_formed (disk s1)) by (by rewrite Hd1).
  apply run_bind_ok in Hrun as ([] & s2 & Hhome_dir & Hrun).
  pose proof (tidy_create_private_dir (app_home d) s1 Hwf1) as Ht2. rewrite Hhome_dir in Ht2. cbn in Ht2.
  apply run_bind_ok in Hrun as (canonical & s3 & [Hcan Hd3]%run_map_err_ok%run_query_ok & Hrun).
  apply run_bind_ok in Hrun as (above' & ? & [Hp'%ok_or_ok ->]%run_lift_ok & Hrun). rewrite Hp in Hp'. injection Hp' as <-.
  apply run_bind_ok in Hrun as (canonical' & s4 & [Hcan' Hd4]%run_map_err_ok%run_query_ok & Hrun).
  apply run_bind_ok in Hrun as (_ & ? & [Heq%reject_ok%negb_false_iff ->]%run_lift_ok & Hrun).
  apply run_bind_ok in Hrun as ([] & s5 & Hconfig & Hdata). rewrite Hd3 in *.
  assert (Hwf4 : well_formed (disk s4)) by (rewrite Hd4; by apply (dirs_well_formed _ _ Ht2)).
  pose proof (tidy_create_private_dir (config_home d) s4 Hwf4) as Ht5. rewrite Hconfig, Hd4 in Ht5. cbn in Ht5.
  assert (Hwf5 : well_formed (disk s5)) by (apply (dirs_well_formed _ _ Ht5), (dirs_well_formed _ _ Ht2), Hwf1).
  pose proof (tidy_create_private_dir (data_home d) s5 Hwf5) as Ht6. rewrite Hdata in Ht6. cbn in Ht6.
  pose proof (makes_dirs_grows _ _ Ht6) as Hg6. pose proof (grows_trans _ _ _ (makes_dirs_grows _ _ Ht5) Hg6) as Hg5.
  rewrite Hd1 in Ht2. pose proof (canonicalize_grows _ _ _ _ (makes_dirs_grows _ _ Ht2) Hc) as Hc2. rewrite Hcan' in Hc2. injection Hc2 as <-.
  split_and!; [done|done| | | |exact (create_private_dir_ok _ _ _ Hdata)].
  - exists above, canonical', canonical. split_and!; [done| | |done|done]; by eapply canonicalize_grows.
  - eapply private_at_later; [exact Hg5|exact (create_private_dir_ok _ _ _ Hhome_dir)].
  - eapply private_at_later; [exact Hg6|exact (create_private_dir_ok _ _ _ Hconfig)].
Qed.
End Directories.

(** ** The settings *)

(** What the user keeps of the member [k] of the settings. *)
Definition pinned (k : string) : bool :=
  existsb (String.eqb k) ["schema_version"; "endpoint_transport"; "provider_retry"; "telemetry"].
Definition members (o : option value) : obj := default [] (o ≫= as_object).

Lemma obj_get_entry_or k k' v m : obj_get k (entry_or k' v m)
  = if String.eqb k k' then Some (default v (obj_get k' m)) else obj_get k m.
Proof.
  unfold entry_or, obj_contains_key. case_bool_decide as Hin.
  - destruct (String.eqb_spec k k') as [->|]; [|done]. by destruct (obj_get k' m), Hin.
  - rewrite obj_get_insert. destruct (String.eqb_spec k k') as [->|]; [|done].
    destruct (obj_get k' m); [|done]. exfalso. eauto.
Qed.

Lemma pin_get base root k : obj_get k (pin_settings base root) =
  if String.eqb k "telemetry" then Some (JObject (obj_insert "enabled" (JBool false) (members (obj_get k root))))
  else if String.eqb k "provider_retry" then
    Some (JObject (obj_insert "max_retries" (jnum 0) (obj_remove "max_attempts" (members (obj_get k root)))))
  else if String.eqb k "endpoint_transport" then Some (json_obj [("base_url", JString base); ("auth", JString "bearer")])
  else if String.eqb k "schema_version" then Some (jnum 1)
  else obj_get k root.
Proof.
  unfold pin_settings, members. set (retried := obj_alter _ _ _).
  assert (Hr : forall k, obj_get k retried =
    if String.eqb k "provider_retry" then
      Some (JObject (obj_insert "max_retries" (jnum 0) (obj_remove "max_attempts" (default [] (obj_get k root ≫= as_object)))))
    else if String.eqb k "endpoint_transport" then Some (json_obj [("base_url", JString base); ("auth", JString "bearer")])
    else if String.eqb k "schema_version" then Some (jnum 1) else obj_get k root).
  { clear k. intros k. unfold retried. rewrite obj_get_alter, obj_get_entry_or, !obj_get_insert.
    destruct (String.eqb_spec k "provider_retry") as [->|]; [|done]. cbn. by destruct (obj_get "provider_retry" root) as [[]|]. }
  pose proof (Hr "telemetry") as Ht. cbn in Ht.
  destruct (String.eqb_spec k "telemetry") as [->|Hk].
  - rewrite Ht. destruct (obj_get "telemetry" root) as [[]|]; by rewrite obj_get_insert_eq.
  - rewrite <- Hr. destruct (obj_get "telemetry" retried) as [[]|]; by rewrite obj_get_insert_ne.
Qed.

Lemma insert_twice k v m : obj_insert k v (obj_insert k v m) = obj_insert k v m.
Proof.
  induction m as [|[k' v'] m IH]; cbn.
  - by rewrite compare_refl.
  - destruct (String.compare k k') eqn:Hk; cbn; rewrite ?compare_refl, ?Hk; [done|done|by rewrite IH].
Qed.
Lemma remove_missing k m : obj_get k m = None -> obj_remove k m = m.
Proof.
  unfold obj_remove, obj_retain. induction m as [|[k' v] m IH]; cbn; [done|].
  destruct (String.eqb k k') eqn:Hk; [done|]. intros Hm. cbn. by rewrite IH.
Qed.

(** C19: Settings keep what the user chose and pin what the launcher owns. The rewritten
    settings have schema version 1 and the launcher's endpoint with bearer authorisation;
    the retry policy is an object with no retries and no [max_attempts], and telemetry an
    object that is disabled; the other members of those two, where they were objects, and
    every other setting are the user's. Rewriting again changes nothing, so that an
    interrupted or repeated launch leaves the same settings. *)
Theorem settings_pinned (base_url : string) (root : obj) :
  let settings := pin_settings base_url root in
  obj_get "schema_version" settings = Some (jnum 1)
  /\ obj_get "endpoint_transport" settings = Some (json_obj [("base_url", JString base_url); ("auth", JString "bearer")])
  /\ (exists retry, obj_get "provider_retry" settings = Some (JObject retry)
       /\ obj_get "max_retries" retry = Some (jnum 0) /\ obj_get "max_attempts" retry = None
       /\ forall k, k <> "max_retries" -> k <> "max_attempts" ->
            obj_get k retry = obj_get k (members (obj_get "provider_retry" root)))
  /\ (exists telemetry, obj_get "telemetry" settings = Some (JObject telemetry)
       /\ obj_get "enabled" telemetry = Some (JBool false)
       /\ forall k, k <> "enabled" -> obj_get k telemetry = obj_get k (members (obj_get "telemetry" root)))
  /\ (forall k, pinned k = false -> obj_get k settings = obj_get k root)
  /\ (forall k, obj_get k (pin_settings base_url settings) = obj_get k settings).
Proof.
  cbv zeta. rewrite !pin_get. cbn [String.eqb Ascii.eqb Bool.eqb]. split_and!; [done|done| | | |].
  - eexists. split; [done|]. rewrite !obj_get_insert, !obj_get_remove. split_and!; [done|done|].
    intros k Hr%String.eqb_neq Ha%String.eqb_neq. rewrite obj_get_insert, obj_get_remove, Hr, String.eqb_sym, Ha. done.
  - eexists. split; [done|]. split; [by rewrite obj_get_insert_eq|]. intros k Hk. by rewrite obj_get_insert_ne.
  - intros k Hk. rewrite pin_get. cbn [pinned existsb] in Hk. rewrite !orb_false_iff in Hk.
    destruct Hk as (-> & -> & -> & -> & _). done.
  - intros k. rewrite !(pin_get base_url). destruct (String.eqb k "telemetry"); [cbn; by rewrite insert_twice|].
    destruct (String.eqb k "provider_retry"); [unfold members at 1; cbn [mbind option_bind as_object default Datatypes.id]|by destruct (String.eqb k "endpoint_transport"), (String.eqb k "schema_version")].
    rewrite (remove_missing _ (obj_insert _ _ _)), insert_twice; [done|]. rewrite obj_get_insert, obj_get_remove. done.
Qed.

(** ** Files are replaced as a whole *)

Section Install.
  Context {PR : Process} {TF : TempFiles}.

(** The place of [p], which holds a regular file or nothing, and the free place of the
    temporary file. *)
Record replaceable (fs : Fs) (dir p : path) (place temporary : list string) : Prop := {
  rep_well_formed : well_formed fs;
  rep_place : locate false fs p = Ok place;
  rep_temporary : locate false fs (path_join dir (temporary_file_name fs)) = Ok temporary;
  rep_files : names_directory p = false /\ names_directory (path_join dir (temporary_file_name fs)) = false;
  rep_regular inode : entry fs place = Some inode -> is_file inode = true;
  rep_free : names fs !! temporary = None;
  rep_distinct : place <> temporary
}.

Inductive pending (fs : Fs) (temporary : list string) : Fs -> Prop :=
  | pending_first : pending fs temporary fs
  | pending_temporary inode : is_dir inode = false -> is_symlink inode = false -> pending fs temporary (fresh_at fs temporary inode)
  | pending_removed inode : pending fs temporary (fresh_only fs inode).

Lemma pending_entry fs (Hwf : well_formed fs) temporary st q : pending fs temporary st -> q <> temporary -> entry st q = entry fs q.
Proof.
  intros [|inode _ _|inode] Hne; [done| |by apply entry_fresh_only].
  rewrite entry_fresh by done. by rewrite decide_False.
Qed.

Section Steps.
  Context (fs : Fs) (dir p : path) (place temporary : list string) (Hp : replaceable fs dir p place temporary).
  Abbreviation tmp := (path_join dir (temporary_file_name fs)).

Lemma locate_in_fresh inode follow q q_place : is_dir inode = false -> is_symlink inode = false -> names_directory q = false ->
  locate follow fs q = Ok q_place -> locate follow (fresh_at fs temporary inode) q = Ok q_place.
Proof using Hp.
  destruct Hp as [Hwf _ _ _ _ Hfree _]. intros Hd Hl. apply locate_keeps, fresh_keeps; [done..|].
  intros old Ho. by rewrite entry_absent in Ho.
Qed.
Lemma rename_fresh inode : is_dir inode = false -> is_symlink inode = false ->
  rename tmp p (fresh_at fs temporary inode) = Ok (tt, fresh_at fs place inode).
Proof using Hp.
  intros Hd Hl. pose proof Hp as [Hwf Hplace Htmp [Hd1 Hd2] Hreg Hfree Hne].
  unfold rename. rewrite (locate_in_fresh _ _ _ _ Hd Hl Hd2 Htmp). cbn [mbind result_bind].
  rewrite lookup_fresh. cbn [mbind result_bind]. rewrite (locate_in_fresh _ _ _ _ Hd Hl Hd1 Hplace). cbn [mbind result_bind].
  rewrite entry_fresh by done. rewrite decide_False by done. rewrite Hd.
  assert (is_some_and (fun target => negb (bool_decide (false = is_dir target))) (entry fs place) = false) as ->.
  { destruct (entry fs place) as [old|]; [|done]. specialize (Hreg _ eq_refl). unfold is_file in Hreg. cbn.
    unfold is_dir. by destruct (file_type old). }
  cbn [reject mbind result_bind]. rewrite bool_decide_eq_false_2.
  - unfold fresh_at. cbn [names inodes]. by rewrite delete_insert_id.
  - cbn. rewrite lookup_insert_ne by done. by apply fresh_unnamed.
Qed.
Lemma unlink_fresh inode : is_dir inode = false -> is_symlink inode = false ->
  unlink tmp (fresh_at fs temporary inode) = Ok (tt, fresh_only fs inode).
Proof using Hp.
  intros Hd Hl. pose proof Hp as [Hwf _ Htmp [_ Hd2] _ Hfree _].
  unfold unlink. rewrite (locate_in_fresh _ _ _ _ Hd Hl Hd2 Htmp). cbn [mbind result_bind].
  rewrite lookup_fresh. cbn [mbind result_bind]. rewrite Hd. cbn. unfold fresh_only. by rewrite delete_insert_id.
Qed.
(** The mode is already the one set. *)
Lemma chmod_fresh data : chmod p 384 (fresh_at fs place (private_file data)) = Ok (tt, fresh_at fs place (private_file data)).
Proof using Hp.
  pose proof Hp as [Hwf Hplace _ [Hd1 _] Hreg _ _].
  assert (Hno : forall old, entry fs place = Some old -> is_symlink old = false).
  { intros old Ho. specialize (Hreg _ Ho). unfold is_file in Hreg. unfold is_symlink. by destruct (file_type old). }
  assert (locate true (fresh_at fs place (private_file data)) p = Ok place) as Hl.
  { apply (locate_keeps fs); [by apply fresh_keeps|done|by apply locate_follow]. }
  unfold chmod, stat. rewrite Hl. cbn [mbind result_bind]. rewrite lookup_fresh. cbn.
  unfold update_inode, fresh_at. cbn. by rewrite alter_insert_eq.
Qed.

(** Filling the temporary file and renaming it: either the document is in place, or the
    temporary file is still there. *)
Definition waiting (st : Fs) : Prop := exists inode, is_dir inode = false /\ is_symlink inode = false /\ st = fresh_at fs temporary inode.
Lemma waiting_staged content : waiting (staged fs temporary content).
Proof using Type. by exists (private_file content). Qed.
Lemma waiting_pending st : waiting st -> pending fs temporary st.
Proof using Type. intros (inode & Hd & Hl & ->). by constructor. Qed.

Lemma fill_goes (text : string) data inode s :
  file_type inode = Regular [] -> uid inode = geteuid -> disk s = fresh_at fs temporary inode ->
  exists r s' through,
    goes (_ ← os_error (protect_file (fresh_inode fs)); _ ← os_error (write_all (fresh_inode fs) data);
          _ ← os_error (sync_all (fresh_inode fs)); why text (call (rename tmp p))) s r s' through
    /\ ((r = Ok tt /\ exists pre, through = staged fs place data :: pre /\ Forall waiting pre)
        \/ (exists e, r = Err e /\ Forall waiting through /\ waiting (disk s'))).
Proof using Hp.
  intros Hft Huid Hs.
  destruct (call_goes (fun st => Ok (tt, update_inode (fresh_inode fs) (set_mode 384) st)) s) as [(e & s1 & Hg)|([] & fs1 & s1 & Hf & Hg)].
  { eexists _, s1, _. split; [eapply goes_bind_err; exact (goes_map_err strerror _ _ _ _ _ Hg)|right]. eexists. split_and!; [done|done|].
    rewrite (goes_disk _ _ _ _ _ Hg). exists inode. unfold is_dir, is_symlink. by rewrite Hft. }
  assert (fs1 = staged fs temporary []) as ->.
  { injection Hf as <-. rewrite Hs. unfold update_inode, staged, fresh_at, private_file, set_mode. cbn.
    rewrite alter_insert_eq, Hft, Huid. done. }
  pose proof (goes_disk _ _ _ _ _ Hg) as Hs1. cbn in Hs1.
  destruct (write_loop_goes fs temporary (length data) data [] s1 (le_n _) Hs1) as (r & s2 & t2 & c & Hw & Hst & Hs2 & Hc).
  assert (Hst' : Forall waiting (t2 ++ [staged fs temporary []])).
  { apply Forall_app_2; [|repeat constructor; apply waiting_staged]. eapply Forall_impl; [exact Hst|]. intros st [d ->]. apply waiting_staged. }
  destruct r as [[]|e].
  2: { eexists _, s2, _. split; [eapply goes_bind; [exact (goes_map_err strerror _ _ _ _ _ Hg)|eapply goes_bind_err; exact (goes_map_err strerror _ _ _ _ _ Hw)]|].
       right. eexists. split_and!; [done|done|rewrite Hs2; apply waiting_staged]. }
  rewrite (Hc eq_refl) in Hs2. cbn [app] in Hs2.
  destruct (query_goes (fun _ => Ok tt) s2) as (r & s3 & Hq & _). pose proof (goes_disk _ _ _ _ _ Hq) as Hs3. cbn in Hs3. rewrite Hs2 in Hs3.
  destruct r as [[]|e].
  2: { eexists _, s3, _. split.
       - eapply goes_bind; [exact (goes_map_err strerror _ _ _ _ _ Hg)|]. eapply goes_bind; [exact (goes_map_err strerror _ _ _ _ _ Hw)|].
         eapply goes_bind_err; exact (goes_map_err strerror _ _ _ _ _ Hq).
       - right. eexists. split_and!; [done|done|rewrite Hs3; apply waiting_staged]. }
  assert (Hrename : rename tmp p (disk s3) = Ok (tt, staged fs place data)) by (rewrite Hs3; by apply rename_fresh).
  destruct (call_goes (rename tmp p) s3) as [(e & s4 & Hr)|([] & fs4 & s4 & Hf4 & Hr)].
  all: eexists _, s4, _; split; [eapply goes_bind; [exact (goes_map_err strerror _ _ _ _ _ Hg)|]; eapply goes_bind; [exact (goes_map_err strerror _ _ _ _ _ Hw)|];
         eapply goes_bind; [exact (goes_map_err strerror _ _ _ _ _ Hq)|exact (goes_map_err (fun _ => text) _ _ _ _ _ Hr)]|].
  - right. eexists. split_and!; [done|done|]. rewrite (goes_disk _ _ _ _ _ Hr). cbn. rewrite Hs3. apply waiting_staged.
  - left. split; [done|]. rewrite Hrename in Hf4. injection Hf4 as <-. by eexists.
Qed.

(** What other processes may see of a state. *)
Definition before (st : Fs) : Prop := forall q, q <> temporary -> entry st q = entry fs q.
Definition after (data : bytes) (st : Fs) : Prop :=
  entry st place = Some (private_file data) /\ forall q, q <> place -> entry st q = entry fs q.
Lemma pending_before st : pending fs temporary st -> before st.
Proof using Hp. intros Hst q Hq. by apply (pending_entry fs (rep_well_formed _ _ _ _ _ Hp) temporary). Qed.
Lemma staged_after data : after data (staged fs place data).
Proof using Hp.
  pose proof (rep_well_formed _ _ _ _ _ Hp) as Hwf. split; [|intros q Hq]; rewrite entry_staged by done.
  - by rewrite decide_True.
  - by rewrite decide_False.
Qed.

(** Creating the temporary file. *)
Lemma named_temp_file_goes s : disk s = fs ->
  (exists e s', goes (named_temp_file dir) s (Err e) s' [])
  \/ exists inode s', file_type inode = Regular [] /\ uid inode = geteuid
       /\ goes (named_temp_file dir) s (Ok (fresh_inode fs, tmp)) s' [fresh_at fs temporary inode].
Proof using Hp.
  intros Hs. unfold named_temp_file.
  destruct (query_goes (fun st => Ok (temporary_file_name st)) s) as (r & s1 & Hq & Hname).
  destruct r as [name|e]; [|left; eexists _, s1; by eapply goes_bind_err].
  specialize (Hname _ eq_refl). rewrite Hs in Hname. injection Hname as <-.
  pose proof (goes_disk _ _ _ _ _ Hq) as Hs1. cbn in Hs1. rewrite Hs in Hs1.
  destruct (call_goes (open_new tmp 384) s1) as [(e & s2 & Hc)|(i & fs2 & s2 & Hf & Hc)].
  - left. exists e, s2. refine (goes_bind _ _ s _ s1 [] _ s2 [] Hq _). exact (goes_bind_err _ _ _ _ _ _ Hc).
  - right. revert Hf. rewrite Hs1. unfold open_new, create. rewrite (rep_temporary _ _ _ _ _ Hp). cbn [mbind result_bind].
    rewrite (rep_free _ _ _ _ _ Hp), bool_decide_eq_false_2 by (by intros [? ?]). cbn [reject mbind result_bind].
    intros Hnew. set (made := {| file_type := Regular []; mode := N.ldiff 384 umask; uid := geteuid |}).
    assert (i = fresh_inode fs /\ fs2 = fresh_at fs temporary made) as [-> ->] by (by injection Hnew as <- <-).
    exists made, s2. split; [done|]. split; [done|].
    refine (goes_bind _ _ s _ s1 [] _ s2 [_] Hq _). refine (goes_bind _ _ s1 _ s2 [_] _ s2 [] Hc _). apply goes_ret.
Qed.

Lemma install_goes stage_text install_text data s : disk s = fs ->
  exists r s' post pre, goes (install dir p stage_text install_text data) s r s' (post ++ pre)
    /\ Forall before pre /\ Forall (after data) post /\ (r = Ok tt -> post <> []).
Proof using Hp.
  intros Hs. unfold install.
  destruct (named_temp_file_goes s Hs) as [(e & s1 & Hg)|(inode & s1 & Hft & Huid & Hg)].
  { eexists _, s1, [], []. split; [eapply goes_bind_err; exact (goes_map_err (fun _ => stage_text) _ _ _ _ _ Hg)|by split_and!]. }
  pose proof (goes_disk _ _ _ _ _ Hg) as Hs1. cbn in Hs1.
  assert (Hstaging : before (fresh_at fs temporary inode)).
  { apply pending_before. constructor; unfold is_dir, is_symlink; by rewrite Hft. }
  destruct (fill_goes install_text data inode s1 Hft Huid Hs1) as (r & s2 & through & Hfill & [[-> (pre & -> & Hpre)]|(e & -> & Ht & Hw)]).
  - assert (Hb : Forall before (pre ++ [fresh_at fs temporary inode])).
    { apply Forall_app_2; [|by constructor]. eapply Forall_impl; [exact Hpre|]. intros st Hst. by apply pending_before, waiting_pending. }
    pose proof (goes_disk _ _ _ _ _ Hfill) as Hs2. cbn in Hs2.
    assert (Hmode : chmod p 384 (disk s2) = Ok (tt, staged fs place data)) by (rewrite Hs2; by eapply chmod_fresh).
    destruct (call_goes (chmod p 384) s2) as [(e & s3 & Hc)|([] & fs3 & s3 & Hf & Hc)].
    + exists (Err (strerror e)), s3, [staged fs place data], (pre ++ [fresh_at fs temporary inode]). split_and!; [|done|by constructor; [apply staged_after|]|done].
      exact (goes_bind _ _ _ _ _ _ _ _ _ (goes_map_err (fun _ => stage_text) _ _ _ _ _ Hg)
              (goes_bind _ _ _ _ _ _ _ _ _ (goes_attempt _ _ _ _ _ Hfill) (goes_map_err strerror _ _ _ _ _ Hc))).
    + rewrite Hmode in Hf. injection Hf as <-.
      exists (Ok tt), s3, [staged fs place data; staged fs place data], (pre ++ [fresh_at fs temporary inode]).
      split_and!; [|done|by repeat (constructor; [apply staged_after|])|done].
      exact (goes_bind _ _ _ _ _ _ _ _ _ (goes_map_err (fun _ => stage_text) _ _ _ _ _ Hg)
              (goes_bind _ _ _ _ _ _ _ _ _ (goes_attempt _ _ _ _ _ Hfill) (goes_map_err strerror _ _ _ _ _ Hc))).
  - assert (Hb : Forall before (through ++ [fresh_at fs temporary inode])).
    { apply Forall_app_2; [|by constructor]. eapply Forall_impl; [exact Ht|]. intros st Hst. by apply pending_before, waiting_pending. }
    destruct (call_goes (unlink tmp) s2) as [(e2 & s3 & Hu)|([] & fs3 & s3 & Hf & Hu)].
    + exists (Err e), s3, [], (through ++ [fresh_at fs temporary inode]). split_and!; [|done..].
      refine (goes_bind _ _ s _ s1 [_] _ s3 (through) (goes_map_err (fun _ => stage_text) _ _ _ _ _ Hg) _).
      refine (goes_bind _ _ s1 _ s2 through _ s3 [] (goes_attempt _ _ _ _ _ Hfill) _).
      refine (goes_bind _ _ s2 _ s3 [] _ s3 [] (goes_attempt _ _ _ _ _ Hu) _). apply goes_lift.
    + destruct Hw as (inode2 & Hd & Hl & Hw). rewrite Hw, (unlink_fresh _ Hd Hl) in Hf. injection Hf as <-.
      exists (Err e), s3, [], (fresh_only fs inode2 :: through ++ [fresh_at fs temporary inode]).
      split_and!; [|constructor; [apply pending_before; constructor|done]|done..].
      refine (goes_bind _ _ s _ s1 [_] _ s3 (_ :: through) (goes_map_err (fun _ => stage_text) _ _ _ _ _ Hg) _).
      refine (goes_bind _ _ s1 _ s2 through _ s3 [_] (goes_attempt _ _ _ _ _ Hfill) _).
      refine (goes_bind _ _ s2 _ s3 [_] _ s3 [] (goes_attempt _ _ _ _ _ Hu) _). apply goes_lift.
Qed.
End Steps.

(** Reading what is there. *)
Section Reading.
  Context (fs : Fs) (dir p : path) (place temporary : list string) (Hp : replaceable fs dir p place temporary).

Lemma replaceable_located : locate true fs p = Ok place.
Proof using Hp.
  destruct Hp as [_ Hplace _ [Hd1 _] Hreg _ _]. apply locate_follow; [done|done|].
  intros old Ho. specialize (Hreg _ Ho). unfold is_file in Hreg. unfold is_symlink. by destruct (file_type old).
Qed.
Lemma replaceable_stat : stat true p fs = lookup_at fs place.
Proof using Hp. unfold stat. by rewrite replaceable_located. Qed.
Lemma replaceable_exists : path_exists p fs = bool_decide (is_Some (entry fs place)).
Proof using Hp.
  unfold path_exists. rewrite replaceable_stat. unfold lookup_at, entry.
  destruct (names fs !! place) as [i|]; [|done]. cbn. by destruct (inodes fs !! i).
Qed.
Lemma replaceable_read s data s' : disk s = fs -> run_io (read_file p) s = (Ok data, s') ->
  file_content <$> entry fs place = Some data.
Proof using Hp.
  intros Hs [Hr _]%run_query_ok. rewrite Hs in Hr. unfold open_existing in Hr. rewrite replaceable_stat in Hr.
  unfold lookup_at, entry in *. destruct (names fs !! place) as [i|]; [|done]. cbn in Hr |- *.
  destruct (inodes fs !! i) as [inode|] eqn:Hi; [|done]. cbn in Hr. destruct (is_symlink inode); [done|]. cbn in Hr.
  rewrite Hi in Hr. cbn in Hr. destruct (is_file inode); [|done]. by injection Hr as <-.
Qed.
End Reading.
End Install.

Lemma still_create_private_dir {PR : Process} fs p found : stat false p fs = Ok found -> still fs (create_private_dir p).
Proof.
  intros Hf. pose proof (still_call fs (mkdir p 448) AlreadyExists (existing_mkdir _ _ _ _ Hf)).
  unfold create_private_dir, symlink_metadata, os_error. still.
Qed.

Section Seed.
  Context {PR : Process} {TF : TempFiles} {SJ : SerdeJson} {SP : SerdePretty}.

(** What the settings are made from: the object that is there, or nothing. *)
Definition settings_before (fs : Fs) (place : list string) (root : obj) : Prop :=
  match entry fs place with
  | Some inode => from_slice (file_content inode) = Some (JObject root)
  | None => root = []
  end.

(** Reading the settings that are there. *)
Lemma still_settings_root fs p present : still fs (settings_root p present).
Proof. unfold settings_root, reject_symlink_or_non_file, read_file, symlink_metadata, why. still. Qed.
Lemma settings_root_ok fs dir p place temporary (Hp : replaceable fs dir p place temporary) s present root s' :
  disk s = fs -> present = bool_decide (is_Some (entry fs place)) ->
  run_io (settings_root p present) s = (Ok root, s') -> settings_before fs place root.
Proof.
  intros Hs ->. unfold settings_root, settings_before. destruct (entry fs place) as [inode|] eqn:He.
  2: { by intros [-> _]%run_ret_ok. }
  rewrite bool_decide_eq_true_2 by done.
  intros ([] & s1 & Hreg & (data & s2 & Hread%run_map_err_ok & (v & ? & [Hv%ok_or_ok ->]%run_lift_ok & [Hr%ok_or_ok ->]%run_lift_ok)%run_bind_ok)%run_bind_ok)%run_bind_ok.
  apply (replaceable_read _ _ _ _ _ Hp) in Hread.
  - rewrite He in Hread. injection Hread as ->. rewrite Hv. destruct v; try done. by injection Hr as ->.
  - unfold reject_symlink_or_non_file in Hreg. apply run_bind_ok in Hreg as (i & ? & [_ Hd]%run_map_err_ok%run_query_ok & [_ ->]%run_lift_ok).
    by rewrite Hd.
Qed.

(** C18: Settings are replaced as a whole or not at all. In a profile whose directories
    exist, with a regular settings file or none, every state the disk goes through while
    the settings are seeded, whatever calls fail or are cut short, has either all entries
    as they were (but for a temporary file) or, from some state on, the complete pinned
    settings in a file of mode 0600 owned by the user, and everything else as it was.
    The pinned settings are made from the JSON object that was there: if it is not one,
    nothing is replaced. When seeding succeeds the new settings are in place. *)
Theorem settings_replaced (config_home : path) (base_url : string) (s : Sys) (place temporary : list string) found found'
  (Hconfig : stat false config_home (disk s) = Ok found)
  (Hmuse : stat false (path_join config_home "muse") (disk s) = Ok found')
  (Hp : replaceable (disk s) (path_join config_home "muse") (path_join (path_join config_home "muse") "settings.json") place temporary) :
  ends (seed_stock_settings config_home base_url) s (fun r through =>
    exists post pre root, through = post ++ pre
    /\ Forall (before (disk s) temporary) pre
    /\ Forall (after (disk s) place (pretty_document (JObject (pin_settings base_url root)))) post
    /\ (post <> [] -> settings_before (disk s) place root)
    /\ (forall p, r = Ok p -> p = path_join (path_join config_home "muse") "settings.json" /\ post <> [])).
Proof.
  unfold seed_stock_settings. cbv zeta. set (muse := path_join config_home "muse") in *. set (p := path_join muse "settings.json") in *.
  set (Q := fun (r : result string path) through => exists post pre root, _) in *.
  assert (HQ : forall e, Q (Err e) []) by (intros e; by exists [], [], []).
  apply ends_still; [by eapply still_create_private_dir|done|]. intros [] s1 _ Hd1.
  apply ends_still; [rewrite Hd1; by eapply still_create_private_dir|done|]. intros [] s2 _ Hd2. rewrite Hd1 in Hd2.
  apply ends_still; [apply still_holds|done|]. intros present s3 [Hpresent ->]%run_holds_ok _.
  change (present = path_exists p (disk s2)) in Hpresent. rewrite Hd2, (replaceable_exists _ _ _ _ _ Hp) in Hpresent.
  apply ends_still; [apply still_settings_root|done|]. intros root s4 Hroot Hd4.
  apply (settings_root_ok _ _ _ _ _ Hp _ _ _ _ Hd2 Hpresent) in Hroot. rewrite Hd2 in Hd4.
  apply ends_answer. destruct (install_goes _ _ _ _ _ Hp ("failed to stage settings in " +:+ display muse)
    ("failed to install isolated settings at " +:+ display p) (pretty_document (JObject (pin_settings base_url root))) s4 Hd4)
    as (r & s' & post & pre & Hg & Hpre & Hpost & Hr).
  exists r, s', (post ++ pre). split; [exact Hg|]. exists post, pre, root. split_and!; [done..|].
  intros q. destruct r as [[]|]; [|done]. intros [= <-]. auto.
Qed.
End Seed.

(** ** A profile and its settings *)

Section Witness.
Let process : Process := {| geteuid := 501; umask := 18; working_directory := []; pid := 77; strerror := fun _ => "" |}.
Let temporaries : TempFiles := {| temporary_file_name := fun _ => ".tmpAB12" |}.
Let json : SerdeJson :=
  {| from_str := fun text => if String.eqb text "{}" then Ok (JObject []) else Err "expected value"; to_string := fun _ => "{}" |}.
Let pretty : SerdePretty := {| to_vec_pretty := fun v => if is_object v then to_bytes "{...}" else [] |}.
Let env : Environment := list_to_map [("HOME", "/home/me")].
Let directories : StockDirectories :=
  {| app_home := "/home/me/muse-codex"; config_home := "/home/me/muse-codex/stock-config"; data_home := "/home/me/muse-codex/stock-data" |}.
Let inode (m : N) (t : FileType) : Inode := {| file_type := t; mode := m; uid := 501 |}.
Let disk0 : Fs :=
  {| names := list_to_map [(["home"], 1%N); (["home"; "me"], 2%N)];
     inodes := list_to_map [(1%N, inode 493 Directory); (2%N, inode 493 Directory)] |}.
Let disk1 : Fs :=
  {| names := list_to_map [(["c"], 1%N); (["c"; "muse"], 2%N); (["c"; "muse"; "settings.json"], 3%N)];
     inodes := list_to_map [(1%N, inode 448 Directory); (2%N, inode 448 Directory); (3%N, inode 384 (Regular (to_bytes "{}")))] |}.

Lemma profile_private_witness :
  exists s', run_io (create_private (PR:=process) directories env) (boot disk0 []) = (Ok tt, s')
    /\ private_at (PR:=process) "/home/me/muse-codex/stock-data" (disk s').
Proof.
  assert (Hwf : well_formed disk0) by (apply well_formed_decided; vm_compute; reflexivity).
  pose proof (profile_private (PR:=process) directories env (boot disk0 []) Hwf) as H.
  assert (Hrun : (run_io (create_private (PR:=process) directories env) (boot disk0 [])).1 = Ok tt) by (vm_compute; reflexivity).
  destruct (run_io (create_private (PR:=process) directories env) (boot disk0 [])) as [r s'].
  cbn [fst] in Hrun. subst r. exists s'. split; [reflexivity|].
  destruct H as [_ H]. destruct (H eq_refl) as (_ & _ & _ & _ & _ & Hd). exact Hd.
Defined.

Lemma settings_replaced_witness :
  exists s', run_io (seed_stock_settings (PR:=process) (TF:=temporaries) (SJ:=json) (SP:=pretty) "/c" "http://127.0.0.1:9/v1")
               (boot disk1 [Proceed; Proceed; Proceed; Proceed; Proceed; Proceed; Proceed; Short 2]) = (Ok "/c/muse/settings.json", s')
    /\ entry (disk s') ["c"; "muse"; "settings.json"] = Some (private_file (PR:=process) (to_bytes "{...}" ++ [LF])).
Proof.
  set (s := boot disk1 [Proceed; Proceed; Proceed; Proceed; Proceed; Proceed; Proceed; Short 2]).
  assert (Hp : replaceable (PR:=process) (TF:=temporaries) (disk s) (path_join "/c" "muse") (path_join (path_join "/c" "muse") "settings.json")
                 ["c"; "muse"; "settings.json"] ["c"; "muse"; ".tmpAB12"]).
  { split; [apply well_formed_decided; vm_compute; reflexivity|vm_compute; reflexivity..|split; vm_compute; reflexivity| |vm_compute; reflexivity|discriminate].
    intros old. vm_compute. by intros [= <-]. }
  assert (Hconfig : exists found, stat (PR:=process) false "/c" (disk s) = Ok found) by (vm_compute; eexists; reflexivity).
  assert (Hmuse : exists found, stat (PR:=process) false (path_join "/c" "muse") (disk s) = Ok found) by (vm_compute; eexists; reflexivity).
  destruct Hconfig as [f Hconfig], Hmuse as [f' Hmuse].
  destruct (settings_replaced (PR:=process) (TF:=temporaries) (SJ:=json) (SP:=pretty) "/c" "http://127.0.0.1:9/v1" s _ _ f f' Hconfig Hmuse Hp)
    as (r & s' & through & Hg & post & pre & root & -> & _ & Hpost & _ & Hr).
  assert (Hok : (run_io (seed_stock_settings (PR:=process) (TF:=temporaries) (SJ:=json) (SP:=pretty) "/c" "http://127.0.0.1:9/v1") s).1
                = Ok "/c/muse/settings.json") by (vm_compute; reflexivity).
  rewrite (goes_run _ _ _ _ _ Hg) in Hok. cbn [fst] in Hok. subst r. exists s'. split; [exact (goes_run _ _ _ _ _ Hg)|].
  destruct (Hr _ eq_refl) as [_ Hne]. destruct Hpost as [|st post Hst]; [contradiction|].
  rewrite (goes_disk _ _ _ _ _ Hg). exact (proj1 Hst).
Defined.
End Witness.
