(* ===== verification/Discovery.v ===== *)
(** * Finding and checking the two executables

    Models the part of [crates/muse-codex/src/lib.rs] that finds stock Muse and the
    gateway, checks the version of the one and the self-test of the other, maps the
    provider labels of the help, and the [self_test] of the gateway's [main.rs]. What a
    child prints and how it ends is an [Output]. *)

From S2P Require Import Prelude Utf8 Paths Posix Json Catalog AuthHome GatewayMain Gateway LauncherReady LauncherArgs Launcher Profile.
From stdpp Require Import options.

Definition SUPPORTED_MUSE_VERSION : string := "1.0.3-R2198.1".
Definition STOCK_MUSE_BASENAME : string := "muse-bin-1.0.3-R2198.1".
Definition STOCK_MUSE_COMMAND : string := "muse".
Definition GATEWAY_BASENAME : string := "muse-codex-gateway".
Definition SUPPORTED_CODEX_WIRE_VERSION : string := "0.153.4".

(** ** Candidates *)

Record DiscoveryInputs := {
  muse_override : option path;
  gateway_override : option path;
  current_exe : option path;
  install_dir : option path;
  user_home : option path;
  search_path : option OsString
}.
(** [exe] is [env::current_exe().ok()]. *)
Definition from_environment (env : Environment) (exe : option path) : DiscoveryInputs :=
  {| muse_override := env !! "MUSE_CODEX_MUSE_BIN"; gateway_override := env !! "MUSE_CODEX_GATEWAY_BIN";
     current_exe := exe; install_dir := env !! "MUSE_INSTALL_DIR"; user_home := env !! "HOME"; search_path := env !! "PATH" |}.

(** The Unix build. *)
Definition platform_binary_name (base : string) : OsString := base.

Definition is_list_separator (c : ascii) : bool := Ascii.eqb c ":".
Definition path_candidates (search_path : option OsString) (binary_name : OsString) : list path :=
  (fun directory => path_join directory binary_name)
    <$> List.filter (fun directory => negb (is_empty directory))
          (match search_path with Some p => split_str is_list_separator p | None => [] end).

(** Both names in a directory, the versioned one first. *)
Definition muse_names (directory : path) : list path :=
  [path_join directory (platform_binary_name STOCK_MUSE_BASENAME); path_join directory (platform_binary_name STOCK_MUSE_COMMAND)].
Definition muse_candidates (inputs : DiscoveryInputs) : list path :=
  match current_exe inputs ≫= parent with Some directory => muse_names directory | None => [] end
  ++ match install_dir inputs with Some directory => muse_names directory | None => [] end
  ++ match user_home inputs with Some home => muse_names (path_join (path_join home ".local") "bin") | None => [] end
  ++ path_candidates (search_path inputs) (platform_binary_name STOCK_MUSE_BASENAME)
  ++ path_candidates (search_path inputs) (platform_binary_name STOCK_MUSE_COMMAND).
Definition gateway_candidates (inputs : DiscoveryInputs) : list path :=
  match current_exe inputs ≫= parent with Some directory => [path_join directory (platform_binary_name GATEWAY_BASENAME)] | None => [] end
  ++ path_candidates (search_path inputs) (platform_binary_name GATEWAY_BASENAME).

Section Finding.
  Context {PR : Process}.

Definition is_executable (p : path) (fs : Fs) : bool :=
  match stat true p fs with
  | Ok (_, inode) => is_file inode && negb (N.land (mode inode) 73 =? 0)%N
  | Err _ => false
  end.
(** [is_executable] in a run: an error of the call counts as [false]. *)
Definition executable_now (p : path) : io string bool :=
  found ← attempt (query (stat true p));
  mret match found with
       | Ok (_, inode) => is_file inode && negb (N.land (mode inode) 73 =? 0)%N
       | Err _ => false
       end.

Fixpoint first_executable (candidates : list path) : io string (option path) :=
  match candidates with
  | [] => mret None
  | p :: candidates => yes ← executable_now p; if yes : bool then mret (Some p) else first_executable candidates
  end.
Definition require_executable (p : path) (variable : string) : io string path :=
  yes ← executable_now p;
  if yes : bool then mret p
  else lift (Err (variable +:+ " does not point to an executable file: " +:+ display p)).

Definition MUSE_MISSING : string :=
  "Muse Code " +:+ SUPPORTED_MUSE_VERSION
  +:+ " is not installed; install the stock Muse CLI or set MUSE_CODEX_MUSE_BIN to its exact binary".
Definition GATEWAY_MISSING : string :=
  GATEWAY_BASENAME +:+ " was not found beside this executable or on PATH; set MUSE_CODEX_GATEWAY_BIN to override discovery".

Definition discover_stock_muse (inputs : DiscoveryInputs) : io string path :=
  match muse_override inputs with
  | Some p => require_executable p "MUSE_CODEX_MUSE_BIN"
  | None => found ← first_executable (muse_candidates inputs); lift (ok_or found MUSE_MISSING)
  end.
Definition discover_gateway (inputs : DiscoveryInputs) : io string path :=
  match gateway_override inputs with
  | Some p => require_executable p "MUSE_CODEX_GATEWAY_BIN"
  | None => found ← first_executable (gateway_candidates inputs); lift (ok_or found GATEWAY_MISSING)
  end.

(** The candidate is the running launcher itself; the executable is looked up again. *)
Definition is_launcher (exe : option path) (p : path) : io string bool :=
  match exe with
  | None => mret false
  | Some exe =>
      candidate ← attempt (query (canonicalize p));
      launcher ← attempt (query (canonicalize exe));
      mret match candidate, launcher with Ok candidate, Ok launcher => path_eq candidate launcher | _, _ => false end
  end.

End Finding.

(** ** Children that run to completion *)

(** On Unix a process exits or is ended by a signal. *)
Inductive ExitStatus : Type := Exited (code : Z) | Signaled (signal : Z) | Unknown.
Definition exit_status_code (status : ExitStatus) : Z :=
  match status with Exited code => code | Signaled signal => 128 + signal | Unknown => 1 end.
Definition display_exit_status (status : ExitStatus) : string :=
  match status with
  | Exited code => "exit code " +:+ pretty code
  | Signaled signal => "signal " +:+ pretty signal
  | Unknown => "unknown process status"
  end.
Definition success (status : ExitStatus) : bool := match status with Exited code => (code =? 0)%Z | _ => false end.
Record Output := { status : ExitStatus; stdout : bytes; stderr : bytes }.

(** [{:?}] of a string *)
Class DebugStr := { debug_str : string -> string }.

(** [verify_stock_muse_version] on the output of [--version]. *)
Definition check_version {DS : DebugStr} (p : path) (output : Output) : result string unit :=
  reject (negb (success (status output)))
    ("stock Muse version check failed for " +:+ display p +:+ " (" +:+ display_exit_status (status output) +:+ ")");;
  text ← ok_or (from_utf8 (stdout output)) "stock Muse --version output was not UTF-8";
  let actual := trim text in
  reject (negb (String.eqb actual ("Muse Code 1.0.3 (" +:+ SUPPORTED_MUSE_VERSION +:+ ")")))
    ("stock Muse must be exactly " +:+ SUPPORTED_MUSE_VERSION +:+ "; " +:+ display p +:+ " reported " +:+ debug_str actual).

Record GatewaySelfTest := {
  test_status : string;
  ready_schema_version : N;
  wire_compatibility_version : string;
  supported_providers : list string
}.
(** The derived [Deserialize] of the document. *)
Class SelfTestCodec := { self_test_from_slice : bytes -> option GatewaySelfTest }.

(** [verify_gateway_self_test] on the output of [self-test]. *)
Definition check_self_test {TC : SelfTestCodec} (output : Output) : result string unit :=
  reject (negb (success (status output))) ("gateway self-test failed (" +:+ display_exit_status (status output) +:+ ")");;
  reject (4096 <? blen (stdout output))%N "gateway self-test output exceeded the size limit";;
  result ← ok_or (self_test_from_slice (stdout output)) "gateway self-test returned invalid JSON";
  let providers := supported_providers result in
  reject (negb (String.eqb (test_status result) "ok")
          || negb (ready_schema_version result =? GATEWAY_READY_SCHEMA_VERSION)%N
          || negb (String.eqb (wire_compatibility_version result) SUPPORTED_CODEX_WIRE_VERSION)
          || negb (one_of "codex" providers) || negb (one_of "zai" providers))
    "gateway self-test reported an incompatible launcher/gateway protocol".

(** [self_test] of the gateway: what it prints. *)
Definition SUPPORTED_PROVIDERS : list string := ["codex"; "zai"].
Definition self_test_document : value :=
  json_obj [ ("status", JString "ok");
             ("ready_schema_version", jnum READY_SCHEMA_VERSION);
             ("wire_compatibility_version", JString CODEX_WIRE_COMPATIBILITY_VERSION);
             ("supported_providers", JArray (JString <$> SUPPORTED_PROVIDERS)) ].
(** What [self_test] prints, a line. *)
Definition self_test {B64 : Base64} {SJ : SerdeJson} (env : Surroundings) : result anyhow bytes :=
  encoded ← generate_token env;
  reject (match decode_url_safe_no_pad encoded with Some token => negb (blen token =? 32)%N | None => true end)
    [Message "secure token generator self-test failed"];;
  Ok (to_bytes (to_string self_test_document) ++ [LF]).

(** ** Help *)

(** [str::replace] for a pattern that is not empty: matches from left to right. [skip]
    characters belong to the last match. *)
Fixpoint replace_from (skip : nat) (pattern by_ s : string) : string :=
  match s with
  | EmptyString => EmptyString
  | String c rest =>
      match skip with
      | S skip => replace_from skip pattern by_ rest
      | O => if starts_with pattern s then by_ +:+ replace_from (String.length pattern - 1) pattern by_ rest
             else String c (replace_from O pattern by_ rest)
      end
  end.
Definition replace (pattern by_ s : string) : string := replace_from O pattern by_ s.

Definition provider_help : list (string * string) :=
  [ ("muse ", "muse-codex ");
    ("Startup provider: echo or meta (default: meta)", "Startup provider: codex or zai (default: codex)") ].
Definition fast_help : list (string * string) :=
  [ ("          (default: high)" +:+ lf,
     join lf ["          (default: high)"; "      --fast"; "          Use OpenAI Fast mode (priority processing; increased usage)"; ""]);
    (join lf ["Options:"; "  -h, --help"; "          Print this help"; "      --no-session-log"],
     join lf ["Options:"; "      --fast"; "          Use OpenAI Fast mode for every MSP session in this host"; "  -h, --help";
              "          Print this help"; "      --no-session-log"]);
    (join lf ["Options:"; "      --last"; "          Resume the most recent session in this workspace"],
     join lf ["Options:"; "      --fast"; "          Resume this session with OpenAI Fast mode"; "      --last";
              "          Resume the most recent session in this workspace"]) ].
Definition common_help : list (string * string) :=
  [ ("Model id for non-echo providers", "Model id from the active provider catalog");
    ("Meta reasoning effort:", "Model reasoning effort:");
    ("Override the Meta provider base URL", "Override the upstream API base URL");
    ("Override the provider base URL", "Override the upstream API base URL");
    ("Meta API parallel tool calls", "parallel tool calls");
    ("Deterministic echo reply delay (echo provider only)", "Inactive compatibility option; the test provider is unavailable");
    ("Use memory-only sessions", "Unavailable for MSP turns with the pinned Muse 1.0.3 host") ].
Definition replace_all (rules : list (string * string)) (text : string) : string :=
  foldl (fun text rule => replace (fst rule) (snd rule) text) text rules.
Definition rewrite_provider_help_for (data : bytes) (provider : PublicProvider) : bytes :=
  match from_utf8 data with
  | None => data
  | Some text =>
      to_bytes (replace_all
        (provider_help ++ (if bool_decide (provider = PublicCodex) then fast_help else []) ++ common_help) text)
  end.

Example help_of_codex :
  rewrite_provider_help_for (to_bytes ("Usage: muse [OPTIONS]" +:+ lf +:+ "          (default: high)" +:+ lf)) PublicCodex
  = to_bytes (join lf ["Usage: muse-codex [OPTIONS]"; "          (default: high)"; "      --fast";
                       "          Use OpenAI Fast mode (priority processing; increased usage)"; ""]).
Proof. vm_compute. reflexivity. Qed.
Example help_of_zai :
  rewrite_provider_help_for (to_bytes ("muse muse muse" +:+ lf +:+ "          (default: high)" +:+ lf)) PublicZai
  = to_bytes ("muse-codex muse-codex muse" +:+ lf +:+ "          (default: high)" +:+ lf).
Proof. vm_compute. reflexivity. Qed.
