(* ===== verification/Session.v ===== *)
(** * A whole run of the launcher

    Composes the parts of [crates/muse-codex/src/lib.rs]: [run], [run_stock_muse],
    [run_stock_information], [run_gateway_auth], the life of [GatewayProcess] from
    [start] to [drop], and [wait_with_signal_forwarding]. The launcher works on its disk
    through the system calls of [Posix.v]; what its children do is answered by a
    [Machine], which knows all that happened before; what the launcher does to them is
    recorded, the latest first. *)

From S2P Require Import Prelude Utf8 Paths Posix Json AuthHome Auth GatewayMain LauncherReady LauncherArgs Launcher Profile Discovery.
From stdpp Require Import options.

(** ** Processes *)

Inductive Stdio : Type := Null | Inherit | Piped.
Record Command := { program : path; arguments : list OsString; environment : Environment; command_stdin : Stdio; command_stdout : Stdio }.

(** [Alone]: a child other than the gateway and the stock Muse it serves. *)
Inductive role : Type := Gateway | Muse | Alone.
#[export] Instance role_eq_dec : EqDecision role.
Proof. solve_decision. Defined.

Inductive event : Type :=
  | Ran (c : Command)                      (* [Command::output] *)
  | Spawned (r : role) (c : Command)
  | Delivered (data : bytes)               (* the key, on the gateway's standard input *)
  | Accepted (ready : GatewayReady)
  | Terminated (r : role)                  (* SIGTERM *)
  | Killed (r : role)
  | Reaped (r : role)
  | RelayStarted
  | RelayFinished
  | Printed (data : bytes)
  | MadeDirectory (p : path)
  | RemovedDirectory (p : path).

Class Machine := {
  executable_path : option path;                                (* [env::current_exe().ok()] *)
  launcher_pid : N;
  temporary_root : path;                                        (* [env::temp_dir()] *)
  launcher_stdin : result string bytes;
  runs : list event -> Command -> result string Output;
  spawns : list event -> Command -> result string unit;
  takes_key : list event -> bytes -> result string unit;
  gateway_turns : list event -> list Turn;                      (* what each turn of the wait sees *)
  has_exited : list event -> bool;                              (* [try_wait] when the gateway is dropped *)
  exits_in_grace : list event -> bool;                          (* within 500 ms of the signal *)
  forwards_signals : list event -> result string unit;
  waits : list event -> result string ExitStatus;
  relay_starts : list event -> result string unit;
  relay_finishes : list event -> result string unit;
  prints : list event -> bytes -> result string unit
}.

(** ** The monad of a run *)

Record Session := { sys : Sys; events : list event }.
Definition record (e : event) (s : Session) : Session := {| sys := sys s; events := e :: events s |}.

(** [None]: the launcher still waits. *)
Inductive launch (A : Type) : Type := Launch (run : Session -> option (result string A) * Session).
Arguments Launch {A} run.
Definition run_launch {A} (c : launch A) : Session -> option (result string A) * Session := let 'Launch run := c in run.

#[export] Instance launch_ret : MRet launch := fun A a => Launch (fun s => (Some (Ok a), s)).
#[export] Instance launch_bind : MBind launch := fun A B f c =>
  Launch (fun s => match run_launch c s with
                   | (Some (Ok a), s) => run_launch (f a) s
                   | (Some (Err e), s) => (Some (Err e), s)
                   | (None, s) => (None, s)
                   end).
Definition give {A} (r : result string A) : launch A := Launch (fun s => (Some r, s)).
Definition ask {A} (f : list event -> result string A) : launch A := Launch (fun s => (Some (f (events s)), s)).
Definition emit (e : event) : launch unit := Launch (fun s => (Some (Ok tt), record e s)).
Definition on_disk {A} (c : io string A) : launch A :=
  Launch (fun s => let '(r, disk) := run_io c (sys s) in (Some r, {| sys := disk; events := events s |})).
(** The outcome as a value; what is done on an error only; what is done at the end of a
    scope, however it ends. *)
Definition outcome {A} (c : launch A) : launch (result string A) :=
  Launch (fun s => match run_launch c s with (Some r, s) => (Some (Ok r), s) | (None, s) => (None, s) end).
Definition on_error {A} (c : launch A) (cleanup : launch unit) : launch A :=
  r ← outcome c;
  match r with
  | Ok a => mret a
  | Err e => _ ← cleanup; give (Err e)
  end.
Definition finally {A} (c : launch A) (cleanup : launch unit) : launch A :=
  r ← outcome c; _ ← cleanup; give r.
Definition saying {A} (text : string) (c : launch A) : launch A :=
  r ← outcome c; give (map_err (fun _ => text) r).

Section Run.
  Context {PR : Process} {MC : Machine} {TF : TempFiles} {SJ : SerdeJson} {SP : SerdePretty} {B64 : Base64}
          {DS : DebugStr} {TC : SelfTestCodec} {AP : AuthParser}.
  Context (platform : Platform) (races : nat) (env : Environment).

(** ** Children *)

Definition output (c : Command) : launch Output := _ ← emit (Ran c); ask (fun h => runs h c).
Definition spawn (r : role) (c : Command) : launch unit := _ ← ask (fun h => spawns h c); emit (Spawned r c).
(** [let _ = child.kill(); let _ = child.wait();] *)
Definition kill_and_reap (r : role) : launch unit := _ ← emit (Killed r); emit (Reaped r).

Definition wait_with_signal_forwarding (r : role) : launch Z :=
  _ ← on_error (saying "failed to install child signal forwarding" (ask forwards_signals)) (kill_and_reap r);
  status ← on_error (ask waits) (kill_and_reap r);
  _ ← emit (Reaped r);
  mret (exit_status_code status).

(** ** Checks before a session *)

Definition version_command (p : path) : Command :=
  {| program := p; arguments := ["--version"]; environment := scrub_secret_environment (<["MUSE_NO_AUTO_UPDATE" := "1"]> env);
     command_stdin := Null; command_stdout := Piped |}.
Definition verify_stock_muse_version (p : path) : launch unit :=
  itself ← on_disk (is_launcher executable_path p);
  _ ← give (reject itself "MUSE_CODEX_MUSE_BIN must point to stock Muse, not the muse-codex launcher");
  printed ← saying ("failed to inspect stock Muse at " +:+ display p) (output (version_command p));
  give (check_version p printed).

Definition self_test_command (p : path) : Command :=
  {| program := p; arguments := ["self-test"]; environment := scrub_secret_environment env;
     command_stdin := Null; command_stdout := Piped |}.
Definition verify_gateway_self_test (p : path) : launch unit :=
  printed ← saying ("failed to self-test gateway " +:+ display p) (output (self_test_command p));
  give (check_self_test printed).

(** ** The gateway process *)

(** [remove_dir_all], when a [TempDir] is dropped: every name under the directory. *)
Definition remove_dir_all (p : path) (fs : Fs) : result Errno (unit * Fs) :=
  place ← locate false fs p;
  _ ← lookup_at fs place;
  Ok (tt, {| names := filter (fun entry => ~ place `prefix_of` entry.1) (names fs); inodes := inodes fs |}).
Definition drop_directory (p : path) : launch unit :=
  _ ← on_disk (attempt (call (remove_dir_all p))); emit (RemovedDirectory p).

Definition create_gateway_temporary_directory : launch path :=
  p ← on_disk (why "failed to create gateway readiness directory"
                 (name ← query (fun fs => Ok (temporary_file_name fs));
                  let p := path_join temporary_root ("muse-codex-gateway-" +:+ name) in
                  _ ← call (mkdir p 448); mret p));
  _ ← emit (MadeDirectory p);
  _ ← on_error (on_disk (create_private_dir p)) (drop_directory p);
  mret p.

Record GatewayProcess := { temporary_directory : path; gateway_ready : GatewayReady }.

Definition gateway_child (executable : path) (plan : LaunchPlan) (ready_file : path) (api_key : option bytes) : Command :=
  let child := gateway_command plan ready_file launcher_pid api_key env in
  {| program := executable; arguments := child_args child; environment := child_env child;
     command_stdin := if bool_decide (is_Some (child_stdin child)) then Piped else Null; command_stdout := Null |}.

Definition wait_ready (provider : PublicProvider) : launch GatewayReady :=
  Launch (fun s => match wait_for_gateway_ready provider (gateway_turns (events s)) with
                   | None => (None, s)
                   | Some (Ok ready) => (Some (Ok ready), record (Accepted ready) s)
                   | Some (Err e) => (Some (Err e), s)
                   end).

(** [GatewayProcess::start] *)
Definition start (executable : path) (plan : LaunchPlan) (api_key : option bytes) : launch GatewayProcess :=
  directory ← create_gateway_temporary_directory;
  on_error
    (_ ← saying ("failed to start gateway executable " +:+ display executable)
           (spawn Gateway (gateway_child executable plan (path_join directory "ready.json") api_key));
     _ ← match gateway_stdin <$> api_key with
         | Some data =>
             _ ← emit (Delivered data);
             saying "failed to deliver OPENAI_API_KEY to gateway stdin"
               (on_error (ask (fun h => takes_key h data)) (kill_and_reap Gateway))
         | None => mret tt
         end;
     ready ← on_error (wait_ready (plan_provider plan)) (kill_and_reap Gateway);
     mret {| temporary_directory := directory; gateway_ready := ready |})
    (drop_directory directory).

(** [Drop for GatewayProcess], then its fields. *)
Definition drop_gateway (gateway : GatewayProcess) : launch unit :=
  exited ← ask (fun h => Ok (has_exited h));
  _ ← (if exited : bool then emit (Reaped Gateway) else
       _ ← emit (Terminated Gateway);
       gone ← ask (fun h => Ok (exits_in_grace h));
       if gone : bool then emit (Reaped Gateway) else kill_and_reap Gateway);
  drop_directory (temporary_directory gateway).

(** ** Sessions *)

Definition muse_child (stock_muse : path) (plan : LaunchPlan) (directories : StockDirectories) (ready : GatewayReady) : Command :=
  let '(rewritten, muse_env) := muse_command plan directories ready env in
  {| program := stock_muse; arguments := rewritten; environment := muse_env;
     command_stdin := if is_msp rewritten then Piped else if plan_key_on_stdin plan then Null else Inherit;
     command_stdout := if is_msp rewritten then Piped else Inherit |}.

(** The scope of the gateway in [run_stock_muse]: the exit code and the outcome of the
    relay. *)
Definition play (stock_muse : path) (plan : LaunchPlan) (ready : GatewayReady) : launch (result string Z * result string unit) :=
  directories ← give (discover_for platform env (plan_provider plan));
  _ ← on_disk (create_private directories env);
  _ ← on_disk (seed_stock_model_catalog races (data_home directories) (models ready) (default_model ready));
  settings_path ← on_disk (seed_stock_settings (config_home directories) (base_url ready));
  let command := muse_child stock_muse plan directories ready in
  _ ← saying ("failed to run stock Muse " +:+ display stock_muse +:+ " (isolated settings: " +:+ display settings_path +:+ ")")
        (spawn Muse command);
  let msp := is_msp (arguments command) in
  _ ← (if msp then _ ← on_error (ask relay_starts) (kill_and_reap Muse); emit RelayStarted else mret tt);
  code ← outcome (wait_with_signal_forwarding Muse);
  protocol ← (if msp then _ ← emit RelayFinished; outcome (ask relay_finishes) else mret (Ok tt));
  mret (code, protocol).

Definition run_stock_muse (gateway_executable stock_muse : path) (words : list OsString) : launch Z :=
  plan ← give (plan_launch words env);
  api_key ← give (plan_key plan launcher_stdin env);
  gateway ← start gateway_executable plan api_key;
  '(code, protocol) ← finally (play stock_muse plan (gateway_ready gateway)) (drop_gateway gateway);
  _ ← give protocol;
  give code.

Definition run_stock_information (stock_muse : path) (words : list OsString) (provider : PublicProvider) : launch Z :=
  directories ← give (discover_for platform env provider);
  _ ← on_disk (create_private directories env);
  seeded ← on_disk (holds (fun fs => Ok (path_exists (path_join (config_home directories) "muse/settings.json") fs)));
  _ ← (if seeded : bool then mret "" else on_disk (seed_stock_settings (config_home directories) "http://127.0.0.1:9"));
  let '(stock_arguments, stock_env) := information_command words directories env in
  if is_informational_invocation stock_arguments then
    printed ← saying "failed to read stock Muse help"
      (output {| program := stock_muse; arguments := stock_arguments; environment := stock_env; command_stdin := Null; command_stdout := Piped |});
    let text := rewrite_provider_help_for (stdout printed) provider in
    let errors := rewrite_provider_help_for (stderr printed) provider in
    _ ← ask (fun h => prints h text); _ ← emit (Printed text);
    _ ← ask (fun h => prints h errors); _ ← emit (Printed errors);
    mret (exit_status_code (status printed))
  else
    _ ← saying ("failed to run stock Muse " +:+ display stock_muse)
          (spawn Alone {| program := stock_muse; arguments := stock_arguments; environment := stock_env;
                          command_stdin := Inherit; command_stdout := Inherit |});
    wait_with_signal_forwarding Alone.

Definition run_gateway_auth (executable : path) (words : list OsString) : launch Z :=
  _ ← saying ("failed to run " +:+ display executable)
        (spawn Alone {| program := executable; arguments := words; environment := scrub_secret_environment env;
                        command_stdin := Inherit; command_stdout := Inherit |});
  wait_with_signal_forwarding Alone.

(** [print!] and its kin, which panic when they fail; that is not modelled. *)
Definition print (text : string) : launch unit := emit (Printed (to_bytes text)).

(** [run] *)
Definition run_session (words : list OsString) : launch Z :=
  let discovery := from_environment env executable_path in
  invocation ← give (classify_invocation words);
  match invocation with
  | LauncherArgs.Output text code => _ ← print text; mret code
  | GatewayAuth gateway_arguments =>
      gateway ← on_disk (discover_gateway discovery);
      run_gateway_auth gateway gateway_arguments
  | SelfTest =>
      stock_muse ← on_disk (discover_stock_muse discovery);
      _ ← verify_stock_muse_version stock_muse;
      gateway ← on_disk (discover_gateway discovery);
      _ ← verify_gateway_self_test gateway;
      _ ← print ("muse-codex self-test: ok" +:+ lf);
      mret 0%Z
  | LauncherArgs.Muse muse_arguments =>
      stock_muse ← on_disk (discover_stock_muse discovery);
      _ ← verify_stock_muse_version stock_muse;
      if is_informational_invocation muse_arguments || is_local_invocation muse_arguments then
        provider ← give (selected_provider muse_arguments);
        stock_arguments ← give (strip_public_provider_args muse_arguments);
        run_stock_information stock_muse stock_arguments provider
      else
        gateway ← on_disk (discover_gateway discovery);
        run_stock_muse gateway stock_muse muse_arguments
  end.

End Run.
