(* ===== verification/SessionCorrect.v ===== *)
(** * The life of the children in a run of the launcher

    Properties of [Session.v]: the launcher follows a small protocol with its children,
    whatever they answer and whatever call of the system fails. *)

From S2P Require Import Prelude Utf8 Paths Posix PosixCorrect Json AuthHome Auth GatewayMain LauncherReady LauncherArgs Launcher LauncherCorrect Profile Discovery Session.
From stdpp Require Import options.

(** ** The protocol

    The specification of a run, as a state machine over what the launcher does. *)

Inductive phase : Type :=
  | Quiet                                              (* no child, no directory *)
  | Prepared (directory : path)                        (* a directory for the gateway *)
  | Starting (directory : path)                        (* the gateway runs, not ready *)
  | Doomed (directory : path)                          (* killed before it was ready *)
  | Serving (directory : path) (ready : GatewayReady)  (* ready *)
  | Playing (directory : path) (ready : GatewayReady)  (* and stock Muse runs *)
  | Played (directory : path)                          (* stock Muse has ended *)
  | Closing (directory : path)                         (* the gateway was asked to end *)
  | Finished (directory : path)                        (* the gateway has ended *)
  | Lone.                                              (* another child runs *)

(** The secret variables of a child: none, or the gateway's token in one of them. *)
Definition clean (token : option string) (c : Command) : bool :=
  forallb (fun k => bool_decide (environment c !! k = if String.eqb k "META_API_KEY" then token else None)) SECRET_ENVIRONMENT.

Definition step (ph : phase) (e : event) : option phase :=
  match ph, e with
  | Quiet, Ran c => if clean None c then Some Quiet else None
  | Quiet, Printed _ => Some Quiet
  | Quiet, Spawned Alone c => if clean None c then Some Lone else None
  | Lone, Killed Alone => Some Lone
  | Lone, Reaped Alone => Some Quiet
  | Quiet, MadeDirectory p => Some (Prepared p)
  | Prepared p, RemovedDirectory p' => if bool_decide (p = p') then Some Quiet else None
  | Prepared p, Spawned Gateway c => if clean None c then Some (Starting p) else None
  | Starting p, Delivered _ => Some (Starting p)
  | Starting p, Killed Gateway => Some (Doomed p)
  | Doomed p, Reaped Gateway => Some (Finished p)
  | Starting p, Accepted ready => Some (Serving p ready)
  | Serving p ready, Spawned Muse c => if clean (Some (token ready)) c then Some (Playing p ready) else None
  | Playing p ready, RelayStarted => Some (Playing p ready)
  | Playing p ready, Killed Muse => Some (Playing p ready)
  | Playing p _, Reaped Muse => Some (Played p)
  | Played p, RelayFinished => Some (Played p)
  | Serving p _, Reaped Gateway | Played p, Reaped Gateway => Some (Finished p)
  | Serving p _, Terminated Gateway | Played p, Terminated Gateway => Some (Closing p)
  | Closing p, Killed Gateway => Some (Closing p)
  | Closing p, Reaped Gateway => Some (Finished p)
  | Finished p, RemovedDirectory p' => if bool_decide (p = p') then Some Quiet else None
  | _, _ => None
  end.
(** Where a history leads, [None] if it breaks the protocol. *)
Fixpoint replay (history : list event) : option phase :=
  match history with
  | [] => Some Quiet
  | e :: before => ph ← replay before; step ph e
  end.

(** ** Rules *)

(** From a state in [P] the program keeps to the protocol: it ends in [Q], or waits for
    a gateway that is starting. *)
Definition waiting (ph : phase) : Prop := exists p, ph = Starting p.
Definition follows {A} (P : phase -> Prop) (c : launch A) (Q : result string A -> phase -> Prop) : Prop :=
  forall s ph, replay (events s) = Some ph -> P ph ->
  let '(r, s') := run_launch c s in
  exists ph', replay (events s') = Some ph' /\ match r with Some r => Q r ph' | None => waiting ph' end.

Lemma run_launch_bind {A B} (c : launch A) (f : A -> launch B) s :
  run_launch (c ≫= f) s = match run_launch c s with
                          | (Some (Ok a), s) => run_launch (f a) s
                          | (Some (Err e), s) => (Some (Err e), s)
                          | (None, s) => (None, s)
                          end.
Proof. done. Qed.
Lemma follows_bind {A B} P (R : result string A -> phase -> Prop) Q (c : launch A) (f : A -> launch B) :
  follows P c R -> (forall a, follows (R (Ok a)) (f a) Q) -> (forall e ph, R (Err e) ph -> Q (Err e) ph) ->
  follows P (c ≫= f) Q.
Proof.
  intros Hc Hf He s ph Hr HP. specialize (Hc s ph Hr HP). rewrite run_launch_bind.
  destruct (run_launch c s) as [[[a|e]|] s']; destruct Hc as (ph' & Hr' & HR).
  - exact (Hf a s' ph' Hr' HR).
  - exists ph'. auto.
  - by exists ph'.
Qed.
Lemma follows_weaken {A} (P P' : phase -> Prop) (Q Q' : result string A -> phase -> Prop) c :
  (forall ph, P ph -> P' ph) -> (forall r ph, Q' r ph -> Q r ph) -> follows P' c Q' -> follows P c Q.
Proof.
  intros HP HQ Hc s ph Hr Hph. specialize (Hc s ph Hr (HP _ Hph)).
  destruct (run_launch c s) as [[r|] s']; destruct Hc as (ph' & Hr' & HR); exists ph'; auto.
Qed.
Lemma follows_give {A} P (r : result string A) (Q : result string A -> phase -> Prop) :
  (forall ph, P ph -> Q r ph) -> follows P (give r) Q.
Proof. intros H s ph Hr HP. exists ph. auto. Qed.
Lemma follows_ret {A} P (a : A) (Q : result string A -> phase -> Prop) : (forall ph, P ph -> Q (Ok a) ph) -> follows P (mret (M:=launch) a) Q.
Proof. intros H s ph Hr HP. exists ph. auto. Qed.
Lemma follows_ask {A} P (f : list event -> result string A) (Q : result string A -> phase -> Prop) :
  (forall r ph, P ph -> Q r ph) -> follows P (ask f) Q.
Proof. intros H s ph Hr HP. exists ph. auto. Qed.
Lemma follows_disk {A} P (c : io string A) (Q : result string A -> phase -> Prop) :
  (forall r ph, P ph -> Q r ph) -> follows P (on_disk c) Q.
Proof. intros H s ph Hr HP. cbn. destruct (run_io c (sys s)) as [r d]. exists ph. auto. Qed.
Lemma follows_emit P e (Q : result string unit -> phase -> Prop) :
  (forall ph, P ph -> exists ph', step ph e = Some ph' /\ Q (Ok tt) ph') -> follows P (emit e) Q.
Proof.
  intros H s ph Hr HP. destruct (H ph HP) as (ph' & Hs & HQ). exists ph'. cbn. by rewrite Hr.
Qed.
Lemma follows_outcome {A} P (c : launch A) (Q : result string (result string A) -> phase -> Prop) :
  follows P c (fun r => Q (Ok r)) -> follows P (outcome c) Q.
Proof.
  intros Hc s ph Hr HP. specialize (Hc s ph Hr HP). cbn.
  destruct (run_launch c s) as [[r|] s']; exact Hc.
Qed.
Lemma follows_on_error {A} P (c : launch A) cleanup (Q : result string A -> phase -> Prop) (R : phase -> Prop) :
  follows P c (fun r ph => match r with Ok a => Q (Ok a) ph | Err _ => R ph end) ->
  (forall e, follows R cleanup (fun r ph => Q (Err e) ph /\ r = Ok tt)) -> follows P (on_error c cleanup) Q.
Proof.
  intros Hc Hd. unfold on_error. eapply (follows_bind _ (fun r ph => match r with Ok (Ok a) => Q (Ok a) ph | Ok (Err _) => R ph | Err _ => False end)).
  - apply follows_outcome. exact Hc.
  - intros [a|e]; [by apply follows_ret|]. eapply follows_bind; [exact (Hd e)| |by intros ? ? [_ ?]].
    intros []. apply follows_give. by intros ph [? _].
  - done.
Qed.
Lemma follows_finally {A} P (c : launch A) cleanup (Q : result string A -> phase -> Prop) (R : phase -> Prop) :
  follows P c (fun _ => R) -> (forall r, follows R cleanup (fun done ph => Q r ph /\ done = Ok tt)) -> follows P (finally c cleanup) Q.
Proof.
  intros Hc Hd. unfold finally. eapply (follows_bind _ (fun r ph => match r with Ok _ => R ph | Err _ => False end)).
  - apply follows_outcome. exact Hc.
  - intros r. eapply follows_bind; [exact (Hd r)| |by intros ? ? [_ ?]]. intros []. apply follows_give. by intros ph [? _].
  - done.
Qed.
Lemma follows_saying {A} P text (c : launch A) (Q : result string A -> phase -> Prop) :
  follows P c (fun r => Q (map_err (fun _ => text) r)) -> follows P (saying text c) Q.
Proof.
  intros Hc. unfold saying. eapply (follows_bind _ (fun r ph => match r with Ok r => Q (map_err (fun _ => text) r) ph | Err _ => False end)).
  - apply follows_outcome. exact Hc.
  - intros r. by apply follows_give.
  - done.
Qed.

(** ** The parts *)

Definition at_ {A} (ph : phase) : result string A -> phase -> Prop := fun _ ph' => ph' = ph.
Definition done_at (ph : phase) : result string unit -> phase -> Prop := fun r ph' => ph' = ph /\ r = Ok tt.

Lemma clean_scrubbed c e : environment c = scrub_secret_environment e -> clean None c = true.
Proof.
  intros He. apply forallb_forall. intros k Hk. apply bool_decide_eq_true. rewrite He, scrub_secret by (by apply one_of_spec).
  by destruct (String.eqb k "META_API_KEY").
Qed.
Lemma clean_muse plan directories ready env c : environment c = snd (muse_command plan directories ready env) ->
  clean (Some (token ready)) c = true.
Proof.
  intros He. apply forallb_forall. intros k Hk. apply bool_decide_eq_true. rewrite He, muse_secret by (by apply one_of_spec). done.
Qed.

Section Parts.
  Context {PR : Process} {MC : Machine} {TF : TempFiles} {SJ : SerdeJson} {SP : SerdePretty} {B64 : Base64}
          {DS : DebugStr} {TC : SelfTestCodec} {AP : AuthParser}.
  Context (platform : Platform) (races : nat) (env : Environment).

Lemma follows_attempt {E A} P (c : io E A) (Q : result string (result E A) -> phase -> Prop) :
  (forall r ph, P ph -> Q (Ok r) ph) -> follows P (on_disk (attempt c)) Q.
Proof.
  intros H s ph Hr HP. cbn [run_launch on_disk]. rewrite run_attempt. destruct (run_io c (sys s)) as [r d]. exists ph. auto.
Qed.
Lemma output_follows c : clean None c = true -> follows (eq Quiet) (output c) (at_ Quiet).
Proof.
  intros Hc. unfold output. eapply (follows_bind _ (done_at Quiet)); [| |by intros ? ? [_ ?]].
  - apply follows_emit. intros ph <-. exists Quiet. cbn [step]. by rewrite Hc.
  - intros []. apply follows_ask. by intros r ph [-> _].
Qed.
Lemma spawn_follows r c ph ph' : step ph (Spawned r c) = Some ph' ->
  follows (eq ph) (spawn r c) (fun res ph1 => match res with Ok _ => ph1 = ph' | Err _ => ph1 = ph end).
Proof.
  intros Hs. unfold spawn. eapply (follows_bind _ (at_ ph)); [by apply follows_ask| |done].
  intros []. apply follows_emit. intros ? ->. eauto.
Qed.
Lemma kill_and_reap_follows r ph ph1 ph2 : step ph (Killed r) = Some ph1 -> step ph1 (Reaped r) = Some ph2 ->
  follows (eq ph) (kill_and_reap r) (done_at ph2).
Proof.
  intros H1 H2. unfold kill_and_reap. eapply (follows_bind _ (done_at ph1)); [| |by intros ? ? [_ ?]].
  - apply follows_emit. intros ? <-. exists ph1. by split.
  - intros []. apply follows_emit. intros ? [-> _]. exists ph2. by split.
Qed.
Lemma wait_follows r ph ph1 ph2 : step ph (Killed r) = Some ph1 -> step ph1 (Reaped r) = Some ph2 -> step ph (Reaped r) = Some ph2 ->
  follows (eq ph) (wait_with_signal_forwarding r) (at_ ph2).
Proof.
  intros H1 H2 H3. unfold wait_with_signal_forwarding.
  assert (Hkill : forall A (c : launch A), follows (eq ph) c (at_ ph) ->
            follows (eq ph) (on_error c (kill_and_reap r)) (fun res ph' => match res with Ok _ => ph' = ph | Err _ => ph' = ph2 end)).
  { intros A c Hc. eapply (follows_on_error _ _ _ _ (eq ph)).
    - eapply follows_weaken; [by intros ? H; exact H| |exact Hc]. intros [?|?] ? ->; done.
    - intros e. eapply follows_weaken; [by intros ? H; exact H| |by eapply kill_and_reap_follows]. by intros res ph' [-> ->]. }
  eapply (follows_bind _ _ _ _ _ (Hkill _ _ (follows_saying _ _ _ _ (follows_ask _ _ _ (fun _ _ H => eq_sym H))))); [|done].
  intros []. eapply follows_bind.
  - eapply (follows_weaken _ (eq ph)); [intros ? H; symmetry; exact H| |exact (Hkill _ _ (follows_ask _ _ _ (fun _ _ H => eq_sym H)))]. intros res ph' H. exact H.
  - intros status. eapply (follows_bind _ (at_ ph2)); [apply follows_emit; intros ? ->; by exists ph2| |done].
    intros []. apply follows_ret. by intros ? ->.
  - done.
Qed.

(** Ends in one phase when it succeeds, and in another when it fails. *)
Definition splits {A} (good : A -> phase) (bad : phase) : result string A -> phase -> Prop :=
  fun r ph => match r with Ok a => ph = good a | Err _ => ph = bad end.
Lemma follows_eq {A} P ph (Q : result string A -> phase -> Prop) c : (forall ph', P ph' -> ph' = ph) -> follows (eq ph) c Q -> follows P c Q.
Proof. intros HP Hc. eapply follows_weaken; [|by intros r ? H; exact H|exact Hc]. intros ? H. symmetry. auto. Qed.
Lemma cleanup_splits {A} (c : launch A) cleanup ph0 good bad ph : follows (eq ph0) c (splits good bad) -> follows (eq bad) cleanup (done_at ph) ->
  follows (eq ph0) (on_error c cleanup) (splits good ph).
Proof.
  intros Hc Hd. eapply (follows_on_error _ _ _ _ (eq bad)).
  - eapply follows_weaken; [by intros ? H; exact H| |exact Hc]. by intros [a|e] ? ->.
  - intros e. eapply follows_weaken; [by intros ? H; exact H| |exact Hd]. by intros r ? [-> ->].
Qed.
Lemma saying_splits {A} text (c : launch A) ph0 good bad : follows (eq ph0) c (splits good bad) -> follows (eq ph0) (saying text c) (splits good bad).
Proof. intros Hc. apply follows_saying. eapply follows_weaken; [by intros ? H; exact H| |exact Hc]. by intros [a|e]. Qed.
Lemma disk_splits {A} (c : io string A) ph : follows (eq ph) (on_disk c) (splits (fun _ => ph) ph).
Proof. apply follows_disk. by intros [a|e] ? ->. Qed.
Lemma ask_splits {A} (f : list event -> result string A) ph : follows (eq ph) (ask f) (splits (fun _ => ph) ph).
Proof. apply follows_ask. by intros [a|e] ? ->. Qed.
Lemma give_splits {A} (r : result string A) ph : follows (eq ph) (give r) (splits (fun _ => ph) ph).
Proof. apply follows_give. by intros ? ->; destruct r. Qed.
Lemma emit_then {B} e (f : unit -> launch B) ph ph' Q : step ph e = Some ph' -> follows (eq ph') (f tt) Q -> follows (eq ph) (emit e ≫= f) Q.
Proof.
  intros Hs Hf. eapply (follows_bind _ (fun r ph1 => r = Ok tt /\ ph1 = ph')); [|intros []|by intros ? ? [? _]].
  - apply follows_emit. intros ? <-. by exists ph'.
  - eapply follows_eq; [|exact Hf]. by intros ? [_ ->].
Qed.
Lemma follows_either {A} ph1 ph2 (c : launch A) Q : follows (eq ph1) c Q -> follows (eq ph2) c Q -> follows (fun ph => ph = ph1 \/ ph = ph2) c Q.
Proof. intros H1 H2 s ph Hr [->| ->]; [exact (H1 s _ Hr eq_refl)|exact (H2 s _ Hr eq_refl)]. Qed.
Lemma spawn_splits r c ph ph' : step ph (Spawned r c) = Some ph' -> follows (eq ph) (spawn r c) (splits (fun _ => ph') ph).
Proof. intros Hs. exact (spawn_follows _ _ _ _ Hs). Qed.
Lemma ret_splits {A} (a : A) good bad : follows (eq (good a)) (mret (M:=launch) a) (splits good bad).
Proof. apply follows_ret. by intros ? <-. Qed.
(** The sequence of two parts, the first of which fails into [bad]. *)
Lemma bind_splits {A B} (c : launch A) (f : A -> launch B) ph0 good bad (Q : result string B -> phase -> Prop) :
  follows (eq ph0) c (splits good bad) -> (forall a, follows (eq (good a)) (f a) Q) -> (forall e, Q (Err e) bad) -> follows (eq ph0) (c ≫= f) Q.
Proof.
  intros Hc Hf He. eapply follows_bind; [exact Hc| |by intros e ? ->].
  intros a. by eapply follows_eq; [|exact (Hf a)].
Qed.

Lemma drop_directory_follows p ph : step ph (RemovedDirectory p) = Some Quiet -> follows (eq ph) (drop_directory p) (done_at Quiet).
Proof.
  intros Hs. unfold drop_directory.
  eapply (follows_bind _ (fun r ph' => match r with Ok _ => ph' = ph | Err _ => False end)); [by apply follows_attempt| |done].
  intros a. apply follows_emit. intros ? ->. exists Quiet. by split.
Qed.
Lemma create_directory_follows : follows (eq Quiet) create_gateway_temporary_directory (splits Prepared Quiet).
Proof.
  unfold create_gateway_temporary_directory. eapply bind_splits; [apply disk_splits| |done]. intros p.
  eapply emit_then; [done|].
  eapply bind_splits; [eapply cleanup_splits; [apply disk_splits|apply drop_directory_follows; cbn; by rewrite bool_decide_eq_true_2]| |done].
  intros []. exact (ret_splits p Prepared Quiet).
Qed.

Lemma wait_ready_follows provider p : follows (eq (Starting p)) (wait_ready provider) (splits (Serving p) (Starting p)).
Proof.
  intros s ph Hr <-. cbn [run_launch wait_ready]. destruct (wait_for_gateway_ready provider (gateway_turns (events s))) as [[ready|e]|].
  - exists (Serving p ready). cbn. by rewrite Hr.
  - by exists (Starting p).
  - exists (Starting p). split; [done|]. by exists p.
Qed.
Definition serving (gateway : GatewayProcess) : phase := Serving (temporary_directory gateway) (gateway_ready gateway).
Lemma start_follows executable plan api_key : follows (eq Quiet) (start env executable plan api_key) (splits serving Quiet).
Proof.
  unfold start. eapply bind_splits; [apply create_directory_follows| |done]. intros p.
  assert (Hkilled : forall A (c : launch A) good, follows (eq (Starting p)) c (splits good (Starting p)) ->
            follows (eq (Starting p)) (on_error c (kill_and_reap Gateway)) (splits good (Finished p))).
  { intros A c good Hc. eapply cleanup_splits; [exact Hc|]. by apply (kill_and_reap_follows _ _ (Doomed p)). }
  eapply (follows_on_error _ _ _ _ (fun ph => ph = Prepared p \/ ph = Finished p)).
  2: { intros e. apply follows_either; (eapply follows_weaken; [by intros ? H; exact H| |apply drop_directory_follows; cbn; by rewrite bool_decide_eq_true_2]);
       by intros r ? [-> ->]. }
  eapply bind_splits; [apply saying_splits, (spawn_splits _ _ _ (Starting p)); cbn [step]; by rewrite (clean_scrubbed _ env)| |by left]. intros [].
  eapply (bind_splits _ _ _ (fun _ => Starting p) (Finished p)); [|intros []|by right].
  - destruct (gateway_stdin <$> api_key) as [data|]; [|exact (ret_splits tt (fun _ => Starting p) _)].
    eapply emit_then; [done|]. apply saying_splits, Hkilled, ask_splits.
  - eapply bind_splits; [apply Hkilled, wait_ready_follows| |by right]. intros ready. apply follows_ret. by intros ? <-.
Qed.

Lemma drop_gateway_follows gateway ph : step ph (Reaped Gateway) = Some (Finished (temporary_directory gateway)) ->
  step ph (Terminated Gateway) = Some (Closing (temporary_directory gateway)) -> follows (eq ph) (drop_gateway gateway) (done_at Quiet).
Proof.
  intros Hreap Hterm. unfold drop_gateway. set (p := temporary_directory gateway) in *.
  eapply (follows_bind _ (fun r ph' => match r with Ok _ => ph' = ph | Err _ => False end)); [by intros s ? Hr <-; exists ph| |done].
  intros exited. eapply (follows_bind _ (done_at (Finished p))); [| |by intros ? ? [_ ?]].
  - eapply follows_eq; [by intros ? H; exact H|]. destruct exited; [apply follows_emit; intros ? <-; by exists (Finished p)|].
    eapply emit_then; [exact Hterm|].
    eapply (follows_bind _ (fun r ph' => match r with Ok _ => ph' = Closing p | Err _ => False end)); [by intros s ? Hr <-; exists (Closing p)| |done].
    intros gone. eapply follows_eq; [by intros ? H; exact H|].
    destruct gone; [apply follows_emit; intros ? <-; by exists (Finished p)|by apply (kill_and_reap_follows _ _ (Closing p))].
  - intros []. eapply (follows_eq _ (Finished p)); [by intros ? [-> _]|]. apply drop_directory_follows. cbn. by rewrite bool_decide_eq_true_2.
Qed.

Definition over {A} (p : path) (ready : GatewayReady) : result string A -> phase -> Prop :=
  fun _ ph => ph = Serving p ready \/ ph = Played p.
Lemma play_follows stock_muse plan p ready : follows (eq (Serving p ready)) (play platform races env stock_muse plan ready) (over p ready).
Proof.
  unfold play. eapply bind_splits; [apply give_splits| |by left]. intros directories.
  do 2 (eapply bind_splits; [apply disk_splits| |by left]; intros ?).
  eapply bind_splits; [apply disk_splits| |by left]. intros settings_path. cbv zeta.
  set (command := muse_child env stock_muse plan directories ready).
  assert (Hclean : clean (Some (token ready)) command = true).
  { apply (clean_muse plan directories ready env). unfold command, muse_child. by destruct (muse_command plan directories ready env). }
  eapply bind_splits; [apply saying_splits, (spawn_splits _ _ _ (Playing p ready)); cbn [step]; by rewrite Hclean| |by left]. intros [].
  assert (Hwait : forall (A : Type) (f : result string Z -> launch A) Q, (forall code, follows (eq (Played p)) (f code) Q) ->
            follows (eq (Playing p ready)) (code ← outcome (wait_with_signal_forwarding Muse); f code) Q).
  { intros A f Q Hf. eapply (follows_bind _ (fun r ph => match r with Ok _ => ph = Played p | Err _ => False end)); [|intros code|done].
    - apply follows_outcome. by eapply (wait_follows _ _ (Playing p ready)).
    - by eapply follows_eq; [|apply Hf]. }
  eapply (bind_splits _ _ _ (fun _ => Playing p ready) (Played p)); [|intros []|by right].
  - destruct (is_msp (arguments command)); [|exact (ret_splits tt (fun _ => Playing p ready) _)].
    eapply bind_splits; [eapply cleanup_splits; [apply ask_splits|by apply (kill_and_reap_follows _ _ (Playing p ready))]| |done].
    intros []. apply follows_emit. intros ? <-. by exists (Playing p ready).
  - apply Hwait. intros code. destruct (is_msp (arguments command)).
    + eapply (follows_bind _ (fun r ph => match r with Ok _ => ph = Played p | Err _ => False end)); [|intros protocol|done].
      * eapply emit_then; [done|]. apply follows_outcome, follows_ask. by intros r ? <-.
      * apply follows_ret. by right.
    + eapply (follows_bind _ (fun r ph => match r with Ok _ => ph = Played p | Err _ => False end)); [by apply follows_ret|intros protocol|done].
      apply follows_ret. by right.
Qed.

Lemma run_stock_muse_follows gateway_executable stock_muse words :
  follows (eq Quiet) (run_stock_muse platform races env gateway_executable stock_muse words) (at_ Quiet).
Proof.
  unfold run_stock_muse. eapply bind_splits; [apply give_splits| |done]. intros plan.
  eapply bind_splits; [apply give_splits| |done]. intros api_key.
  eapply bind_splits; [apply start_follows| |done]. intros gateway.
  eapply (follows_bind _ (at_ Quiet)); [| |done].
  - eapply (follows_finally _ _ _ _ (fun ph => ph = serving gateway \/ ph = Played (temporary_directory gateway))).
    + eapply follows_weaken; [by intros ? H; exact H| |apply play_follows]. by intros r ? H.
    + intros r. apply follows_either; (eapply follows_weaken; [by intros ? H; exact H| |by apply drop_gateway_follows]); by intros ? ? [-> ->].
  - intros [code protocol]. eapply (follows_bind _ (at_ Quiet)); [by apply follows_give|intros []; by apply follows_give|done].
Qed.

Lemma alone_follows text c : clean None c = true ->
  follows (eq Quiet) (_ ← saying text (spawn Alone c); wait_with_signal_forwarding Alone) (at_ Quiet).
Proof.
  intros Hc. eapply bind_splits; [apply saying_splits, (spawn_splits _ _ _ Lone); cbn [step]; by rewrite Hc| |done]. intros [].
  by eapply (wait_follows _ _ Lone).
Qed.
Lemma output_splits c : clean None c = true -> follows (eq Quiet) (output c) (splits (fun _ => Quiet) Quiet).
Proof. intros Hc. eapply follows_weaken; [by intros ? H; exact H| |by apply output_follows]. by intros [?|?] ? ->. Qed.

Lemma information_follows stock_muse words provider :
  follows (eq Quiet) (run_stock_information platform env stock_muse words provider) (at_ Quiet).
Proof.
  unfold run_stock_information. eapply bind_splits; [apply give_splits| |done]. intros directories.
  eapply bind_splits; [apply disk_splits| |done]. intros ?.
  eapply bind_splits; [apply disk_splits| |done]. intros seeded.
  eapply (bind_splits _ _ _ (fun _ => Quiet) Quiet); [destruct seeded; [exact (ret_splits "" (fun _ => Quiet) _)|apply disk_splits]| |done]. intros ?.
  destruct (information_command words directories env) as [stock_arguments stock_env] eqn:Hcommand.
  assert (He : exists e, stock_env = scrub_secret_environment e) by (unfold information_command in Hcommand; injection Hcommand as _ <-; eauto).
  destruct He as [e ->]. destruct (is_informational_invocation stock_arguments).
  - eapply bind_splits; [apply saying_splits, output_splits; by apply (clean_scrubbed _ e)| |done]. intros printed.
    do 2 (eapply bind_splits; [apply ask_splits| |done]; intros ?; eapply emit_then; [done|]).
    by apply follows_ret.
  - apply alone_follows. by apply (clean_scrubbed _ e).
Qed.

Lemma version_follows p : follows (eq Quiet) (verify_stock_muse_version env p) (splits (fun _ => Quiet) Quiet).
Proof.
  unfold verify_stock_muse_version. eapply bind_splits; [apply disk_splits| |done]. intros itself.
  eapply bind_splits; [apply give_splits| |done]. intros ?.
  eapply bind_splits; [apply saying_splits, output_splits; by eapply clean_scrubbed| |done]. intros printed. apply give_splits.
Qed.
Lemma self_test_follows p : follows (eq Quiet) (verify_gateway_self_test env p) (splits (fun _ => Quiet) Quiet).
Proof.
  unfold verify_gateway_self_test.
  eapply bind_splits; [apply saying_splits, output_splits; by eapply clean_scrubbed| |done]. intros printed. apply give_splits.
Qed.

Lemma run_follows words : follows (eq Quiet) (run_session platform races env words) (at_ Quiet).
Proof.
  unfold run_session. eapply bind_splits; [apply give_splits| |done]. intros [gateway_arguments| |muse_arguments|text code].
  - eapply bind_splits; [apply disk_splits| |done]. intros gateway. unfold run_gateway_auth. apply alone_follows. by eapply clean_scrubbed.
  - eapply bind_splits; [apply disk_splits| |done]. intros stock_muse.
    eapply bind_splits; [apply version_follows| |done]. intros ?.
    eapply bind_splits; [apply disk_splits| |done]. intros gateway.
    eapply bind_splits; [apply self_test_follows| |done]. intros ?. unfold print. eapply emit_then; [done|]. by apply follows_ret.
  - eapply bind_splits; [apply disk_splits| |done]. intros stock_muse.
    eapply bind_splits; [apply version_follows| |done]. intros ?.
    destruct (is_informational_invocation muse_arguments || is_local_invocation muse_arguments).
    + do 2 (eapply bind_splits; [apply give_splits| |done]; intros ?). apply information_follows.
    + eapply bind_splits; [apply disk_splits| |done]. intros gateway. apply run_stock_muse_follows.
  - unfold print. eapply emit_then; [done|]. by apply follows_ret.
Qed.
End Parts.

(** ** The launcher comes back *)

Section Returns.
  Context {PR : Process} {MC : Machine} {TF : TempFiles} {SJ : SerdeJson} {SP : SerdePretty} {B64 : Base64}
          {DS : DebugStr} {TC : SelfTestCodec} {AP : AuthParser}.
  Context (platform : Platform) (races : nat) (env : Environment).

Definition returns {A} (c : launch A) : Prop := forall s, is_Some (run_launch c s).1.
Lemma returns_bind {A B} (c : launch A) (f : A -> launch B) : returns c -> (forall a, returns (f a)) -> returns (c ≫= f).
Proof.
  intros Hc Hf s. rewrite run_launch_bind. specialize (Hc s). destruct (run_launch c s) as [[[a|e]|] s']; [apply Hf|eauto|by destruct Hc].
Qed.
Lemma returns_outcome {A} (c : launch A) : returns c -> returns (outcome c).
Proof. intros Hc s. specialize (Hc s). cbn. destruct (run_launch c s) as [[r|] s']; [eauto|by destruct Hc]. Qed.
Lemma returns_ret {A} (a : A) : returns (mret (M:=launch) a). Proof. intros s. cbn. eauto. Qed.
Lemma returns_give {A} (r : result string A) : returns (give r). Proof. intros s. cbn. eauto. Qed.
Lemma returns_ask {A} (f : list event -> result string A) : returns (ask f). Proof. intros s. cbn. eauto. Qed.
Lemma returns_emit e : returns (emit e). Proof. intros s. cbn. eauto. Qed.
Lemma returns_disk {A} (c : io string A) : returns (on_disk c).
Proof. intros s. cbn. destruct (run_io c (sys s)). eauto. Qed.
Lemma returns_on_error {A} (c : launch A) cleanup : returns c -> returns cleanup -> returns (on_error c cleanup).
Proof.
  intros Hc Hd. apply returns_bind; [by apply returns_outcome|]. intros [a|e]; [apply returns_ret|].
  apply returns_bind; [done|intros; apply returns_give].
Qed.
Lemma returns_finally {A} (c : launch A) cleanup : returns c -> returns cleanup -> returns (finally c cleanup).
Proof.
  intros Hc Hd. apply returns_bind; [by apply returns_outcome|]. intros r. apply returns_bind; [done|intros; apply returns_give].
Qed.
Lemma returns_saying {A} text (c : launch A) : returns c -> returns (saying text c).
Proof. intros Hc. apply returns_bind; [by apply returns_outcome|]. intros r. apply returns_give. Qed.

(** The wait ends at the latest at the first turn that is past the deadline. *)
Lemma wait_loop_deadline selected last script : existsb deadline_passed script = true -> is_Some (wait_loop selected last script).
Proof.
  revert last. induction script as [|t script IH]; intros last Hd; [done|]. cbn [wait_loop existsb] in *.
  destruct (wait_turn selected last t) as [o|last'] eqn:Ht; [eauto|]. apply IH.
  destruct (deadline_passed t) eqn:Hp; [|exact Hd]. exfalso. revert Ht. unfold wait_turn. rewrite Hp.
  destruct (try_wait t) as [st|]; [|done]. destruct (read_gateway_startup_failure _ _) as [[m|]|]; try done.
  destruct st; [done|]. by destruct (LauncherReady.ready_file t) as [[]|].
Qed.
Lemma returns_wait_ready provider : (forall h, existsb deadline_passed (gateway_turns h) = true) -> returns (wait_ready provider).
Proof.
  intros Hd s. destruct (wait_loop_deadline provider None _ (Hd (events s))) as [r Hr].
  cbn. unfold wait_for_gateway_ready. rewrite Hr. destruct r; cbn; eauto.
Qed.
End Returns.

Create HintDb returns.
#[export] Hint Resolve returns_ret returns_give returns_ask returns_emit returns_disk returns_wait_ready : returns.
#[export] Hint Resolve returns_outcome returns_on_error returns_finally returns_saying : returns.
(** Walks a program. *)
Ltac returns :=
  repeat first
    [ apply returns_bind; [|intros ?]
    | apply returns_on_error | apply returns_finally | apply returns_saying | apply returns_outcome
    | solve [eauto with returns]
    | match goal with |- returns (match ?x with _ => _ end) => destruct x end
    | progress cbv beta zeta ].

(** ** Histories *)

Fixpoint alive (r : role) (history : list event) : bool :=
  match history with
  | [] => false
  | Spawned r' _ :: before => if bool_decide (r = r') then true else alive r before
  | Reaped r' :: before => if bool_decide (r = r') then false else alive r before
  | _ :: before => alive r before
  end.
Definition runs_now (r : role) (ph : phase) : bool :=
  match r, ph with
  | Gateway, (Starting _ | Doomed _ | Serving _ _ | Playing _ _ | Played _ | Closing _) => true
  | Muse, Playing _ _ => true
  | Alone, Lone => true
  | _, _ => false
  end.
Lemma replay_alive r history ph : replay history = Some ph -> alive r history = runs_now r ph.
Proof.
  revert ph. induction history as [|e before IH]; intros ph; cbn [replay]; [by intros [= <-]; destruct r|].
  destruct (replay before) as [ph0|]; [|done]. specialize (IH _ eq_refl). cbn [mbind option_bind]. intros Hs.
  destruct ph0, e as [| [] | | |[] |[] |[] | | | | | ]; cbn [step] in Hs; try done.
  all: repeat (case_match; try done); simplify_eq; cbn [alive]; destruct r; by cbn in *.
Qed.
Lemma replay_suffix l history : is_Some (replay (l ++ history)) -> is_Some (replay history).
Proof. induction l as [|e l IH]; [done|]. cbn. intros [ph H]. destruct (replay (l ++ history)); [|done]. by apply IH. Qed.

(** The gateway of a phase was accepted, and commands carry no secret but its token. *)
Definition ready_of (ph : phase) : option GatewayReady :=
  match ph with Serving _ ready | Playing _ ready => Some ready | _ => None end.
Definition started (e : event) : option Command := match e with Spawned _ c | Ran c => Some c | _ => None end.
Lemma replay_commands history ph : replay history = Some ph ->
  (forall ready, ready_of ph = Some ready -> Accepted ready ∈ history)
  /\ (forall e c, e ∈ history -> started e = Some c ->
       clean None c = true \/ exists ready, Accepted ready ∈ history /\ clean (Some (token ready)) c = true).
Proof.
  revert ph. induction history as [|e before IH]; intros ph; cbn [replay]; [intros [= <-]; split; [done|by intros e c ?%not_elem_of_nil]|].
  destruct (replay before) as [ph0|]; [|done]. destruct (IH _ eq_refl) as [IHr IHc]. clear IH. cbn [mbind option_bind]. intros Hs.
  assert (Hready : forall ready, ready_of ph = Some ready -> Accepted ready ∈ e :: before).
  { intros ready Hph. destruct ph0, e as [| [] | | |[] |[] |[] | | | | | ]; cbn [step] in Hs; try done.
    all: repeat (case_match; try done); simplify_eq; cbn in Hph; simplify_eq; first [left|right; by apply IHr]. }
  split; [exact Hready|]. intros e' c [->|Hin]%elem_of_cons Hc.
  - destruct e; try done; injection Hc as ->.
    + left. destruct ph0; cbn [step] in Hs; try done. by destruct (clean None c).
    + destruct ph0, r; cbn [step] in Hs; try done; destruct (clean _ c) eqn:Hclean; try done; [by left..|].
      right. eexists. split; [right; by apply IHr|exact Hclean].
  - destruct (IHc e' c Hin Hc) as [?|(ready & Ha & ?)]; [by left|right]. exists ready. split; [by right|done].
Qed.

Section Lifecycle.
  Context {PR : Process} {MC : Machine} {TF : TempFiles} {SJ : SerdeJson} {SP : SerdePretty} {B64 : Base64}
          {DS : DebugStr} {TC : SelfTestCodec} {AP : AuthParser}.

Lemma returns_run platform races env words :
  (forall h, existsb deadline_passed (gateway_turns h) = true) -> returns (run_session platform races env words).
Proof.
  intros Hd. unfold run_session, run_stock_muse, run_stock_information, run_gateway_auth, verify_stock_muse_version, verify_gateway_self_test,
    output, start, create_gateway_temporary_directory, drop_gateway, drop_directory, play, wait_with_signal_forwarding, kill_and_reap, spawn.
  returns.
Qed.

(** C6: The launcher keeps to its protocol with its children and leaves none behind.
    Whatever the command line, the answers of the children and the failures of system
    calls: what the launcher does is a path of the protocol; when it returns, with a code
    or an error, no child is left, and if it has not returned it is waiting for a gateway
    that is starting, which ends when a turn of that wait is past the deadline. At every
    moment stock Muse runs only beside a gateway whose readiness was accepted; every
    child is started without a secret variable, except for the token of that gateway. *)
Theorem session_lifecycle (platform : Platform) (races : nat) (env : Environment) (words : list OsString) (disk : Sys) :
  let '(answer, s) := run_launch (run_session platform races env words) {| sys := disk; events := [] |} in
  (exists ph, replay (events s) = Some ph /\ (is_Some answer -> ph = Quiet) /\ (answer = None -> waiting ph))
  /\ (is_Some answer -> forall r, alive r (events s) = false)
  /\ ((forall h, existsb deadline_passed (gateway_turns h) = true) -> is_Some answer)
  /\ (forall after before, events s = after ++ before -> alive Muse before = true -> alive Gateway before = true)
  /\ (forall r c, Spawned r c ∈ events s \/ Ran c ∈ events s ->
        clean None c = true \/ exists ready, Accepted ready ∈ events s /\ clean (Some (token ready)) c = true).
Proof.
  pose proof (run_follows platform races env words {| sys := disk; events := [] |} Quiet eq_refl eq_refl) as Hf.
  pose proof (fun Hd => returns_run platform races env words Hd {| sys := disk; events := [] |}) as Hreturns.
  destruct (run_launch _ _) as [answer s]. destruct Hf as (ph & Hr & Hph). split_and!.
  - exists ph. split; [done|]. destruct answer; split; (done || by intros []).
  - intros [a ->] r. rewrite (replay_alive r _ _ Hr), Hph. by destruct r.
  - exact Hreturns.
  - intros after before He Hm. destruct (replay_suffix after before) as [ph' Hr']; [rewrite <- He; eauto|].
    rewrite (replay_alive Gateway _ _ Hr'). rewrite (replay_alive Muse _ _ Hr') in Hm. by destruct ph'.
  - intros r c [Hin|Hin]; by eapply (proj2 (replay_commands _ _ Hr)).
Qed.
End Lifecycle.

(** ** A session *)

Section Example_session.
Let process : Process := {| geteuid := 501; umask := 18; working_directory := []; pid := 77; strerror := fun _ => "os error" |}.
Let temporaries : TempFiles := {| temporary_file_name := fun _ => ".tmpAB12" |}.
Let json : SerdeJson := {| from_str := fun _ => Err "expected value"; to_string := fun _ => "{}" |}.
Let pretty_json : SerdePretty := {| to_vec_pretty := fun _ => to_bytes "{}" |}.
Let base64 : Base64 := {| encode_url_safe := of_bytes; decode_url_safe_no_pad := fun s => Some (to_bytes s); decode_url_safe := fun _ => None |}.
Let debug : DebugStr := {| debug_str := fun s => s |}.
Let self_tests : SelfTestCodec := {| self_test_from_slice := fun _ => None |}.
Let parser : AuthParser := {| parse_auth := fun _ => inr ("", 2%Z) |}.
Let inode (m : N) (t : FileType) : Inode := {| file_type := t; mode := m; uid := 501 |}.
Let disk0 : Fs :=
  {| names := list_to_map [(["home"], 1%N); (["home"; "me"], 2%N); (["bin"], 3%N); (["bin"; "muse"], 4%N); (["bin"; "muse-codex-gateway"], 5%N); (["tmp"], 6%N)];
     inodes := list_to_map [(1%N, inode 493 Directory); (2%N, inode 493 Directory); (3%N, inode 493 Directory);
                            (4%N, inode 493 (Regular [])); (5%N, inode 493 (Regular [])); (6%N, inode 493 Directory)] |}.
Let env : Environment :=
  list_to_map [("HOME", "/home/me"); ("PATH", "/usr/bin:/bin"); ("MUSE_CODEX_HOME", "/home/me/muse-codex"); ("OPENAI_API_KEY", "sk-test")].
Let ready : GatewayReady :=
  {| schema_version := 4; provider := "codex"; base_url := "http://127.0.0.1:4242"; token := of_bytes (repeat "A"%char 32); default_model := "m";
     models := [{| id := "m"; display_name := None; description := None; context_window := None; max_output_tokens := None;
                   supported_reasoning_efforts := []; default_reasoning_effort := None; is_visible := true; is_default := true |}] |}.
Let machine (last : Turn) : Machine :=
  {| executable_path := None; launcher_pid := 12; temporary_root := "/tmp"; launcher_stdin := Ok [];
     runs := fun _ _ => Ok {| status := Exited 0; stdout := to_bytes ("Muse Code 1.0.3 (1.0.3-R2198.1)" +:+ lf); stderr := [] |};
     spawns := fun _ _ => Ok tt; takes_key := fun _ _ => Ok tt;
     gateway_turns := fun _ => [ {| try_wait := Ok None; error_file := Ok None; ready_file := Ok None; deadline_passed := false |}; last ];
     has_exited := fun _ => false; exits_in_grace := fun _ => true; forwards_signals := fun _ => Ok tt; waits := fun _ => Ok (Signaled 2);
     relay_starts := fun _ => Ok tt; relay_finishes := fun _ => Ok tt; prints := fun _ _ => Ok tt |}.
Let name (e : event) : string :=
  match e with
  | Ran _ => "ran" | Spawned Gateway _ => "gateway" | Spawned Muse _ => "muse" | Spawned Alone _ => "alone" | Delivered _ => "key"
  | Accepted _ => "ready" | Terminated _ => "term" | Killed _ => "kill" | Reaped Gateway => "gateway ended" | Reaped Muse => "muse ended"
  | Reaped Alone => "ended" | RelayStarted => "relay" | RelayFinished => "relay ended" | Printed _ => "printed"
  | MadeDirectory _ => "directory" | RemovedDirectory _ => "removed"
  end.
Let session (last : Turn) (words : list OsString) : option (result string Z) * list string :=
  let '(answer, s) := run_launch (run_session (PR:=process) (MC:=machine last) (TF:=temporaries) (SJ:=json) (SP:=pretty_json) (B64:=base64)
                                    (DS:=debug) (TC:=self_tests) (AP:=parser) OtherUnix 1 env words)
                        {| sys := boot disk0 []; events := [] |} in
  (answer, reverse (name <$> events s)).
Let on_time : Turn := {| try_wait := Ok None; error_file := Ok None; ready_file := Ok (Some ready); deadline_passed := false |}.
Let too_late : Turn := {| try_wait := Ok None; error_file := Ok None; ready_file := Ok None; deadline_passed := true |}.

Example session_served :
  session on_time ["exec"; "hello"]
  = (Some (Ok 130%Z), ["ran"; "directory"; "gateway"; "key"; "ready"; "muse"; "muse ended"; "term"; "gateway ended"; "removed"]).
Proof. vm_compute. reflexivity. Qed.
Example session_too_late :
  session too_late ["exec"; "hello"]
  = (Some (Err TIMED_OUT), ["ran"; "directory"; "gateway"; "key"; "kill"; "gateway ended"; "removed"]).
Proof. vm_compute. reflexivity. Qed.
End Example_session.
