(* ===== verification/ExecutablesCorrect.v ===== *)
(** * Which programs a run of the launcher starts

    Properties of [Session.v]: every child is a program found where discovery looks, and
    stock Muse is started only after this very program has reported the pinned version. *)

From S2P Require Import Prelude Utf8 Paths Posix PosixCorrect Json AuthHome Auth GatewayMain LauncherReady LauncherArgs Launcher Profile Discovery Session SessionCorrect.
From stdpp Require Import options.

Section Executables.
  Context {PR : Process} {MC : Machine} {TF : TempFiles} {SJ : SerdeJson} {SP : SerdePretty} {B64 : Base64}
          {DS : DebugStr} {TC : SelfTestCodec} {AP : AuthParser}.
  Context (platform : Platform) (races : nat) (env : Environment).

(** ** Names *)

(** The places of an executable: the override, or else the candidates. *)
Definition place_of (override : option path) (candidates : list path) (p : path) : Prop :=
  match override with Some o => p = o | None => p ∈ candidates end.
Definition muse_place (p : path) : Prop :=
  let inputs := from_environment env executable_path in place_of (muse_override inputs) (muse_candidates inputs) p.
Definition gateway_place (p : path) : Prop :=
  let inputs := from_environment env executable_path in place_of (gateway_override inputs) (gateway_candidates inputs) p.

(** The program has run with [--version] and its answer was accepted. *)
Definition vetted (p : path) (history : list event) : Prop :=
  exists after before printed, history = after ++ Ran (version_command env p) :: before
    /\ runs (Ran (version_command env p) :: before) (version_command env p) = Ok printed /\ check_version p printed = Ok tt.
Definition self_tested (p : path) (history : list event) : Prop :=
  exists after before printed, history = after ++ Ran (self_test_command env p) :: before
    /\ runs (Ran (self_test_command env p) :: before) (self_test_command env p) = Ok printed /\ check_self_test printed = Ok tt.

(** What may be started after a history. *)
Definition permitted (e : event) (before : list event) : Prop :=
  match e with
  | Spawned Muse c => muse_place (program c) /\ vetted (program c) before
  | Spawned Gateway c => gateway_place (program c)
  | Spawned Alone c => gateway_place (program c) \/ (muse_place (program c) /\ vetted (program c) before)
  | Ran c => (muse_place (program c) /\ (c = version_command env (program c) \/ vetted (program c) before))
             \/ (gateway_place (program c) /\ c = self_test_command env (program c))
  | _ => True
  end.
Fixpoint proper (history : list event) : Prop :=
  match history with
  | [] => True
  | e :: before => permitted e before /\ proper before
  end.

Lemma vetted_extends p more history : vetted p history -> vetted p (more ++ history).
Proof. intros (after & before & printed & -> & ?). exists (more ++ after), before, printed. by rewrite <- app_assoc. Qed.

(** ** Rules *)

(** Started with what [P] says of the history, the program starts only what is permitted,
    and [P] stays true; [Q] is what an answer teaches. *)
Definition stable (P : list event -> Prop) : Prop := forall e history, P history -> P (e :: history).
Definition guards {A} (P : list event -> Prop) (c : launch A) (Q : A -> list event -> Prop) : Prop :=
  forall s, proper (events s) -> P (events s) ->
  let '(r, s') := run_launch c s in
  proper (events s') /\ P (events s') /\ (forall a, r = Some (Ok a) -> Q a (events s')).
Abbreviation nothing := (fun _ _ => True).

Lemma guards_bind {A B} P (R : A -> list event -> Prop) Q (c : launch A) (f : A -> launch B) :
  guards P c R -> (forall a, guards (fun h => P h /\ R a h) (f a) Q) -> guards P (c ≫= f) Q.
Proof.
  intros Hc Hf s Hs HP. specialize (Hc s Hs HP). rewrite run_launch_bind.
  destruct (run_launch c s) as [[[a|e]|] s']; destruct Hc as (Hs' & HP' & HR); [|by split_and!..].
  specialize (Hf a s' Hs' (conj HP' (HR a eq_refl))). destruct (run_launch (f a) s'). by destruct Hf as (? & [? _] & ?).
Qed.
(** When the first part teaches nothing. *)
Lemma guards_seq {A B} P Q (c : launch A) (f : A -> launch B) : guards P c nothing -> (forall a, guards P (f a) Q) -> guards P (c ≫= f) Q.
Proof.
  intros Hc Hf s Hs HP. specialize (Hc s Hs HP). rewrite run_launch_bind.
  destruct (run_launch c s) as [[[a|e]|] s']; destruct Hc as (Hs' & HP' & _); [|by split_and!..]. exact (Hf a s' Hs' HP').
Qed.
Lemma guards_give {A} P (r : result string A) : guards P (give r) nothing.
Proof. intros s Hs HP. by split_and!. Qed.
Lemma guards_ret {A} P (a : A) : guards P (mret (M:=launch) a) nothing.
Proof. intros s Hs HP. by split_and!. Qed.
Lemma guards_ask {A} P (f : list event -> result string A) : guards P (ask f) nothing.
Proof. intros s Hs HP. by split_and!. Qed.
Lemma guards_disk {A} P (c : io string A) (Q : A -> Prop) :
  (forall d a d', run_io c d = (Ok a, d') -> Q a) -> guards P (on_disk c) (fun a _ => Q a).
Proof.
  intros HQ s Hs HP. cbn. destruct (run_io c (sys s)) as [r d] eqn:E. split_and!; [done..|]. intros a [= ->]. by eapply HQ.
Qed.
Lemma guards_disk_any {A} P (c : io string A) : guards P (on_disk c) nothing.
Proof. by apply guards_disk. Qed.
Lemma guards_emit P e : stable P -> (forall h, P h -> permitted e h) -> guards P (emit e) nothing.
Proof. intros Hst He s Hs HP. cbn. split_and!; [auto|auto|by apply Hst|done]. Qed.
Lemma guards_outcome {A} P (c : launch A) Q : guards P c Q -> guards P (outcome c) nothing.
Proof. intros Hc s Hs HP. specialize (Hc s Hs HP). cbn. destruct (run_launch c s) as [[r|] s']; by destruct Hc as (? & ? & _). Qed.
Lemma guards_on_error {A} P (c : launch A) cleanup : guards P c nothing -> guards P cleanup nothing -> guards P (on_error c cleanup) nothing.
Proof.
  intros Hc Hd. apply guards_seq; [by eapply guards_outcome|]. intros [a|e]; [apply guards_ret|].
  apply guards_seq; [done|intros; apply guards_give].
Qed.
Lemma guards_finally {A} P (c : launch A) cleanup : guards P c nothing -> guards P cleanup nothing -> guards P (finally c cleanup) nothing.
Proof. intros Hc Hd. apply guards_seq; [by eapply guards_outcome|]. intros r. apply guards_seq; [done|intros; apply guards_give]. Qed.
Lemma guards_saying {A} P text (c : launch A) : guards P c nothing -> guards P (saying text c) nothing.
Proof. intros Hc. apply guards_seq; [by eapply guards_outcome|]. intros r. apply guards_give. Qed.
Lemma guards_wait_ready P provider : stable P -> guards P (wait_ready provider) nothing.
Proof.
  intros Hst s Hs HP. cbn. destruct (wait_for_gateway_ready _ _) as [[ready|e]|]; cbn; split_and!; try done. by apply Hst.
Qed.


(** ** Discovery *)

Lemma first_executable_in candidates d p d' : run_io (first_executable candidates) d = (Ok (Some p), d') -> p ∈ candidates.
Proof.
  revert d. induction candidates as [|c candidates IH]; intros d; cbn [first_executable]; [by intros (? & _)%run_ret_ok|].
  intros ([|] & d1 & _ & H)%run_bind_ok; [|right; by eapply IH].
  apply run_ret_ok in H as [[= ->] _]. left.
Qed.
Lemma discovered override candidates missing variable d p d' :
  run_io match override with
         | Some o => require_executable o variable
         | None => found ← first_executable candidates; lift (ok_or found missing)
         end d = (Ok p, d') -> place_of override candidates p.
Proof.
  unfold place_of. destruct override as [o|].
  - unfold require_executable. intros ([|] & d1 & _ & H)%run_bind_ok; [by apply run_ret_ok in H as [-> _]|].
    by apply run_lift_ok in H as [H _].
  - intros (found & d1 & H1 & H2)%run_bind_ok. apply run_lift_ok in H2 as [H2%ok_or_ok _]. subst found. by eapply first_executable_in.
Qed.
Lemma guards_discover_muse P : guards P (on_disk (discover_stock_muse (from_environment env executable_path))) (fun p _ => muse_place p).
Proof. apply guards_disk. intros d p d'. apply discovered. Qed.
Lemma guards_discover_gateway P : guards P (on_disk (discover_gateway (from_environment env executable_path))) (fun p _ => gateway_place p).
Proof. apply guards_disk. intros d p d'. apply discovered. Qed.

(** ** Checks *)

Lemma guards_version P p : stable P -> (forall h, P h -> muse_place p) -> guards P (verify_stock_muse_version env p) (fun _ h => vetted p h).
Proof.
  intros Hst Hplace. unfold verify_stock_muse_version. apply guards_seq; [apply guards_disk_any|intros itself].
  apply guards_seq; [apply guards_give|intros []]. intros s Hs HP.
  rewrite run_launch_bind. cbn [run_launch saying outcome output emit ask give].
  set (c := version_command env p) in *. set (h := Ran c :: events s).
  assert (Hproper : proper h) by (split; [left; split; [exact (Hplace _ HP)|by left]|exact Hs]).
  cbn. change (runs (Ran c :: events s) c) with (runs h c). destruct (runs h c) as [printed|e] eqn:Er; cbn.
  - split; [exact Hproper|split; [exact (Hst _ _ HP)|]]. intros [] [= Hc]. exists [], (events s), printed. split_and!; [reflexivity|exact Er|exact Hc].
  - split; [exact Hproper|split; [exact (Hst _ _ HP)|discriminate]].
Qed.
Lemma guards_self_test P p : stable P -> (forall h, P h -> gateway_place p) -> guards P (verify_gateway_self_test env p) nothing.
Proof.
  intros Hst Hplace. unfold verify_gateway_self_test, output. apply guards_seq; [|intros printed; apply guards_give]. apply guards_saying.
  apply guards_seq; [|intros []; apply guards_ask]. apply guards_emit; [exact Hst|]. intros h Hp. right. split; [exact (Hplace _ Hp)|reflexivity].
Qed.

(** Walks a program: what it emits must be permitted. *)
Ltac guards :=
  repeat first
    [ apply guards_give | apply guards_ret | apply guards_ask | apply guards_disk_any | apply guards_wait_ready
    | apply guards_seq; [|intros ?]
    | apply guards_on_error | apply guards_finally | apply guards_saying | eapply (guards_outcome _ _ nothing)
    | apply guards_emit
    | match goal with |- guards _ (match ?x with _ => _ end) _ => destruct x end
    | match goal with |- guards _ (let '(_, _) := ?x in _) _ => destruct x eqn:? end
    | progress cbv beta zeta ].

(** The program of stock Muse, once found and checked. *)
Definition muse_checked (p : path) (h : list event) : Prop := muse_place p /\ vetted p h.

Lemma guards_session P m g words : stable P -> (forall h, P h -> muse_checked m h) -> (forall h, P h -> gateway_place g) ->
  guards P (run_stock_muse platform races env g m words) nothing.
Proof.
  intros Hst Hm Hg.
  unfold run_stock_muse, start, create_gateway_temporary_directory, drop_gateway, drop_directory, play, wait_with_signal_forwarding, kill_and_reap, spawn.
  guards; try exact Hst; try (by intros h H).
  - exact Hg.
  - intros h Hh. exact (Hm h Hh).
Qed.
Lemma guards_information P m words provider : stable P -> (forall h, P h -> muse_checked m h) ->
  guards P (run_stock_information platform env m words provider) nothing.
Proof.
  intros Hst Hm. unfold run_stock_information, output, wait_with_signal_forwarding, kill_and_reap, spawn.
  guards; try exact Hst; try (by intros h H).
  - intros h Hh. left. destruct (Hm h Hh) as [Hp Hv]. split; [exact Hp|by right].
  - intros h Hh. right. exact (Hm h Hh).
Qed.
Lemma guards_auth P g words : stable P -> (forall h, P h -> gateway_place g) -> guards P (run_gateway_auth env g words) nothing.
Proof.
  intros Hst Hg. unfold run_gateway_auth, wait_with_signal_forwarding, kill_and_reap, spawn. guards; try exact Hst; try (by intros h H).
  intros h Hh. left. exact (Hg h Hh).
Qed.

Lemma stable_const (X : Prop) : stable (fun _ => X).
Proof. by intros e h. Qed.
Lemma stable_and P Q : stable P -> stable Q -> stable (fun h => P h /\ Q h).
Proof. intros HP HQ e h [? ?]. split; auto. Qed.
Lemma stable_vetted p : stable (fun h => vetted p h).
Proof. intros e h Hv. exact (vetted_extends p [e] h Hv). Qed.
#[local] Hint Resolve stable_const stable_and stable_vetted : muse.

Lemma guards_run words : guards (fun _ => True) (run_session platform races env words) nothing.
Proof.
  assert (Hst : forall m, stable (fun h => (True /\ muse_place m) /\ vetted m h)) by auto with muse.
  unfold run_session. apply guards_seq; [apply guards_give|intros [gateway_arguments| |muse_arguments|text code]].
  - eapply guards_bind; [apply guards_discover_gateway|intros g]. apply guards_auth; [auto with muse|tauto].
  - eapply guards_bind; [apply guards_discover_muse|intros m].
    eapply guards_bind; [apply guards_version; [auto with muse|tauto]|intros []].
    eapply guards_bind; [apply guards_discover_gateway|intros g]. apply guards_seq; [apply guards_self_test; [auto with muse|tauto]|intros ?].
    unfold print. guards; auto with muse; done.
  - eapply guards_bind; [apply guards_discover_muse|intros m].
    eapply guards_bind; [apply guards_version; [auto with muse|tauto]|intros []].
    destruct (is_informational_invocation muse_arguments || is_local_invocation muse_arguments).
    + do 2 (apply guards_seq; [apply guards_give|intros ?]). apply guards_information; [auto with muse|]. intros h [[_ ?] ?]. by split.
    + eapply guards_bind; [apply guards_discover_gateway|intros g]. apply guards_session; [auto with muse| |tauto]. intros h [[[_ ?] ?] _]. by split.
  - unfold print. guards; auto with muse; done.
Qed.

Lemma proper_permitted history : proper history -> forall after e before, history = after ++ e :: before -> permitted e before.
Proof.
  intros H after. revert history H. induction after as [|e' after IH]; intros history H e before ->; [by destruct H|].
  destruct H as [_ H]. exact (IH _ H _ _ eq_refl).
Qed.

(** C22: Every program a run of the launcher starts was found where discovery looks, the
    override or a candidate directory. Stock Muse is started,
    for a session or for an answer of its own, only when this very program has before
    been run with [--version], succeeded, and reported the pinned version in UTF-8; the
    gateway is run alone only to test or to sign in. This holds for every command line,
    whatever the children answer and whatever calls fail. *)
Theorem executables_checked (words : list OsString) (disk : Sys) :
  let '(_, s) := run_launch (run_session platform races env words) {| sys := disk; events := [] |} in
  forall after e before, events s = after ++ e :: before ->
    match e with
    | Spawned Muse c => muse_place (program c) /\ vetted (program c) before
    | Spawned Gateway c => gateway_place (program c)
    | Spawned Alone c => gateway_place (program c) \/ (muse_place (program c) /\ vetted (program c) before)
    | Ran c => (muse_place (program c) /\ (c = version_command env (program c) \/ vetted (program c) before))
               \/ (gateway_place (program c) /\ c = self_test_command env (program c))
    | _ => True
    end.
Proof.
  pose proof (guards_run words {| sys := disk; events := [] |} I I) as H. destruct (run_launch _ _) as [r s]. destruct H as [H _].
  exact (proper_permitted _ H).
Qed.

End Executables.
