(* ===== verification/Host.v ===== *)
(** * Stock Muse as a child of the launcher

    Models what runs beside stock Muse in a session: the relay's threads and how they end
    ([MspRelay], [relay_client_input], [relay_server_output], [write_stdout], [join_relay],
    [terminate_child] of [crates/muse-codex/src/msp.rs]), the thread that forwards signals
    and the wait for the child ([SignalForwarder], [wait_with_signal_forwarding] and the
    end of [run_stock_muse] in [crates/muse-codex/src/lib.rs]).

    The launcher's main thread, its three helpers, stock Muse, the caller and the kernel
    interleave in any order. A step is an [Action] of one of them; [step] is the executable
    step function, [None] where the action cannot happen. What is written and read is a
    frame at a time, as [read_frame] cuts it; the frames themselves are those of [Msp.v]. *)

From S2P Require Import Prelude Json Msp.
From S2P Require Discovery.
From stdpp Require Import options.

(** ** State *)

(** [relay_client_input]; a frame on its way to the host carries the id under which the
    table holds it. *)
Inductive Input : Type :=
  | NoInput                                      (* a session without relay *)
  | InputReading
  | InputWriting (b : bytes) (key : option string)
  | InputReplying (b : bytes)
  | InputFailed (e : string)                     (* the loop has failed, the signal is not sent *)
  | InputOver (r : R unit).
(** [relay_server_output] *)
Inductive Output : Type :=
  | NoOutput
  | OutputReading
  | OutputWriting (b : bytes)
  | OutputFailed (e : string)
  | OutputOver (r : R unit).

Abbreviation Signal := N.
Definition SIGHUP : Signal := 1.
Definition SIGINT : Signal := 2.
Definition SIGQUIT : Signal := 3.
Definition SIGKILL : Signal := 9.
Definition SIGTERM : Signal := 15.
Definition FORWARDED : list Signal := [SIGINT; SIGTERM; SIGHUP; SIGQUIT].

(** [SignalForwarder]: the signals caught and not yet taken, the one its thread holds. *)
Inductive Forwarder : Type :=
  | NotInstalled
  | Forwarding (caught : gset Signal) (taken : option Signal)
  | Closing (taken : option Signal)              (* [handle.close()], the thread not joined *)
  | Joined.

Inductive Main : Type :=
  | Installing                                   (* inside [SignalForwarder::new] *)
  | Waiting                                      (* [child.wait()] *)
  | Killed (e : string)                          (* [child.kill()], then [child.wait()] again *)
  | Dropping (r : R Z)                           (* [_signals] goes out of scope *)
  | Finishing (r : R Z)                          (* [MspRelay::finish], joining the output *)
  | Checking (r : R Z) (output : R unit)         (* [self.input.is_finished()] *)
  | Done (r : R Z).

Inductive Child : Type := Alive | Ended (status : Discovery.ExitStatus) | Reaped (status : Discovery.ExitStatus).
(** Whom a signal to the child's pid reaches. *)
Inductive Target : Type := TheChild | Stranger.

(** A write of a frame: all of it, or its first [n] bytes and then an error. *)
Inductive Written : Type := Whole (b : bytes) | Torn (b : bytes) (n : nat).
Definition written_frame (w : Written) : bytes := match w with Whole b | Torn b _ => b end.
Inductive Side : Type := Reply | Relayed.

(** What the processes and threads share: the table, and the four ends of the pipes. The
    frames sent are all there were; [_read] of them have been read. The caller stalls when it
    leaves its full pipe unread: a write to it does not return then, unless it fails. *)
Record Pipes := {
  requests : PendingRequests;
  client_sent : list bytes;
  client_read : nat;
  client_closed : bool;
  host_sent : list bytes;
  host_read : nat;
  host_closed : bool;
  to_host : list (Written * option string);
  to_client : list (Side * Written);
  client_stalled : bool
}.
Record Host := {
  main : Main;
  forwarder : Forwarder;
  input : Input;
  output : Output;
  child : Child;
  pipes : Pipes;
  signals : list (Signal * Target)
}.

Definition set_main (m : Main) (h : Host) : Host :=
  {| main := m; forwarder := forwarder h; input := input h; output := output h; child := child h;
     pipes := pipes h; signals := signals h |}.
Definition set_forwarder (f : Forwarder) (h : Host) : Host :=
  {| main := main h; forwarder := f; input := input h; output := output h; child := child h;
     pipes := pipes h; signals := signals h |}.
Definition set_input (i : Input) (h : Host) : Host :=
  {| main := main h; forwarder := forwarder h; input := i; output := output h; child := child h;
     pipes := pipes h; signals := signals h |}.
Definition set_output (o : Output) (h : Host) : Host :=
  {| main := main h; forwarder := forwarder h; input := input h; output := o; child := child h;
     pipes := pipes h; signals := signals h |}.
Definition set_child (c : Child) (h : Host) : Host :=
  {| main := main h; forwarder := forwarder h; input := input h; output := output h; child := c;
     pipes := pipes h; signals := signals h |}.
Definition set_pipes (p : Pipes) (h : Host) : Host :=
  {| main := main h; forwarder := forwarder h; input := input h; output := output h; child := child h;
     pipes := p; signals := signals h |}.

(** [libc::kill(child_pid, signal)]: once the child is reaped its pid is free, and may be
    that of another process. *)
Definition kill (s : Signal) (h : Host) : Host :=
  {| main := main h; forwarder := forwarder h; input := input h; output := output h; child := child h;
     pipes := pipes h;
     signals := signals h ++ [(s, match child h with Reaped _ => Stranger | _ => TheChild end)] |}.
(** [child.kill()] *)
Definition kill_child (h : Host) : Host :=
  set_child (match child h with Alive => Ended (Discovery.Signaled 9) | c => c end) (kill SIGKILL h).

(** The effects on the pipes. *)
Definition read_client (pending : PendingRequests) (p : Pipes) : Pipes :=
  {| requests := pending; client_sent := client_sent p; client_read := S (client_read p);
     client_closed := client_closed p;
     host_sent := host_sent p; host_read := host_read p; host_closed := host_closed p;
     to_host := to_host p; to_client := to_client p; client_stalled := client_stalled p |}.
Definition read_host (pending : PendingRequests) (p : Pipes) : Pipes :=
  {| requests := pending; client_sent := client_sent p; client_read := client_read p;
     client_closed := client_closed p;
     host_sent := host_sent p; host_read := S (host_read p); host_closed := host_closed p;
     to_host := to_host p; to_client := to_client p; client_stalled := client_stalled p |}.
Definition write_host (w : Written) (key : option string) (p : Pipes) : Pipes :=
  {| requests := requests p; client_sent := client_sent p; client_read := client_read p;
     client_closed := client_closed p;
     host_sent := host_sent p; host_read := host_read p; host_closed := host_closed p;
     to_host := to_host p ++ [(w, key)]; to_client := to_client p; client_stalled := client_stalled p |}.
Definition write_client (side : Side) (w : Written) (p : Pipes) : Pipes :=
  {| requests := requests p; client_sent := client_sent p; client_read := client_read p;
     client_closed := client_closed p;
     host_sent := host_sent p; host_read := host_read p; host_closed := host_closed p;
     to_host := to_host p; to_client := to_client p ++ [(side, w)]; client_stalled := client_stalled p |}.
Definition client_sends (frame : bytes) (p : Pipes) : Pipes :=
  {| requests := requests p; client_sent := client_sent p ++ [frame]; client_read := client_read p;
     client_closed := client_closed p;
     host_sent := host_sent p; host_read := host_read p; host_closed := host_closed p;
     to_host := to_host p; to_client := to_client p; client_stalled := client_stalled p |}.
Definition host_sends (frame : bytes) (p : Pipes) : Pipes :=
  {| requests := requests p; client_sent := client_sent p; client_read := client_read p;
     client_closed := client_closed p;
     host_sent := host_sent p ++ [frame]; host_read := host_read p; host_closed := host_closed p;
     to_host := to_host p; to_client := to_client p; client_stalled := client_stalled p |}.
Definition close_client (p : Pipes) : Pipes :=
  {| requests := requests p; client_sent := client_sent p; client_read := client_read p;
     client_closed := true;
     host_sent := host_sent p; host_read := host_read p; host_closed := host_closed p;
     to_host := to_host p; to_client := to_client p; client_stalled := client_stalled p |}.
Definition close_host (p : Pipes) : Pipes :=
  {| requests := requests p; client_sent := client_sent p; client_read := client_read p;
     client_closed := client_closed p;
     host_sent := host_sent p; host_read := host_read p; host_closed := true; to_host := to_host p;
     to_client := to_client p; client_stalled := client_stalled p |}.
Definition set_stalled (stalled : bool) (p : Pipes) : Pipes :=
  {| requests := requests p; client_sent := client_sent p; client_read := client_read p;
     client_closed := client_closed p;
     host_sent := host_sent p; host_read := host_read p; host_closed := host_closed p;
     to_host := to_host p; to_client := to_client p;
     client_stalled := stalled |}.

Definition empty_pipes : Pipes :=
  {| requests := ∅; client_sent := []; client_read := 0; client_closed := false;
     host_sent := []; host_read := 0; host_closed := false; to_host := []; to_client := [];
     client_stalled := false |}.
(** After [command.spawn()] and, with a relay, [MspRelay::start]. *)
Definition spawned (relay : bool) : Host :=
  {| main := Installing; forwarder := NotInstalled; input := if relay then InputReading else NoInput;
     output := if relay then OutputReading else NoOutput; child := Alive; pipes := empty_pipes; signals := [] |}.

(** ** Steps *)

Inductive Action : Type :=
  (* the main thread *)
  | Install (failed : option string)
  | Wait (failed : option string)
  | CloseForwarder
  | JoinForwarder
  | JoinOutput
  | CheckInput
  (* the forwarder's thread *)
  | TakeSignal (s : Signal)
  | ForwardSignal
  (* the input thread; a failure carries the error, and how much was written *)
  | ReadClient (failed : option string)
  | WriteInput (failed : option (string * nat))
  | TerminateFromInput
  (* the output thread *)
  | ReadHost (failed : option string)
  | WriteOutput (failed : option (string * nat))
  | TerminateFromOutput
  (* outside *)
  | ClientSends (frame : bytes)
  | ClientCloses
  | ClientStalls
  | ClientTakes
  | HostSends (frame : bytes)
  | HostCloses
  | ChildEnds (status : Discovery.ExitStatus)
  | Caught (s : Signal).

Section Host.
  Context {SJ : SerdeJson} (public : string).

(** The id of a request, and of a response, as the table keys it. *)
Definition request_key (frame : bytes) : option string :=
  v ← parse_frame frame; _ ← as_object v ≫= get_str "method"; vget "id" v ≫= rpc_id_key.
Definition response_key (frame : bytes) : option string :=
  v ← parse_frame frame; match vget_str "method" v with Some _ => None | None => vget "id" v ≫= rpc_id_key end.
(** The table once [adapt_server_frame] has looked at it, also when it then fails: a
    response takes its request out, unless its envelope is refused before. *)
Definition valid_envelope (frame : bytes) : bool :=
  is_some_and (fun v => negb (Bool.eqb (bool_decide (is_Some (vget "result" v))) (bool_decide (is_Some (vget "error" v))))) (parse_frame frame).
Definition pending_after (frame : bytes) (pending : PendingRequests) : PendingRequests :=
  match response_key frame with
  | Some key => if valid_envelope frame then delete key pending else pending
  | None => pending
  end.

(** What [finish] makes of the exit code. *)
Definition finished (r : R Z) (output : R unit) (input : option (R unit)) : R Z :=
  output;; match input with Some result => result;; r | None => r end.

Definition main_step (a : Action) (h : Host) : option Host :=
  match a, main h with
  | Install None, Installing => Some (set_main Waiting (set_forwarder (Forwarding ∅ None) h))
  | Install (Some e), Installing => Some (set_main (Killed e) (kill_child h))
  | Wait None, Waiting =>
      match child h with
      | Ended status => Some (set_main (Dropping (Ok (Discovery.exit_status_code status))) (set_child (Reaped status) h))
      | _ => None
      end
  | Wait (Some e), Waiting => Some (set_main (Killed e) (kill_child h))
  | Wait None, Killed e =>
      match child h with Ended status => Some (set_main (Dropping (Err e)) (set_child (Reaped status) h)) | _ => None end
  | Wait (Some _), Killed e => Some (set_main (Dropping (Err e)) h)
  | CloseForwarder, Dropping r =>
      match forwarder h with Forwarding _ taken => Some (set_forwarder (Closing taken) h) | _ => None end
  | JoinForwarder, Dropping r =>
      match forwarder h with
      | Closing None => Some (set_main (Finishing r) (set_forwarder Joined h))
      | NotInstalled => Some (set_main (Finishing r) h)
      | _ => None
      end
  | JoinOutput, Finishing r =>
      match output h with
      | NoOutput => Some (set_main (Done r) h)
      | OutputOver result => Some (set_main (Checking r result) h)
      | _ => None
      end
  | CheckInput, Checking r result =>
      Some (set_main (Done (finished r result (match input h with InputOver result' => Some result' | _ => None end))) h)
  | _, _ => None
  end.

Definition forwarder_step (a : Action) (h : Host) : option Host :=
  match a, forwarder h with
  | TakeSignal s, Forwarding caught None =>
      if bool_decide (s ∈ caught) then Some (set_forwarder (Forwarding (caught ∖ {[s]}) (Some s)) h) else None
  | ForwardSignal, Forwarding caught (Some s) => Some (set_forwarder (Forwarding caught None) (kill s h))
  | ForwardSignal, Closing (Some s) => Some (set_forwarder (Closing None) (kill s h))
  | _, _ => None
  end.

Definition input_step (a : Action) (h : Host) : option Host :=
  let p := pipes h in
  match a, input h with
  | ReadClient None, InputReading =>
      match client_sent p !! client_read p with
      | Some frame =>
          let '(c, pending) := adapt_client_frame frame (requests p) public in
          Some (set_input match c with
                          | Forward b => InputWriting b (request_key frame)
                          | Reject b => InputReplying b
                          | Drop => InputReading
                          end (set_pipes (read_client pending p) h))
      | None => if client_closed p then Some (set_input (InputOver (Ok tt)) h) else None
      end
  | ReadClient (Some e), InputReading => Some (set_input (InputFailed e) h)
  | WriteInput None, InputWriting b key => Some (set_input InputReading (set_pipes (write_host (Whole b) key p) h))
  | WriteInput (Some (e, n)), InputWriting b key => Some (set_input (InputFailed e) (set_pipes (write_host (Torn b n) key p) h))
  | WriteInput None, InputReplying b =>
      if client_stalled p then None else Some (set_input InputReading (set_pipes (write_client Reply (Whole b) p) h))
  | WriteInput (Some (e, n)), InputReplying b => Some (set_input (InputFailed e) (set_pipes (write_client Reply (Torn b n) p) h))
  | TerminateFromInput, InputFailed e => Some (set_input (InputOver (Err e)) (kill SIGTERM h))
  | _, _ => None
  end.

Definition output_step (a : Action) (h : Host) : option Host :=
  let p := pipes h in
  match a, output h with
  | ReadHost None, OutputReading =>
      match host_sent p !! host_read p with
      | Some frame =>
          Some (set_output match adapt_server_frame frame (requests p) public with
                           | Ok (b, _) => OutputWriting b
                           | Err e => OutputFailed e
                           end (set_pipes (read_host (pending_after frame (requests p)) p) h))
      | None => if host_closed p then Some (set_output (OutputOver (Ok tt)) h) else None
      end
  | ReadHost (Some e), OutputReading => Some (set_output (OutputFailed e) h)
  | WriteOutput None, OutputWriting b =>
      if client_stalled p then None else Some (set_output OutputReading (set_pipes (write_client Relayed (Whole b) p) h))
  | WriteOutput (Some (e, n)), OutputWriting b => Some (set_output (OutputFailed e) (set_pipes (write_client Relayed (Torn b n) p) h))
  | TerminateFromOutput, OutputFailed e => Some (set_output (OutputOver (Err e)) (kill SIGTERM h))
  | _, _ => None
  end.

(** The caller writes and closes its end, leaves its pipe full or takes from it; stock Muse, or a process it left its output to,
    writes and closes; stock Muse ends; a signal is caught by the launcher's handler, which
    only [SignalForwarder::new] installs. *)
Definition outside_step (a : Action) (h : Host) : option Host :=
  let p := pipes h in
  match a with
  | ClientSends frame => if client_closed p then None else Some (set_pipes (client_sends frame p) h)
  | ClientCloses => Some (set_pipes (close_client p) h)
  | ClientStalls => Some (set_pipes (set_stalled true p) h)
  | ClientTakes => Some (set_pipes (set_stalled false p) h)
  | HostSends frame => if host_closed p then None else Some (set_pipes (host_sends frame p) h)
  | HostCloses => Some (set_pipes (close_host p) h)
  | ChildEnds status => match child h with Alive => Some (set_child (Ended status) h) | _ => None end
  | Caught s =>
      match forwarder h with
      | Forwarding caught taken => if bool_decide (s ∈ FORWARDED) then Some (set_forwarder (Forwarding (caught ∪ {[s]}) taken) h) else None
      | _ => None
      end
  | _ => None
  end.

Definition step (a : Action) (h : Host) : option Host :=
  match a with
  | Install _ | Wait _ | CloseForwarder | JoinForwarder | JoinOutput | CheckInput => main_step a h
  | TakeSignal _ | ForwardSignal => forwarder_step a h
  | ReadClient _ | WriteInput _ | TerminateFromInput => input_step a h
  | ReadHost _ | WriteOutput _ | TerminateFromOutput => output_step a h
  | _ => outside_step a h
  end.
Fixpoint run (acts : list Action) (h : Host) : option Host :=
  match acts with
  | [] => Some h
  | a :: acts => h' ← step a h; run acts h'
  end.

End Host.
