(* ===== verification/HostCorrect.v ===== *)
(** * The relay's threads keep order, and a session of stock Muse ends with it

    Properties of [Host.v], by induction on how its states are reached: the two relay
    threads deliver in order what the frames of [Msp.v] say, a response never overtakes
    the record of its request, and the launcher returns once stock Muse and its output have
    ended, or is left waiting for one of the things that are named. *)

From S2P Require Import Prelude Json Msp MspCorrect Host.
From S2P Require Discovery.
From stdpp Require Import options.

(** Opens a step: the action, then the phase it needs. *)
Ltac host_step H := open_matches H; try injection H as <-.

Section Host.
  Context {SJ : SerdeJson} (public : string).
  Abbreviation step := (Host.step public).
  Abbreviation run := (Host.run public).

(** The states of a session, when what happens outside is [allowed]. *)
Inductive reaches (allowed : Host -> Action -> Prop) (relay : bool) : Host -> Prop :=
  | reaches_spawned : reaches allowed relay (spawned relay)
  | reaches_step h a h' : reaches allowed relay h -> allowed h a -> step a h = Some h' -> reaches allowed relay h'.
Definition anything (h : Host) (a : Action) : Prop := True.

Lemma reaches_anything allowed relay h : reaches allowed relay h -> reaches anything relay h.
Proof. induction 1 as [|h a h' _ IH _ Hs]; [constructor|]. by eapply reaches_step. Qed.

(** ** What was written *)

Definition is_whole (w : Written) : bool := match w with Whole _ => true | Torn _ _ => false end.
Definition same_side (s s' : Side) : bool := match s, s' with Reply, Reply | Relayed, Relayed => true | _, _ => false end.
Definition writes (s : Side) (p : Pipes) : list Written := snd <$> filter (fun x => same_side s (fst x) = true) (to_client p).
Lemma writes_same s w p : writes s (write_client s w p) = writes s p ++ [w].
Proof. unfold writes. cbn. rewrite filter_app, fmap_app. by destruct s. Qed.
Lemma writes_other s s' w p : same_side s s' = false -> writes s (write_client s' w p) = writes s p.
Proof. intros H. unfold writes. cbn. rewrite filter_app, fmap_app. destruct s, s'; try discriminate H; cbn; apply app_nil_r. Qed.

(** What a thread holds. *)
Definition to_forward (i : Input) : list bytes := match i with InputWriting b _ => [b] | _ => [] end.
Definition to_reply (i : Input) : list bytes := match i with InputReplying b => [b] | _ => [] end.
Definition to_relay (o : Output) : list bytes := match o with OutputWriting b => [b] | _ => [] end.
Definition input_failed (i : Input) : bool := match i with InputFailed _ | InputOver (Err _) => true | _ => false end.
Definition output_failed (o : Output) : bool := match o with OutputFailed _ | OutputOver (Err _) => true | _ => false end.

Definition forwarded (c : ClientFrame) : option bytes := match c with Forward b => Some b | _ => None end.
Definition rejected (c : ClientFrame) : option bytes := match c with Reject b => Some b | _ => None end.

(** The frames of the caller that were read, in order: each was forwarded, answered or
    dropped as [adapt_client_frame] says, and these are the writes of the input thread. *)
Definition client_fifo (h : Host) : Prop :=
  let p := pipes h in
  client_read p <= length (client_sent p)
  /\ exists outcomes,
       Forall2 (fun frame c => exists pending pending', adapt_client_frame frame pending public = (c, pending'))
               (take (client_read p) (client_sent p)) outcomes
       /\ omap forwarded outcomes = (written_frame ∘ fst <$> to_host p) ++ to_forward (input h)
       /\ omap rejected outcomes = (written_frame <$> writes Reply p) ++ to_reply (input h).

(** The frames of the host that were read, in order, with what the table held then: each
    was relayed as [adapt_server_frame] says; the last may have stopped the thread. *)
Definition host_fifo (good : bytes -> PendingRequests -> Prop) (h : Host) : Prop :=
  let p := pipes h in
  exists n, n <= length (host_sent p)
  /\ Forall2 (fun frame b => exists pending, adapt_server_frame frame pending public = Ok (b, pending_after frame pending) /\ good frame pending)
             (take n (host_sent p)) ((written_frame <$> writes Relayed p) ++ to_relay (output h))
  /\ (host_read p = n
      \/ host_read p = S n /\ exists frame pending e, host_sent p !! n = Some frame /\ good frame pending
           /\ adapt_server_frame frame pending public = Err e /\ (output h = OutputFailed e \/ output h = OutputOver (Err e))).

(** A torn frame is the last of its thread, and the input is read to its end before the
    output thread is over. *)
Definition unbroken (h : Host) : Prop :=
  let p := pipes h in
  (input_failed (input h) = false -> Forall is_whole (fst <$> to_host p) /\ Forall is_whole (writes Reply p))
  /\ (output_failed (output h) = false -> Forall is_whole (writes Relayed p))
  /\ (output h = OutputOver (Ok tt) -> host_closed p = true /\ host_read p = length (host_sent p)).

#[local] Arguments writes : simpl never.
#[local] Arguments take : simpl never.

Lemma writes_reply_relayed w p : writes Reply (write_client Relayed w p) = writes Reply p.
Proof. by apply writes_other. Qed.
Lemma writes_relayed_reply w p : writes Relayed (write_client Reply w p) = writes Relayed p.
Proof. by apply writes_other. Qed.

Ltac untouched :=
  first [ reflexivity | assumption | exists []; symmetry; apply app_nil_r | eexists; reflexivity | intros ->; discriminate
        | intros ?; split; first [reflexivity | assumption | congruence] ].

(** What the other threads leave of a thread's state. *)
Lemma input_untouched a h h' : step a h = Some h' ->
  match a with
  | ReadClient _ | WriteInput _ | TerminateFromInput => True
  | _ => input h' = input h /\ client_read (pipes h') = client_read (pipes h) /\ to_host (pipes h') = to_host (pipes h)
         /\ writes Reply (pipes h') = writes Reply (pipes h)
         /\ exists more, client_sent (pipes h') = client_sent (pipes h) ++ more
  end.
Proof.
  intros H. destruct a; try exact I; host_step H; cbn -[adapt_server_frame adapt_client_frame pending_after]; rewrite ?writes_reply_relayed; split_and!; untouched.
Qed.
Lemma output_untouched a h h' : step a h = Some h' ->
  match a with
  | ReadHost _ | WriteOutput _ | TerminateFromOutput => True
  | _ => output h' = output h /\ host_read (pipes h') = host_read (pipes h)
         /\ writes Relayed (pipes h') = writes Relayed (pipes h)
         /\ (host_closed (pipes h) = true -> host_closed (pipes h') = true /\ host_sent (pipes h') = host_sent (pipes h))
         /\ exists more, host_sent (pipes h') = host_sent (pipes h) ++ more
  end.
Proof.
  intros H. destruct a; try exact I; host_step H; cbn -[adapt_server_frame adapt_client_frame pending_after]; rewrite ?writes_relayed_reply; split_and!; untouched.
Qed.

Lemma client_fifo_step a h h' : client_fifo h -> step a h = Some h' -> client_fifo h'.
Proof.
  intros [Hn (outcomes & Hf & Hw & Hr)] Hs. pose proof (input_untouched _ _ _ Hs) as Hsame. unfold client_fifo.
  destruct a.
  all: try (destruct Hsame as (-> & -> & -> & -> & more & ->); rewrite length_app, take_app_le by exact Hn; split; [lia|eauto]).
  all: clear Hsame.
  - host_step Hs. all: cbn in *; try (split; [exact Hn|by eauto]).
    all: match goal with E : client_sent _ !! _ = Some ?f, E' : adapt_client_frame _ _ _ = (?c, _) |- _ =>
           split; [by apply lookup_lt_Some in E|]; exists (outcomes ++ [c]); rewrite (take_S_r _ _ f) by exact E;
           rewrite !omap_app, Hw, Hr, !app_nil_r;
           split; [apply Forall2_app; [exact Hf|by repeat econstructor]|done]
         end.
  - host_step Hs. all: cbn in *; split; [exact Hn|exists outcomes; split; [exact Hf|]].
    all: rewrite ?writes_same, !fmap_app, Hw, Hr; cbn; rewrite ?app_nil_r; done.
  - host_step Hs. all: cbn in *; split; [exact Hn|exists outcomes; split; [exact Hf|done]].
Qed.

(** [pending_after] is what an accepted frame leaves of the table. *)
Lemma adapt_server_pending frame pending b pending' :
  adapt_server_frame frame pending public = Ok (b, pending') -> adapt_server_frame frame pending public = Ok (b, pending_after frame pending).
Proof.
  intros H. rewrite H. do 2 f_equal. revert H. unfold adapt_server_frame, pending_after, response_key, valid_envelope.
  intros (v & Hv%ok_or_ok & H)%bind_ok. rewrite Hv. cbn [mbind option_bind is_some_and].
  apply bind_ok in H as (u & _ & H). apply bind_ok in H as ([[v' c] p] & H & [= _ <-]).
  pose proof (adapt_server_value_ok _ _ _ _ _ _ H) as [_ Hset]. unfold settles in Hset. unfold adapt_server_value in H.
  destruct (vget_str "method" v); [done|]. destruct (vget "id" v ≫= rpc_id_key) as [key|]; [|by destruct Hset].
  destruct Hset as [-> _]. apply bind_ok in H as (u' & Hr%reject_ok & _). by rewrite Hr.
Qed.

Lemma host_fifo_step good a h h' :
  (forall frame, a = ReadHost None -> host_sent (pipes h) !! host_read (pipes h) = Some frame -> output h = OutputReading ->
     good frame (requests (pipes h))) ->
  host_fifo good h -> step a h = Some h' -> host_fifo good h'.
Proof.
  intros Hgood (n & Hn & Hf & Hread) Hs. pose proof (output_untouched _ _ _ Hs) as Hsame. unfold host_fifo.
  destruct a.
  all: try (destruct Hsame as (-> & -> & -> & _ & more & ->); exists n; rewrite length_app, take_app_le by exact Hn; split; [lia|];
            split; [exact Hf|]; destruct Hread as [|[? (f & pending & e & Hl & ?)]]; [by left|right; split; [done|]];
            exists f, pending, e; split; [by apply lookup_app_l_Some|done]).
  all: clear Hsame.
  - host_step Hs. all: cbn in *.
    all: destruct Hread as [Hread|[_ (? & ? & ? & _ & _ & _ & [|])]]; try congruence.
    + exists n. split_and!; [done..|by left].
    + match goal with E : host_sent _ !! _ = Some ?f |- _ => rewrite Hread in E; exists (S n); rewrite (take_S_r _ _ f) by exact E;
        split_and!; [by apply lookup_lt_Some in E| |by left; f_equal] end.
      rewrite app_nil_r in Hf. apply Forall2_app; [exact Hf|]. constructor; [|constructor].
      exists (requests (pipes h)). split; [by eapply adapt_server_pending|]. apply Hgood; by rewrite ?Hread.
    + exists n. split_and!; [done..|]. right. split; [by f_equal|].
      match goal with E : host_sent _ !! _ = Some ?f, E' : adapt_server_frame ?f ?p _ = Err ?e |- _ =>
        exists f, p, e; rewrite Hread in E; split_and!; [done|apply Hgood; by rewrite ?Hread|done|by left] end.
    + exists n. split_and!; [done..|by left].
  - host_step Hs. all: cbn in *.
    all: destruct Hread as [Hread|[_ (? & ? & ? & _ & _ & _ & [|])]]; try congruence.
    all: exists n; split_and!; [done| |by left]; rewrite writes_same, fmap_app; cbn; rewrite ?app_nil_r; exact Hf.
  - host_step Hs. all: cbn in *. exists n. split_and!; [done..|].
    destruct Hread as [Hread|[? (f & pending & e0 & ? & ? & ? & [|])]]; [by left| |congruence].
    right. split; [done|]. exists f, pending, e0. split_and!; try done. right. congruence.
Qed.

Lemma unbroken_step a h h' : host_read (pipes h) <= length (host_sent (pipes h)) -> unbroken h -> step a h = Some h' -> unbroken h'.
Proof.
  intros Hrange (Hin & Hout & Heof) Hs. pose proof (input_untouched _ _ _ Hs) as Hi. pose proof (output_untouched _ _ _ Hs) as Ho. unfold unbroken.
  destruct a.
  all: try (destruct Hi as (-> & _ & -> & -> & _)); try (destruct Ho as (-> & -> & -> & Hc & _)); split_and!; try assumption.
  all: try (intros E; destruct (Heof E) as [Hclosed ?]; destruct (Hc Hclosed) as [-> ->]; split; [reflexivity|assumption]).
  all: host_step Hs; cbn in *; try discriminate; try exact Hin; try exact Hout.
  all: try exact Heof.
  all: rewrite ?writes_same, ?fmap_app, ?Forall_app, ?Forall_singleton; try (intros _).
  - destruct (Hin eq_refl) as [? ?]. split; [split; [assumption|by constructor]|assumption].
  - destruct (Hin eq_refl) as [? ?]. by split.
  - split; [assumption|]. match goal with E : _ !! _ = None |- _ => apply lookup_ge_None in E end. lia.
  - split; [by apply Hout|done].
Qed.

(** ** The table *)

Definition carried (i : Input) : list (option string) := match i with InputWriting _ key => [key] | _ => [] end.
Definition with_key (key : string) (keys : list (option string)) : nat := length (filter (fun k => k = Some key) keys).
#[local] Arguments with_key : simpl never.
Lemma with_key_app key l l' : with_key key (l ++ l') = with_key key l + with_key key l'.
Proof. unfold with_key. by rewrite filter_app, length_app. Qed.

(** The requests the table was given, the requests the host has received, its responses. *)
Definition asked (key : string) (h : Host) : nat := with_key key ((snd <$> to_host (pipes h)) ++ carried (input h)).
Definition received (key : string) (h : Host) : nat := with_key key (snd <$> filter (fun x => is_whole (fst x) = true) (to_host (pipes h))).
Definition answers (key : string) (frames : list bytes) : nat := with_key key (response_key <$> frames).

Lemma received_asked key h : received key h <= asked key h.
Proof.
  unfold received, asked. rewrite with_key_app. assert (forall l : list (Written * option string),
    with_key key (snd <$> filter (fun x => is_whole (fst x) = true) l) <= with_key key (snd <$> l)) as H; [|specialize (H (to_host (pipes h))); lia].
  induction l as [|[w k] l IH]; [done|]. change (with_key key (snd <$> (w, k) :: l)) with (with_key key ([k] ++ (snd <$> l))).
  rewrite filter_cons, with_key_app. case_decide; [|lia].
  change (with_key key (snd <$> (w, k) :: ?l)) with (with_key key ([k] ++ (snd <$> l))). rewrite with_key_app. lia.
Qed.

Definition table (p : PendingRequests) : Relay := {| Msp.requests := p; Msp.to_host := []; Msp.to_client := [] |}.

Lemma request_key_command frame :
  request_key frame = '(v, _) ← command frame; vget "id" v ≫= rpc_id_key.
Proof. unfold request_key, command. destruct (parse_frame frame) as [v|]; [|done]. cbn. by destruct (as_object v ≫= get_str "method"). Qed.
Lemma client_events_key frame p : client_events public frame (table p)
  = match adapt_client_frame frame p public with (Forward _, _) => option_list (Asked <$> request_key frame) | _ => [] end.
Proof.
  rewrite request_key_command. unfold client_events. cbn [Msp.requests table]. destruct (adapt_client_frame frame p public) as [[b|b|] p'].
  all: destruct (command frame) as [[v method]|]; try done. cbn. by destruct (vget "id" v ≫= rpc_id_key).
Qed.
Lemma client_balanced frame p c p' t : adapt_client_frame frame p public = (c, p') -> balanced (table p) t ->
  balanced (table p') (t ++ match c with Forward _ => option_list (Asked <$> request_key frame) | _ => [] end).
Proof.
  intros E H. pose proof (client_step_balanced public frame _ _ H) as Hb. rewrite client_events_key in Hb.
  unfold client_step in Hb. cbn [Msp.requests table] in Hb. rewrite E in Hb. by destruct c.
Qed.
Lemma count_asked key o : count (Asked key) (option_list (Asked <$> o)) = with_key key [o].
Proof.
  destruct o as [k|]; [|done]. change (option_list (Asked <$> Some k)) with [Asked k]. rewrite count_one.
  unfold with_key. rewrite filter_cons, filter_nil. case_bool_decide; case_decide; try done; congruence.
Qed.

Definition settled (frame : bytes) (p : PendingRequests) : list rpc_event :=
  match response_key frame with
  | Some key => if valid_envelope frame && bool_decide (is_Some (p !! key)) then [Settled key] else []
  | None => []
  end.
Lemma host_balanced frame p t : balanced (table p) t -> balanced (table (pending_after frame p)) (t ++ settled frame p).
Proof.
  intros [Hsize Hcount]. unfold pending_after, settled. destruct (response_key frame) as [key|]; [|by rewrite app_nil_r].
  destruct (valid_envelope frame); [|by rewrite app_nil_r]. cbn [andb]. case_bool_decide as Hin.
  - unfold balanced in *. cbn [Msp.requests table] in *. split; [rewrite map_size_delete_Some by done; lia|].
    intros key'. rewrite !count_app, Hcount, (count_one_ne (Asked key')) by done.
    destruct (decide (key = key')) as [->|Hne].
    + destruct Hin as [m Hm]. rewrite count_one_eq, (in_flight_some _ _ m) by done.
      rewrite (in_flight_none (delete key' _)) by apply lookup_delete_eq. lia.
    + rewrite count_one_ne by congruence. rewrite (in_flight_same (delete key p) p) by (by apply lookup_delete_ne). lia.
  - rewrite app_nil_r. unfold balanced in *. cbn [Msp.requests table] in *. by rewrite delete_id by (by apply eq_None_not_Some).
Qed.

Definition known (frame : bytes) (p : PendingRequests) : Prop := forall key, response_key frame = Some key -> is_Some (p !! key).
Definition table_fifo (honest : bool) (h : Host) : Prop :=
  exists t, balanced (table (requests (pipes h))) t /\ (forall key, count (Asked key) t = asked key h)
  /\ (honest = true -> output_failed (output h) = false ->
      forall key, count (Settled key) t = answers key (take (host_read (pipes h)) (host_sent (pipes h)))).
Lemma table_untouched a h h' : step a h = Some h' ->
  match a with
  | ReadClient None | ReadHost None => True
  | _ => requests (pipes h') = requests (pipes h) /\ (forall key, asked key h' = asked key h)
         /\ (output_failed (output h') = false -> output_failed (output h) = false)
         /\ host_read (pipes h') = host_read (pipes h) /\ exists more, host_sent (pipes h') = host_sent (pipes h) ++ more
  end.
Proof.
  intros H. destruct a; try (destruct failed; [|exact I]); host_step H; split_and!; try untouched; try exact (fun k => k).
  all: repeat match goal with E : output _ = _ |- _ => rewrite E end; try untouched; try discriminate.
  all: intros k; unfold asked; cbn; repeat match goal with E : input _ = _ |- _ => rewrite E end; try reflexivity.
  all: rewrite ?app_nil_r, ?fmap_app; try reflexivity.
  cbn in k. by rewrite Heqo in k.
Qed.

Lemma answers_snoc key frames frame : answers key (frames ++ [frame]) = answers key frames + with_key key [response_key frame].
Proof. unfold answers. by rewrite fmap_app, with_key_app. Qed.

Lemma with_key_one key : with_key key [Some key] = 1.
Proof. unfold with_key. by rewrite filter_cons_True. Qed.
Lemma settled_asked key frame p : count (Asked key) (settled frame p) = 0.
Proof. unfold settled. destruct (response_key frame); [|done]. by destruct (_ && _). Qed.
Lemma settled_known key frame p : known frame p -> (is_Some (response_key frame) -> valid_envelope frame = true) ->
  count (Settled key) (settled frame p) = with_key key [response_key frame].
Proof.
  unfold known, settled. intros Hk Hv. destruct (response_key frame) as [key'|]; [|done].
  rewrite Hv, bool_decide_true by eauto. cbn [andb]. rewrite count_one. unfold with_key. rewrite filter_cons, filter_nil.
  case_bool_decide; case_decide; try done; congruence.
Qed.
Lemma accepted_envelope frame p b p' : adapt_server_frame frame p public = Ok (b, p') ->
  is_Some (response_key frame) -> valid_envelope frame = true.
Proof.
  unfold adapt_server_frame, response_key, valid_envelope. intros (v & Hv%ok_or_ok & H)%bind_ok. rewrite Hv. cbn [mbind option_bind is_some_and].
  apply bind_ok in H as (u & _ & H). apply bind_ok in H as (x & H & _). unfold adapt_server_value in H.
  destruct (vget_str "method" v); [by intros []|]. destruct (vget "id" v ≫= rpc_id_key); [|by intros []].
  intros _. apply bind_ok in H as (u' & Hr%reject_ok & _). by rewrite Hr.
Qed.

Lemma table_fifo_step honest a h h' : host_read (pipes h) <= length (host_sent (pipes h)) ->
  (forall frame, honest = true -> a = ReadHost None -> host_sent (pipes h) !! host_read (pipes h) = Some frame -> output h = OutputReading ->
     known frame (requests (pipes h))) ->
  table_fifo honest h -> step a h = Some h' -> table_fifo honest h'.
Proof.
  intros Hle Hknown (t & Hb & Ha & Hsettled) Hs. pose proof (table_untouched _ _ _ Hs) as Hsame.
  assert (Hrest : match a with ReadClient None | ReadHost None => True | _ => table_fifo honest h' end).
  { destruct a; try (destruct failed; [|exact I]);
      destruct Hsame as (Hr & Hk & Ho & Hn & more & Hm); exists t; rewrite Hr, Hn, Hm, take_app_le by exact Hle;
      (split_and!; [exact Hb|intros key; by rewrite Hk|auto]). }
  destruct a; try exact Hrest; destruct failed; try exact Hrest; clear Hrest Hsame; host_step Hs; unfold table_fifo, asked in *; cbn in *.
  - exists (t ++ option_list (Asked <$> request_key l)). split_and!; [exact (client_balanced _ _ _ _ _ Heqp Hb)| |].
    + intros key. by rewrite count_app, Ha, count_asked, Heqi, app_nil_r, with_key_app.
    + intros Hh Ho key. rewrite count_app, (Hsettled Hh Ho). by destruct (request_key l).
  - exists t. split_and!; [by rewrite <- (app_nil_r t); exact (client_balanced _ _ _ _ _ Heqp Hb)|by rewrite Heqi in Ha|done].
  - exists t. split_and!; [by rewrite <- (app_nil_r t); exact (client_balanced _ _ _ _ _ Heqp Hb)|by rewrite Heqi in Ha|done].
  - exists t. split_and!; [exact Hb|by rewrite Heqi in Ha|done].
  - exists (t ++ settled l (requests (pipes h))). split_and!; [by apply host_balanced|intros key; rewrite count_app, Ha, settled_asked; lia|].
    intros Hh _ key. specialize (Hsettled Hh eq_refl). rewrite (take_S_r _ _ l), answers_snoc, count_app, Hsettled by assumption.
    f_equal. apply settled_known; [|by eapply accepted_envelope]. by apply Hknown.
  - exists (t ++ settled l (requests (pipes h))). split_and!; [by apply host_balanced|intros key; rewrite count_app, Ha, settled_asked; lia|done].
  - exists t. split_and!; [exact Hb|exact Ha|exact Hsettled].
Qed.

(** ** An honest host *)

(** It answers a request it has received, once. *)
Definition honest (h : Host) (a : Action) : Prop :=
  match a with
  | HostSends frame => forall key, response_key frame = Some key -> answers key (host_sent (pipes h)) < received key h
  | _ => True
  end.
Definition answered (h : Host) : Prop := forall key, answers key (host_sent (pipes h)) <= received key h.
Lemma received_grows a h h' key : step a h = Some h' -> received key h <= received key h'.
Proof.
  intros H. unfold received. assert (exists more, to_host (pipes h') = to_host (pipes h) ++ more) as [more ->].
  { destruct a; host_step H; untouched. }
  rewrite filter_app, fmap_app, with_key_app. lia.
Qed.
Lemma answered_step a h h' : honest h a -> answered h -> step a h = Some h' -> answered h'.
Proof.
  intros Hh Ha Hs key. specialize (Ha key). pose proof (received_grows _ _ _ key Hs) as Hg.
  destruct a; host_step Hs; try exact (Nat.le_trans _ _ _ Ha Hg). cbn in *. rewrite answers_snoc. specialize (Hh key).
  unfold with_key. rewrite filter_cons, filter_nil. case_decide as E; [|cbn; lia]. specialize (Hh E). cbn. lia.
Qed.

Lemma known_response frame h : answered h -> table_fifo true h -> output h = OutputReading ->
  host_sent (pipes h) !! host_read (pipes h) = Some frame -> known frame (requests (pipes h)).
Proof.
  intros Ha (t & [_ Hb] & Hasked & Hsettled) Ho Hl key Hk. rewrite Ho in Hsettled. specialize (Hsettled eq_refl eq_refl key).
  specialize (Ha key). specialize (Hasked key). specialize (Hb key). pose proof (received_asked key h) as Hr. cbn [Msp.requests table] in Hb.
  rewrite <- (take_drop_middle _ _ _ Hl) in Ha. unfold answers in Ha, Hsettled. rewrite fmap_app, fmap_cons, with_key_app in Ha.
  change (response_key frame :: ?l) with ([response_key frame] ++ l) in Ha. rewrite with_key_app, Hk, with_key_one in Ha.
  destruct (requests (pipes h) !! key) eqn:E; [eauto|]. rewrite in_flight_none in Hb by done. lia.
Qed.

(** ** Every state *)

Record orderly (good : bytes -> PendingRequests -> Prop) (honest : bool) (h : Host) : Prop := {
  orderly_client : client_fifo h;
  orderly_host : host_fifo good h;
  orderly_unbroken : unbroken h;
  orderly_table : table_fifo honest h
}.
Lemma host_fifo_range good h : host_fifo good h -> host_read (pipes h) <= length (host_sent (pipes h)).
Proof. intros (n & Hn & _ & [->|[-> (f & p & e & Hl & _)]]); [done|]. by apply lookup_lt_Some in Hl. Qed.
Lemma orderly_spawned good b relay : orderly good b (spawned relay).
Proof.
  split.
  - split; [done|]. exists []. split_and!; [constructor|by destruct relay..].
  - exists 0. split_and!; [done|by destruct relay; constructor|by left].
  - split_and!; [intros _; split; constructor|constructor|by destruct relay].
  - exists []. split_and!; [|by destruct relay|by destruct relay]. split; [cbn; rewrite map_size_empty; apply Nat.le_0_l|].
    intros key. cbn. by rewrite in_flight_none by apply lookup_empty.
Qed.
Lemma orderly_step good b a h h' :
  (forall frame, a = ReadHost None -> host_sent (pipes h) !! host_read (pipes h) = Some frame -> output h = OutputReading ->
     good frame (requests (pipes h)) /\ (b = true -> known frame (requests (pipes h)))) ->
  orderly good b h -> step a h = Some h' -> orderly good b h'.
Proof.
  intros Hgood [Hc Hh Hu Ht] Hs. pose proof (host_fifo_range _ _ Hh) as Hle. split.
  - by eapply client_fifo_step.
  - eapply host_fifo_step; [|done..]. intros frame Ha Hl Ho. by apply Hgood.
  - by eapply unbroken_step.
  - eapply table_fifo_step; [done| |done..]. intros frame Hb Ha Hl Ho. by apply Hgood.
Qed.
Lemma reaches_orderly allowed relay h : reaches allowed relay h -> orderly (fun _ _ => True) false h.
Proof. induction 1 as [|h a h' _ IH _ Hs]; [apply orderly_spawned|]. by eapply orderly_step. Qed.
Lemma reaches_honest relay h : reaches honest relay h -> orderly known true h /\ answered h.
Proof.
  induction 1 as [|h a h' _ [IH Ha] Hal Hs].
  - split; [apply orderly_spawned|]. intros key. cbn. apply Nat.le_0_l.
  - split; [|by eapply answered_step]. eapply orderly_step; [|done..]. intros frame _ Hl Ho.
    assert (Hk : known frame (requests (pipes h))) by (apply known_response; [done|apply IH|done|done]). done.
Qed.

(** The adapters fail in their own ways only. *)
Definition unknown_request : string := "stock Muse emitted a result with an unknown request id".
Definition spares (f : adapter) : Prop := forall v, f v <> Err unknown_request.
Lemma spares_unchanged : spares unchanged.
Proof. done. Qed.
Lemma spares_provider : spares (adapt_provider public).
Proof. intros v. unfold adapt_provider. by repeat case_match. Qed.
Lemma spares_in_field k f : spares f -> spares (in_field k f).
Proof.
  intros Hf v H. unfold in_field in H. destruct v; try done. destruct (obj_get k m); [|done].
  apply bind_err in H as [H|([? ?] & _ & H)]; [by apply Hf in H|done].
Qed.
Lemma spares_in_items f : spares f -> spares (in_items f).
Proof.
  intros Hf v H. unfold in_items in H. destruct v as [| | | |l|]; try done.
  apply bind_err in H as [H|([? ?] & _ & H)]; [|done]. induction l as [|v l IH]; [done|]. cbn [adapt_all] in H.
  apply bind_err in H as [H|([? ?] & _ & H)]; [by apply Hf in H|]. apply bind_err in H as [H|([? ?] & _ & H)]; [by apply IH|done].
Qed.
Lemma spares_then f g : spares f -> spares g -> spares (then_ f g).
Proof.
  intros Hf Hg v H. unfold then_ in H. apply bind_err in H as [H|([? ?] & _ & H)]; [by apply Hf in H|].
  apply bind_err in H as [H|([? ?] & _ & H)]; [by apply Hg in H|done].
Qed.
#[local] Hint Resolve spares_unchanged spares_provider spares_in_field spares_in_items spares_then : muse.
Lemma spares_notification method : spares (adapt_server_notification method public).
Proof.
  unfold adapt_server_notification, notification_providers, session_provider.
  destruct (one_of method _); [|destruct (String.eqb method _)]; auto with muse.
Qed.
Lemma spares_event : spares (event_providers (adapt_provider public)).
Proof. intros v. unfold event_providers. destruct (vget_str "method" v); [apply spares_notification|done]. Qed.
Lemma spares_result method : spares (adapt_server_result method public).
Proof.
  pose proof spares_event. unfold adapt_server_result, result_providers, session_provider, history_provider.
  destruct (one_of method _); [|repeat destruct (String.eqb method _)]; auto 9 with muse.
Qed.

Lemma known_error frame pending : known frame pending -> adapt_server_frame frame pending public <> Err unknown_request.
Proof.
  unfold known, response_key, adapt_server_frame. intros Hk H. destruct (parse_frame frame) as [v|]; [|discriminate H].
  cbn [mbind option_bind ok_or result_bind] in Hk, H. destruct (is_object v); [|discriminate H]. cbn [negb reject mbind result_bind] in H.
  apply bind_err in H as [H|([[] ] & _ & H)]; [|done]. unfold adapt_server_value in H.
  destruct (vget_str "method" v) as [method|].
  { apply bind_err in H as [H|([] & _ & H)]; [by apply spares_notification in H|done]. }
  destruct (vget "id" v ≫= rpc_id_key) as [key|]; [|by destruct (existsb _ _)].
  apply bind_err in H as [H|(u & _ & H)]; [by destruct (Bool.eqb _ _)|]. destruct (Hk key eq_refl) as [m Hm]. rewrite Hm in H.
  apply bind_err in H as [H|([] & _ & H)]; [|done]. by apply spares_in_field in H; [|apply spares_result].
Qed.

(** ** The end of a session *)

(** A turn of the main thread or of the output thread; the forwarder's last signal. *)
Definition own (a : Action) : bool :=
  match a with
  | Install _ | Wait _ | CloseForwarder | JoinForwarder | JoinOutput | CheckInput | ReadHost _ | WriteOutput _ | TerminateFromOutput => true
  | _ => false
  end.
Definition launcher (a : Action) : bool := own a || match a with ForwardSignal => true | _ => false end.

Definition main_rank (m : Main) : nat :=
  match m with Installing => 13 | Waiting => 8 | Killed _ => 7 | Dropping _ => 4 | Finishing _ => 3 | Checking _ _ => 2 | Done _ => 0 end.
Definition forwarder_rank (f : Forwarder) : nat :=
  match f with Forwarding _ _ => 3 | Closing (Some _) => 2 | Closing None => 1 | _ => 0 end.
Definition output_rank (o : Output) (unread : nat) : nat :=
  match o with OutputReading => 2 * unread + 3 | OutputWriting _ => 2 * unread + 4 | OutputFailed _ => 2 | _ => 0 end.
Definition turns_left (h : Host) : nat :=
  main_rank (main h) + forwarder_rank (forwarder h) + output_rank (output h) (length (host_sent (pipes h)) - host_read (pipes h)).

(** The exit code is that of the child. *)
Definition code_known (h : Host) (r : R Z) : Prop :=
  forall code, r = Ok code -> exists status, child h = Reaped status /\ code = Discovery.exit_status_code status.
Definition not_reaped (c : Child) : bool := match c with Reaped _ => false | _ => true end.
Definition uninstalled (f : Forwarder) : bool := match f with NotInstalled => true | _ => false end.
Definition joined (f : Forwarder) : bool := match f with Joined => true | _ => false end.
(** What holds in each phase of the main thread. *)
Definition staged (relay : bool) (h : Host) : Prop :=
  match main h with
  | Installing => uninstalled (forwarder h) = true /\ not_reaped (child h) = true
  | Waiting | Killed _ => joined (forwarder h) = false /\ not_reaped (child h) = true
  | Dropping r => joined (forwarder h) = false /\ code_known h r
  | Finishing r => code_known h r
  | Checking r o => output h = OutputOver o /\ code_known h r
  | Done r => code_known h r /\ (is_ok r = true -> relay = true -> output h = OutputOver (Ok tt))
  end /\ (relay = true -> output h <> NoOutput).

Lemma finished_ok r o i : is_ok (finished r o i) = true -> o = Ok tt /\ finished r o i = r.
Proof. destruct o as [[]|]; [|discriminate]. unfold finished. cbn. by destruct i as [[[]|]|]; [| |]. Qed.
Lemma code_known_finished h r o i : code_known h r -> code_known h (finished r o i).
Proof. intros H code E. apply H. rewrite <- E. symmetry. apply (finished_ok r o i). by rewrite E. Qed.

Lemma staged_step relay a h h' : staged relay h -> step a h = Some h' -> staged relay h'.
Proof.
  intros [Hm Ho] Hs. unfold staged in *.
  destruct a; host_step Hs; cbn in *.
  all: repeat match goal with E : main _ = _ |- _ => rewrite E in *; clear E end.
  all: try (split; [exact Hm|exact Ho]).
  all: try match goal with |- context [finished] => split; [split; [apply code_known_finished, Hm|intros [-> _]%finished_ok _; by destruct Hm]|exact Ho] end.
  all: unfold code_known in *; cbn in *.
  all: try (destruct Hm as [Hm1 Hm2]; destruct (forwarder h); try discriminate Hm1; destruct (child h); try discriminate Hm2; by split_and!; eauto).
  all: try (split_and!; solve [eauto|apply Hm|done|by destruct Hm|intros code [= <-]; eauto|intros ? H1 H2; by destruct (Ho H2)]).
  all: destruct (main h); try (split_and!; intros; destruct_and?; simplify_eq; try done; eauto).
  all: try (exfalso; by apply Ho). all: try (by apply Ho). all: try congruence.
  all: repeat match goal with H : forall code, Ok _ = Ok code -> _ |- _ => destruct (H _ eq_refl) as (? & ? & ?); clear H end; try done.
  all: try match goal with H : is_ok ?r = true -> _, H' : is_ok ?r = true |- _ => by specialize (H H' eq_refl) end.
  all: try match goal with H : forall code, _ = Ok code -> exists _, _ |- _ => edestruct H as (? & ? & ?); [reflexivity|congruence] end.
  all: congruence.
Qed.
Lemma reaches_staged allowed relay h : reaches allowed relay h -> staged relay h.
Proof. induction 1 as [|h a h' _ IH _ Hs]; [|by eapply staged_step]. split; [done|]. by destruct relay. Qed.

Lemma turns_step a h h' : host_closed (pipes h) = true -> host_read (pipes h) <= length (host_sent (pipes h)) -> step a h = Some h' ->
  host_closed (pipes h') = true /\ (child h <> Alive -> child h' <> Alive)
  /\ turns_left h' + (if own a then 1 else 0) <= turns_left h.
Proof.
  intros Hc Hle Hs. unfold turns_left.
  destruct a; host_step Hs; cbn; try congruence.
  all: repeat match goal with E : main _ = _ |- _ => rewrite E in *; clear E | E : forwarder _ = _ |- _ => rewrite E in *; clear E end.
  all: (split; [assumption || reflexivity|]); (split; [try done; try congruence|]); cbn.
  all: try lia.
  all: try (by destruct (child h)).
  all: try (destruct taken; lia).
  all: try (match goal with E : output _ = _ |- _ => rewrite E end; cbn; lia).
  match goal with E : _ !! _ = Some _ |- _ => apply lookup_lt_Some in E end. lia.
Qed.
Lemma turns_run acts : forall h h', host_closed (pipes h) = true -> orderly (fun _ _ => True) false h -> run acts h = Some h' ->
  host_closed (pipes h') = true /\ orderly (fun _ _ => True) false h' /\ (child h <> Alive -> child h' <> Alive)
  /\ length (filter (fun a => own a = true) acts) + turns_left h' <= turns_left h.
Proof.
  induction acts as [|a acts IH]; intros h h' Hc Ho Hrun; [injection Hrun as <-; split_and!; [done..|cbn; lia]|].
  cbn in Hrun. destruct (step a h) as [h1|] eqn:Hs; [|discriminate]. change (run acts h1 = Some h') in Hrun.
  pose proof (turns_step _ _ _ Hc (host_fifo_range _ _ (orderly_host _ _ _ Ho)) Hs) as (Hc1 & Ha & Ht).
  assert (Ho1 : orderly (fun _ _ => True) false h1) by (eapply orderly_step; done).
  destruct (IH _ _ Hc1 Ho1 Hrun) as (? & ? & Ha' & Ht'). split_and!; [done..|auto|].
  rewrite filter_cons. destruct (decide (own a = true)) as [E|E]; [rewrite E in Ht; cbn [length]; lia|].
  destruct (own a); [done|]. lia.
Qed.

Lemma staged_run relay acts : forall h h', staged relay h -> run acts h = Some h' -> staged relay h'.
Proof.
  induction acts as [|a acts IH]; intros h h' H Hrun; [by injection Hrun as <-|].
  cbn in Hrun. destruct (step a h) as [h1|] eqn:Hs; [|discriminate]. change (run acts h1 = Some h') in Hrun.
  eapply IH; [|done]. by eapply staged_step.
Qed.
Lemma whole_frames ws : Forall is_whole ws -> ws = Whole <$> (written_frame <$> ws).
Proof. induction 1 as [|[b|b n] ws Hw _ IH]; [done| |done]. rewrite !fmap_cons. cbn. by f_equal. Qed.
Lemma relayed_all h : orderly (fun _ _ => True) false h -> output h = OutputOver (Ok tt) ->
  exists bs, writes Relayed (pipes h) = Whole <$> bs
    /\ Forall2 (fun frame b => exists pending, adapt_server_frame frame pending public = Ok (b, pending_after frame pending)) (host_sent (pipes h)) bs.
Proof.
  intros [_ (n & Hn & Hf & Hread) (_ & Hw & Heof) _] Ho. rewrite Ho in *. destruct (Heof eq_refl) as [_ Hr].
  exists (written_frame <$> writes Relayed (pipes h)). split; [by apply whole_frames, Hw|].
  destruct Hread as [Hread|[_ (? & ? & ? & _ & _ & _ & [|])]]; [|discriminate..].
  rewrite take_ge, app_nil_r in Hf by lia. eapply Forall2_impl; [exact Hf|]. intros f b (p & ? & _). by exists p.
Qed.

Lemma reaches_run (allowed : Host -> Action -> Prop) relay acts : Forall (fun a => forall h, allowed h a) acts ->
  forall h h', reaches allowed relay h -> run acts h = Some h' -> reaches allowed relay h'.
Proof.
  induction 1 as [|a acts Ha _ IH]; intros h h' H Hrun; [by injection Hrun as <-|].
  cbn in Hrun. destruct (step a h) as [h1|] eqn:Hs; [|discriminate]. change (run acts h1 = Some h') in Hrun.
  eapply IH; [|done]. by eapply reaches_step.
Qed.

(** What the launcher does next. *)
Definition next (h : Host) : Action :=
  match main h with
  | Installing => Install None
  | Waiting | Killed _ => Wait None
  | Dropping _ => match forwarder h with Forwarding _ _ => CloseForwarder | Closing (Some _) => ForwardSignal | _ => JoinForwarder end
  | Finishing _ =>
      match output h with
      | OutputReading => ReadHost None
      | OutputWriting _ => WriteOutput None
      | OutputFailed _ => TerminateFromOutput
      | _ => JoinOutput
      end
  | Checking _ _ | Done _ => CheckInput
  end.
Definition done (h : Host) : bool := match main h with Done _ => true | _ => false end.
(** A call that fails. *)
Definition fails (a : Action) : bool :=
  match a with Install (Some _) | Wait (Some _) | ReadHost (Some _) | WriteOutput (Some _) => true | _ => false end.
(** What the launcher can be left waiting for: that the output of stock Muse, which a
    process it left behind may hold, is written to or closed; that the caller reads. *)
Inductive held (h : Host) : Prop :=
  | held_by_host r : main h = Finishing r -> output h = OutputReading ->
      host_read (pipes h) = length (host_sent (pipes h)) -> host_closed (pipes h) = false -> held h
  | held_by_caller r b : main h = Finishing r -> output h = OutputWriting b -> client_stalled (pipes h) = true -> held h.

#[local] Instance held_dec h : Decision (held h).
Proof.
  destruct (main h) eqn:Em; try (right; intros [? ? ? ? ?|? ? ? ? ?]; congruence).
  destruct (output h) as [| |b|e|o] eqn:Eo; try (right; intros [? ? ? ? ?|? ? ? ? ?]; congruence).
  - destruct (decide (host_read (pipes h) = length (host_sent (pipes h)))) as [Hr|Hr]; [|right; intros [? ? ? ? ?|? ? ? ? ?]; congruence].
    destruct (host_closed (pipes h)) eqn:Ec; [right; intros [? ? ? ? ?|? ? ? ? ?]; congruence|left; by eapply held_by_host].
  - destruct (client_stalled (pipes h)) eqn:Ec; [left; by eapply held_by_caller|right; intros [? ? ? ? ?|? ? ? ? ?]; congruence].
Defined.
Lemma held_waits h a : held h -> own a = true -> fails a = false -> step a h = None.
Proof.
  intros [r Hm Ho Hr Hc|r b Hm Ho Hs] Ha Hf; destruct a; try discriminate Ha; try discriminate Hf; cbn; rewrite ?Hm, ?Ho, ?Hs; try done.
  all: destruct failed; try discriminate Hf; cbn; rewrite ?Hm, ?Ho, ?Hs; try done.
  by rewrite Hr, (lookup_ge_None_2 _ _ (le_n _)), Hc.
Qed.

Lemma next_step relay h : staged relay h -> child h <> Alive -> host_read (pipes h) <= length (host_sent (pipes h)) -> ~ held h -> done h = false ->
  launcher (next h) = true /\ exists h', step (next h) h = Some h' /\ (own (next h) = false -> turns_left h' < turns_left h).
Proof.
  intros [Hm _] Hchild Hle Hfree Hd. unfold next, done, turns_left in *. destruct (main h) eqn:Em; try discriminate Hd.
  - split; [done|]. eexists. split; [cbn; by rewrite Em|done].
  - split; [done|]. destruct Hm as [_ Hm]. destruct (child h) as [|status|] eqn:Ec; [done| |discriminate Hm].
    eexists. split; [cbn; rewrite Em, Ec; reflexivity|done].
  - split; [done|]. destruct Hm as [_ Hm]. destruct (child h) as [|status|] eqn:Ec; [done| |discriminate Hm].
    eexists. split; [cbn; rewrite Em, Ec; reflexivity|done].
  - destruct Hm as [Hj _]. destruct (forwarder h) as [|caught taken|[s|]|] eqn:Ef; [| | | |discriminate Hj].
    all: split; [reflexivity|]; eexists; split; [cbn; rewrite ?Em, ?Ef; reflexivity|]; try discriminate; intros _; cbn; rewrite Em; cbn; lia.
  - destruct (output h) as [| |b|e|o] eqn:Eo; (split; [reflexivity|]).
    2:{ cbn. rewrite Eo. destruct (_ !! _) eqn:El; [eexists; (split; [reflexivity|discriminate])|].
        apply lookup_ge_None in El. destruct (host_closed (pipes h)) eqn:Ec; [eexists; (split; [reflexivity|discriminate])|].
        destruct Hfree. by eapply held_by_host; [..|lia|]. }
    2:{ cbn. rewrite Eo. destruct (client_stalled (pipes h)) eqn:Es; [destruct Hfree; by eapply held_by_caller|].
        eexists; (split; [reflexivity|discriminate]). }
    all: eexists; split; [cbn; rewrite ?Em, ?Eo; reflexivity|discriminate].
  - split; [done|]. eexists. split; [cbn; by rewrite Em|discriminate].
Qed.
(** The launcher's turns do not make the caller stall. *)
Lemma launcher_stalls a h h' : launcher a = true -> step a h = Some h' -> client_stalled (pipes h') = client_stalled (pipes h).
Proof. intros Ha Hs. destruct a; try discriminate Ha; host_step Hs; done. Qed.

Lemma session_finishes relay n : forall h, turns_left h <= n -> orderly (fun _ _ => True) false h -> staged relay h ->
  child h <> Alive -> host_closed (pipes h) = true -> client_stalled (pipes h) = false ->
  exists acts h' r, length acts <= turns_left h /\ Forall (fun a => launcher a = true) acts /\ run acts h = Some h' /\ main h' = Done r.
Proof.
  induction n as [|n IH]; intros h Hn Ho Hst Hchild Hc Hs0.
  all: destruct (done h) eqn:Hd; [exists []; unfold done in Hd; destruct (main h) eqn:Em; try discriminate Hd; exists h; eexists; split_and!; [cbn; lia|done|done|exact Em]|].
  all: assert (Hfree : ~ held h) by (intros [r _ _ _ E|r b _ _ E]; congruence);
       destruct (next_step _ _ Hst Hchild (host_fifo_range _ _ (orderly_host _ _ _ Ho)) Hfree Hd) as (Hl & h1 & Hs & Ht);
       destruct (turns_step _ _ _ Hc (host_fifo_range _ _ (orderly_host _ _ _ Ho)) Hs) as (Hc1 & Ha1 & Ht1);
       pose proof (launcher_stalls _ _ _ Hl Hs) as Hs1; rewrite Hs0 in Hs1;
       assert (Hlt : turns_left h1 < turns_left h) by (destruct (own (next h)); [lia|by apply Ht]).
  1: lia.
  destruct (IH h1) as (acts & h' & r & Hlen & Hall & Hrun & Hdone); [lia|by eapply orderly_step|by eapply staged_step|auto|done|done|].
  exists (next h :: acts), h', r. split_and!; [cbn; lia|by constructor| |done]. cbn. by rewrite Hs.
Qed.

(** ** Properties *)

(** C12: However the relay's threads, the main thread, the forwarder, stock Muse, the caller
    and signals interleave, and wherever reads and writes fail: (1) what the input thread
    has written to stock Muse and to the caller is, in order, what [adapt_client_frame]
    makes of the caller's frames it has read, none lost or doubled; (2) so for the output
    thread and stock Muse's frames, up to the frame that stops it; (3) only the last frame
    of a thread can be torn, and the output thread ends well only at the end of its input;
    (4) the table holds at most 4096 requests; (5) a stock Muse that answers requests it has
    received, once each, never finds its answer refused for an unknown id: a request is in
    the table before stock Muse can see it, and stays until its answer is read. *)
Theorem relay_keeps_order relay h (Hreach : reaches anything relay h) :
  client_fifo h
  /\ host_fifo (fun _ _ => True) h
  /\ unbroken h
  /\ size (requests (pipes h)) <= MAX_PENDING_REQUESTS
  /\ (reaches honest relay h ->
        host_fifo (fun frame pending => known frame pending /\ adapt_server_frame frame pending public <> Err unknown_request) h).
Proof.
  destruct (reaches_orderly _ _ _ Hreach) as [Hc Hh Hu (t & [Hsize _] & _)]. split_and!; try done.
  intros Hhonest. destruct (reaches_honest _ _ Hhonest) as [[_ Hk _ _] _]. destruct Hk as (n & Hn & Hf & Hread).
  exists n. split_and!; [done| |].
  - eapply Forall2_impl; [exact Hf|]. intros f b (p & Hp & Hk). exists p. split_and!; [done..|by apply known_error].
  - destruct Hread as [|[? (f & p & e & ? & Hk & ?)]]; [by left|right]. split; [done|]. exists f, p, e.
    split_and!; [done..|by apply known_error| |]; tauto.
Qed.

(** C11: A session ends with stock Muse. (1) Once stock Muse has ended and its output is
    closed, the launcher needs at most [turns_left] more turns of its main thread, of the
    output thread and of the forwarder to have its result, whatever else goes on in between,
    provided the caller takes what is written to it: neither a caller that keeps its own end
    open, with the input thread blocked in its read, nor a signal can hold it. (2) Once stock
    Muse has ended, the launcher waits for nothing but the end of its output, when a process
    it left behind keeps that open without writing, or a caller that leaves a full pipe
    unread: there no turn of the main or the output thread is possible unless a call fails;
    everywhere else the launcher has a next turn. (3) It returns an exit code only if that is
    the code of stock Muse, which has been waited for, and then the caller has been sent all
    that stock Muse wrote, each frame whole and as [adapt_server_frame] has it. *)
Theorem session_ends relay h (Hreach : reaches anything relay h) :
  (child h <> Alive -> host_closed (pipes h) = true ->
     forall acts h', run acts h = Some h' ->
       length (filter (fun a => own a = true) acts) + turns_left h' <= turns_left h
       /\ (client_stalled (pipes h') = false ->
            exists more h'' r, length more <= turns_left h' /\ Forall (fun a => launcher a = true) more
              /\ run more h' = Some h'' /\ main h'' = Done r))
  /\ (child h <> Alive -> done h = false ->
       held h /\ (forall a, own a = true -> fails a = false -> step a h = None)
       \/ ~ held h /\ launcher (next h) = true /\ exists h', step (next h) h = Some h')
  /\ (forall code, main h = Done (Ok code) ->
       (exists status, child h = Reaped status /\ code = Discovery.exit_status_code status)
       /\ (relay = true ->
             exists bs, writes Relayed (pipes h) = Whole <$> bs
               /\ Forall2 (fun frame b => exists pending, adapt_server_frame frame pending public = Ok (b, pending_after frame pending))
                          (host_sent (pipes h)) bs)).
Proof.
  pose proof (reaches_orderly _ _ _ Hreach) as Ho. pose proof (reaches_staged _ _ _ Hreach) as Hst. split_and!.
  - intros Hchild Hc acts h' Hrun. destruct (turns_run _ _ _ Hc Ho Hrun) as (Hc' & Ho' & Ha & Ht). split; [done|]. intros Hstalled.
    eapply session_finishes; [done..| |by apply Ha|done|done]. by eapply staged_run.
  - intros Hchild Hd. destruct (held_dec h) as [Hh|Hh]; [left; split; [done|]; intros a; by apply held_waits|right; split; [done|]].
    destruct (next_step _ _ Hst Hchild (host_fifo_range _ _ (orderly_host _ _ _ Ho)) Hh Hd) as (Hl & h' & Hs & _). split; [done|by exists h'].
  - intros code Hd. destruct Hst as [Hst _]. rewrite Hd in Hst. destruct Hst as [Hcode Hover]. split; [by apply Hcode|].
    intros Hrelay. specialize (Hover eq_refl Hrelay). by apply relayed_all.
Qed.
End Host.

(** ** Runs *)

Section Runs.
Let request : bytes := encode_frame (sample_start "codex").
Let reply : bytes := encode_frame sample_reply.
Let exit0 := ChildEnds (Discovery.Exited 0).

(** A signal caught while stock Muse lived is sent on after it was reaped: its pid may be
    that of another process by then. *)
Example stale_signal :
  signals <$> run "codex" [Install None; Caught SIGTERM; TakeSignal SIGTERM; exit0; Wait None; ForwardSignal] (spawned false)
  = Some [(SIGTERM, Stranger)].
Proof. vm_compute. reflexivity. Qed.
(** The caller writes when stock Muse has just ended: the launcher signals the free pid,
    and returns the broken pipe in place of the exit code. *)
Example late_frame :
  (fun h => (main h, signals h)) <$>
    run "codex" [Install None; ClientSends request; ReadClient None; exit0; HostCloses; Wait None; WriteInput (Some ("Broken pipe", 0));
                 TerminateFromInput; CloseForwarder; JoinForwarder; ReadHost None; JoinOutput; CheckInput] (spawned true)
  = Some (Done (Err "Broken pipe"), [(SIGTERM, Stranger)]).
Proof. vm_compute. reflexivity. Qed.
(** Stock Muse is reaped, but a process it left behind keeps its output open: the launcher
    waits for it. *)
Example held_by_descendant :
  (fun h => (main h, child h, step "codex" (ReadHost None) h, step "codex" JoinOutput h)) <$>
    run "codex" [Install None; exit0; Wait None; CloseForwarder; JoinForwarder] (spawned true)
  = Some (Finishing (Ok 0%Z), Reaped (Discovery.Exited 0), None, None).
Proof. vm_compute. reflexivity. Qed.
(** The same caller a moment later is not noticed. *)
Example later_frame :
  (fun h => (main h, signals h)) <$>
    run "codex" [Install None; ClientSends request; ReadClient None; exit0; HostCloses; Wait None;
                 CloseForwarder; JoinForwarder; ReadHost None; JoinOutput; CheckInput] (spawned true)
  = Some (Done (Ok 0%Z), []).
Proof. vm_compute. reflexivity. Qed.

Let asking : list Action := [Install None; ClientSends request; ReadClient None; WriteInput None].
Let asked_once : Host := default (spawned true) (run "codex" asking (spawned true)).
Let talking : Host := default (spawned true) (run "codex" (asking ++ [HostSends reply; ReadHost None; WriteOutput None]) (spawned true)).

Lemma relay_keeps_order_witness :
  reaches "codex" honest true talking
  /\ writes Relayed (pipes talking) = [Whole (encode_frame (json_obj [("id", jnum 1); ("result", json_obj [("session", json_obj [("providerId", JString "codex")])])]))]
  /\ client_fifo "codex" talking.
Proof.
  assert (H : reaches "codex" honest true talking).
  { assert (Hasked : reaches "codex" honest true asked_once).
    { apply (reaches_run "codex" honest true asking) with (h := spawned true); [repeat constructor|constructor|vm_compute; reflexivity]. }
    assert (Hreply : honest asked_once (HostSends reply)).
    { intros key Hk. vm_compute in Hk. injection Hk as <-. vm_compute. exact (le_n 1). }
    assert (Hs : step "codex" (HostSends reply) asked_once = Some (set_pipes (host_sends reply (pipes asked_once)) asked_once)) by (vm_compute; reflexivity).
    apply (reaches_run "codex" honest true [ReadHost None; WriteOutput None]) with (h := set_pipes (host_sends reply (pipes asked_once)) asked_once);
      [repeat constructor|exact (reaches_step "codex" honest true _ _ _ Hasked Hreply Hs)|vm_compute; reflexivity]. }
  split; [exact H|]. split; [vm_compute; reflexivity|].
  exact (proj1 (relay_keeps_order "codex" true talking (reaches_anything _ _ _ _ H))).
Defined.

Let ended : Host := default (spawned true) (run "codex" (asking ++ [HostSends reply; exit0; HostCloses; ClientSends request; Caught SIGINT]) (spawned true)).
Lemma session_ends_witness :
  reaches "codex" anything true ended
  /\ exists more h r, length more <= turns_left ended /\ run "codex" more ended = Some h /\ main h = Done r.
Proof.
  assert (H : reaches "codex" anything true ended).
  { apply (reaches_run "codex" anything true (asking ++ [HostSends reply; exit0; HostCloses; ClientSends request; Caught SIGINT])) with (h := spawned true);
      [repeat constructor|constructor|vm_compute; reflexivity]. }
  split; [exact H|].
  assert (Hchild : child ended <> Alive) by (vm_compute; discriminate).
  destruct (proj2 (proj1 (session_ends "codex" true ended H) Hchild eq_refl [] ended eq_refl) eq_refl) as (more & h & r & Hlen & _ & Hrun & Hdone).
  exists more, h, r. split_and!; [exact Hlen|exact Hrun|exact Hdone].
Defined.
End Runs.

