(* ===== verification/Redaction.v ===== *)
(** * What the types that hold secrets show of themselves

    Models the hand-written [Debug] implementations of [crates/codex-transport]
    ([RawResponse], [Transport], [ZaiTransport], [ZaiCredentials]); [debug_struct] is the
    one-line form of [std::fmt]. Whatever a secret is, the text is the same. *)

From S2P Require Import Prelude Errors ZaiRequest Responses Catalog Transport Net Auth Zai.
From S2P Require Discovery.
From stdpp Require Import options.

(** [formatter.debug_struct(name).field(..)], [finish] or [finish_non_exhaustive]. *)
Definition debug_struct (name : string) (fields : list (string * string)) (exhaustive : bool) : string :=
  let shown := ((fun field => fst field +:+ ": " +:+ snd field) <$> fields) ++ (if exhaustive then [] else [".."]) in
  match shown with
  | [] => name
  | _ => name +:+ " { " +:+ String.concat ", " shown +:+ " }"
  end.
Definition debug_bool (b : bool) : string := if b then "true" else "false".
Definition REDACTED : string := dq "'<redacted>'".

Definition RawResponse_fmt (r : RawResponse) : string :=
  debug_struct "RawResponse"
    [("status", pretty (raw_status r)); ("header_count", pretty (length (raw_headers r)));
     ("headers", REDACTED); ("body", dq "'<stream>'")] true.
Definition Transport_fmt (t : Transport) : string :=
  debug_struct "Transport"
    [("auth_home", REDACTED); ("has_api_key_override", debug_bool (bool_decide (is_Some (api_key_override t))));
     ("has_custom_base_url", debug_bool (bool_decide (is_Some (api_key_base_url t)))); ("fast_mode", debug_bool (fast_mode t))] false.
Definition ZaiTransport_fmt (t : ZaiTransport) : string :=
  debug_struct "ZaiTransport"
    [("api_key", REDACTED); ("has_custom_base_url", debug_bool (negb (String.eqb (url_str (zai_base_url t)) DEFAULT_BASE_URL)))] true.
Definition ZaiCredentials_fmt {DS : Discovery.DebugStr} (account : string) : string :=
  debug_struct "ZaiCredentials" [("account", Discovery.debug_str account)] false.

Example transport_shows :
  Transport_fmt {| api_key_override := Some "sk-secret"; api_key_base_url := None; model_capabilities := ∅; fast_mode := true |}
  = dq "Transport { auth_home: '<redacted>', has_api_key_override: true, has_custom_base_url: false, fast_mode: true, .. }".
Proof. vm_compute. reflexivity. Qed.

(** A response shows no header and no byte of its body; a transport neither its key, nor
    its endpoint, nor where the credentials are. *)
Theorem debug_redacts :
  (forall r r', raw_status r = raw_status r' -> length (raw_headers r) = length (raw_headers r') -> RawResponse_fmt r = RawResponse_fmt r')
  /\ (forall key key' url url' c c' fast,
        Transport_fmt {| api_key_override := Some key; api_key_base_url := Some url; model_capabilities := c; fast_mode := fast |}
        = Transport_fmt {| api_key_override := Some key'; api_key_base_url := Some url'; model_capabilities := c'; fast_mode := fast |})
  /\ (forall key key' url, ZaiTransport_fmt {| zai_api_key := key; zai_base_url := url |} = ZaiTransport_fmt {| zai_api_key := key'; zai_base_url := url |}).
Proof. split_and!; [|done..]. intros r r' Hs Hn. unfold RawResponse_fmt. by rewrite Hs, Hn. Qed.
